(** * Reward-activity click engine: a shallow embedding and its properties

    The development follows the TypeScript sources:
    - [Workers] (selector candidates, overlay handling, the resilient click,
      the three public flows and the per-activity loop),
    - [Poll], [ABC], [SearchOnBing] and the two [Quiz] classes (completion
      protocols),
    and states the properties of the design document over that embedding.

    Awaited calls on the page or on the bot's collaborators are answered by
    an environment indexed by a logical clock; every call may resolve or
    reject.  The program's own control flow (loops, try/catch, early
    returns) is written out in a state-and-exception monad that also
    records the calls it makes. *)

From Stdlib Require Import String Ascii List ZArith Bool Arith Lia Permutation.
Import ListNotations.
Open Scope string_scope.
Open Scope list_scope.
Open Scope Z_scope.

(** Template strings and [+] on strings. *)
Infix "+++" := String.append (at level 60, right associativity).

Set Implicit Arguments.

(* ===================================================================== *)
(** * JavaScript helpers *)
(* ===================================================================== *)

Module Js.

(** Truthiness of a string: only the empty string is falsy. *)
Definition truthy (s : string) : bool := negb (s =? "")%string.

(** [s || d] on strings. *)
Definition orDefault (s d : string) : string := if truthy s then s else d.

(** The double-quote character, code 34. *)
Definition dquote : ascii := ascii_of_nat 34.
Definition backslash : ascii := ascii_of_nat 92.

(** The replace of every double quote by a backslash and a double quote
    (the quoting escape of the selector builders). *)
Fixpoint escapeQuotes (s : string) : string :=
  match s with
  | EmptyString => EmptyString
  | String c rest =>
      if Ascii.eqb c dquote
      then String backslash (String dquote (escapeQuotes rest))
      else String c (escapeQuotes rest)
  end.

(** [s.includes(t)]. *)
Fixpoint includes (t s : string) : bool :=
  String.prefix t s ||
  match s with
  | EmptyString => false
  | String _ rest => includes t rest
  end.

Definition lowerChar (c : ascii) : ascii :=
  let n := nat_of_ascii c in
  if ((65 <=? n)%nat && (n <=? 90)%nat)%bool then ascii_of_nat (n + 32) else c.

(** [s.toLowerCase()] on the ASCII range. *)
Fixpoint toLowerCase (s : string) : string :=
  match s with
  | EmptyString => EmptyString
  | String c rest => String (lowerChar c) (toLowerCase rest)
  end.

Definition mem (s : string) (l : list string) : bool :=
  existsb (String.eqb s) l.

(** [Array.from(new Set(l))]: first occurrences, in insertion order. *)
Fixpoint uniqueFrom (seen l : list string) : list string :=
  match l with
  | [] => []
  | x :: rest =>
      if mem x seen then uniqueFrom seen rest
      else x :: uniqueFrom (x :: seen) rest
  end.

Definition unique (l : list string) : list string := uniqueFrom [] l.

(** Decimal rendering of a number inside a template string. *)
Fixpoint digitsOf (fuel n : nat) (acc : string) : string :=
  match fuel with
  | O => acc
  | S f =>
      let d := String (ascii_of_nat (48 + n mod 10)) acc in
      if (n / 10 =? 0)%nat then d else digitsOf f (n / 10) d
  end.

Definition showNat (n : nat) : string := digitsOf (S n) n EmptyString.

Definition showZ (z : Z) : string :=
  if z <? 0 then "-" +++ showNat (Z.to_nat (- z)) else showNat (Z.to_nat z).

(** [parseFloat(s) === 0] for the numeric strings a computed style
    holds: an optional sign, digits and at most one dot; whatever follows
    the longest numeric prefix is ignored, as [parseFloat] does. *)
Definition isDigit (c : ascii) : bool :=
  let n := nat_of_ascii c in ((48 <=? n)%nat && (n <=? 57)%nat)%bool.

(** Scans the mantissa: [seen] = a digit was read, [dot] = the dot was
    read.  Returns [Some true] when the prefix denotes zero, [Some false]
    when it denotes another number, [None] when there is no number. *)
Fixpoint mantissaZero (s : string) (seen dot : bool) : option bool :=
  match s with
  | EmptyString => if seen then Some true else None
  | String c rest =>
      if isDigit c then
        if Ascii.eqb c "0"%char then mantissaZero rest true dot
        else Some false
      else if (Ascii.eqb c "."%char && negb dot)%bool then
        mantissaZero rest seen true
      else if seen then Some true else None
  end.

Definition parseFloatIsZero (s : string) : bool :=
  let body :=
    match s with
    | String c rest =>
        if (Ascii.eqb c "-"%char || Ascii.eqb c "+"%char)%bool then rest else s
    | EmptyString => s
    end in
  match mantissaZero body false false with
  | Some b => b
  | None => false
  end.

End Js.

(* ===================================================================== *)
(** * The document: elements, computed style, geometry *)
(* ===================================================================== *)

Module Dom.

Record Rect := mkRect { r_left : Z; r_top : Z; r_width : Z; r_height : Z }.

Definition r_right (r : Rect) : Z := r_left r + r_width r.
Definition r_bottom (r : Rect) : Z := r_top r + r_height r.
Definition zeroRect : Rect := mkRect 0 0 0 0.

(** One element of [body *], the elements in document order.  The
    [display] the browser computes is the inline declaration when there
    is one, unless that declaration is plain and the style sheets
    declare theirs [!important], and the cascaded style-sheet value
    otherwise; [setProperty] and [removeProperty] act on the inline
    declaration only.  [el_parent] is the position of the parent
    element in the list, [None] for a child of [body]. *)
Record Element := mkElement {
  el_parent : option nat;                    (* parent element, None = body *)
  el_marker : bool;                          (* carries data-qa-hidden-temp *)
  el_inline_display : option (string * bool); (* inline display, !important *)
  el_sheet_display : string;                 (* display from the style sheets *)
  el_sheet_important : bool;                 (* that declaration is !important *)
  el_opacity : string;                       (* computed opacity *)
  el_position : string;                      (* computed position *)
  el_zindex : option Z;                      (* computed z-index, None = auto *)
  el_box : Rect                              (* layout box when rendered *)
}.

Definition DOM := list Element.

(** [getComputedStyle(el).display]. *)
Definition display (el : Element) : string :=
  match el_inline_display el with
  | Some (v, true) => v
  | Some (v, false) => if el_sheet_important el then el_sheet_display el else v
  | None => el_sheet_display el
  end.

(** An ancestor has [display: none]; [fuel] bounds the walk up the
    parents. *)
Fixpoint ancestorHidden (fuel : nat) (d : DOM) (parent : option nat) : bool :=
  match fuel, parent with
  | S fuel', Some p =>
      match nth_error d p with
      | Some pe => (display pe =? "none")%string || ancestorHidden fuel' d (el_parent pe)
      | None => false
      end
  | _, _ => false
  end.

(** [el.getBoundingClientRect()] in the document [d]: all zeros for an
    element that generates no box, its own [display] or that of an
    ancestor being [none]. *)
Definition getBoundingClientRect (d : DOM) (el : Element) : Rect :=
  if (display el =? "none")%string || ancestorHidden (length d) d (el_parent el)
  then zeroRect else el_box el.

(** [style.display === 'none' || parseFloat(style.opacity || '1') === 0]. *)
Definition styleHidden (el : Element) : bool :=
  (display el =? "none")%string || Js.parseFloatIsZero (Js.orDefault (el_opacity el) "1").

Definition isVisible (el : Element) : bool := negb (styleHidden el).

(** The observable set of visible elements, position by position. *)
Definition visibleSet (d : DOM) : list bool := map isVisible d.

Definition positioned (el : Element) : bool :=
  let pos := el_position el in
  (pos =? "fixed")%string || (pos =? "absolute")%string || (pos =? "sticky")%string.

(** [!(r.right < t.left || r.left > t.right || r.bottom < t.top || r.top > t.bottom)]. *)
Definition overlap (r t : Rect) : bool :=
  negb ((r_right r <? r_left t) || (r_left r >? r_right t)
        || (r_bottom r <? r_top t) || (r_top r >? r_bottom t)).

(** [el.setAttribute('data-qa-hidden-temp','true');
     el.style.setProperty('display','none','important')]. *)
Definition hideAndMark (el : Element) : Element :=
  mkElement (el_parent el) true (Some ("none", true)) (el_sheet_display el)
            (el_sheet_important el) (el_opacity el)
            (el_position el) (el_zindex el) (el_box el).

(** [el.removeAttribute('data-qa-hidden-temp');
     el.style.removeProperty('display')]. *)
Definition unmark (el : Element) : Element :=
  mkElement (el_parent el) false None (el_sheet_display el) (el_sheet_important el)
            (el_opacity el)
            (el_position el) (el_zindex el) (el_box el).

Definition markedCount (d : DOM) : nat := length (filter el_marker d).

End Dom.

(* ===================================================================== *)
(** * Data model *)
(* ===================================================================== *)

(** [PromotionalItem] / [MorePromotion]: the fields the engine reads. *)
Record Activity := mkActivity {
  offerId : string;
  name : string;
  title : string;
  promotionType : string;
  pointProgressMax : Z;
  pointProgress : Z;
  destinationUrl : string;
  complete : bool;
  exclusiveLockedFeatureStatus : string
}.

Record PunchCard := mkPunchCard {
  pc_name : string;
  parentPromotion : option Activity;
  childPromotions : list Activity
}.

Record DashboardData := mkDashboardData {
  dailySetPromotions : list (string * list Activity);  (* keyed by date *)
  punchCards : option (list PunchCard);
  morePromotions : list Activity;
  promotionalItem : option Activity
}.

(** [_w.rewardsQuizRenderInfo]; a field that is not a number is [None]. *)
Record QuizData := mkQuizData {
  maxQuestions : option Z;
  CorrectlyAnsweredQuestionCount : option Z;
  numberOfOptions : option Z;
  correctAnswer : string
}.

(** What the ABC protocol reads from a loaded cheerio snapshot. *)
Record Cheerio := mkCheerio {
  rw_icon : nat;                   (* $('span.rw_icon').length *)
  optionIds : list (option string) (* id of each $('.wk_OptionClickClass') *)
}.

Definition Page := nat.
Definition Handle := nat.

Record Box := mkBox { b_x : Z; b_y : Z; b_width : Z; b_height : Z }.

(** The object the visibility probe returns. *)
Record StyleInfo := mkStyleInfo {
  s_display : string;
  s_visibility : string;
  s_opacity : string;
  s_hidden : bool
}.

(** The outcome of a click operation:
    [{ success: boolean, reason?: string, popup?: Page }]. *)
Record ClickResult := mkClickResult {
  success : bool;
  reason : option string;
  popup : option Page
}.

Definition failure (r : string) : ClickResult := mkClickResult false (Some r) None.
Definition succeeded (p : option Page) : ClickResult := mkClickResult true None p.

Record Config := mkConfig {
  baseURL : string;
  searchOnBingLocalQueries : bool;
  abcMinDelayMs : option Z;
  abcMaxDelayMs : option Z;
  abcMinShortDelayMs : option Z;
  abcMaxShortDelayMs : option Z
}.

(* ===================================================================== *)
(** * Effects: awaited calls, the environment, the monad *)
(* ===================================================================== *)

(** How an awaited computation settles: a value, an exception (with the
    text of the error), or [OutOfFuel] when a loop whose bound the page
    dictates was cut by the model's fuel; [OutOfFuel] is not an exception
    and no handler catches it. *)
Inductive Res (A : Type) : Type :=
| Ok (a : A)
| Throw (e : string)
| OutOfFuel.
Arguments Ok {A} a.
Arguments Throw {A} e.
Arguments OutOfFuel {A}.

(** How the environment settles an awaited call. *)
Inductive Answer (A : Type) : Type :=
| Resolves (a : A)
| Rejects (e : string).
Arguments Resolves {A} a.
Arguments Rejects {A} e.

Definition settled {A} (x : Answer A) : Res A :=
  match x with
  | Resolves a => Ok a
  | Rejects e => Throw e
  end.

Inductive WaitState := Attached | Visible.
Inductive Level := LLog | LWarn | LError.

(** Awaited calls on the page and on the bot's collaborators.  Each may
    resolve with a value of type [RespT op] or reject. *)
Inductive Op :=
| WaitForSelector (p : Page) (sel : string) (st : WaitState) (timeout : Z)
| Query (p : Page) (sel : string)                 (* page.$(sel) *)
| ScrollIntoViewIfNeeded (h : Handle) (timeout : Z)
| EvalScrollIntoView (p : Page) (sel : string)
| BoundingBox (h : Handle)
| EvalStyle (p : Page) (sel : string)
| EvalHide (p : Page) (sel : string)              (* evaluate of the hide callback *)
| EvalRestore (p : Page)                          (* evaluate of the restore callback *)
| EvalPointLinks (p : Page)                       (* evaluate of the heuristic scan *)
| EvalDailyCandidates (p : Page)
| ContextWaitForPage (p : Page) (timeout : Z)
| WaitForNavigation (p : Page) (timeout : Z)
| LocatorScroll (p : Page) (sel : string) (timeout : Z)
| LocatorClick (p : Page) (sel : string) (timeout : Z) (force : bool)
| EvalClick (p : Page) (sel : string)
| MouseClickCenter (p : Page) (b : Box)
| WaitForLoadState (p : Page) (st : string) (timeout : Z)
| Click (p : Page) (sel : string)
| Close (p : Page)
| Goto (p : Page) (url : string)
| KeyboardType (p : Page) (text : string)
| KeyboardPress (p : Page) (key : string)
| GetAttribute (h : Handle) (attr : string)
| GetLatestTab (p : Page)
| TryDismissAllMessages (p : Page)
| GoHome (p : Page)
| GetQuizData (p : Page)
| LoadInCheerio (p : Page)
| FindOfferCta (p : Page) (offer : string)
| LoadQueries (local : bool)
| DoThisOrThat (p : Page)
| DoUrlReward (p : Page).

Definition RespT (op : Op) : Type :=
  match op with
  | WaitForSelector _ _ _ _ => Handle
  | Query _ _ => option Handle
  | BoundingBox _ => option Box
  | EvalStyle _ _ => StyleInfo
  | EvalHide _ _ => option nat
  | EvalPointLinks _ => list (list (option string))
  | EvalDailyCandidates _ => list string
  | ContextWaitForPage _ _ => Page
  | WaitForNavigation _ _ => bool
  | EvalClick _ _ => bool
  | GetAttribute _ _ => option string
  | GetLatestTab _ => Page
  | GetQuizData _ => option QuizData
  | LoadInCheerio _ => Cheerio
  | FindOfferCta _ _ => option string
  | LoadQueries _ => list (string * list string)
  | _ => unit
  end.

(** The collaborators.  [ask n op] is the settlement of the awaited call
    [op] issued at clock [n]; the other fields are synchronous reads, which
    do not throw. *)
Class Env := mkEnv {
  ask : nat -> forall op : Op, Answer (RespT op);
  randomNumber : nat -> Z -> Z -> Z;
  pageUrl : nat -> Page -> string;
  pagesOpen : nat -> Page -> nat;
  formattedDate : nat -> string;
  shuffledFirst : nat -> list string -> string;     (* shuffleArray(l)[0] *)
  normalizeNFD : string -> string;
  config : Config
}.

Inductive Event :=
| Called (op : Op)
| Waited (ms : Z)
| Logged (tag msg : string) (lvl : Level)
| Resolving (a : Activity).

(** The mutable state a run threads: the clock, the document of the page
    being clicked, and the two local variables that a catch handler or a
    later loop iteration reads after an exception ([page] of a protocol,
    [activityPage] of the per-activity loop). *)
Record State := mkState {
  clock : nat;
  dom : Dom.DOM;
  var_page : Page;
  var_activityPage : Page
}.

Definition M (A : Type) : Type := State -> Res A * State * list Event.

Definition ret {A} (a : A) : M A := fun s => (Ok a, s, []).

Definition bind {A B} (m : M A) (f : A -> M B) : M B :=
  fun s =>
    match m s with
    | (Ok a, s1, ev1) =>
        match f a s1 with
        | (r, s2, ev2) => (r, s2, ev1 ++ ev2)
        end
    | (Throw e, s1, ev1) => (Throw e, s1, ev1)
    | (OutOfFuel, s1, ev1) => (OutOfFuel, s1, ev1)
    end.

Definition throw {A} (e : string) : M A := fun s => (Throw e, s, []).

Definition outOfFuel {A} : M A := fun s => (OutOfFuel, s, []).

(** [try { body } catch (error) { handler(error) }]. *)
Definition tryCatch {A} (body : M A) (handler : string -> M A) : M A :=
  fun s =>
    match body s with
    | (Ok a, s1, ev1) => (Ok a, s1, ev1)
    | (Throw e, s1, ev1) =>
        match handler e s1 with
        | (r, s2, ev2) => (r, s2, ev1 ++ ev2)
        end
    | (OutOfFuel, s1, ev1) => (OutOfFuel, s1, ev1)
    end.

Declare Scope monad_scope.
Delimit Scope monad_scope with monad.
Notation "x <- m ;; k" := (bind m (fun x => k))
  (at level 61, m at next level, right associativity) : monad_scope.
Notation "m ;; k" := (bind m (fun _ => k))
  (at level 61, right associativity) : monad_scope.
Open Scope monad_scope.

Definition tick (s : State) : State :=
  mkState (S (clock s)) (dom s) (var_page s) (var_activityPage s).

(** An awaited call: settled by the environment, recorded, one tick. *)
Definition call `{Env} (op : Op) : M (RespT op) :=
  fun s => (settled (ask (clock s) op), tick s, [Called op]).

(** [await c.catch(() => d)] and [try { await c } catch { d }]. *)
Definition orElse {A} (m : M A) (d : A) : M A := tryCatch m (fun _ => ret d).

(** [try { await c } catch {}] for a call whose value is not used. *)
Definition ignoring {A} (m : M A) : M unit := tryCatch (m ;; ret tt) (fun _ => ret tt).

Definition wait (ms : Z) : M unit := fun s => (Ok tt, s, [Waited ms]).

Definition log (tag msg : string) (lvl : Level) : M unit :=
  fun s => (Ok tt, s, [Logged tag msg lvl]).

Definition random `{Env} (lo hi : Z) : M Z :=
  fun s => (Ok (randomNumber (clock s) lo hi), tick s, []).

Definition url `{Env} (p : Page) : M string :=
  fun s => (Ok (pageUrl (clock s) p), tick s, []).

Definition pagesLength `{Env} (p : Page) : M nat :=
  fun s => (Ok (pagesOpen (clock s) p), tick s, []).

Definition getFormattedDate `{Env} : M string :=
  fun s => (Ok (formattedDate (clock s)), tick s, []).

Definition shuffleFirst `{Env} (l : list string) : M string :=
  fun s => (Ok (shuffledFirst (clock s) l), tick s, []).

Definition getDom : M Dom.DOM := fun s => (Ok (dom s), s, []).
Definition setDom (d : Dom.DOM) : M unit :=
  fun s => (Ok tt, mkState (clock s) d (var_page s) (var_activityPage s), []).

Definition getPage : M Page := fun s => (Ok (var_page s), s, []).
Definition setPage (p : Page) : M unit :=
  fun s => (Ok tt, mkState (clock s) (dom s) p (var_activityPage s), []).

Definition getActivityPage : M Page := fun s => (Ok (var_activityPage s), s, []).
Definition setActivityPage (p : Page) : M unit :=
  fun s => (Ok tt, mkState (clock s) (dom s) (var_page s) p, []).

Definition mark (a : Activity) : M unit := fun s => (Ok tt, s, [Resolving a]).

(** Projections of a run. *)
Definition result {A} (m : M A) (s : State) : Res A := fst (fst (m s)).
Definition final {A} (m : M A) (s : State) : State := snd (fst (m s)).
Definition events {A} (m : M A) (s : State) : list Event := snd (m s).

(** How a loop body hands control back: go on with the next element,
    [break], or [return] from the enclosing function. *)
Inductive Ctl := Next | Break | Return.

(** String pieces shared by the selector builders. *)
Definition q : string := String Js.dquote EmptyString.
Definition pointLinkScoped : string := ".pointLink:not(.contentContainer .pointLink)".
Definition pointLinkAny : string := ".pointLink".

(** [box.width === 0 || box.height === 0] with [!box]. *)
Definition boxMissingOrEmpty (b : option Box) : bool :=
  match b with
  | None => true
  | Some b => (b_width b =? 0) || (b_height b =? 0)
  end.

(** [hidden || display === 'none' || visibility === 'hidden' ||
     parseFloat(opacity || '1') === 0]. *)
Definition cssHidden (st : StyleInfo) : bool :=
  s_hidden st || (s_display st =? "none")%string
  || (s_visibility st =? "hidden")%string
  || Js.parseFloatIsZero (Js.orDefault (s_opacity st) "1").

Definition reasonOf (r : ClickResult) : string :=
  match reason r with Some x => x | None => EmptyString end.

(* ===================================================================== *)
(** * Poll (unnamed/part_000, class Poll) *)
(* ===================================================================== *)

Module Poll.

Definition doPoll `{Env} (page : Page) : M unit :=
  log "POLL" "Trying to complete poll" LLog ;;
  tryCatch
    (n <- random 0 1 ;;
     let buttonId := "#btoption" +++ Js.showZ n in
     ignoring (call (WaitForSelector page buttonId Visible 10000)) ;;
     d <- random 1000 3000 ;; wait d ;;
     call (Click page buttonId) ;;
     d <- random 2000 6000 ;; wait d ;;
     call (Close page) ;;
     log "POLL" "Completed the poll successfully" LLog)
    (fun error =>
       call (Close page) ;;
       log "POLL" ("An error occurred:" +++ error) LError).

End Poll.

(* ===================================================================== *)
(** * ABC (src/functions/activities/ABC.ts, class ABC) *)
(* ===================================================================== *)

Module ABC.

Definition DEFAULT_MIN_DELAY_MS : Z := 1500.
Definition DEFAULT_MAX_DELAY_MS : Z := 5000.
Definition maxIterations : nat := 15.

Definition orDefaultZ (o : option Z) (d : Z) : Z :=
  match o with Some v => v | None => d end.

Definition randomSleep `{Env} : M unit :=
  let minMs := orDefaultZ (abcMinDelayMs config) DEFAULT_MIN_DELAY_MS in
  let maxMs := orDefaultZ (abcMaxDelayMs config) DEFAULT_MAX_DELAY_MS in
  ms <- random minMs maxMs ;;
  log "ABC" ("Sleeping for " +++ Js.showZ ms +++ " ms") LLog ;;
  wait ms.

Definition randomSleepShort `{Env} : M unit :=
  let minShort := orDefaultZ (abcMinShortDelayMs config) 300 in
  let maxShort := orDefaultZ (abcMaxShortDelayMs config) 1200 in
  ms <- random minShort maxShort ;;
  wait ms.

(** [answers[idx]?.attribs?.['id']]; a missing element, a missing id
    and an empty id are all falsy. *)
Definition answerAt (answers : list (option string)) (idx : Z) : option string :=
  if idx <? 0 then None
  else match nth_error answers (Z.to_nat idx) with
       | Some (Some a) => if Js.truthy a then Some a else None
       | _ => None
       end.

(** The two [continue] branches: reload the snapshot from the latest tab. *)
Definition reload `{Env} : M Cheerio :=
  wait 1000 ;;
  p <- getPage ;;
  p' <- call (GetLatestTab p) ;;
  setPage p' ;;
  call (LoadInCheerio p').

(** One pass of the loop body after the wait for the options; returns
    the snapshot for the next test. *)
Definition afterWait `{Env} (p : Page) (dollar : Cheerio) : M Cheerio :=
  let answers := optionIds dollar in
  let answerCount := length answers in
  if (answerCount =? 0)%nat then
    log "ABC" "No answers found on question — retrying" LWarn ;;
    reload
  else
    idx <- random 0 (Z.max 0 (Z.of_nat answerCount - 1)) ;;
    match answerAt answers idx with
    | None =>
        log "ABC" ("Chosen answer had no id (idx=" +++ Js.showZ idx +++ ") — retrying") LWarn ;;
        reload
    | Some answer =>
        call (WaitForSelector p ("#" +++ answer) Visible 10000) ;;
        randomSleepShort ;;
        call (Click p ("#" +++ answer)) ;;
        randomSleep ;;
        call (WaitForSelector p "div.wk_button" Visible 10000) ;;
        randomSleepShort ;;
        call (Click p "div.wk_button") ;;
        p' <- call (GetLatestTab p) ;;
        setPage p' ;;
        dollar' <- call (LoadInCheerio p') ;;
        randomSleep ;;
        ret dollar'
    end.

(** One pass of the loop body. *)
Definition iteration `{Env} (dollar : Cheerio) : M Cheerio :=
  randomSleep ;;
  p <- getPage ;;
  call (WaitForSelector p ".wk_OptionClickClass" Visible 10000) ;;
  afterWait p dollar.

(** [for (i = 0; i < maxIterations && !$('span.rw_icon').length; i++)],
    entered with [left = maxIterations - i]; returns the final [i]. *)
Fixpoint loop `{Env} (left i : nat) (dollar : Cheerio) : M nat :=
  match left with
  | O => ret i
  | S left' =>
      if negb (rw_icon dollar =? 0)%nat then ret i
      else
        dollar' <- iteration dollar ;;
        loop left' (S i) dollar'
  end.

Definition failedMsg : string := "Failed to solve quiz, exceeded max iterations of 15".
Definition completedMsg : string := "Completed the ABC successfully".

(** What follows the loop. *)
Definition report `{Env} (i : nat) : M unit :=
  wait 4000 ;;
  p <- getPage ;;
  call (Close p) ;;
  if (i =? maxIterations)%nat
  then log "ABC" failedMsg LWarn
  else log "ABC" completedMsg LLog.

(** The body of the [try]. *)
Definition solve `{Env} (page : Page) : M unit :=
  dollar <- call (LoadInCheerio page) ;;
  i <- loop (maxIterations - 0) 0 dollar ;;
  report i.

(** The [catch]. *)
Definition onError `{Env} (error : string) : M unit :=
  p <- getPage ;;
  ignoring (call (Close p)) ;;
  log "ABC" ("An error occurred:" +++ error) LError.

Definition doABC `{Env} (page : Page) : M unit :=
  log "ABC" "Trying to complete poll" LLog ;;
  setPage page ;;
  tryCatch (solve page) onError.

End ABC.

(* ===================================================================== *)
(** * SearchOnBing (bundled after ABC.ts, class SearchOnBing) *)
(* ===================================================================== *)

Module SearchOnBing.

(** Strings hold UTF-8.  [String.prototype.trim] strips the white space
    and the line terminators of ECMAScript: U+0009 to U+000D and U+0020,
    of one byte; U+00A0, of two; U+1680, U+2000 to U+200A, U+2028,
    U+2029, U+202F, U+205F, U+3000 and U+FEFF, of three. *)
Definition isSpace (c : ascii) : bool :=
  let n := nat_of_ascii c in
  ((n =? 32) || ((9 <=? n) && (n <=? 13)))%nat%bool.

(** U+00A0 is [C2 A0]. *)
Definition isSpace2 (c1 c2 : ascii) : bool :=
  ((nat_of_ascii c1 =? 194) && (nat_of_ascii c2 =? 160))%nat%bool.

Definition isSpace3 (c1 c2 c3 : ascii) : bool :=
  let b1 := nat_of_ascii c1 in
  let b2 := nat_of_ascii c2 in
  let b3 := nat_of_ascii c3 in
  (((b1 =? 225) && (b2 =? 154) && (b3 =? 128))                    (* U+1680 *)
   || ((b1 =? 226) && (b2 =? 128) && (128 <=? b3) && (b3 <=? 138)) (* U+2000 to U+200A *)
   || ((b1 =? 226) && (b2 =? 128)
       && ((b3 =? 168) || (b3 =? 169) || (b3 =? 175)))            (* U+2028, U+2029, U+202F *)
   || ((b1 =? 226) && (b2 =? 129) && (b3 =? 159))                 (* U+205F *)
   || ((b1 =? 227) && (b2 =? 128) && (b3 =? 128))                 (* U+3000 *)
   || ((b1 =? 239) && (b2 =? 187) && (b3 =? 191)))%nat%bool.      (* U+FEFF *)

Fixpoint trimStart (s : string) : string :=
  match s with
  | String c1 rest1 =>
      if isSpace c1 then trimStart rest1
      else
        match rest1 with
        | String c2 rest2 =>
            if isSpace2 c1 c2 then trimStart rest2
            else
              match rest2 with
              | String c3 rest3 => if isSpace3 c1 c2 c3 then trimStart rest3 else s
              | EmptyString => s
              end
        | EmptyString => s
        end
  | EmptyString => s
  end.

(** The string is white space from end to end. *)
Fixpoint blank (s : string) : bool :=
  match s with
  | String c1 rest1 =>
      if isSpace c1 then blank rest1
      else
        match rest1 with
        | String c2 rest2 =>
            if isSpace2 c1 c2 then blank rest2
            else
              match rest2 with
              | String c3 rest3 => if isSpace3 c1 c2 c3 then blank rest3 else false
              | EmptyString => false
              end
        | EmptyString => false
        end
  | EmptyString => true
  end.

Fixpoint trimEnd (s : string) : string :=
  match s with
  | EmptyString => EmptyString
  | String c rest => if blank s then EmptyString else String c (trimEnd rest)
  end.

Fixpoint keep (f : ascii -> bool) (s : string) : string :=
  match s with
  | EmptyString => EmptyString
  | String c rest => if f c then String c (keep f rest) else keep f rest
  end.

Definition printable (c : ascii) : bool :=
  let n := nat_of_ascii c in ((32 <=? n) && (n <=? 126))%nat%bool.

Definition notMark (c : ascii) : bool :=
  negb (Ascii.eqb c "?"%char || Ascii.eqb c "!"%char).

(** [normalize('NFD').trim().toLowerCase()] then the two replaces. *)
Definition normalizeString `{Env} (s : string) : string :=
  keep notMark (keep printable (Js.toLowerCase (trimEnd (trimStart (normalizeNFD s))))).

Definition getSearchQuery `{Env} (title : string) : M string :=
  d <- random 500 1500 ;; wait d ;;
  tryCatch
    (queries <-
       (if searchOnBingLocalQueries config
        then call (LoadQueries true)
        else d <- random 300 1000 ;; wait d ;; call (LoadQueries false)) ;;
     let answers :=
       find (fun x => (normalizeString (fst x) =? normalizeString title)%string) queries in
     answer <- match answers with
               | Some a => shuffleFirst (snd a)
               | None => ret title
               end ;;
     log "SEARCH-ON-BING-QUERY"
         ("Fetched answer: " +++ answer +++ " | question: " +++ title) LLog ;;
     ret answer)
    (fun error =>
       log "SEARCH-ON-BING-QUERY" ("An error occurred:" +++ error) LError ;;
       ret title).

Definition searchBar : string := "#sb_form_q".

Definition doSearchOnBing `{Env} (page : Page) (activity : Activity) : M unit :=
  log "SEARCH-ON-BING" "Trying to complete SearchOnBing" LLog ;;
  tryCatch
    (d <- random 2000 5000 ;; wait d ;;
     call (TryDismissAllMessages page) ;;
     query <- getSearchQuery (title activity) ;;
     call (WaitForSelector page searchBar Visible 10000) ;;
     d <- random 500 1500 ;; wait d ;;
     call (Click page searchBar) ;;
     d <- random 300 1000 ;; wait d ;;
     call (KeyboardType page query) ;;
     d <- random 500 2000 ;; wait d ;;
     call (KeyboardPress page "Enter") ;;
     d <- random 3000 7000 ;; wait d ;;
     d <- random 1000 3000 ;; wait d ;;
     call (Close page) ;;
     log "SEARCH-ON-BING" "Completed the SearchOnBing successfully" LLog)
    (fun error =>
       d <- random 1000 2000 ;; wait d ;;
       call (Close page) ;;
       log "SEARCH-ON-BING" ("An error occurred:" +++ error) LError).

End SearchOnBing.

(* ===================================================================== *)
(** * BrowserFunc (src/browser/BrowserFunc.ts): the helpers the protocols use *)
(* ===================================================================== *)

Module BrowserFunc.

(** [quietDelay]: 30000 + floor(random * 15001) ms. *)
Definition quietDelay `{Env} : M unit :=
  ms <- random 30000 45000 ;; wait ms.

Definition waitForQuizRefresh `{Env} (page : Page) : M bool :=
  tryCatch
    (call (WaitForSelector page "span.rqMCredits" Visible 10000) ;;
     wait 2000 ;;
     ret true)
    (fun error =>
       log "QUIZ-REFRESH" ("An error occurred:" +++ error) LError ;;
       ret false).

(** [getPunchCardActivity]: the href of the first [.offer-cta] whose
    href includes the offer id gives the selector; an error is logged
    and the empty selector returned. *)
Definition getPunchCardActivity `{Env} (page : Page) (activity : Activity) : M string :=
  tryCatch
    (found <- call (FindOfferCta page (offerId activity)) ;;
     quietDelay ;;
     match found with
     | Some href => ret ("a[href*=" +++ q +++ href +++ q +++ "]")
     | None => ret EmptyString
     end)
    (fun error =>
       log "GET-PUNCHCARD-ACTIVITY" ("An error occurred:" +++ error) LError ;;
       ret EmptyString).

End BrowserFunc.

(* ===================================================================== *)
(** * Quiz with the retrying click (bundled after ABC.ts, class Quiz) *)
(* ===================================================================== *)

Module Quiz.

(** The callback of [hideBlockingOverlays] on one element of the
    document [d]. *)
Definition blocks (d : Dom.DOM) (tBox : Dom.Rect) (isTarget : bool) (el : Dom.Element)
  : bool :=
  if Dom.styleHidden el then false
  else if negb (Dom.positioned el) then false
  else
    let z := match Dom.el_zindex el with Some z => z | None => 0 end in
    if isTarget then false
    else
      let r := Dom.getBoundingClientRect d el in
      if (Dom.r_width r =? 0) || (Dom.r_height r =? 0) then false
      else Dom.overlap r tBox && (z >=? 0).

(** The loop over [body *]: [done] holds the elements the loop has gone
    through, as it left them, [els] those to come; the document the
    callback sees at the head of [els] is [done ++ els].  The result is
    [els] as the loop leaves it, with the number of elements hidden. *)
Fixpoint hideLoop (tBox : Dom.Rect) (target : nat) (done els : Dom.DOM) : Dom.DOM * nat :=
  match els with
  | [] => ([], O)
  | el :: rest =>
      if blocks (done ++ els) tBox (length done =? target)%nat el
      then
        let '(rest', n) := hideLoop tBox target (done ++ [Dom.hideAndMark el]) rest in
        (Dom.hideAndMark el :: rest', S n)
      else
        let '(rest', n) := hideLoop tBox target (done ++ [el]) rest in
        (el :: rest', n)
  end.

(** The evaluate callback: [target] is what [document.querySelector]
    finds for the selector. *)
Definition hideCallback (target : option nat) (d : Dom.DOM) : Dom.DOM * nat :=
  match target with
  | None => (d, O)
  | Some t =>
      match nth_error d t with
      | None => (d, O)
      | Some tEl => hideLoop (Dom.getBoundingClientRect d tEl) t [] d
      end
  end.

Definition hideBlockingOverlays `{Env} (page : Page) (sel : string) : M nat :=
  tryCatch
    (target <- call (EvalHide page sel) ;;
     d <- getDom ;;
     let '(d', n) := hideCallback target d in
     setDom d' ;;
     ret n)
    (fun _ => ret O).

Definition findDailyCandidates `{Env} (page : Page) : M (list string) :=
  tryCatch (call (EvalDailyCandidates page)) (fun _ => ret []).

(** [{ ok, reason }] of the visibility probe. *)
Definition isVisibleAndClickable `{Env} (page : Page) (sel : string)
  : M (bool * string) :=
  tryCatch
    (handle <- call (Query page sel) ;;
     match handle with
     | None => ret (false, "not-found")
     | Some h =>
         tryCatch (call (ScrollIntoViewIfNeeded h 2000))
                  (fun _ => call (EvalScrollIntoView page sel)) ;;
         box <- call (BoundingBox h) ;;
         visible <- call (EvalStyle page sel) ;;
         if boxMissingOrEmpty box then ret (false, "zero-bounding-box")
         else if cssHidden visible then ret (false, "css-hidden")
         else ret (true, EmptyString)
     end)
    (fun _ => ret (false, "visibility-check-error")).

Definition tag : string := "QUIZ".

(** The click stage of [tryClickOnce]: [true] when one of the
    strategies went through, [false] on the [click-failed] return. *)
Definition clickStage `{Env} (page : Page) (sel : string) (timeout : Z) : M bool :=
  tryCatch
    (ignoring (call (LocatorScroll page sel 2000)) ;;
     tryCatch (call (LocatorClick page sel timeout false))
       (fun err =>
          log tag ("clickWithRetries: locator.click failed for " +++ sel
                   +++ " - trying evaluate click (" +++ err +++ ")") LWarn ;;
          clicked <- orElse (call (EvalClick page sel)) false ;;
          if negb clicked then
            h <- call (Query page sel) ;;
            match h with
            | Some h =>
                box <- call (BoundingBox h) ;;
                match box with
                | Some b => call (MouseClickCenter page b)
                | None => throw "Error: no-bounding-box-for-force-click"
                end
            | None => throw "Error: element-missing-for-force-click"
            end
          else ret tt) ;;
     ret true)
    (fun err =>
       log tag ("clickWithRetries: page click fallback for " +++ sel +++ ": " +++ err) LWarn ;;
       tryCatch
         (tryCatch (call (LocatorClick page sel timeout true))
                   (fun _ => throw "Error: force-click-failed") ;;
          ret true)
         (fun err2 =>
            log tag ("clickWithRetries: all click attempts failed for " +++ sel
                     +++ ": " +++ err2) LError ;;
            ret false)).

(** [tryClickOnce]: one attempt on one selector. *)
Definition tryClickOnce `{Env} (page : Page) (sel : string) (timeout : Z)
  : M ClickResult :=
  ignoring (call (WaitForSelector page sel Attached (Z.min 3000 timeout))) ;;
  visibility <- isVisibleAndClickable page sel ;;
  early <-
    (if negb (fst visibility) then
       log tag ("clickWithRetries: selector not visible/clickable ("
                +++ snd visibility +++ "): " +++ sel) LWarn ;;
       if (snd visibility =? "css-hidden")%string then
         hidden <- hideBlockingOverlays page sel ;;
         (if (0 <? hidden)%nat
          then log tag ("clickWithRetries: hid " +++ Js.showNat hidden
                        +++ " overlay(s) covering " +++ sel) LLog
          else ret tt) ;;
         ret None
       else if Js.mem (snd visibility) ["not-found"; "zero-bounding-box"] then
         ret (Some (failure (snd visibility)))
       else ret None
     else ret None) ;;
  match early with
  | Some r => ret r
  | None =>
      popupPromise <- orElse (pp <- call (ContextWaitForPage page 1000) ;; ret (Some pp)) None ;;
      navigationPromise <- orElse (call (WaitForNavigation page 1000)) false ;;
      clicked <- clickStage page sel timeout ;;
      if negb clicked then ret (failure "click-failed")
      else
        match popupPromise with
        | Some pp =>
            ignoring (call (WaitForLoadState pp "domcontentloaded" 2000)) ;;
            log tag ("clickWithRetries: click opened popup for " +++ sel) LLog ;;
            ret (succeeded (Some pp))
        | None =>
            if navigationPromise then
              log tag ("clickWithRetries: click caused navigation for " +++ sel) LLog ;;
              ret (succeeded None)
            else
              log tag ("clickWithRetries: click success for " +++ sel) LLog ;;
              ret (succeeded None)
        end
  end.

(** Step 1: the selector the caller gave.  [Some res] is the early
    [return res]; [None] means the loop ended (by [break] or by its
    bound) and the heuristics follow. *)
Fixpoint firstLoop `{Env} (left : nat) (page : Page) (selector : string)
         (perAttemptTimeout : Z) : M (option ClickResult) :=
  match left with
  | O => ret None
  | S left' =>
      res <- tryClickOnce page selector perAttemptTimeout ;;
      if success res then ret (Some res)
      else if ((reasonOf res =? "css-hidden") || (reasonOf res =? "visibility-check-error"))%string
      then d <- random 300 800 ;; wait d ;;
           firstLoop left' page selector perAttemptTimeout
      else ret None
  end.

(** The attempts on one heuristic candidate. *)
Fixpoint candidateAttempts `{Env} (left : nat) (page : Page) (candidate : string)
         (perAttemptTimeout : Z) : M (option ClickResult) :=
  match left with
  | O => ret None
  | S left' =>
      res <- tryClickOnce page candidate perAttemptTimeout ;;
      if success res then ret (Some res)
      else if negb (Js.mem (reasonOf res) ["css-hidden"; "visibility-check-error"; "click-failed"])
      then ret None
      else d <- random 300 800 ;; wait d ;;
           candidateAttempts left' page candidate perAttemptTimeout
  end.

Fixpoint candidatesLoop `{Env} (candidates : list string) (maxAttempts : nat)
         (page : Page) (perAttemptTimeout : Z) : M (option ClickResult) :=
  match candidates with
  | [] => ret None
  | candidate :: rest =>
      r <- candidateAttempts maxAttempts page candidate perAttemptTimeout ;;
      match r with
      | Some res => ret (Some res)
      | None => candidatesLoop rest maxAttempts page perAttemptTimeout
      end
  end.

(** Step 2: the heuristic candidates, each tried up to [maxAttempts]. *)
Definition heuristics `{Env} (page : Page) (selector : string)
           (maxAttempts : nat) (perAttemptTimeout : Z) : M ClickResult :=
  candidates <- findDailyCandidates page ;;
  match candidates with
  | [] =>
      log tag ("clickWithRetries: no fallback candidates found for " +++ selector) LWarn ;;
      ret (failure "no-candidates")
  | _ =>
      r <- candidatesLoop candidates maxAttempts page perAttemptTimeout ;;
      match r with
      | Some res => ret res
      | None =>
          log tag ("clickWithRetries: exhausted attempts and candidates for "
                   +++ selector) LError ;;
          ret (failure "max-retries")
      end
  end.

Definition clickWithRetries `{Env} (page : Page) (selector : string)
           (maxAttempts : nat) (perAttemptTimeout : Z) : M ClickResult :=
  first <- firstLoop maxAttempts page selector perAttemptTimeout ;;
  match first with
  | Some res => ret res
  | None => heuristics page selector maxAttempts perAttemptTimeout
  end.

Definition optionSelector (i : nat) : string := "#rqAnswerOption" +++ Js.showNat i.

Definition isTrue (attr : option string) : bool :=
  match attr with
  | Some a => Js.truthy a && (Js.toLowerCase a =? "true")%string
  | None => false
  end.

Definition sameOption (dataOption : option string) (correctOption : string) : bool :=
  match dataOption with
  | Some d => (d =? correctOption)%string
  | None => false
  end.

(** [if (res.popup) page = res.popup]. *)
Definition adoptPopup (res : ClickResult) : M unit :=
  match popup res with
  | Some pp => setPage pp
  | None => ret tt
  end.

(** The refresh check after a click that went through: [Return] when
    the refresh signal is missing (close, log, return). *)
Definition requireRefresh `{Env} (onward : M Ctl) : M Ctl :=
  p <- getPage ;;
  refreshSuccess <- BrowserFunc.waitForQuizRefresh p ;;
  if negb refreshSuccess then
    ignoring (call (Close p)) ;;
    log tag "An error occurred, refresh was unsuccessful" LError ;;
    ret Return
  else onward.

(** Eight options: first collect the selectors flagged correct ... *)
Fixpoint collectCorrect `{Env} (left i : nat) : M (list string) :=
  match left with
  | O => ret []
  | S left' =>
      let selector := optionSelector i in
      found <-
        tryCatch
          (p <- getPage ;;
           handle <- orElse (h <- call (WaitForSelector p selector Visible 10000) ;; ret (Some h)) None ;;
           match handle with
           | None => ret []
           | Some h =>
               answerAttribute <- call (GetAttribute h "iscorrectoption") ;;
               if isTrue answerAttribute then ret [selector] else ret []
           end)
          (fun err =>
             log tag ("Error reading iscorrectoption for " +++ selector +++ ": " +++ err) LWarn ;;
             ret []) ;;
      more <- collectCorrect left' (S i) ;;
      ret (found ++ more)
  end.

(** ... then click each of them. *)
Fixpoint clickAnswers `{Env} (answers : list string) : M Ctl :=
  match answers with
  | [] => ret Next
  | answerSelector :: rest =>
      d <- random 500 1500 ;; wait d ;;
      p <- getPage ;;
      clickRes <- clickWithRetries p answerSelector 3 12000 ;;
      if negb (success clickRes) then
        log tag ("Failed to click multi-answer " +++ answerSelector +++ ": "
                 +++ reasonOf clickRes) LWarn ;;
        clickAnswers rest
      else
        adoptPopup clickRes ;;
        requireRefresh (d <- random 1000 3000 ;; wait d ;; clickAnswers rest)
  end.

(** Two to four options: the click on the option that carries the
    token.  [Break] for both [break]s of the source. *)
Definition clickCorrect `{Env} (selector : string) : M Ctl :=
  d <- random 800 2000 ;; wait d ;;
  p <- getPage ;;
  clickRes <- clickWithRetries p selector 3 12000 ;;
  proceed <-
    (if negb (success clickRes) then
       log tag ("Failed to click correct option " +++ selector +++ ": "
                +++ reasonOf clickRes) LWarn ;;
       retry <- clickWithRetries p selector 1 8000 ;;
       if negb (success retry) then
         log tag ("Retry also failed for " +++ selector +++ ", skipping.") LWarn ;;
         ret false
       else adoptPopup retry ;; ret true
     else adoptPopup clickRes ;; ret true) ;;
  if negb proceed then ret Break
  else requireRefresh (d <- random 1500 3500 ;; wait d ;; ret Break).

Fixpoint optionsLoop `{Env} (left i : nat) (correctOption : string) : M Ctl :=
  match left with
  | O => ret Next
  | S left' =>
      let selector := optionSelector i in
      ctl <-
        tryCatch
          (p <- getPage ;;
           handle <- orElse (h <- call (WaitForSelector p selector Visible 10000) ;; ret (Some h)) None ;;
           match handle with
           | None => ret Next
           | Some h =>
               dataOption <- call (GetAttribute h "data-option") ;;
               if sameOption dataOption correctOption
               then clickCorrect selector
               else ret Next
           end)
          (fun err =>
             log tag ("Error while processing " +++ selector +++ ": " +++ err) LWarn ;;
             ret Next) ;;
      match ctl with
      | Next => optionsLoop left' (S i) correctOption
      | other => ret other
      end
  end.

Definition optionCount (n : option Z) : nat :=
  match n with Some n => Z.to_nat n | None => O end.

(** The single-answer branch of one question. *)
Definition answerSingle `{Env} : M Ctl :=
  d <- random 1000 2000 ;; wait d ;;
  p <- getPage ;;
  quizData <- call (GetQuizData p) ;;
  match quizData with
  | None => throw "TypeError: Cannot read properties of null"
  | Some qd =>
      let correctOption := correctAnswer qd in
      ctl <- optionsLoop (optionCount (numberOfOptions qd)) 0 correctOption ;;
      match ctl with
      | Return => ret Return
      | _ => d <- random 2000 4000 ;; wait d ;; ret Next
      end
  end.

(** The multi-answer branch of one question. *)
Definition answerMulti `{Env} : M Ctl :=
  answers <- collectCorrect 8 0 ;;
  clickAnswers answers.

(** [maxQuestions - CorrectlyAnsweredQuestionCount]; [None] is NaN. *)
Definition remaining (qd : QuizData) : option Z :=
  match maxQuestions qd, CorrectlyAnsweredQuestionCount qd with
  | Some m, Some c => Some (m - c)
  | _, _ => None
  end.

Definition below (question : Z) (questionsRemaining : option Z) : bool :=
  match questionsRemaining with
  | Some r => question <? r
  | None => false
  end.

(** [for (let question = 0; question < questionsRemaining; question++)],
    where the body recomputes [questionsRemaining] from the page.
    [Return] is the [return] of the refresh failure. *)
Fixpoint questions `{Env} (fuel : nat) (question : Z) (questionsRemaining : option Z)
  : M Ctl :=
  if negb (below question questionsRemaining) then ret Next
  else
    match fuel with
    | O => outOfFuel
    | S fuel' =>
        p <- getPage ;;
        quizData <- call (GetQuizData p) ;;
        match quizData with
        | None =>
            log tag "Quiz data invalid while looping, breaking out" LWarn ;;
            ret Next
        | Some qd =>
            match numberOfOptions qd with
            | None =>
                log tag "Quiz data invalid while looping, breaking out" LWarn ;;
                ret Next
            | Some n =>
                ctl <-
                  (if n =? 8 then answerMulti
                   else if (n =? 2) || (n =? 3) || (n =? 4) then answerSingle
                   else
                     log tag ("Unsupported numberOfOptions: " +++ Js.showZ n) LWarn ;;
                     ret Break) ;;
                match ctl with
                | Return => ret Return
                | Break => ret Next
                | Next =>
                    p <- getPage ;;
                    refreshed <- orElse (call (GetQuizData p)) None ;;
                    match refreshed with
                    | Some rd =>
                        match CorrectlyAnsweredQuestionCount rd with
                        | Some _ =>
                            let questionsRemaining' := remaining rd in
                            if match questionsRemaining' with
                               | Some r => r <=? 0
                               | None => false
                               end
                            then ret Next
                            else questions fuel' (question + 1) questionsRemaining'
                        | None => questions fuel' (question + 1) questionsRemaining
                        end
                    | None => questions fuel' (question + 1) questionsRemaining
                    end
                end
            end
        end
    end.

Definition finish `{Env} : M unit :=
  d <- random 2000 5000 ;; wait d ;;
  p <- getPage ;;
  ignoring (call (Close p)) ;;
  log tag "Completed the quiz successfully" LLog.

(** What follows the start control. *)
Definition afterStart `{Env} (fuel : nat) : M unit :=
  d <- random 2000 4000 ;; wait d ;;
  p <- getPage ;;
  quizData <- call (GetQuizData p) ;;
  match quizData with
  | Some (mkQuizData (Some m) (Some c) _ _) =>
      ctl <- questions fuel 0 (Some (m - c)) ;;
      match ctl with
      | Return => ret tt
      | _ => finish
      end
  | _ =>
      log tag "Invalid initial quizData returned, aborting" LError ;;
      ignoring (call (Close p))
  end.

(** The body of the [try]. *)
Definition start `{Env} (fuel : nat) (page : Page) : M unit :=
  quizNotStarted <-
    orElse (call (WaitForSelector page "#rqStartQuiz" Visible 2000) ;; ret true) false ;;
  if quizNotStarted then
    d <- random 1000 2000 ;; wait d ;;
    startClick <- clickWithRetries page "#rqStartQuiz" 3 10000 ;;
    if negb (success startClick) then
      log tag ("Could not click #rqStartQuiz after retries: " +++ reasonOf startClick) LError ;;
      ignoring (call (Close page))
    else
      adoptPopup startClick ;;
      afterStart fuel
  else
    log tag "Quiz has already been started, trying to finish it" LLog ;;
    afterStart fuel.

(** The [catch]. *)
Definition onError `{Env} (error : string) : M unit :=
  p <- getPage ;;
  ignoring (call (Close p)) ;;
  log tag ("An error occurred:" +++ error) LError.

Definition doQuiz `{Env} (fuel : nat) (page : Page) : M unit :=
  log tag "Trying to complete quiz" LLog ;;
  setPage page ;;
  tryCatch (start fuel page) onError.

End Quiz.

(* ===================================================================== *)
(** * Quiz (src/functions/activities/Quiz.ts, class Quiz) *)
(* ===================================================================== *)

Module QuizSimple.

Definition tag : string := "QUIZ".

Definition requireRefresh `{Env} (page : Page) (onward : M Ctl) : M Ctl :=
  refreshSuccess <- BrowserFunc.waitForQuizRefresh page ;;
  if negb refreshSuccess then
    call (Close page) ;;
    log tag "An error occurred, refresh was unsuccessful" LError ;;
    ret Return
  else onward.

Fixpoint collectCorrect `{Env} (page : Page) (left i : nat) : M (list string) :=
  match left with
  | O => ret []
  | S left' =>
      answerSelector <- call (WaitForSelector page (Quiz.optionSelector i) Visible 10000) ;;
      answerAttribute <- call (GetAttribute answerSelector "iscorrectoption") ;;
      more <- collectCorrect page left' (S i) ;;
      ret ((if Quiz.isTrue answerAttribute then [Quiz.optionSelector i] else []) ++ more)
  end.

Fixpoint clickAnswers `{Env} (page : Page) (answers : list string) : M Ctl :=
  match answers with
  | [] => ret Next
  | answer :: rest =>
      call (WaitForSelector page answer Visible 2000) ;;
      d <- random 500 1500 ;; wait d ;;
      call (Click page answer) ;;
      requireRefresh page (d <- random 1000 3000 ;; wait d ;; clickAnswers page rest)
  end.

(** The loop over the options of a single-answer question; it has no
    [break]. *)
Fixpoint optionsLoop `{Env} (page : Page) (left i : nat) (correctOption : string) : M Ctl :=
  match left with
  | O => ret Next
  | S left' =>
      answerSelector <- call (WaitForSelector page (Quiz.optionSelector i) Visible 10000) ;;
      dataOption <- call (GetAttribute answerSelector "data-option") ;;
      if Quiz.sameOption dataOption correctOption then
        d <- random 800 2000 ;; wait d ;;
        call (Click page (Quiz.optionSelector i)) ;;
        requireRefresh page
          (d <- random 1500 3500 ;; wait d ;;
           optionsLoop page left' (S i) correctOption)
      else optionsLoop page left' (S i) correctOption
  end.

(** The single-answer branch of one question; returns the refreshed
    quiz data with the control signal. *)
Definition answerSingle `{Env} (page : Page) : M (Ctl * QuizData) :=
  quizData <- call (GetQuizData page) ;;
  d <- random 1000 2000 ;; wait d ;;
  match quizData with
  | None => throw "TypeError: Cannot read properties of null"
  | Some qd =>
      ctl <- optionsLoop page (Quiz.optionCount (numberOfOptions qd)) 0 (correctAnswer qd) ;;
      match ctl with
      | Return => ret (Return, qd)
      | _ => d <- random 2000 4000 ;; wait d ;; ret (Next, qd)
      end
  end.

Definition isOneOf (n : option Z) (l : list Z) : bool :=
  match n with Some n => existsb (Z.eqb n) l | None => false end.

(** [for (let question = 0; question < questionsRemaining; question++)]
    with a constant bound; [left] is the number of passes to go. *)
Fixpoint questions `{Env} (page : Page) (left : nat) (quizData : QuizData) : M Ctl :=
  match left with
  | O => ret Next
  | S left' =>
      if isOneOf (numberOfOptions quizData) [8] then
        answers <- collectCorrect page 8 0 ;;
        ctl <- clickAnswers page answers ;;
        match ctl with
        | Return => ret Return
        | _ => questions page left' quizData
        end
      else if isOneOf (numberOfOptions quizData) [2; 3; 4] then
        r <- answerSingle page ;;
        match fst r with
        | Return => ret Return
        | _ => questions page left' (snd r)
        end
      else questions page left' quizData
  end.

Definition doQuiz `{Env} (page : Page) : M unit :=
  log tag "Trying to complete quiz" LLog ;;
  tryCatch
    (quizNotStarted <-
       orElse (call (WaitForSelector page "#rqStartQuiz" Visible 2000) ;; ret true) false ;;
     (if quizNotStarted then
        d <- random 1000 2000 ;; wait d ;;
        call (Click page "#rqStartQuiz")
      else
        log tag "Quiz has already been started, trying to finish it" LLog) ;;
     d <- random 2000 4000 ;; wait d ;;
     quizData <- call (GetQuizData page) ;;
     match quizData with
     | None => throw "TypeError: Cannot read properties of null"
     | Some qd =>
         let questionsRemaining := Quiz.optionCount (Quiz.remaining qd) in
         ctl <- questions page questionsRemaining qd ;;
         match ctl with
         | Return => ret tt
         | _ =>
             d <- random 2000 5000 ;; wait d ;;
             call (Close page) ;;
             log tag "Completed the quiz successfully" LLog
         end
     end)
    (fun error =>
       call (Close page) ;;
       log tag ("An error occurred:" +++ error) LError).

End QuizSimple.

(* ===================================================================== *)
(** * Activities (unnamed/part_000, class Activities) *)
(* ===================================================================== *)

Module Activities.

(** [randomDelay(minMs, maxMs)]. *)
Definition randomDelay `{Env} (minMs maxMs : Z) : M unit :=
  d <- random minMs maxMs ;; wait d.

Definition doABC `{Env} (page : Page) : M unit :=
  ABC.doABC page ;; randomDelay 2000 3000.

Definition doPoll `{Env} (page : Page) : M unit :=
  Poll.doPoll page ;; randomDelay 1000 2000.

(** The ThisOrThat and UrlReward classes are collaborators. *)
Definition doThisOrThat `{Env} (page : Page) : M unit :=
  call (DoThisOrThat page) ;; randomDelay 1000 2000.

Definition doQuiz `{Env} (page : Page) : M unit :=
  QuizSimple.doQuiz page ;; randomDelay 1000 2000.

Definition doUrlReward `{Env} (page : Page) : M unit :=
  call (DoUrlReward page) ;; randomDelay 1000 2000.

Definition doSearchOnBing `{Env} (page : Page) (activity : Activity) : M unit :=
  SearchOnBing.doSearchOnBing page activity ;; randomDelay 1000 2000.

End Activities.

(* ===================================================================== *)
(** * Workers (unnamed/part_000, class Workers) *)
(* ===================================================================== *)

Module Workers.

(** ** Selector candidates *)

(** The alternatives of [dailyRe]; the pattern is case-insensitive. *)
Definition dailyAlternatives : list string :=
  ["dailyset"; "daily"; "global_daily"; "gamification_daily";
   "dailyglobal"; "global_dailyset"; "global_daily"].

Definition dailyRe_test (s : string) : bool :=
  existsb (fun alt => Js.includes alt (Js.toLowerCase s)) dailyAlternatives.

(** The walk up the ancestors of one [.pointLink]: [chain] lists, from
    the element up to (not including) [body], the [data-bi-id] attribute
    of each ancestor when it has one.  Returns the final [dataId]. *)
Fixpoint walkUp (chain : list (option string)) (dataId : string) : string :=
  match chain with
  | [] => dataId
  | None :: rest => walkUp rest dataId
  | Some v :: rest =>
      let dataId' := Js.orDefault v EmptyString in
      if dailyRe_test dataId' then dataId' else walkUp rest dataId'
  end.

Definition scopedBy (op dataId : string) : string :=
  "[data-bi-id" +++ op +++ q +++ dataId +++ q +++ "] " +++ pointLinkScoped.

(** The callback of the heuristic scan over the point links. *)
Fixpoint scanLoop (els : list (list (option string))) (seen : list string) : list string :=
  match els with
  | [] => []
  | chain :: rest =>
      let dataId := walkUp chain EmptyString in
      if Js.truthy dataId && dailyRe_test dataId then
        let sel := scopedBy "=" (Js.escapeQuotes dataId) in
        if Js.mem sel seen then scanLoop rest seen
        else sel :: scanLoop rest (sel :: seen)
      else scanLoop rest seen
  end.

(** [for (const s of heuristic) if (!candidates.includes(s)) candidates.push(s)]. *)
Fixpoint pushNew (candidates heuristic : list string) : list string :=
  match heuristic with
  | [] => candidates
  | s :: rest =>
      if Js.mem s candidates then pushNew candidates rest
      else pushNew (candidates ++ [s]) rest
  end.

Definition fromOfferId (a : Activity) : list string :=
  if Js.truthy (offerId a) then
    [scopedBy "^=" (offerId a); scopedBy "^=" (Js.escapeQuotes (offerId a))]
  else [].

Definition fromName (a : Activity) : list string :=
  if Js.truthy (name a) then
    let nameSafe := Js.escapeQuotes (name a) in
    [scopedBy "^=" nameSafe; scopedBy "*=" nameSafe]
  else [].

Definition buildSelectorsForActivity `{Env} (page : Page) (activity : Activity)
           (punchCard : option PunchCard) : M (list string) :=
  mark activity ;;
  let candidates := fromOfferId activity ++ fromName activity in
  candidates <-
    tryCatch
      (links <- call (EvalPointLinks page) ;;
       ret (pushNew candidates (scanLoop links [])))
      (fun _ => ret candidates) ;;
  ret (Js.unique (candidates ++ [pointLinkScoped; pointLinkAny])).

(** ** Overlays *)

(** The callback of [hideOverlappingOverlays] on one element of the
    document [d]. *)
Definition overlaps (d : Dom.DOM) (tBox : Dom.Rect) (isTarget : bool) (el : Dom.Element)
  : bool :=
  if isTarget then false
  else if Dom.styleHidden el then false
  else if negb (Dom.positioned el) then false
  else
    let r := Dom.getBoundingClientRect d el in
    if (Dom.r_width r =? 0) || (Dom.r_height r =? 0) then false
    else Dom.overlap r tBox.

(** The loop over [body *]: [done] holds the elements the loop has gone
    through, as it left them, [els] those to come; the document the
    callback sees at the head of [els] is [done ++ els].  The result is
    [els] as the loop leaves it, with the number of elements hidden. *)
Fixpoint hideLoop (tBox : Dom.Rect) (target : nat) (done els : Dom.DOM) : Dom.DOM * nat :=
  match els with
  | [] => ([], O)
  | el :: rest =>
      if overlaps (done ++ els) tBox (length done =? target)%nat el
      then
        let '(rest', n) := hideLoop tBox target (done ++ [Dom.hideAndMark el]) rest in
        (Dom.hideAndMark el :: rest', S n)
      else
        let '(rest', n) := hideLoop tBox target (done ++ [el]) rest in
        (el :: rest', n)
  end.

(** The evaluate callback of [hideOverlappingOverlays]; [target] is
    what [document.querySelector(sel)] finds. *)
Definition hideCallback (target : option nat) (d : Dom.DOM) : Dom.DOM * nat :=
  match target with
  | None => (d, O)
  | Some t =>
      match nth_error d t with
      | None => (d, O)
      | Some tEl => hideLoop (Dom.getBoundingClientRect d tEl) t [] d
      end
  end.

(** The evaluate callback of [restoreHiddenOverlays]. *)
Definition restoreCallback (d : Dom.DOM) : Dom.DOM * nat :=
  (map (fun el => if Dom.el_marker el then Dom.unmark el else el) d,
   Dom.markedCount d).

(** suppress then restore, as the callbacks compose on a document *)
Definition suppressThenRestore (target : option nat) (d : Dom.DOM) : Dom.DOM :=
  fst (restoreCallback (fst (hideCallback target d))).

Definition hideOverlappingOverlays `{Env} (page : Page) (selector : string) : M nat :=
  tryCatch
    (target <- call (EvalHide page selector) ;;
     d <- getDom ;;
     let '(d', n) := hideCallback target d in
     setDom d' ;;
     ret n)
    (fun _ => ret O).

Definition restoreHiddenOverlays `{Env} (page : Page) : M nat :=
  tryCatch
    (call (EvalRestore page) ;;
     d <- getDom ;;
     let '(d', n) := restoreCallback d in
     setDom d' ;;
     ret n)
    (fun _ => ret O).

(** ** The resilient click *)

(** The checks before the click: [Some r] is the early [return r]. *)
Definition checkStage `{Env} (page : Page) (sel : string) : M (option ClickResult) :=
  tryCatch
    (handle <- call (Query page sel) ;;
     match handle with
     | None => ret (Some (failure "not-found"))
     | Some h =>
         tryCatch (call (ScrollIntoViewIfNeeded h 1500))
                  (fun _ => call (EvalScrollIntoView page sel)) ;;
         box <- call (BoundingBox h) ;;
         style <- call (EvalStyle page sel) ;;
         if boxMissingOrEmpty box then ret (Some (failure "zero-bounding-box"))
         else if cssHidden style then
           hid <- hideOverlappingOverlays page sel ;;
           if (hid =? 0)%nat then ret (Some (failure "css-hidden"))
           else ret None
         else ret None
     end)
    (fun _ => ret None).

(** Strategies 1 to 3; the value is [clickedOk]. *)
Definition clickCascade `{Env} (page : Page) (sel : string) (timeout : Z) : M bool :=
  tryCatch
    (ignoring (call (LocatorScroll page sel 1500)) ;;
     clickedOk <- orElse (call (LocatorClick page sel timeout false) ;; ret true) false ;;
     if negb clickedOk then
       evalClicked <- orElse (call (EvalClick page sel)) false ;;
       if evalClicked then ret true
       else
         h <- call (Query page sel) ;;
         match h with
         | Some h =>
             box <- call (BoundingBox h) ;;
             match box with
             | Some b => ignoring (call (MouseClickCenter page b)) ;; ret true
             | None => ret false
             end
         | None => ret false
         end
     else ret true)
    (fun _ => ret false).

(** [tryOnce(sel, timeout)] inside [robustTryClickSelector(page, selector,
    maxAttempts, perAttemptTimeout)]. *)
Definition tryOnce `{Env} (page : Page) (selector : string) (perAttemptTimeout : Z)
           (sel : string) (timeout : Z) : M ClickResult :=
  ignoring (call (WaitForSelector page sel Attached (Z.min 2500 timeout))) ;;
  early <- checkStage page sel ;;
  match early with
  | Some r => ret r
  | None =>
      popupPromise <- orElse (pp <- call (ContextWaitForPage page 1500) ;; ret (Some pp)) None ;;
      navPromise <- orElse (call (WaitForNavigation page 1500)) false ;;
      clickedOk <- clickCascade page sel timeout ;;
      clickedOk <-
        (if negb clickedOk
         then orElse (call (LocatorClick page selector perAttemptTimeout true) ;; ret true) false
         else ret true) ;;
      ignoring (restoreHiddenOverlays page) ;;
      if negb clickedOk then ret (failure "click-failed")
      else
        match popupPromise with
        | Some pp =>
            ignoring (call (WaitForLoadState pp "domcontentloaded" 2000)) ;;
            ret (succeeded (Some pp))
        | None =>
            if navPromise then ret (succeeded None) else ret (succeeded None)
        end
  end.

Definition transient : list string :=
  ["click-failed"; "visibility-check-error"; "css-hidden"].

(** The pause before a retry. *)
Definition pause `{Env} : M unit :=
  d <- random 300 900 ;; wait d.

(** [for (let attempt = 1; attempt <= maxAttempts; attempt++)], with
    [left] attempts to go. *)
Fixpoint attempts `{Env} (left : nat) (page : Page) (selector : string)
         (perAttemptTimeout : Z) : M ClickResult :=
  match left with
  | O => ret (failure "max-retries")
  | S left' =>
      res <- tryOnce page selector perAttemptTimeout selector perAttemptTimeout ;;
      if success res then ret res
      else if Js.mem (reasonOf res) transient then
        pause ;;
        attempts left' page selector perAttemptTimeout
      else ret res
  end.

Definition robustTryClickSelector `{Env} (page : Page) (selector : string)
           (maxAttempts : nat) (perAttemptTimeout : Z) : M ClickResult :=
  attempts maxAttempts page selector perAttemptTimeout.

(** ** The per-activity loop *)

Definition maxCandidatesToTry : nat := 5.

(** [for (const sel of selectors)]: the result and [candidateCount]. *)
Fixpoint tryCandidates `{Env} (page : Page) (activity : Activity) (selectors : list string)
         (candidateCount : nat) : M (option ClickResult * nat) :=
  match selectors with
  | [] => ret (None, candidateCount)
  | sel :: rest =>
      if (maxCandidatesToTry <=? candidateCount)%nat then ret (None, candidateCount)
      else
        res <- robustTryClickSelector page sel 3 10000 ;;
        if success res then ret (Some res, S candidateCount)
        else
          log "ACTIVITY" ("Could not click selector " +++ q +++ sel +++ q +++ " for "
                          +++ q +++ title activity +++ q +++ " | reason: " +++ reasonOf res) LWarn ;;
          tryCandidates page activity rest (S candidateCount)
  end.

Definition found (kind : string) (activity : Activity) : M unit :=
  log "ACTIVITY" ("Found activity type: " +++ q +++ kind +++ q +++ " title: "
                  +++ q +++ title activity +++ q) LLog.

(** The [switch] on [promotionType]. *)
Definition dispatch `{Env} (page : Page) (activity : Activity) : M unit :=
  if (promotionType activity =? "quiz")%string then
    if pointProgressMax activity =? 10 then
      if Js.includes "pollscenarioid" (Js.toLowerCase (destinationUrl activity)) then
        found "Poll" activity ;; Activities.doPoll page
      else
        found "ABC" activity ;; Activities.doABC page
    else if pointProgressMax activity =? 50 then
      found "ThisOrThat" activity ;; Activities.doThisOrThat page
    else
      found "Quiz" activity ;; Activities.doQuiz page
  else if (promotionType activity =? "urlreward")%string then
    if Js.includes "exploreonbing" (Js.toLowerCase (name activity))
       || Js.includes "form=dsetqu" (destinationUrl activity) then
      found "SearchOnBing" activity ;; Activities.doSearchOnBing page activity
    else
      found "UrlReward" activity ;; Activities.doUrlReward page
  else
    log "ACTIVITY" ("Skipped activity " +++ q +++ title activity +++ q
                    +++ " | Reason: Unsupported type: " +++ q +++ promotionType activity
                    +++ q +++ "!") LWarn.

(** The body of the [try] for one activity. *)
Definition solveOne `{Env} (activityInitial : string) (punchCard : option PunchCard)
           (activity : Activity) : M unit :=
  p0 <- getActivityPage ;;
  p1 <- call (GetLatestTab p0) ;;
  setActivityPage p1 ;;
  pages <- pagesLength p1 ;;
  (if (3 <? pages)%nat then
     call (Close p1) ;;
     p2 <- call (GetLatestTab p1) ;;
     setActivityPage p2
   else ret tt) ;;
  wait 1000 ;;
  activityPage <- getActivityPage ;;
  here <- url activityPage ;;
  (if negb (here =? activityInitial)%string
   then ignoring (call (Goto activityPage activityInitial))
   else ret tt) ;;
  derived <-
    match punchCard with
    | Some _ =>
        tryCatch
          (d <- BrowserFunc.getPunchCardActivity activityPage activity ;;
           ret (if Js.truthy d then [d] else []))
          (fun _ => ret [])
    | None => ret []
    end ;;
  built <- buildSelectorsForActivity activityPage activity punchCard ;;
  let selectors := filter Js.truthy (Js.unique (derived ++ built)) in
  ignoring (call (WaitForLoadState activityPage "networkidle" 5000)) ;;
  wait 1500 ;;
  tried <- tryCandidates activityPage activity selectors 0 ;;
  match fst tried with
  | Some clickedResult =>
      (match popup clickedResult with
       | Some pp =>
           setActivityPage pp ;;
           d <- random 1000 2500 ;; wait d
       | None =>
           latest <- call (GetLatestTab activityPage) ;;
           setActivityPage latest ;;
           wait 1000
       end) ;;
      activityPage <- getActivityPage ;;
      dispatch activityPage activity ;;
      wait 2000
  | None =>
      log "ACTIVITY" ("Skipped activity " +++ q +++ title activity +++ q
                      +++ " | Reason: Could not click any selectors (tried "
                      +++ Js.showNat (snd tried) +++ ")") LWarn ;;
      wait 500
  end.

(** One pass of [for (const activity of activities)]: the [try] and
    its [catch]. *)
Definition iteration `{Env} (activityInitial : string) (punchCard : option PunchCard)
           (activity : Activity) : M unit :=
  tryCatch (solveOne activityInitial punchCard activity)
           (fun error => log "ACTIVITY" ("An error occurred:" +++ error) LError).

Fixpoint activitiesLoop `{Env} (activityInitial : string) (punchCard : option PunchCard)
         (activities : list Activity) : M unit :=
  match activities with
  | [] => ret tt
  | activity :: rest =>
      iteration activityInitial punchCard activity ;;
      activitiesLoop activityInitial punchCard rest
  end.

Definition solveActivities `{Env} (activityPage : Page) (activities : list Activity)
           (punchCard : option PunchCard) : M unit :=
  activityInitial <- url activityPage ;;
  setActivityPage activityPage ;;
  activitiesLoop activityInitial punchCard activities.

(** ** The public flows *)

Fixpoint lookup (key : string) (m : list (string * list Activity)) : option (list Activity) :=
  match m with
  | [] => None
  | (k, v) :: rest => if (k =? key)%string then Some v else lookup key rest
  end.

Definition dailySetPending (x : Activity) : bool :=
  negb (complete x) && (pointProgressMax x >? 0).

Definition doDailySet `{Env} (page : Page) (data : DashboardData) : M unit :=
  date <- getFormattedDate ;;
  let activitiesUncompleted :=
    match lookup date (dailySetPromotions data) with
    | Some todayData => filter dailySetPending todayData
    | None => []
    end in
  match activitiesUncompleted with
  | [] => log "DAILY-SET" "All Daily Set items have already been completed" LLog
  | _ =>
      log "DAILY-SET" ("Started solving " +++ q +++ "Daily Set" +++ q +++ " items") LLog ;;
      solveActivities page activitiesUncompleted None ;;
      page <- call (GetLatestTab page) ;;
      call (GoHome page) ;;
      log "DAILY-SET" ("All " +++ q +++ "Daily Set" +++ q +++ " items have been completed") LLog
  end.

Definition punchCardPending (x : PunchCard) : bool :=
  match parentPromotion x with
  | Some parent => negb (complete parent)
  | None => false
  end.

Fixpoint punchCardLoop `{Env} (page : Page) (cards : list PunchCard) : M unit :=
  match cards with
  | [] => ret tt
  | punchCard :: rest =>
      match parentPromotion punchCard with
      | Some parent =>
          if Js.truthy (title parent) then
            page <- call (GetLatestTab page) ;;
            let activitiesUncompleted :=
              filter (fun x => negb (complete x)) (childPromotions punchCard) in
            log "PUNCH-CARD" ("Started solving " +++ q +++ "Punch Card" +++ q
                              +++ " items for punchcard: "
                              +++ q +++ title parent +++ q) LLog ;;
            call (Goto page (destinationUrl parent)) ;;
            ignoring (call (WaitForLoadState page "networkidle" 5000)) ;;
            solveActivities page activitiesUncompleted (Some punchCard) ;;
            page <- call (GetLatestTab page) ;;
            pages <- pagesLength page ;;
            (if (3 <? pages)%nat then call (Close page) else call (GoHome page)) ;;
            log "PUNCH-CARD" ("All items for punchcard: " +++ q +++ title parent +++ q
                              +++ " have been completed") LLog ;;
            punchCardLoop page rest
          else
            log "PUNCH-CARD" ("Skipped punchcard " +++ q +++ pc_name punchCard +++ q
                              +++ " | Reason: Parent promotion is missing!") LWarn ;;
            punchCardLoop page rest
      | None =>
          log "PUNCH-CARD" ("Skipped punchcard " +++ q +++ pc_name punchCard +++ q
                            +++ " | Reason: Parent promotion is missing!") LWarn ;;
          punchCardLoop page rest
      end
  end.

Definition doPunchCard `{Env} (page : Page) (data : DashboardData) : M unit :=
  let punchCardsUncompleted :=
    match punchCards data with
    | Some cards => filter punchCardPending cards
    | None => []
    end in
  match punchCardsUncompleted with
  | [] =>
      log "PUNCH-CARD" ("All " +++ q +++ "Punch Cards" +++ q +++ " have already been completed")
          LLog
  | _ =>
      punchCardLoop page punchCardsUncompleted ;;
      log "PUNCH-CARD" ("All " +++ q +++ "Punch Card" +++ q +++ " items have been completed") LLog
  end.

Definition morePromotionPending (x : Activity) : bool :=
  negb (complete x) && (pointProgressMax x >? 0)
  && negb (exclusiveLockedFeatureStatus x =? "locked")%string.

Definition doMorePromotions `{Env} (page : Page) (data : DashboardData) : M unit :=
  let morePromotions :=
    match promotionalItem data with
    | Some item => morePromotions data ++ [item]
    | None => morePromotions data
    end in
  let activitiesUncompleted := filter morePromotionPending morePromotions in
  match activitiesUncompleted with
  | [] =>
      log "MORE-PROMOTIONS"
          ("All " +++ q +++ "More Promotion" +++ q +++ " items have already been completed")
          LLog
  | _ =>
      log "MORE-PROMOTIONS" ("Started solving " +++ q +++ "More Promotions" +++ q +++ " items") LLog ;;
      page <- call (GetLatestTab page) ;;
      solveActivities page activitiesUncompleted None ;;
      page <- call (GetLatestTab page) ;;
      call (GoHome page) ;;
      log "MORE-PROMOTIONS" ("All " +++ q +++ "More Promotion" +++ q +++ " items have been completed") LLog
  end.

End Workers.

(* ===================================================================== *)
(** * BrowserFunc.goHome (src/browser/BrowserFunc.ts) *)
(* ===================================================================== *)

Module BrowserNav.

(** What [new URL(s)] gives: the parts the code reads, or the TypeError
    of a string that is no URL (its text as a string). *)
Record Url := mkUrl { href : string; hostname : string }.

Inductive Parsed := Valid (u : Url) | Invalid (error : string).

Definition suspendedError : string := "Error: Account has been suspended!".
Definition visited : string := "Visited homepage successfully".
Definition maxIterations : nat := 5.

Section GoHome.

Context `{Env}.

(** The URL parser of the platform. *)
Variable urlOf : string -> Parsed.

(** [for (let iteration = 1; iteration <= maxIterations; iteration++)],
    with [left] passes to go. *)
Fixpoint homeLoop (left : nat) (page : Page) (dashboardURL : Url) : M unit :=
  match left with
  | O => ret tt
  | S left' =>
      wait 3000 ;;
      call (TryDismissAllMessages page) ;;
      isSuspended <-
        orElse (call (WaitForSelector page "#suspendedAccountHeader" Visible 2000) ;; ret true)
               false ;;
      if isSuspended then
        log "GO-HOME" "This account is suspended!" LError ;;
        throw suspendedError
      else
        found <-
          tryCatch
            (call (WaitForSelector page "#more-activities" Visible 1000) ;;
             log "GO-HOME" visited LLog ;;
             ret true)
            (fun _ => ret false) ;;
        if found then ret tt
        else
          here <- url page ;;
          match urlOf here with
          | Invalid e => throw e
          | Valid currentURL =>
              if negb (hostname currentURL =? hostname dashboardURL)%string then
                call (TryDismissAllMessages page) ;;
                wait 2000 ;;
                call (Goto page (baseURL config)) ;;
                BrowserFunc.quietDelay ;;
                wait 5000 ;;
                homeLoop left' page dashboardURL
              else
                log "GO-HOME" visited LLog
          end
  end.

(** The body of the [try]. *)
Definition visit (page : Page) : M unit :=
  match urlOf (baseURL config) with
  | Invalid e => throw e
  | Valid dashboardURL =>
      here <- url page ;;
      if (here =? href dashboardURL)%string then ret tt
      else
        call (Goto page (baseURL config)) ;;
        BrowserFunc.quietDelay ;;
        homeLoop maxIterations page dashboardURL
  end.

(** The [catch]: log, and throw an Error that wraps the one caught. *)
Definition onError (error : string) : M unit :=
  log "GO-HOME" ("An error occurred:" +++ error) LError ;;
  throw ("Error: GO-HOME error: " +++ error).

Definition goHome (page : Page) : M unit :=
  tryCatch (visit page) onError.

End GoHome.

End BrowserNav.

(* ===================================================================== *)
(** * The helpers of the bot (unnamed/part_001 and part_002: index.ts) *)
(* ===================================================================== *)

Module Index.

Section Arrays.

Variable T : Type.

(** A JavaScript array: [None] is an element that is [undefined]. *)
Definition JsArray := list (option T).

(** [arr[k]]: [undefined] out of range. *)
Definition get (arr : JsArray) (k : nat) : option T := nth k arr None.

(** [arr[k] = v]: out of range the array grows, the new elements in
    between being [undefined]. *)
Fixpoint set (arr : JsArray) (k : nat) (v : option T) : JsArray :=
  match k, arr with
  | O, [] => [v]
  | O, _ :: rest => v :: rest
  | S k', [] => None :: set [] k' v
  | S k', x :: rest => x :: set rest k' v
  end.

(** The body of the loop of [shuffleArray] at index [i];
    [pick i] is [Math.floor(Math.random() * (i + 1))] there. *)
Definition swapStep (pick : nat -> nat) (i : nat) (arr : JsArray) : JsArray :=
  let j := pick i in
  let tmp := get arr i in
  let arr := set arr i (get arr j) in
  set arr j tmp.

(** [for (let i = ...; i > 0; i--)], entered at [i]. *)
Fixpoint shuffleFrom (pick : nat -> nat) (i : nat) (arr : JsArray) : JsArray :=
  match i with
  | O => arr
  | S i' => shuffleFrom pick i' (swapStep pick i arr)
  end.

(** [shuffleArray(arr)]: the loop starts at [arr.length - 1]. *)
Definition shuffleArray (pick : nat -> nat) (arr : JsArray) : JsArray :=
  shuffleFrom pick (length arr - 1) arr.

End Arrays.

(** [randomInt(min, max)]; [draw] is
    [Math.floor(Math.random() * (max - min + 1))] after the swap. *)
Definition randomInt (draw : Z -> Z) (min max : Z) : Z :=
  let '(min, max) := if min >? max then (max, min) else (min, max) in
  draw (max - min + 1) + min.

End Index.

(* ===================================================================== *)
(** * Runs that keep their own trace (the callers of the rewards API) *)
(* ===================================================================== *)

Module Task.

Section Runs.

(** What a run records of each thing it does. *)
Variable E : Type.

(** A run from a clock: how it settles, the clock after it, what it
    did. *)
Definition Run (A : Type) : Type := nat -> Res A * nat * list E.

Definition pure {A} (a : A) : Run A := fun t => (Ok a, t, []).

Definition andThen {A B} (m : Run A) (f : A -> Run B) : Run B :=
  fun t =>
    match m t with
    | (Ok a, t1, d1) =>
        match f a t1 with
        | (r, t2, d2) => (r, t2, d1 ++ d2)
        end
    | (Throw e, t1, d1) => (Throw e, t1, d1)
    | (OutOfFuel, t1, d1) => (OutOfFuel, t1, d1)
    end.

(** [try { body } catch (err) { handler(err) }]. *)
Definition catching {A} (body : Run A) (handler : string -> Run A) : Run A :=
  fun t =>
    match body t with
    | (Ok a, t1, d1) => (Ok a, t1, d1)
    | (Throw e, t1, d1) =>
        match handler e t1 with
        | (r, t2, d2) => (r, t2, d1 ++ d2)
        end
    | (OutOfFuel, t1, d1) => (OutOfFuel, t1, d1)
    end.

Definition raise {A} (e : string) : Run A := fun t => (Throw e, t, []).

Definition noFuel {A} : Run A := fun t => (OutOfFuel, t, []).

End Runs.

Arguments pure {E A} a.
Arguments andThen {E A B} m f.
Arguments catching {E A} body handler.
Arguments raise {E A} e.
Arguments noFuel {E A}.

End Task.

Declare Scope task_scope.
Notation "x <- m ;; k" := (Task.andThen m (fun x => k))
  (at level 61, m at next level, right associativity) : task_scope.
Notation "m ;; k" := (Task.andThen m (fun _ => k))
  (at level 61, right associativity) : task_scope.

(* ===================================================================== *)
(** * The daily check-in (src/functions/activities/ABC.ts: DailyCheckIn) *)
(* ===================================================================== *)

Module DailyCheckIn.

Definition DEFAULT_MIN_DELAY_MS : Z := 800.
Definition DEFAULT_MAX_DELAY_MS : Z := 2200.
Definition DEFAULT_RETRIES : Z := 3.
Definition DEFAULT_BASE_BACKOFF_MS : Z := 800.

Definition tag : string := "DAILY-CHECK-IN".

(** The fields of [this.bot.config] the check-in reads; [None] is a
    field that is absent. *)
Record Settings := mkSettings {
  useGeoLocaleQueries : bool;            (* searchSettings.useGeoLocaleQueries *)
  dailyCheckInMinDelayMs : option Z;
  dailyCheckInMaxDelayMs : option Z;
  dailyCheckInRetries : option Z;
  dailyCheckInBackoffMs : option Z;
  axiosTimeoutMs : option Z
}.

(** The request, less its constant fields and the random [id] of its
    body: the [Authorization] header, the country (header and body)
    and the timeout. *)
Record ClaimRequest := mkClaimRequest {
  authorization : string;
  rewardsCountry : string;
  timeout : Z
}.

(** What a run does, in order. *)
Inductive Did :=
| Said (msg : string) (lvl : Level)      (* this.bot.log(.., 'DAILY-CHECK-IN', msg, lvl) *)
| Slept (ms : Z)                         (* await this.bot.utils.wait(ms) *)
| Requested (r : ClaimRequest).          (* await this.bot.axios.request(r) *)

(** The collaborators; the first argument is the clock of the read.
    [axiosRequest] settles the request: it rejects, or resolves with a
    response, of which the model keeps the number [claimedPoint] that
    the code parses out of [response.activity.p]. *)
Record World := mkWorld {
  settings : Settings;
  utilsRandomNumber : nat -> Z -> Z -> Z;
  axiosRequest : nat -> ClaimRequest -> Answer Z
}.

Definition Run : Type -> Type := Task.Run Did.

Local Open Scope task_scope.

(** [x ?? d] on an optional number. *)
Definition orDefault (x : option Z) (d : Z) : Z :=
  match x with
  | Some v => v
  | None => d
  end.

(** The text of [lastError] in a template string. *)
Definition shown (lastError : option string) : string :=
  match lastError with
  | Some err => err
  | None => "null"
  end.

Definition alreadyClaimed : string := "Already claimed today or no points returned".

Section Protocol.

Variable w : World.

Definition say (msg : string) (lvl : Level) : Run unit :=
  fun t => (Ok tt, t, [Said msg lvl]).

Definition sleep (ms : Z) : Run unit :=
  fun t => (Ok tt, t, [Slept ms]).

(** [this.bot.utils.randomNumber(lo, hi)], which the bot has. *)
Definition randomNumber (lo hi : Z) : Run Z :=
  fun t => (Ok (utilsRandomNumber w t lo hi), S t, []).

Definition request (r : ClaimRequest) : Run Z :=
  fun t => (settled (axiosRequest w t r), S t, [Requested r]).

(** [country] is [data?.userProfile?.attributes?.country]. *)
Definition geoLocaleOf (country : option string) : string :=
  let geoLocale := match country with Some c => c | None => "us" end in
  if (useGeoLocaleQueries (settings w) && (String.length geoLocale =? 2)%nat)%bool
  then Js.toLowerCase geoLocale
  else "us".

Definition maxRetries : Z := orDefault (dailyCheckInRetries (settings w)) DEFAULT_RETRIES.
Definition baseBackoff : Z :=
  orDefault (dailyCheckInBackoffMs (settings w)) DEFAULT_BASE_BACKOFF_MS.

(** [claimRequestBase] with the timeout of every attempt. *)
Definition claimRequest (accessToken : string) (geoLocale : string) : ClaimRequest :=
  mkClaimRequest ("Bearer " +++ accessToken) geoLocale
                 (orDefault (axiosTimeoutMs (settings w)) 15000).

(** The [try] of one attempt; it ends in the [return] of the function. *)
Definition attemptClaim (claim : ClaimRequest) (attempt : Z) : Run (option string) :=
  say ("Attempt " +++ Js.showZ attempt +++ " to claim daily check-in") LLog ;;
  claimedPoint <- request claim ;;
  (if claimedPoint >? 0
   then say ("Claimed " +++ Js.showZ claimedPoint +++ " points") LLog
   else say alreadyClaimed LLog) ;;
  Task.pure None.

(** The [catch] of one attempt: the exponential backoff, not after the
    last attempt. *)
Definition attemptFailed (attempt : Z) (err : string) : Run (option string) :=
  say ("Claim attempt " +++ Js.showZ attempt +++ " failed: " +++ err) LWarn ;;
  (if attempt <? maxRetries then
     let backoffBase := baseBackoff * 2 ^ (attempt - 1) in
     jitter <- randomNumber 0 backoffBase ;;
     let waitMs := backoffBase + jitter in
     say ("Waiting " +++ Js.showZ waitMs +++ "ms before retry " +++ Js.showZ (attempt + 1)) LLog ;;
     sleep waitMs
   else Task.pure tt) ;;
  Task.pure (Some err).

(** [while (attempt < maxRetries)] and the log that follows it.  [fuel]
    bounds the passes of the model. *)
Fixpoint claimLoop (fuel : nat) (claim : ClaimRequest) (attempt : Z)
         (lastError : option string) : Run unit :=
  match fuel with
  | O => Task.noFuel
  | S fuel' =>
      if attempt <? maxRetries then
        let attempt := attempt + 1 in
        caught <- Task.catching (attemptClaim claim attempt) (attemptFailed attempt) ;;
        match caught with
        | None => Task.pure tt
        | Some err => claimLoop fuel' claim attempt (Some err)
        end
      else
        say ("Failed to claim after " +++ Js.showZ maxRetries +++ " attempts: "
             +++ shown lastError) LError
  end.

(** The body of the outer [try]. *)
Definition claimPoints (accessToken : string) (country : option string) : Run unit :=
  let geoLocale := geoLocaleOf country in
  let minDelay := orDefault (dailyCheckInMinDelayMs (settings w)) DEFAULT_MIN_DELAY_MS in
  let maxDelay := orDefault (dailyCheckInMaxDelayMs (settings w)) DEFAULT_MAX_DELAY_MS in
  initialWait <- randomNumber minDelay maxDelay ;;
  say ("Waiting " +++ Js.showZ initialWait +++ "ms before claim (humanized)") LLog ;;
  sleep initialWait ;;
  claimLoop (S (Z.to_nat maxRetries)) (claimRequest accessToken geoLocale) 0 None.

Definition doDailyCheckIn (accessToken : string) (country : option string) : Run unit :=
  say "Starting Daily Check In" LLog ;;
  Task.catching (claimPoints accessToken country)
           (fun error => say ("An error occurred: " +++ error) LError).

End Protocol.

End DailyCheckIn.

(* ===================================================================== *)
(** * The points of the mobile app (src/browser/BrowserFunc.ts:
      getAppEarnablePoints) *)
(* ===================================================================== *)

Module AppPoints.

Definition tag : string := "GET-APP-EARNABLE-POINTS".

(** The numbers [parseInt] and [getDate] give: an integer, or [NaN]. *)
Inductive Num := NaN | Int (z : Z).

Definition add (a b : Num) : Num :=
  match a, b with
  | Int x, Int y => Int (x + y)
  | _, _ => NaN
  end.

Definition sub (a b : Num) : Num :=
  match a, b with
  | Int x, Int y => Int (x - y)
  | _, _ => NaN
  end.

(** [a % m]: the sign of the dividend. *)
Definition rem (a : Num) (m : Z) : Num :=
  match a with
  | Int x => Int (Z.rem x m)
  | NaN => NaN
  end.

(** [a < m]: false on [NaN]. *)
Definition lt (a : Num) (m : Z) : bool :=
  match a with
  | Int x => x <? m
  | NaN => false
  end.

(** [a != b]: true as soon as one is [NaN]. *)
Definition differ (a b : Num) : bool :=
  match a, b with
  | Int x, Int y => negb (x =? y)
  | _, _ => true
  end.

(** The text of a number in a string concatenation. *)
Definition shownNum (a : Num) : string :=
  match a with
  | Int z => Js.showZ z
  | NaN => "NaN"
  end.

(** [item.attributes]: the value under each key, [None] when absent. *)
Definition Attributes : Type := string -> option string.

(** A promotion of the response; [None] is one without [attributes]. *)
Definition Promotion : Type := option Attributes.

(** The [data] of a response. *)
Inductive UserData :=
| Malformed                                           (* no data, or no [response] in it *)
| Promotions (promotions : option (list Promotion)).  (* [response.promotions] *)

(** The request, less its constant fields; [relaxedSSL] is the
    [httpsAgent] with [rejectUnauthorized: false]. *)
Record UserDataRequest := mkUserDataRequest {
  authorization : string;
  rewardsCountry : string;
  relaxedSSL : bool
}.

(** How a request settles: with the [data] of the response, or with an
    error object, of which the code reads [message] (empty when absent)
    and [code], and logs the text. *)
Inductive Reply :=
| Replied (data : UserData)
| Failed (message : string) (code : option string) (text : string).

(** The local [points]. *)
Record Points := mkPoints {
  readToEarn : Num;
  checkIn : Num;
  totalEarnablePoints : Num
}.

(** What the function returns: [{ ...points, fetchError }]. *)
Record Earnable := mkEarnable {
  points : Points;
  fetchError : bool
}.

Inductive Did :=
| Said (msg : string) (lvl : Level)
| Slept (ms : Z)
| LoadedDashboard                       (* await this.getDashboardData() *)
| Requested (r : UserDataRequest).      (* await this.bot.axios.request(r) *)

(** The collaborators; a first argument of type [nat] is the clock of
    the read. *)
Record World := mkWorld {
  useGeoLocaleQueries : bool;                (* config.searchSettings.useGeoLocaleQueries *)
  random15001 : nat -> Z;                    (* Math.floor(Math.random() * 15001) *)
  dashboardCountry : nat -> Answer (option string);
                                             (* the [userProfile.attributes.country] of
                                                [getDashboardData()], [None] when it is
                                                undefined; rejected when that throws *)
  axiosRequest : nat -> UserDataRequest -> Reply;
  parseInt : string -> Num;
  dateToday : nat -> Num;                    (* (new Date()).getDate() *)
  dateOf : string -> Num                     (* (new Date(s)).getDate() *)
}.

Definition Run : Type -> Type := Task.Run Did.

Local Open Scope task_scope.

Definition eligibleOffers : list string :=
  ["ENUS_readarticle3_30points"; "Gamification_Sapphire_DailyCheckIn"].

Definition noPoints : Points := mkPoints (Int 0) (Int 0) (Int 0).

(** [item.attributes[key] ?? '']. *)
Definition attr (item : Attributes) (key : string) : string :=
  match item key with
  | Some v => v
  | None => ""
  end.

(** [item.attributes[key] === v]. *)
Definition attrIs (item : Attributes) (key v : string) : bool :=
  match item key with
  | Some s => (s =? v)%string
  | None => false
  end.

Definition codeIs (code : option string) (v : string) : bool :=
  match code with
  | Some c => (c =? v)%string
  | None => false
  end.

Definition isCertError (message : string) (code : option string) : bool :=
  let msg := Js.toLowerCase message in
  Js.includes "unable to verify the first certificate" msg ||
  Js.includes "self signed certificate" msg ||
  Js.includes "unable to get local issuer certificate" msg ||
  codeIs code "DEPTH_ZERO_SELF_SIGNED_CERT" ||
  codeIs code "UNABLE_TO_VERIFY_LEAF_SIGNATURE" ||
  codeIs code "ERR_TLS_CERT_ALTNAME_INVALID".

(** [promotions.filter(x => eligibleOffers.includes(x.attributes.offerid ?? ''))];
    [None] is the TypeError of a promotion without [attributes]. *)
Fixpoint eligibleActivities (promotions : list Promotion) : option (list Attributes) :=
  match promotions with
  | [] => Some []
  | None :: _ => None
  | Some item :: rest =>
      match eligibleActivities rest with
      | None => None
      | Some l => Some (if Js.mem (attr item "offerid") eligibleOffers then item :: l else l)
      end
  end.

Definition noAttributes : string :=
  "TypeError: Cannot read properties of undefined (reading 'offerid')".
Definition noCountry : string :=
  "TypeError: Cannot read properties of undefined (reading 'length')".
Definition noPromotions : string :=
  "TypeError: Cannot read properties of undefined (reading 'filter')".

Section Protocol.

Variable w : World.

Definition say (msg : string) (lvl : Level) : Run unit :=
  fun t => (Ok tt, t, [Said msg lvl]).

Definition sleep (ms : Z) : Run unit :=
  fun t => (Ok tt, t, [Slept ms]).

Definition getDashboardData : Run (option string) :=
  fun t => (settled (dashboardCountry w t), S t, [LoadedDashboard]).

Definition request (r : UserDataRequest) : Run Reply :=
  fun t => (Ok (axiosRequest w t r), S t, [Requested r]).

Definition today : Run Num :=
  fun t => (Ok (dateToday w t), S t, []).

(** [quietDelay]: 30000 + floor(random * 15001) ms. *)
Definition quietDelay : Run unit :=
  fun t => (Ok tt, S t, [Slept (30000 + random15001 w t)]).

(** The request and its one retry; [None] is the return with
    [fetchError: true] out of the handler. *)
Definition fetchUserData (userDataRequest : UserDataRequest) : Run (option UserData) :=
  reply <- request userDataRequest ;;
  match reply with
  | Replied data => Task.pure (Some data)
  | Failed message code text =>
      if isCertError message code then
        say "Certificate verification failed — retrying once with relaxed SSL (insecure)." LWarn ;;
        let insecureRequest :=
          mkUserDataRequest (authorization userDataRequest)
                            (rewardsCountry userDataRequest) true in
        retry <- request insecureRequest ;;
        match retry with
        | Replied data =>
            say "Retry with relaxed SSL succeeded." LLog ;;
            Task.pure (Some data)
        | Failed _ _ retryText =>
            say ("Retry with relaxed SSL failed: " +++ retryText) LError ;;
            Task.pure None
        end
      else
        say ("Failed fetching user data: " +++ text) LError ;;
        Task.pure None
  end.

(** [for (const item of eligibleActivities)]: both kinds of offer end
    the loop with a [break]. *)
Fixpoint scan (items : list Attributes) (points : Points) : Run Points :=
  match items with
  | [] => Task.pure points
  | item :: rest =>
      if attrIs item "type" "msnreadearn" then
        Task.pure (mkPoints (sub (parseInt w (attr item "pointmax"))
                                 (parseInt w (attr item "pointprogress")))
                            (checkIn points) (totalEarnablePoints points))
      else if attrIs item "type" "checkin" then
        let checkInDay := rem (parseInt w (attr item "progress")) 7 in
        if lt checkInDay 6 then
          now <- today ;;
          if differ now (dateOf w (attr item "last_updated")) then
            Task.pure (mkPoints (readToEarn points)
                                (parseInt w (attr item ("day_" +++ shownNum (add checkInDay (Int 1))
                                                        +++ "_points")))
                                (totalEarnablePoints points))
          else Task.pure points
        else Task.pure points
      else scan rest points
  end.

(** What follows the request: the checks of the response and the
    count of the offers. *)
Definition countOffers (fetched : option UserData) (points : Points) : Run Earnable :=
  match fetched with
  | None => Task.pure (mkEarnable points true)
  | Some Malformed =>
      say "User data response missing or malformed" LWarn ;;
      Task.pure (mkEarnable points true)
  | Some (Promotions None) => Task.raise noPromotions
  | Some (Promotions (Some promotions)) =>
      match eligibleActivities promotions with
      | None => Task.raise noAttributes
      | Some items =>
          points <- scan items points ;;
          let points :=
            mkPoints (readToEarn points) (checkIn points)
                     (add (readToEarn points) (checkIn points)) in
          Task.pure (mkEarnable points false)
      end
  end.

(** [geoLocale], of the [country] of the dashboard data. *)
Definition geoLocaleOf (country : option string) : Run string :=
  if useGeoLocaleQueries w then
    match country with
    | None => Task.raise noCountry
    | Some geoLocale =>
        Task.pure (if (String.length geoLocale =? 2)%nat
                   then Js.toLowerCase geoLocale else "us")
    end
  else Task.pure "us".

(** The body of the [try]. *)
Definition collect (accessToken : string) : Run Earnable :=
  quietDelay ;;
  let points := noPoints in
  country <- getDashboardData ;;
  geoLocale <- geoLocaleOf country ;;
  let userDataRequest := mkUserDataRequest ("Bearer " +++ accessToken) geoLocale false in
  fetched <- fetchUserData userDataRequest ;;
  countOffers fetched points.

Definition getAppEarnablePoints (accessToken : string) : Run Earnable :=
  Task.catching (collect accessToken)
    (fun error =>
       say ("An error occurred: " +++ error) LError ;;
       Task.pure (mkEarnable noPoints true)).

End Protocol.

End AppPoints.

(* ===================================================================== *)
(** * The runs of one account (unnamed/part_001 and part_002: index.ts,
      MicrosoftRewardsBot.Desktop and Mobile) *)
(* ===================================================================== *)

Module Bot.

(** The awaited calls on the collaborators of the bot. *)
Inductive Call :=
| CreateBrowser            (* this.browserFactory.createBrowser(proxy, email) *)
| NewPage                  (* browser.newPage() *)
| Login                    (* this.login.login(homePage, email, password) *)
| GetMobileAccessToken     (* this.login.getMobileAccessToken(homePage, email) *)
| GoHome                   (* this.browser.func.goHome(page) *)
| GetDashboardData
| GetBrowserEarnablePoints
| GetAppEarnablePoints
| DoDailySet
| DoMorePromotions
| DoPunchCard
| DoSearch
| DoDailyCheckIn
| DoReadToEarn
| GetSearchPoints
| GetCurrentPoints
| SaveSessionData
| CloseBrowser.            (* this.browser.func.closeBrowser(browser, email) *)

Inductive Did :=
| Called (c : Call)
| Said (tag msg : string) (lvl : Level).

(** The parts of the dashboard data the two runs read. *)
Record Dashboard := mkDashboard {
  availablePoints : Z;                (* userStatus.availablePoints *)
  hasMobileSearch : bool              (* userStatus.counters.mobileSearch is there *)
}.

Record EarnablePoints := mkEarnablePoints {
  dailySetPoints : Z;
  morePromotionsPoints : Z;
  desktopSearchPoints : Z;
  mobileSearchPoints : Z
}.

(** A counter of the search points. *)
Record Counter := mkCounter { counterMax : Z; counterProgress : Z }.

(** The configuration and the collaborators; a first argument of type
    [nat] is the clock of the call or of the read.  [rejects t c] is
    the error of the call [c] issued at [t], when it rejects; the
    other fields give what a call that resolves returns. *)
Record World := mkWorld {
  runOnZeroPoints : bool;
  doDailySet : bool;
  doMorePromotions : bool;
  doPunchCards : bool;
  doDesktopSearch : bool;
  doDailyCheckIn : bool;
  doReadToEarn : bool;
  doMobileSearch : bool;
  retryMobileSearchAmount : Z;
  rejects : nat -> Call -> option string;
  doLater : nat -> bool;                     (* account.doLater, read after the login *)
  dashboardData : nat -> Dashboard;
  browserEarnablePoints : nat -> EarnablePoints;
  appEarnablePoints : nat -> AppPoints.Num;  (* its totalEarnablePoints *)
  firstMobileSearch : nat -> option Counter; (* (getSearchPoints()).mobileSearch?.[0] *)
  currentPoints : nat -> Z
}.

(** The fields of the bot that one run leaves to the next. *)
Record Fields := mkFields {
  pointsInitial : Z;
  mobileRetryAttempts : Z
}.

Definition Run : Type -> Type := Task.Run Did.

Local Open Scope task_scope.

Definition quoted (s : string) : string :=
  String Js.dquote (s +++ String Js.dquote EmptyString).

Definition stopping : string :=
  "No points to earn and " +++ quoted "runOnZeroPoints" +++ " is set to "
  +++ quoted "false" +++ ", stopping!".

Definition tooNew : string :=
  "Unable to fetch search points, your account is most likely too " +++ quoted "new"
  +++ " for this! Try again later!".

(** [counter && (counter.pointProgressMax - counter.pointProgress) > 0]. *)
Definition pointsLeft (counter : option Counter) : bool :=
  match counter with
  | Some c => counterMax c - counterProgress c >? 0
  | None => false
  end.

(** [n === 0]. *)
Definition isZero (n : AppPoints.Num) : bool :=
  match n with
  | AppPoints.Int z => z =? 0
  | AppPoints.NaN => false
  end.

(** How the part of [Mobile] that searches ends: with the [return] of
    the function, or at the statement after it. *)
Inductive Ending := Returned (fields : Fields) | Onward (fields : Fields).

Section Runs.

Variable w : World.

(** An awaited call, of which the value is not used or is read by
    [value]. *)
Definition call {A} (c : Call) (value : nat -> A) : Run A :=
  fun t =>
    (match rejects w t c with
     | Some e => Throw e
     | None => Ok (value t)
     end, S t, [Called c]).

Definition await (c : Call) : Run unit := call c (fun _ => tt).

Definition say (tag msg : string) (lvl : Level) : Run unit :=
  fun t => (Ok tt, t, [Said tag msg lvl]).

Definition readDoLater : Run bool :=
  fun t => (Ok (doLater w t), S t, []).

(** [if (b) { await ... }]. *)
Definition whenSet (b : bool) (m : Run unit) : Run unit :=
  if b then m else Task.pure tt.

Definition Desktop (email : string) (fields : Fields) : Run Fields :=
  await CreateBrowser ;;
  await NewPage ;;
  say "MAIN" "Starting browser" LLog ;;
  await Login ;;
  later <- readDoLater ;;
  if later then
    say "MAIN" ("Login failed for " +++ email +++ ". Skipping Desktop tasks and continuing.")
        LWarn ;;
    await CloseBrowser ;;
    Task.pure fields
  else
    await GoHome ;;
    data <- call GetDashboardData (dashboardData w) ;;
    let fields := mkFields (availablePoints data) (mobileRetryAttempts fields) in
    say "MAIN-POINTS" ("Current point count: " +++ Js.showZ (pointsInitial fields)) LLog ;;
    browserEnarablePoints <- call GetBrowserEarnablePoints (browserEarnablePoints w) ;;
    let pointsCanCollect :=
      dailySetPoints browserEnarablePoints + desktopSearchPoints browserEnarablePoints
      + morePromotionsPoints browserEnarablePoints in
    say "MAIN-POINTS" ("You can earn " +++ Js.showZ pointsCanCollect +++ " points today") LLog ;;
    if (negb (runOnZeroPoints w) && (pointsCanCollect =? 0))%bool then
      say "MAIN" stopping LLog ;;
      await CloseBrowser ;;
      Task.pure fields
    else
      await NewPage ;;
      await GoHome ;;
      whenSet (doDailySet w) (await DoDailySet) ;;
      whenSet (doMorePromotions w) (await DoMorePromotions) ;;
      whenSet (doPunchCards w) (await DoPunchCard) ;;
      whenSet (doDesktopSearch w) (await DoSearch) ;;
      await SaveSessionData ;;
      await CloseBrowser ;;
      Task.pure fields.

(** The mobile searches of one pass and the decision to retry;
    [again] is [this.Mobile(account)]. *)
Definition mobileSearches (again : Fields -> Run Fields) (data : Dashboard)
           (fields : Fields) : Run Ending :=
  if doMobileSearch w then
    if hasMobileSearch data then
      await NewPage ;;
      await GoHome ;;
      await DoSearch ;;
      mobileSearchPoints <- call GetSearchPoints (firstMobileSearch w) ;;
      let fields :=
        if pointsLeft mobileSearchPoints
        then mkFields (pointsInitial fields) (mobileRetryAttempts fields + 1)
        else fields in
      if mobileRetryAttempts fields >? retryMobileSearchAmount w then
        say "MAIN" ("Max retry limit of " +++ Js.showZ (retryMobileSearchAmount w)
                    +++ " reached. Exiting retry loop") LWarn ;;
        Task.pure (Onward fields)
      else if negb (mobileRetryAttempts fields =? 0) then
        say "MAIN" ("Attempt " +++ Js.showZ (mobileRetryAttempts fields) +++ "/"
                    +++ Js.showZ (retryMobileSearchAmount w)
                    +++ ": Unable to complete mobile searches, bad User-Agent? Increase search delay? Retrying...")
            LLog ;;
        await CloseBrowser ;;
        fields <- again fields ;;
        Task.pure (Returned fields)
      else Task.pure (Onward fields)
    else
      say "MAIN" tooNew LWarn ;;
      Task.pure (Onward fields)
  else Task.pure (Onward fields).

(** [Mobile]; [fuel] bounds the depth of its calls of itself. *)
Fixpoint Mobile (fuel : nat) (email : string) (fields : Fields) : Run Fields :=
  match fuel with
  | O => Task.noFuel
  | S fuel' =>
      await CreateBrowser ;;
      await NewPage ;;
      say "MAIN" "Starting browser" LLog ;;
      await Login ;;
      later <- readDoLater ;;
      if later then
        say "MAIN" ("Login failed for " +++ email +++ ". Skipping Mobile tasks and continuing.")
            LWarn ;;
        await CloseBrowser ;;
        Task.pure fields
      else
        await GetMobileAccessToken ;;
        await GoHome ;;
        data <- call GetDashboardData (dashboardData w) ;;
        browserEnarablePoints <- call GetBrowserEarnablePoints (browserEarnablePoints w) ;;
        appEarnablePoints <- call GetAppEarnablePoints (appEarnablePoints w) ;;
        let pointsCanCollect :=
          AppPoints.add (AppPoints.Int (mobileSearchPoints browserEnarablePoints))
                        appEarnablePoints in
        say "MAIN-POINTS"
            ("You can earn " +++ AppPoints.shownNum pointsCanCollect
             +++ " points today (Browser: "
             +++ Js.showZ (mobileSearchPoints browserEnarablePoints)
             +++ " points, App: " +++ AppPoints.shownNum appEarnablePoints +++ " points)")
            LLog ;;
        if (negb (runOnZeroPoints w) && isZero pointsCanCollect)%bool then
          say "MAIN" stopping LLog ;;
          await CloseBrowser ;;
          Task.pure fields
        else
          whenSet (doDailyCheckIn w) (await DoDailyCheckIn) ;;
          whenSet (doReadToEarn w) (await DoReadToEarn) ;;
          ending <- mobileSearches (Mobile fuel' email) data fields ;;
          match ending with
          | Returned fields => Task.pure fields
          | Onward fields =>
              afterPointAmount <- call GetCurrentPoints (currentPoints w) ;;
              say "MAIN-POINTS"
                  ("The script collected "
                   +++ Js.showZ (afterPointAmount - pointsInitial fields)
                   +++ " points today") LLog ;;
              await CloseBrowser ;;
              Task.pure fields
          end
  end.

End Runs.

End Bot.

(* ===================================================================== *)
(** * Concrete documents and environments used by the examples *)
(* ===================================================================== *)

Module Sample.

Definition box100 : Dom.Rect := Dom.mkRect 0 0 100 50.

(** The element the click aims at. *)
Definition target : Dom.Element :=
  Dom.mkElement None false None "block" false "1" "static" None box100.

(** A fixed overlay over the target, shown by its style sheet. *)
Definition overlay : Dom.Element :=
  Dom.mkElement None false None "block" false "1" "fixed" None (Dom.mkRect 10 10 300 200).

(** A fixed dialog over the target that its style sheet hides and an
    inline [display: block] shows. *)
Definition dialog : Dom.Element :=
  Dom.mkElement None false (Some ("block", false)) "none" false "1" "fixed" (Some 1000)
                (Dom.mkRect 10 10 300 200).

Definition pageWithOverlay : Dom.DOM := [target; overlay].
Definition pageWithDialog : Dom.DOM := [target; dialog].

Definition defaultConfig : Config := mkConfig "https://rewards.bing.com/" true None None None None.

(** An environment from the settlement of the awaited calls; the
    synchronous reads get fixed answers: the lower bound for a random
    number, one open tab, the same URL for every page. *)
Definition envOf (answers : nat -> forall op : Op, Answer (RespT op)) : Env :=
  mkEnv answers (fun _ lo _ => lo) (fun _ _ => "https://rewards.bing.com/")
        (fun _ _ => 1%nat) (fun _ => "01/02/2024")
        (fun _ l => hd EmptyString l) (fun s => s) defaultConfig.

(** A page on which nothing is found and nothing fails: waits resolve,
    queries find no element, no popup and no navigation follow a click. *)
Definition calmAsk (n : nat) (op : Op) : Answer (RespT op) :=
  match op with
  | WaitForSelector _ _ _ _ => Resolves 0%nat
  | Query _ _ => Resolves None
  | BoundingBox _ => Resolves None
  | EvalStyle _ _ => Resolves (mkStyleInfo "block" "visible" "1" false)
  | EvalHide _ _ => Resolves None
  | EvalPointLinks _ => Resolves []
  | EvalDailyCandidates _ => Resolves []
  | ContextWaitForPage _ _ => Rejects "TimeoutError"
  | WaitForNavigation _ _ => Rejects "TimeoutError"
  | EvalClick _ _ => Resolves false
  | GetAttribute _ _ => Resolves None
  | GetLatestTab p => Resolves p
  | GetQuizData _ => Resolves None
  | LoadInCheerio _ => Resolves (mkCheerio 0 [])
  | FindOfferCta _ _ => Resolves None
  | LoadQueries _ => Resolves []
  | _ => Resolves tt
  end.

Definition calm : Env := envOf calmAsk.

(** A page whose click target exists with a box, is hidden by its
    style ([visibility: hidden]) and is the first element of the
    document; clicks on it go through. *)
Definition coveredAsk (n : nat) (op : Op) : Answer (RespT op) :=
  match op with
  | Query _ _ => Resolves (Some 0%nat)
  | BoundingBox _ => Resolves (Some (mkBox 0 0 100 50))
  | EvalStyle _ _ => Resolves (mkStyleInfo "block" "hidden" "1" false)
  | EvalHide _ _ => Resolves (Some 0%nat)
  | other => calmAsk n other
  end.

Definition covered : Env := envOf coveredAsk.

Definition start (d : Dom.DOM) : State := mkState 0 d 0%nat 0%nat.

(** Activities for the flows. *)
Definition quizOf (id : string) (done : bool) (points : Z) : Activity :=
  mkActivity id id ("Title " +++ id) "quiz" points 0 "https://www.bing.com/" done EmptyString.

Definition zeroPointChild : Activity := quizOf "child-1" false 0.
Definition parent : Activity := quizOf "parent" false 100.

Definition cardData : DashboardData :=
  mkDashboardData [] (Some [mkPunchCard "card" (Some parent) [zeroPointChild]]) [] None.

(** Two activities for the per-activity loop. *)
Definition first : Activity := quizOf "first" false 30.
Definition second : Activity := quizOf "second" false 30.

(** A quiz question with two options, [A] and [B], of which [B] is the
    correct answer; the options are on the page and clicks go through. *)
Definition twoOptions : QuizData := mkQuizData (Some 1) (Some 0) (Some 2) "B".

Definition optionHandle (i : nat) : Handle := i.

Definition optionToken (i : nat) : option string :=
  Some (if (i =? 1)%nat then "B" else "A").

Definition quizAsk (n : nat) (op : Op) : Answer (RespT op) :=
  match op with
  | GetQuizData _ => Resolves (Some twoOptions)
  | WaitForSelector _ sel _ _ =>
      Resolves (if (sel =? "#rqAnswerOption1")%string then 1%nat else 0%nat)
  | GetAttribute h _ => Resolves (optionToken h)
  | Query _ _ => Resolves (Some 1%nat)
  | BoundingBox _ => Resolves (Some (mkBox 0 0 100 50))
  | other => calmAsk n other
  end.

Definition quizPage : Env := envOf quizAsk.

(** A multi-answer question with eight options of which the second and
    the fifth are flagged correct. *)
Definition optionIndex (sel : string) : nat :=
  match find (fun i => (sel =? "#rqAnswerOption" +++ Js.showNat i)%string) (seq 0 8) with
  | Some i => i
  | None => 0%nat
  end.

Definition optionFlag (i : nat) : option string :=
  Some (if ((i =? 1) || (i =? 4))%nat then "True" else "False").

Definition eightAsk (n : nat) (op : Op) : Answer (RespT op) :=
  match op with
  | WaitForSelector _ sel _ _ => Resolves (optionIndex sel)
  | GetAttribute h _ => Resolves (optionFlag h)
  | other => calmAsk n other
  end.

Definition eightOptions : Env := envOf eightAsk.

(** A URL parser for the examples: every string is a URL whose [href]
    is the string itself and whose host name is the same for all. *)
Definition urlOf (s : string) : BrowserNav.Parsed :=
  BrowserNav.Valid (BrowserNav.mkUrl s "rewards.bing.com").

(** A page that is elsewhere and shows the header of a suspended
    account. *)
Definition suspendedEnv : Env :=
  mkEnv calmAsk (fun _ lo _ => lo) (fun _ _ => "https://www.bing.com/")
        (fun _ _ => 1%nat) (fun _ => "01/02/2024")
        (fun _ l => hd EmptyString l) (fun s => s) defaultConfig.

(** The configuration that sets none of the fields of the check-in, and
    a server that rejects every request. *)
Definition noSettings : DailyCheckIn.Settings :=
  DailyCheckIn.mkSettings true None None None None None.

Definition refusingWorld : DailyCheckIn.World :=
  DailyCheckIn.mkWorld noSettings (fun _ lo _ => lo)
                       (fun _ _ => Rejects "AxiosError: Network Error").

(** A bot with every worker on and 3 retries of the mobile searches,
    whose collaborators all resolve; [counter] is what every check of
    the search points finds. *)
Definition steadyBot (counter : option Bot.Counter) : Bot.World :=
  Bot.mkWorld true true true true true true true true 3
              (fun _ _ => None) (fun _ => false)
              (fun _ => Bot.mkDashboard 100 true)
              (fun _ => Bot.mkEarnablePoints 10 10 30 60)
              (fun _ => AppPoints.Int 15)
              (fun _ => counter)
              (fun _ => 100).

Definition searchesDone : option Bot.Counter := Some (Bot.mkCounter 60 60).
Definition searchesStuck : option Bot.Counter := Some (Bot.mkCounter 60 0).

(** Eight options of which the second, the fifth and the seventh are
    flagged correct, on a page where the second never shows and the
    attribute of the fifth cannot be read. *)
Definition patchyShown (i : nat) : option Handle :=
  if (i =? 1)%nat then None else Some i.

Definition patchyFlag (i : nat) : option (option string) :=
  if (i =? 4)%nat then None
  else Some (Some (if ((i =? 1) || (i =? 6))%nat then "True" else "False")).

Definition patchyAsk (n : nat) (op : Op) : Answer (RespT op) :=
  match op with
  | WaitForSelector _ sel _ _ =>
      match patchyShown (optionIndex sel) with
      | Some h => Resolves h
      | None => Rejects "TimeoutError: page.waitForSelector: Timeout 10000ms exceeded."
      end
  | GetAttribute h _ =>
      match patchyFlag h with
      | Some a => Resolves a
      | None => Rejects "Error: Execution context was destroyed"
      end
  | other => calmAsk n other
  end.

Definition patchyOptions : Env := envOf patchyAsk.

(** A quiz page whose options refuse the locator click: the click times
    out, the click by evaluation that follows goes through. *)
Definition stubbornAsk (n : nat) (op : Op) : Answer (RespT op) :=
  match op with
  | LocatorClick _ _ _ false =>
      Rejects "TimeoutError: locator.click: Timeout 12000ms exceeded."
  | EvalClick _ _ => Resolves true
  | other => quizAsk n other
  end.

Definition stubbornOptions : Env := envOf stubbornAsk.

(** A quiz page that has dropped the option when the click looks for
    it, while a point link of the dashboard can be clicked. *)
Definition pointLinkCandidate : string :=
  "div .pointLink:not(.contentContainer .pointLink):nth-of-type(1)".

Definition goneAsk (n : nat) (op : Op) : Answer (RespT op) :=
  match op with
  | Query _ sel =>
      Resolves (if (sel =? pointLinkCandidate)%string then Some 7%nat else None)
  | EvalDailyCandidates _ => Resolves [pointLinkCandidate]
  | other => quizAsk n other
  end.

Definition optionGone : Env := envOf goneAsk.

(** A positioned badge inside the overlay, over the target as well. *)
Definition badge : Dom.Element :=
  Dom.mkElement (Some 1%nat) false None "block" false "1" "absolute" None
                (Dom.mkRect 20 20 40 40).

Definition pageWithBadge : Dom.DOM := [target; overlay; badge].

(** A query list with one entry, and a title that a no-break space
    (U+00A0, the bytes C2 A0) precedes. *)
Definition noBreakSpace : string :=
  String (ascii_of_nat 194) (String (ascii_of_nat 160) EmptyString).

Definition skyQueries : list (string * list string) :=
  [("Sky Facts", ["why is the sky blue"; "how high is the sky"])].

Definition skyAsk (n : nat) (op : Op) : Answer (RespT op) :=
  match op with
  | LoadQueries _ => Resolves skyQueries
  | other => calmAsk n other
  end.

Definition skyLibrary : Env := envOf skyAsk.

End Sample.

(* ===================================================================== *)
(** * Vocabulary of the specifications *)
(* ===================================================================== *)

(** A selector scoped by an attribute test starts with a bracket. *)
Definition bracketed (s : string) : Prop := exists r, s = String "["%char r.

(** [may Q m]: a run of [m] never runs out of fuel, and a value it
    resolves with satisfies [Q]; it may throw.  [returns Q m]: every run
    resolves with a value that satisfies [Q]. *)
Definition may {A} (Q : A -> Prop) (m : M A) : Prop :=
  forall s, match result m s with
            | Ok a => Q a
            | Throw _ => True
            | OutOfFuel => False
            end.

Definition returns {A} (Q : A -> Prop) (m : M A) : Prop :=
  forall s, match result m s with
            | Ok a => Q a
            | _ => False
            end.

Definition anything {A} : A -> Prop := fun _ => True.

(** A click result is a success or a failure whose reason is one of
    [allowed]. *)
Definition outcomeIn (allowed : list string) (res : ClickResult) : Prop :=
  success res = true \/
  (success res = false /\ exists r, reason res = Some r /\ In r allowed).

(** The two loops hand back only results that succeeded. *)
Definition onlySuccess (o : option ClickResult) : Prop :=
  forall res, o = Some res -> success res = true.

Definition quizReasons : list string := ["no-candidates"; "max-retries"].

(** The reasons one attempt of the Quiz click can fail with. *)
Definition onceReasons : list string := ["not-found"; "zero-bounding-box"; "click-failed"].

Definition checkReasons : list string := ["not-found"; "zero-bounding-box"; "css-hidden"].
Definition attemptReasons : list string :=
  ["not-found"; "zero-bounding-box"; "css-hidden"; "click-failed"].
Definition clickReasons : list string :=
  ["not-found"; "zero-bounding-box"; "css-hidden"; "click-failed"; "max-retries"].

(** An early return of the checks is a failure with one of the three
    reasons of the checks. *)
Definition earlyFailure (o : option ClickResult) : Prop :=
  forall r, o = Some r -> exists x, r = failure x /\ In x checkReasons.

(** [emits P m]: every event a run of [m] records satisfies [P]. *)
Definition emits {A} (P : Event -> Prop) (m : M A) : Prop :=
  forall s, Forall P (events m s).

(** The activities whose selector resolution a run entered. *)
Fixpoint resolved (evs : list Event) : list Activity :=
  match evs with
  | [] => []
  | Resolving a :: rest => a :: resolved rest
  | _ :: rest => resolved rest
  end.

(** [resolvesOnly ok] restricts the resolution events to the activities
    that satisfy [ok], and nothing else. *)
Definition resolvesOnly (ok : Activity -> Prop) (ev : Event) : Prop :=
  match ev with
  | Resolving a => ok a
  | _ => True
  end.

(** [keeps proj m]: a run of [m] leaves the component [proj] of the
    state as it found it. *)
Definition keeps {A X} (proj : State -> X) (m : M A) : Prop :=
  forall s, proj (final m s) = proj s.

(** [closedOn pg C m]: when a run of [m] resolves with a value that
    satisfies [C], it has called [close] on the page [pg] reads off its
    final state. *)
Definition closedOn {A} (pg : State -> Page) (C : A -> Prop) (m : M A) : Prop :=
  forall s, match result m s with
            | Ok a => C a -> In (Called (Close (pg (final m s)))) (events m s)
            | _ => True
            end.

(** [alwaysCloses pg m]: every run of [m], however it settles, has
    called [close] on that page. *)
Definition alwaysCloses {A} (pg : State -> Page) (m : M A) : Prop :=
  forall s, In (Called (Close (pg (final m s)))) (events m s).

(** [closes pg m]: every run of [m] that settles (resolves or throws)
    has called [close] on that page. *)
Definition closes {A} (pg : State -> Page) (m : M A) : Prop :=
  forall s, result m s <> OutOfFuel ->
            In (Called (Close (pg (final m s)))) (events m s).

Definition isReturn (c : Ctl) : Prop := c = Return.

(** The same, for the run from one state. *)
Definition closedAt {A} (pg : State -> Page) (C : A -> Prop) (m : M A) (s : State) : Prop :=
  match result m s with
  | Ok a => C a -> In (Called (Close (pg (final m s)))) (events m s)
  | _ => True
  end.

(** A count of remaining questions that is at most [B] (NaN counts). *)
Definition within (B : Z) (remaining : option Z) : Prop :=
  forall r, remaining = Some r -> r <= B.

(** The page never reports more than [B] questions left. *)
Definition quizBounded `{Env} (B : Z) : Prop :=
  forall n p qd r,
    ask n (GetQuizData p) = Resolves (Some qd) -> Quiz.remaining qd = Some r -> r <= B.

(** The wait for the options of a question opens each pass of the ABC
    loop; counting these waits counts the passes. *)
Definition isQuestionWait (ev : Event) : bool :=
  match ev with
  | Called (WaitForSelector _ sel Visible _) => (sel =? ".wk_OptionClickClass")%string
  | _ => false
  end.

Definition questionWaits (evs : list Event) : nat := length (filter isQuestionWait evs).

Definition notQuestionWait (ev : Event) : Prop := isQuestionWait ev = false.

(** [atMost n m]: no run of [m] opens more than [n] passes. *)
Definition atMost {A} (n : nat) (m : M A) : Prop :=
  forall s, (questionWaits (events m s) <= n)%nat.

Definition isErrorLog (ev : Event) : bool :=
  match ev with
  | Logged _ _ LError => true
  | _ => false
  end.

(** The events that click on the page: [page.click], [locator.click],
    the click an evaluate callback performs and the mouse click. *)
Definition isClick (ev : Event) : bool :=
  match ev with
  | Called (Click _ _) => true
  | Called (LocatorClick _ _ _ _) => true
  | Called (EvalClick _ _) => true
  | Called (MouseClickCenter _ _) => true
  | _ => false
  end.

Definition clicksOf (evs : list Event) : list Event := filter isClick evs.

Definition notClick (ev : Event) : Prop := isClick ev = false.

(** [performs pre L post m]: from a state that satisfies [pre], the run
    of [m] resolves, the clicks it issued are [L], in that order, and
    its value and final state satisfy [post]. *)
Definition performs {A} (pre : State -> Prop) (L : list Event)
           (post : A -> State -> Prop) (m : M A) : Prop :=
  forall s, pre s ->
            clicksOf (events m s) = L /\
            match result m s with
            | Ok a => post a (final m s)
            | _ => False
            end.

(** The [page] variable of the protocol holds [page]. *)
Definition onPage (page : Page) (s : State) : Prop := var_page s = page.

Definition always (s : State) : Prop := True.

(** [issues pre L m]: from a state that satisfies [pre], the clicks a
    run of [m] issued are [L], in that order, however the run settles. *)
Definition issues {A} (pre : State -> Prop) (L : list Event) (m : M A) : Prop :=
  forall s, pre s -> clicksOf (events m s) = L.

(** The evaluation of the restore callback. *)
Definition isRestore (ev : Event) : bool :=
  match ev with
  | Called (EvalRestore _) => true
  | _ => false
  end.

Definition notRestore (ev : Event) : Prop := isRestore ev = false.

(** What the hide loop does to one element: nothing, or it hides and
    tags an element that was visible and positioned. *)
Definition hidStep (el el' : Dom.Element) : Prop :=
  el' = el \/ (el' = Dom.hideAndMark el /\ Dom.isVisible el = true /\ Dom.positioned el = true).

(** [triple P m Q E]: from a state that satisfies [P], a run of [m] that
    resolves with [a] ends in a state that satisfies [Q a], and a run
    that throws ends in a state that satisfies [E]. *)
Definition triple {A} (P : State -> Prop) (m : M A) (Q : A -> State -> Prop)
           (E : State -> Prop) : Prop :=
  forall s, P s ->
            match result m s with
            | Ok a => Q a (final m s)
            | Throw _ => E (final m s)
            | OutOfFuel => True
            end.

(** [invariant R m]: a run of [m] from a document that satisfies [R]
    ends, however it settles, with a document that satisfies [R]. *)
Definition invariant {A} (R : Dom.DOM -> Prop) (m : M A) : Prop :=
  triple (fun s => R (dom s)) m (fun _ s => R (dom s)) (fun s => R (dom s)).

(** No element of the document carries the tag of the hide callback. *)
Definition untagged (d : Dom.DOM) : Prop := Dom.markedCount d = O.

(** Counting the events of a kind in what a run records. *)
Definition countOf (p : Event -> bool) (evs : list Event) : nat := length (filter p evs).

(** [atMostOf p n m]: no run of [m] records more than [n] events of the
    kind [p]. *)
Definition atMostOf {A} (p : Event -> bool) (n : nat) (m : M A) : Prop :=
  forall s, (countOf p (events m s) <= n)%nat.

Definition noneOf (p : Event -> bool) (ev : Event) : Prop := p ev = false.

(** The wait for the element to be attached opens each attempt of the
    click of the Workers class. *)
Definition isAttempt (ev : Event) : bool :=
  match ev with
  | Called (WaitForSelector _ _ Attached _) => true
  | _ => false
  end.

(** A click of an ABC pass is on the next button or on an option whose
    id the snapshot of the pass holds. *)
Definition answerClick (dollar : Cheerio) (ev : Event) : Prop :=
  isClick ev = true ->
  exists p, ev = Called (Click p "div.wk_button") \/
            exists a, In (Some a) (optionIds dollar) /\ a <> EmptyString /\
                      ev = Called (Click p ("#" +++ a)).

(** An ASCII capital letter. *)
Definition isUpper (c : ascii) : bool :=
  let n := nat_of_ascii c in ((65 <=? n) && (n <=? 90))%nat%bool.

(** The navigations of a run, and the check for a suspended account
    that opens each pass of the loop of [goHome]. *)
Definition isGoto (ev : Event) : bool :=
  match ev with
  | Called (Goto _ _) => true
  | _ => false
  end.

Definition isSuspensionCheck (ev : Event) : bool :=
  match ev with
  | Called (WaitForSelector _ sel Visible _) => (sel =? "#suspendedAccountHeader")%string
  | _ => false
  end.

(** An error that comes out of [goHome] wraps the one caught. *)
Definition wrapped (r : Res unit) (evs : list Event) : Prop :=
  match r with
  | Ok _ => True
  | Throw e =>
      exists e0, e = "Error: GO-HOME error: " +++ e0 /\
                 In (Logged "GO-HOME" ("An error occurred:" +++ e0) LError) evs
  | OutOfFuel => False
  end.

(** ** Vocabulary of the daily check-in *)

(** How a run of the check-in settles, and what it did. *)
Definition settles {E A} (m : Task.Run E A) (t : nat) : Res A := fst (fst (m t)).
Definition did {E A} (m : Task.Run E A) (t : nat) : list E := snd (m t).

Definition requestsOf (ds : list DailyCheckIn.Did) : list DailyCheckIn.ClaimRequest :=
  flat_map (fun d => match d with DailyCheckIn.Requested r => [r] | _ => [] end) ds.

Definition sleepsOf (ds : list DailyCheckIn.Did) : list Z :=
  flat_map (fun d => match d with DailyCheckIn.Slept ms => [ms] | _ => [] end) ds.

Definition tally (p : DailyCheckIn.Did -> bool) (ds : list DailyCheckIn.Did) : nat :=
  length (filter p ds).

(** The log of a claim that went through. *)
Definition claimed (d : DailyCheckIn.Did) : bool :=
  match d with
  | DailyCheckIn.Said msg LLog =>
      String.prefix "Claimed " msg || (msg =? DailyCheckIn.alreadyClaimed)%string
  | _ => false
  end.

(** The log of the attempts being exhausted. *)
Definition gaveUp (d : DailyCheckIn.Did) : bool :=
  match d with
  | DailyCheckIn.Said msg LError => String.prefix "Failed to claim after " msg
  | _ => false
  end.

(** The warning of one attempt that failed. *)
Definition attemptLost (d : DailyCheckIn.Did) : bool :=
  match d with
  | DailyCheckIn.Said msg LWarn => String.prefix "Claim attempt " msg
  | _ => false
  end.

(** Waits that double: the one of index [k] lies between [base * 2^k]
    and [base * 2^(k+1)]. *)
Fixpoint backsOff (base k : Z) (ws : list Z) : Prop :=
  match ws with
  | [] => True
  | x :: rest => base * 2 ^ k <= x <= base * 2 ^ (k + 1) /\ backsOff base (k + 1) rest
  end.

(** [randomNumber(lo, hi)] answers within its bounds. *)
Definition withinBounds (w : DailyCheckIn.World) : Prop :=
  forall t lo hi, lo <= hi -> lo <= DailyCheckIn.utilsRandomNumber w t lo hi <= hi.

(** The backoff waits of the passes entered with [attempt = k]: each is
    its base, doubled from one to the next, plus the jitter drawn
    below that base. *)
Fixpoint backoffsFrom (w : DailyCheckIn.World) (k : Z) (ws : list Z) : Prop :=
  match ws with
  | [] => True
  | x :: rest =>
      (exists t,
         x = DailyCheckIn.baseBackoff w * 2 ^ k
             + DailyCheckIn.utilsRandomNumber w t 0 (DailyCheckIn.baseBackoff w * 2 ^ k)) /\
      backoffsFrom w (k + 1) rest
  end.

(** A run reports one outcome, last: the claim, after one warning for
    each request but the last, or the failure, after one warning for
    each of the [expected] requests. *)
Definition outcomeOf (ds : list DailyCheckIn.Did) (requests expected : nat) : Prop :=
  exists ds0 last,
    ds = ds0 ++ [last] /\
    tally claimed ds0 = O /\ tally gaveUp ds0 = O /\
    ((claimed last = true /\ gaveUp last = false /\
      S (tally attemptLost ds0) = requests) \/
     (gaveUp last = true /\ claimed last = false /\
      tally attemptLost ds0 = requests /\ requests = expected)).

(** ** Vocabulary of the points of the mobile app *)

Definition userDataRequestsOf (ds : list AppPoints.Did) : list AppPoints.UserDataRequest :=
  flat_map (fun d => match d with AppPoints.Requested r => [r] | _ => [] end) ds.

(** At most one kind of offer is counted, and the total is the sum. *)
Definition oneOffer (p : AppPoints.Points) : Prop :=
  (AppPoints.readToEarn p = AppPoints.Int 0 \/ AppPoints.checkIn p = AppPoints.Int 0) /\
  AppPoints.totalEarnablePoints p = AppPoints.add (AppPoints.readToEarn p) (AppPoints.checkIn p).

(** ** Vocabulary of the runs of one account *)

(** The browsers of a run: the calls that create one and that close
    one, in order. *)
Definition sessionOf (d : Bot.Did) : list Bot.Call :=
  match d with
  | Bot.Called Bot.CreateBrowser => [Bot.CreateBrowser]
  | Bot.Called Bot.CloseBrowser => [Bot.CloseBrowser]
  | _ => []
  end.

Definition sessionsOf (ds : list Bot.Did) : list Bot.Call := flat_map sessionOf ds.

(** [n] browsers, each closed before the next is created. *)
Fixpoint openedAndClosed (n : nat) : list Bot.Call :=
  match n with
  | O => []
  | S n' => Bot.CreateBrowser :: Bot.CloseBrowser :: openedAndClosed n'
  end.

(** The passes of a run: the browsers it creates. *)
Definition isPass (d : Bot.Did) : bool :=
  match d with
  | Bot.Called Bot.CreateBrowser => true
  | _ => false
  end.

Definition passesOf (ds : list Bot.Did) : nat := length (filter isPass ds).

(** The browsers of the runs of [m] satisfy [P] when the run returns
    and [T] when it throws. *)
Definition sessions {A} (m : Bot.Run A) (P : A -> list Bot.Call -> Prop)
           (T : list Bot.Call -> Prop) : Prop :=
  forall t,
    match settles m t with
    | Ok a => P a (sessionsOf (did m t))
    | Throw _ => T (sessionsOf (did m t))
    | OutOfFuel => True
    end.

(** Creating a browser and closing one never fail. *)
Definition browsersObey (w : Bot.World) : Prop :=
  forall t, Bot.rejects w t Bot.CreateBrowser = None /\
            Bot.rejects w t Bot.CloseBrowser = None.

(** Every call resolves. *)
Definition allResolve (w : Bot.World) : Prop :=
  forall t c, Bot.rejects w t c = None.

(** The login succeeds every time. *)
Definition loggedIn (w : Bot.World) : Prop :=
  forall t, Bot.doLater w t = false.

(** The account has mobile searches, and every check after a pass finds
    them complete. *)
Definition searchesComplete (w : Bot.World) : Prop :=
  forall t, Bot.hasMobileSearch (Bot.dashboardData w t) = true /\
            Bot.pointsLeft (Bot.firstMobileSearch w t) = false.

(** Every check after a pass finds search points left. *)
Definition searchesFail (w : Bot.World) : Prop :=
  forall t, Bot.pointsLeft (Bot.firstMobileSearch w t) = true.

(** The runs of [m], from every clock, settle and act as [Post]
    says. *)
Definition spec {E A} (m : Task.Run E A) (Post : Res A -> list E -> Prop) : Prop :=
  forall t, Post (settles m t) (did m t).

(** The option [j] can be read and its attribute reads true: [shown j]
    is the handle its wait resolves with, if it does, and [flag j] the
    attribute the read of that handle gives, if it resolves. *)
Definition readTrue (shown : nat -> option Handle) (flag : nat -> option (option string))
           (j : nat) : bool :=
  match shown j, flag j with
  | Some _, Some a => Quiz.isTrue a
  | _, _ => false
  end.

(** The parents come before their children, as [body *] lists them. *)
Definition wellNested (d : Dom.DOM) : Prop :=
  forall i el p, nth_error d i = Some el -> Dom.el_parent el = Some p -> (p < i)%nat.

(** An ancestor of [el] has [display: none] in the document [d]. *)
Definition underHidden (d : Dom.DOM) (el : Dom.Element) : bool :=
  Dom.ancestorHidden (length d) d (Dom.el_parent el).

(* ===================================================================== *)
(** * Properties of the overlay callbacks *)
(* ===================================================================== *)

Section OverlayFacts.

Lemma unmark_hideAndMark (el : Dom.Element) :
  Dom.el_marker el = false ->
  Dom.el_inline_display el = None ->
  Dom.unmark (Dom.hideAndMark el) = el.
Proof.
  destruct el; simpl; intros -> ->; reflexivity.
Qed.

Lemma overlaps_positioned d tBox isTarget el :
  Workers.overlaps d tBox isTarget el = true -> Dom.positioned el = true.
Proof.
  unfold Workers.overlaps.
  destruct isTarget; [discriminate|].
  destruct (Dom.styleHidden el); [discriminate|].
  destruct (Dom.positioned el); [reflexivity | discriminate].
Qed.

(** Restoring right after the hide loop undoes it on a document that
    carried no tag and whose positioned elements had no inline display. *)
Lemma restore_hideLoop tBox target (d : Dom.DOM) : forall done,
  (forall el, In el d -> Dom.el_marker el = false) ->
  (forall el, In el d -> Dom.positioned el = true -> Dom.el_inline_display el = None) ->
  map (fun el => if Dom.el_marker el then Dom.unmark el else el)
      (fst (Workers.hideLoop tBox target done d)) = d.
Proof.
  induction d as [|el rest IH]; intros done Hm Hi; cbn [Workers.hideLoop];
    [reflexivity|].
  pose proof (fun done' => IH done' (fun e He => Hm e (or_intror He))
                              (fun e He => Hi e (or_intror He))) as IH'.
  destruct (Workers.overlaps (done ++ el :: rest) tBox (length done =? target)%nat el)
    eqn:Ho.
  - specialize (IH' (done ++ [Dom.hideAndMark el])).
    destruct (Workers.hideLoop tBox target (done ++ [Dom.hideAndMark el]) rest)
      as [rest' n].
    simpl in IH' |- *.
    rewrite IH', unmark_hideAndMark; auto using in_eq.
    apply Hi; [apply in_eq|]. eapply overlaps_positioned; eauto.
  - specialize (IH' (done ++ [el])).
    destruct (Workers.hideLoop tBox target (done ++ [el]) rest) as [rest' n].
    simpl in IH' |- *.
    rewrite IH', (Hm el (in_eq _ _)). reflexivity.
Qed.

Lemma restore_untagged (d : Dom.DOM) :
  (forall el, In el d -> Dom.el_marker el = false) ->
  map (fun el => if Dom.el_marker el then Dom.unmark el else el) d = d.
Proof.
  induction d as [|el rest IH]; intros Hm; simpl; [reflexivity|].
  rewrite (Hm el (in_eq _ _)), IH; auto using in_cons.
Qed.

(** The round trip is the identity on such documents. *)
Lemma suppressThenRestore_identity target (d : Dom.DOM) :
  (forall el, In el d -> Dom.el_marker el = false) ->
  (forall el, In el d -> Dom.positioned el = true -> Dom.el_inline_display el = None) ->
  Workers.suppressThenRestore target d = d.
Proof.
  intros Hm Hi. unfold Workers.suppressThenRestore, Workers.restoreCallback,
    Workers.hideCallback. simpl.
  destruct target as [t|]; [|apply restore_untagged; assumption].
  destruct (nth_error d t); [|apply restore_untagged; assumption].
  apply restore_hideLoop; assumption.
Qed.

(** After a restore no element carries the tag. *)
Lemma restoreCallback_clears (d : Dom.DOM) :
  Dom.markedCount (fst (Workers.restoreCallback d)) = O.
Proof.
  unfold Workers.restoreCallback, Dom.markedCount; simpl.
  induction d as [|el rest IH]; simpl; [reflexivity|].
  destruct (Dom.el_marker el) eqn:E; simpl; [|rewrite E]; exact IH.
Qed.

(** A hide loop that counts nothing changes nothing. *)
Lemma hideLoop_zero tBox target (d : Dom.DOM) : forall done,
  snd (Workers.hideLoop tBox target done d) = O ->
  fst (Workers.hideLoop tBox target done d) = d.
Proof.
  induction d as [|el rest IH]; intros done; cbn [Workers.hideLoop]; [reflexivity|].
  destruct (Workers.overlaps (done ++ el :: rest) tBox (length done =? target)%nat el).
  - destruct (Workers.hideLoop tBox target (done ++ [Dom.hideAndMark el]) rest)
      as [rest' n].
    simpl. discriminate.
  - specialize (IH (done ++ [el])).
    destruct (Workers.hideLoop tBox target (done ++ [el]) rest) as [rest' n].
    simpl in IH |- *. intros ->. rewrite IH; reflexivity.
Qed.

Lemma hideCallback_zero target (d : Dom.DOM) :
  snd (Workers.hideCallback target d) = O ->
  fst (Workers.hideCallback target d) = d.
Proof.
  unfold Workers.hideCallback.
  destruct target as [t|]; [|reflexivity].
  destruct (nth_error d t); [|reflexivity].
  apply hideLoop_zero.
Qed.

End OverlayFacts.

(* ===================================================================== *)
(** * Properties of the selector builder *)
(* ===================================================================== *)

Section SelectorFacts.

Lemma mem_In s l : Js.mem s l = true <-> In s l.
Proof.
  unfold Js.mem. rewrite existsb_exists. split.
  - intros [x [Hx He]]. apply String.eqb_eq in He. subst. exact Hx.
  - intros H. exists s. split; [exact H | apply String.eqb_refl].
Qed.

Lemma mem_false s l : Js.mem s l = false <-> ~ In s l.
Proof.
  rewrite <- mem_In. destruct (Js.mem s l); split; congruence.
Qed.

Lemma uniqueFrom_spec l : forall seen,
  NoDup (Js.uniqueFrom seen l) /\
  (forall x, In x (Js.uniqueFrom seen l) -> ~ In x seen /\ In x l).
Proof.
  induction l as [|a rest IH]; intros seen; simpl.
  - split; [constructor | intros x []].
  - destruct (Js.mem a seen) eqn:E.
    + destruct (IH seen) as [Hn Hx]. split; [exact Hn|].
      intros x Hin. destruct (Hx x Hin). auto.
    + destruct (IH (a :: seen)) as [Hn Hx]. apply mem_false in E. split.
      * constructor; [|exact Hn]. intros Hin. destruct (Hx a Hin) as [Hna _].
        apply Hna. apply in_eq.
      * intros x [<-|Hin]; [auto|].
        destruct (Hx x Hin) as [Hns Hr]. split; [|auto].
        intros Hs. apply Hns. apply in_cons. exact Hs.
Qed.

Lemma unique_NoDup l : NoDup (Js.unique l).
Proof. apply uniqueFrom_spec. Qed.

(** Two fresh, distinct entries pushed last stay last. *)
Lemma uniqueFrom_app_fresh a b l : forall seen,
  a <> b -> ~ In a l -> ~ In b l -> ~ In a seen -> ~ In b seen ->
  Js.uniqueFrom seen (l ++ [a; b]) = Js.uniqueFrom seen l ++ [a; b].
Proof.
  intros seen Hab. revert seen.
  induction l as [|x rest IH]; intros seen Hal Hbl Has Hbs;
    cbn [Js.uniqueFrom app].
  - apply mem_false in Has. rewrite Has.
    assert (Hb : Js.mem b (a :: seen) = false).
    { apply mem_false. intros [H|H]; [congruence | contradiction]. }
    rewrite Hb. reflexivity.
  - destruct (Js.mem x seen).
    + apply IH; auto; intros H; [apply Hal | apply Hbl]; apply in_cons; exact H.
    + cbn [app]. f_equal. apply IH.
      * intros H; apply Hal; apply in_cons; exact H.
      * intros H; apply Hbl; apply in_cons; exact H.
      * intros [H|H]; [apply Hal; left; exact H | contradiction].
      * intros [H|H]; [apply Hbl; left; exact H | contradiction].
Qed.

Lemma scopedBy_bracketed op d : bracketed (Workers.scopedBy op d).
Proof. unfold Workers.scopedBy, bracketed. simpl. eexists; reflexivity. Qed.

Lemma fromOfferId_bracketed a : Forall bracketed (Workers.fromOfferId a).
Proof.
  unfold Workers.fromOfferId. destruct (Js.truthy (offerId a));
    repeat constructor; apply scopedBy_bracketed.
Qed.

Lemma fromName_bracketed a : Forall bracketed (Workers.fromName a).
Proof.
  unfold Workers.fromName. destruct (Js.truthy (name a));
    repeat constructor; apply scopedBy_bracketed.
Qed.

Lemma scanLoop_bracketed els : forall seen, Forall bracketed (Workers.scanLoop els seen).
Proof.
  induction els as [|c rest IH]; intros seen; simpl; [constructor|].
  destruct (Js.truthy _ && Workers.dailyRe_test _)%bool; [|apply IH].
  destruct (Js.mem _ seen); [apply IH|].
  constructor; [apply scopedBy_bracketed | apply IH].
Qed.

Lemma pushNew_bracketed h : forall c,
  Forall bracketed c -> Forall bracketed h -> Forall bracketed (Workers.pushNew c h).
Proof.
  induction h as [|x rest IH]; intros c Hc Hh; simpl; [exact Hc|].
  inversion Hh; subst.
  destruct (Js.mem x c); apply IH; auto.
  apply Forall_app; split; [exact Hc | repeat constructor; assumption].
Qed.

Lemma bracketed_not_fallback l :
  Forall bracketed l -> ~ In pointLinkScoped l /\ ~ In pointLinkAny l.
Proof.
  intros H. rewrite Forall_forall in H.
  split; intros Hin; destruct (H _ Hin) as [r Hr]; discriminate Hr.
Qed.

(** The list the builder returns for any candidates gathered before
    the fallbacks. *)
Lemma unique_with_fallbacks l :
  Forall bracketed l ->
  let out := Js.unique (l ++ [pointLinkScoped; pointLinkAny]) in
  out <> [] /\ NoDup out /\ exists pre, out = pre ++ [pointLinkScoped; pointLinkAny].
Proof.
  intros Hl. cbv zeta.
  destruct (bracketed_not_fallback Hl) as [Ha Hb].
  assert (E : Js.unique (l ++ [pointLinkScoped; pointLinkAny])
              = Js.uniqueFrom [] l ++ [pointLinkScoped; pointLinkAny]).
  { unfold Js.unique. apply uniqueFrom_app_fresh; auto; discriminate. }
  split; [|split].
  - rewrite E. intros H. apply app_eq_nil in H. destruct H; discriminate.
  - apply unique_NoDup.
  - rewrite E. eexists; reflexivity.
Qed.

End SelectorFacts.

(* ===================================================================== *)
(** * Reasoning about runs *)
(* ===================================================================== *)

(** ** Specifications of the settled value *)

Section ValueRules.

Context `{Env}.

Lemma returns_may {A} (Q : A -> Prop) m : returns Q m -> may Q m.
Proof. intros Hm s. specialize (Hm s). destruct (result m s); tauto. Qed.

Lemma may_weaken {A} (Q Q' : A -> Prop) m :
  may Q m -> (forall a, Q a -> Q' a) -> may Q' m.
Proof. intros Hm HQ s. specialize (Hm s). destruct (result m s); auto. Qed.

Lemma returns_weaken {A} (Q Q' : A -> Prop) m :
  returns Q m -> (forall a, Q a -> Q' a) -> returns Q' m.
Proof. intros Hm HQ s. specialize (Hm s). destruct (result m s); auto. Qed.

Lemma returns_ret {A} (Q : A -> Prop) a : Q a -> returns Q (ret a).
Proof. intros Ha s. exact Ha. Qed.

Lemma may_ret {A} (Q : A -> Prop) a : Q a -> may Q (ret a).
Proof. intros Ha s. exact Ha. Qed.

Lemma may_throw {A} (Q : A -> Prop) e : may Q (throw e).
Proof. intros s. exact Logic.I. Qed.

Lemma may_bind {A B} (Q1 : A -> Prop) (Q : B -> Prop) m f :
  may Q1 m -> (forall a, Q1 a -> may Q (f a)) -> may Q (bind m f).
Proof.
  intros Hm Hf s. specialize (Hm s). unfold result, bind in *.
  destruct (m s) as [[r s1] ev1]. destruct r as [a|e|]; simpl in *; auto.
  specialize (Hf a Hm s1). unfold result in Hf.
  destruct (f a s1) as [[r2 s2] ev2]. exact Hf.
Qed.

Lemma returns_bind {A B} (Q1 : A -> Prop) (Q : B -> Prop) m f :
  returns Q1 m -> (forall a, Q1 a -> returns Q (f a)) -> returns Q (bind m f).
Proof.
  intros Hm Hf s. specialize (Hm s). unfold result, bind in *.
  destruct (m s) as [[r s1] ev1]. destruct r as [a|e|]; simpl in *; auto.
  specialize (Hf a Hm s1). unfold result in Hf.
  destruct (f a s1) as [[r2 s2] ev2]. exact Hf.
Qed.

Lemma may_tryCatch {A} (Q : A -> Prop) body handler :
  may Q body -> (forall e, may Q (handler e)) -> may Q (tryCatch body handler).
Proof.
  intros Hb Hh s. specialize (Hb s). unfold result, tryCatch in *.
  destruct (body s) as [[r s1] ev1]. destruct r as [a|e|]; simpl in *; auto.
  specialize (Hh e s1). unfold result in Hh.
  destruct (handler e s1) as [[r2 s2] ev2]. exact Hh.
Qed.

Lemma returns_tryCatch {A} (Q : A -> Prop) body handler :
  may Q body -> (forall e, returns Q (handler e)) -> returns Q (tryCatch body handler).
Proof.
  intros Hb Hh s. specialize (Hb s). unfold result, tryCatch in *.
  destruct (body s) as [[r s1] ev1]. destruct r as [a|e|]; simpl in *; auto.
  specialize (Hh e s1). unfold result in Hh.
  destruct (handler e s1) as [[r2 s2] ev2]. exact Hh.
Qed.

Lemma may_call op : may anything (call op).
Proof. intros s. unfold result, call; simpl. destruct (ask (clock s) op); exact Logic.I. Qed.

Lemma returns_wait ms : returns anything (wait ms).
Proof. intros s. exact Logic.I. Qed.

Lemma returns_log t m l : returns anything (log t m l).
Proof. intros s. exact Logic.I. Qed.

Lemma returns_random lo hi : returns anything (random lo hi).
Proof. intros s. exact Logic.I. Qed.

Lemma returns_url p : returns anything (url p).
Proof. intros s. exact Logic.I. Qed.

Lemma returns_pagesLength p : returns anything (pagesLength p).
Proof. intros s. exact Logic.I. Qed.

Lemma returns_getFormattedDate : returns anything getFormattedDate.
Proof. intros s. exact Logic.I. Qed.

Lemma returns_shuffleFirst l : returns anything (shuffleFirst l).
Proof. intros s. exact Logic.I. Qed.

Lemma returns_getDom : returns anything getDom.
Proof. intros s. exact Logic.I. Qed.

Lemma returns_setDom d : returns anything (setDom d).
Proof. intros s. exact Logic.I. Qed.

Lemma returns_getPage : returns anything getPage.
Proof. intros s. exact Logic.I. Qed.

Lemma returns_setPage p : returns anything (setPage p).
Proof. intros s. exact Logic.I. Qed.

Lemma returns_getActivityPage : returns anything getActivityPage.
Proof. intros s. exact Logic.I. Qed.

Lemma returns_setActivityPage p : returns anything (setActivityPage p).
Proof. intros s. exact Logic.I. Qed.

Lemma returns_mark a : returns anything (mark a).
Proof. intros s. exact Logic.I. Qed.

End ValueRules.

Create HintDb settle discriminated.

#[export] Hint Resolve returns_wait returns_log returns_random returns_url
  returns_pagesLength returns_getFormattedDate returns_shuffleFirst returns_getDom
  returns_setDom returns_getPage returns_setPage returns_getActivityPage
  returns_setActivityPage returns_mark : settle.

(** One step through the structure of a program, for goals whose
    intermediate values need no specification; [leaf] closes the
    obligation at a [ret]. *)
Ltac settle_step leaf :=
  lazymatch goal with
  | |- returns _ (bind _ _) =>
      apply returns_bind with (Q1 := anything); [ | intros ? _; cbv beta ]
  | |- may _ (bind _ _) =>
      apply may_bind with (Q1 := anything); [ | intros ? _; cbv beta ]
  | |- returns _ (tryCatch _ _) => apply returns_tryCatch; [ | intro ]
  | |- may _ (tryCatch _ _) => apply may_tryCatch; [ | intro ]
  | |- returns _ (orElse _ _) => unfold orElse
  | |- may _ (orElse _ _) => unfold orElse
  | |- returns _ (ignoring _) => unfold ignoring
  | |- may _ (ignoring _) => unfold ignoring
  | |- returns _ (ret _) => apply returns_ret; leaf
  | |- may _ (ret _) => apply may_ret; leaf
  | |- may _ (throw _) => apply may_throw
  | |- may _ (call ?op) => eapply may_weaken; [ exact (may_call op) | intros; leaf ]
  | |- returns _ (match ?x with _ => _ end) => destruct x eqn:?
  | |- may _ (match ?x with _ => _ end) => destruct x eqn:?
  | |- returns _ _ =>
      solve [ eapply returns_weaken; [ eauto with settle | intros; leaf ] ]
  | |- may _ _ =>
      solve [ eapply may_weaken; [ eauto with settle | intros; leaf ]
            | apply returns_may; eapply returns_weaken; [ eauto with settle | intros; leaf ] ]
  end.

Ltac settle_with leaf := repeat (settle_step leaf).
Ltac settle := settle_with ltac:(exact Logic.I).

Lemma outcomeIn_failure allowed r : In r allowed -> outcomeIn allowed (failure r).
Proof. intros Hr. right. split; [reflexivity|]. exists r. split; [reflexivity | exact Hr]. Qed.

Lemma outcomeIn_succeeded allowed p : outcomeIn allowed (succeeded p).
Proof. left. reflexivity. Qed.

Lemma outcomeIn_incl a b res : incl a b -> outcomeIn a res -> outcomeIn b res.
Proof.
  intros Hab [Hs|[Hs [r [Hr Hin]]]]; [left; exact Hs|].
  right. split; [exact Hs|]. exists r. split; [exact Hr | apply Hab; exact Hin].
Qed.

(** ** Which programs always resolve, and which may only throw *)

Section Settling.

Context `{Env}.

Lemma waitForQuizRefresh_returns p : returns anything (BrowserFunc.waitForQuizRefresh p).
Proof. unfold BrowserFunc.waitForQuizRefresh. settle. Qed.

Lemma quietDelay_returns : returns anything BrowserFunc.quietDelay.
Proof. unfold BrowserFunc.quietDelay. settle. Qed.

Hint Resolve waitForQuizRefresh_returns quietDelay_returns : settle.

Lemma getPunchCardActivity_returns p a :
  returns anything (BrowserFunc.getPunchCardActivity p a).
Proof. unfold BrowserFunc.getPunchCardActivity. settle. Qed.

Lemma doPoll_may p : may anything (Poll.doPoll p).
Proof. unfold Poll.doPoll. settle. Qed.

Lemma randomSleep_returns : returns anything ABC.randomSleep.
Proof. unfold ABC.randomSleep. settle. Qed.

Lemma randomSleepShort_returns : returns anything ABC.randomSleepShort.
Proof. unfold ABC.randomSleepShort. settle. Qed.

Hint Resolve randomSleep_returns randomSleepShort_returns : settle.

Lemma reload_may : may anything ABC.reload.
Proof. unfold ABC.reload. settle. Qed.

Hint Resolve reload_may : settle.

Lemma afterWait_may p c : may anything (ABC.afterWait p c).
Proof. unfold ABC.afterWait. settle. Qed.

Hint Resolve afterWait_may : settle.

Lemma iteration_may c : may anything (ABC.iteration c).
Proof. unfold ABC.iteration. settle. Qed.

Hint Resolve iteration_may : settle.

Lemma loop_may left : forall i c, may anything (ABC.loop left i c).
Proof. induction left; intros; simpl; settle. Qed.

Hint Resolve loop_may : settle.

Lemma report_may i : may anything (ABC.report i).
Proof. unfold ABC.report. settle. Qed.

Hint Resolve report_may : settle.

Lemma solve_may p : may anything (ABC.solve p).
Proof. unfold ABC.solve. settle. Qed.

Lemma abc_onError_returns e : returns anything (ABC.onError e).
Proof. unfold ABC.onError. settle. Qed.

Hint Resolve solve_may abc_onError_returns : settle.

Lemma doABC_returns p : returns anything (ABC.doABC p).
Proof. unfold ABC.doABC. settle. Qed.

Lemma getSearchQuery_returns t : returns anything (SearchOnBing.getSearchQuery t).
Proof. unfold SearchOnBing.getSearchQuery. settle. Qed.

Hint Resolve getSearchQuery_returns : settle.

Lemma doSearchOnBing_may p a : may anything (SearchOnBing.doSearchOnBing p a).
Proof. unfold SearchOnBing.doSearchOnBing. settle. Qed.

(** The retrying click of the Quiz class. *)

Lemma hideBlockingOverlays_returns p sel : returns anything (Quiz.hideBlockingOverlays p sel).
Proof. unfold Quiz.hideBlockingOverlays. settle. Qed.

Lemma findDailyCandidates_returns p : returns anything (Quiz.findDailyCandidates p).
Proof. unfold Quiz.findDailyCandidates. settle. Qed.

Lemma isVisibleAndClickable_returns p sel : returns anything (Quiz.isVisibleAndClickable p sel).
Proof. unfold Quiz.isVisibleAndClickable. settle. Qed.

Lemma clickStage_returns p sel t : returns anything (Quiz.clickStage p sel t).
Proof. unfold Quiz.clickStage. settle. Qed.

Hint Resolve hideBlockingOverlays_returns findDailyCandidates_returns
  isVisibleAndClickable_returns clickStage_returns : settle.

Lemma tryClickOnce_returns p sel t : returns anything (Quiz.tryClickOnce p sel t).
Proof. unfold Quiz.tryClickOnce. settle. Qed.

Hint Resolve tryClickOnce_returns : settle.

Ltac only_success :=
  first [ exact Logic.I
        | intros ? [= <-]; assumption
        | intros ? ?; discriminate ].

Lemma firstLoop_onlySuccess left : forall p sel t,
  returns onlySuccess (Quiz.firstLoop left p sel t).
Proof.
  induction left; intros; simpl; settle_with only_success. apply IHleft.
Qed.

Lemma candidateAttempts_onlySuccess left : forall p sel t,
  returns onlySuccess (Quiz.candidateAttempts left p sel t).
Proof.
  induction left; intros; simpl; settle_with only_success. apply IHleft.
Qed.

Lemma candidatesLoop_onlySuccess cands : forall n p t,
  returns onlySuccess (Quiz.candidatesLoop cands n p t).
Proof.
  induction cands; intros; simpl; [apply returns_ret; intros ? [=]|].
  eapply returns_bind; [apply candidateAttempts_onlySuccess|].
  intros [res|] Hr; [apply returns_ret; exact Hr | apply IHcands].
Qed.

Lemma heuristics_outcome p sel n t :
  returns (outcomeIn quizReasons) (Quiz.heuristics p sel n t).
Proof.
  unfold Quiz.heuristics.
  apply returns_bind with (Q1 := anything); [apply findDailyCandidates_returns|].
  intros cands _. destruct cands as [|c cands].
  - settle_with ltac:(first [exact Logic.I
                            | apply outcomeIn_failure; simpl; tauto]).
  - eapply returns_bind; [apply candidatesLoop_onlySuccess|].
    intros [res|] Hc; [apply returns_ret; left; apply Hc; reflexivity|].
    settle_with ltac:(first [exact Logic.I
                            | apply outcomeIn_failure; simpl; tauto]).
Qed.

Lemma clickWithRetries_outcome p sel n t :
  returns (outcomeIn quizReasons) (Quiz.clickWithRetries p sel n t).
Proof.
  unfold Quiz.clickWithRetries.
  eapply returns_bind; [apply firstLoop_onlySuccess|].
  intros [res|] Hr; [apply returns_ret; left; apply Hr; reflexivity|].
  apply heuristics_outcome.
Qed.

(** One attempt of the Quiz click never fails with css-hidden. *)
Lemma tryClickOnce_outcome p sel t :
  returns (outcomeIn onceReasons) (Quiz.tryClickOnce p sel t).
Proof.
  unfold Quiz.tryClickOnce.
  apply returns_bind with (Q1 := anything); [settle|]. intros _ _.
  apply returns_bind with (Q1 := anything); [settle|]. intros visibility _.
  apply returns_bind with
    (Q1 := fun early => forall r, early = Some r -> outcomeIn onceReasons r).
  - settle_with ltac:(first [ exact Logic.I
                            | intros ? [= <-]; apply outcomeIn_failure;
                              match goal with
                              | Hm : Js.mem _ _ = true |- _ =>
                                  apply mem_In in Hm; simpl in Hm |- *; tauto
                              end
                            | intros ? ?; discriminate ]).
  - intros [r|] Hr; [apply returns_ret; apply Hr; reflexivity|].
    settle_with ltac:(first [ exact Logic.I
                            | apply outcomeIn_succeeded
                            | apply outcomeIn_failure; simpl; tauto ]).
Qed.

Lemma clickWithRetries_returns p sel n t :
  returns anything (Quiz.clickWithRetries p sel n t).
Proof.
  eapply returns_weaken; [apply clickWithRetries_outcome | intros; exact Logic.I].
Qed.

Hint Resolve clickWithRetries_returns : settle.

(** The resilient click of the Workers class. *)

Lemma hideOverlappingOverlays_returns p sel :
  returns anything (Workers.hideOverlappingOverlays p sel).
Proof. unfold Workers.hideOverlappingOverlays. settle. Qed.

Lemma restoreHiddenOverlays_returns p : returns anything (Workers.restoreHiddenOverlays p).
Proof. unfold Workers.restoreHiddenOverlays. settle. Qed.

Lemma clickCascade_returns p sel t : returns anything (Workers.clickCascade p sel t).
Proof. unfold Workers.clickCascade. settle. Qed.

Hint Resolve hideOverlappingOverlays_returns restoreHiddenOverlays_returns
  clickCascade_returns : settle.

Lemma checkStage_early p sel : returns earlyFailure (Workers.checkStage p sel).
Proof.
  unfold Workers.checkStage.
  settle_with ltac:(first [ exact Logic.I
                          | intros ? [= <-]; eexists; split;
                            [reflexivity | simpl; tauto]
                          | intros ? ?; discriminate ]).
Qed.

Lemma tryOnce_outcome p selector pt sel t :
  returns (outcomeIn attemptReasons) (Workers.tryOnce p selector pt sel t).
Proof.
  unfold Workers.tryOnce.
  apply returns_bind with (Q1 := anything); [settle|]. intros _ _.
  eapply returns_bind; [apply checkStage_early|].
  intros [r|] Hr.
  - apply returns_ret. destruct (Hr r eq_refl) as [x [-> Hx]].
    apply outcomeIn_failure. simpl in *. tauto.
  - settle_with ltac:(first [ exact Logic.I
                            | apply outcomeIn_succeeded
                            | apply outcomeIn_failure; simpl; tauto ]).
Qed.

Lemma pause_returns : returns anything Workers.pause.
Proof. unfold Workers.pause. settle. Qed.

Lemma attempts_outcome left : forall p sel t,
  returns (outcomeIn clickReasons) (Workers.attempts left p sel t).
Proof.
  induction left; intros; cbn [Workers.attempts].
  - apply returns_ret. apply outcomeIn_failure. simpl. tauto.
  - eapply returns_bind; [apply tryOnce_outcome|].
    intros res Hres. destruct (success res) eqn:Hs.
    + apply returns_ret. left. exact Hs.
    + destruct (Js.mem (reasonOf res) Workers.transient).
      * apply returns_bind with (Q1 := anything); [apply pause_returns|].
        intros _ _. apply IHleft.
      * apply returns_ret. eapply outcomeIn_incl; [|exact Hres].
        intros x Hx. simpl in *. tauto.
Qed.

Lemma robustTryClickSelector_outcome p sel n t :
  returns (outcomeIn clickReasons) (Workers.robustTryClickSelector p sel n t).
Proof. apply attempts_outcome. Qed.

Lemma robustTryClickSelector_returns p sel n t :
  returns anything (Workers.robustTryClickSelector p sel n t).
Proof.
  eapply returns_weaken; [apply robustTryClickSelector_outcome | intros; exact Logic.I].
Qed.

Hint Resolve robustTryClickSelector_returns : settle.

(** Quiz.ts and the wrappers of the Activities class. *)

Lemma simple_requireRefresh_may p k :
  may anything k -> may anything (QuizSimple.requireRefresh p k).
Proof. intros Hk. unfold QuizSimple.requireRefresh. settle. Qed.

Lemma simple_collectCorrect_may p left : forall i,
  may anything (QuizSimple.collectCorrect p left i).
Proof. induction left; intros; simpl; settle. Qed.

Lemma simple_clickAnswers_may p answers : may anything (QuizSimple.clickAnswers p answers).
Proof.
  induction answers; simpl; settle. apply simple_requireRefresh_may. settle.
Qed.

Lemma simple_optionsLoop_may p left : forall i c,
  may anything (QuizSimple.optionsLoop p left i c).
Proof.
  induction left; intros; simpl; settle. apply simple_requireRefresh_may. settle.
Qed.

Hint Resolve simple_collectCorrect_may simple_clickAnswers_may
  simple_optionsLoop_may : settle.

Lemma simple_answerSingle_may p : may anything (QuizSimple.answerSingle p).
Proof. unfold QuizSimple.answerSingle. settle. Qed.

Hint Resolve simple_answerSingle_may : settle.

Lemma simple_questions_may p left : forall qd,
  may anything (QuizSimple.questions p left qd).
Proof. induction left; intros; simpl; settle. Qed.

Hint Resolve simple_questions_may : settle.

Lemma simple_doQuiz_may p : may anything (QuizSimple.doQuiz p).
Proof. unfold QuizSimple.doQuiz. settle. Qed.

Lemma randomDelay_returns lo hi : returns anything (Activities.randomDelay lo hi).
Proof. unfold Activities.randomDelay. settle. Qed.

Hint Resolve simple_doQuiz_may randomDelay_returns doPoll_may doABC_returns
  doSearchOnBing_may : settle.

Lemma activities_doPoll_may p : may anything (Activities.doPoll p).
Proof. unfold Activities.doPoll. settle. Qed.

Lemma activities_doABC_may p : may anything (Activities.doABC p).
Proof. unfold Activities.doABC. settle. Qed.

Lemma activities_doThisOrThat_may p : may anything (Activities.doThisOrThat p).
Proof. unfold Activities.doThisOrThat. settle. Qed.

Lemma activities_doQuiz_may p : may anything (Activities.doQuiz p).
Proof. unfold Activities.doQuiz. settle. Qed.

Lemma activities_doUrlReward_may p : may anything (Activities.doUrlReward p).
Proof. unfold Activities.doUrlReward. settle. Qed.

Lemma activities_doSearchOnBing_may p a : may anything (Activities.doSearchOnBing p a).
Proof. unfold Activities.doSearchOnBing. settle. Qed.

Hint Resolve activities_doPoll_may activities_doABC_may activities_doThisOrThat_may
  activities_doQuiz_may activities_doUrlReward_may activities_doSearchOnBing_may : settle.

(** The per-activity loop. *)

Lemma buildSelectorsForActivity_returns p a pc :
  returns anything (Workers.buildSelectorsForActivity p a pc).
Proof. unfold Workers.buildSelectorsForActivity. settle. Qed.

Lemma tryCandidates_returns p a sels : forall n,
  returns anything (Workers.tryCandidates p a sels n).
Proof. induction sels; intros; cbn [Workers.tryCandidates]; settle. Qed.

Lemma found_returns k a : returns anything (Workers.found k a).
Proof. unfold Workers.found. settle. Qed.

Hint Resolve buildSelectorsForActivity_returns tryCandidates_returns found_returns
  getPunchCardActivity_returns : settle.

Lemma dispatch_may p a : may anything (Workers.dispatch p a).
Proof. unfold Workers.dispatch. settle. Qed.

Hint Resolve dispatch_may : settle.

Lemma solveOne_may initial pc a : may anything (Workers.solveOne initial pc a).
Proof. unfold Workers.solveOne. settle. Qed.

Hint Resolve solveOne_may : settle.

(** Whatever happens to one activity, its pass of the loop resolves. *)
Lemma iteration_returns initial pc a : returns anything (Workers.iteration initial pc a).
Proof. unfold Workers.iteration. settle. Qed.

Hint Resolve iteration_returns : settle.

Lemma activitiesLoop_returns initial pc acts :
  returns anything (Workers.activitiesLoop initial pc acts).
Proof. induction acts; simpl; settle. Qed.

Hint Resolve activitiesLoop_returns : settle.

Lemma solveActivities_returns p acts pc :
  returns anything (Workers.solveActivities p acts pc).
Proof. unfold Workers.solveActivities. settle. Qed.

End Settling.

(** ** What a run records *)

Lemma resolved_only ok evs :
  Forall (resolvesOnly ok) evs -> forall a, In a (resolved evs) -> ok a.
Proof.
  induction 1 as [|ev rest Hev _ IH]; simpl; [tauto|].
  intros a Ha. destruct ev; simpl in *; auto.
  destruct Ha as [<-|Ha]; auto.
Qed.

Create HintDb emission discriminated.

Section EmissionRules.

Context `{Env}.
Variable P : Event -> Prop.

Lemma emits_ret {A} (a : A) : emits P (ret a).
Proof. intros s. constructor. Qed.

Lemma emits_throw {A} e : emits P (@throw A e).
Proof. intros s. constructor. Qed.

Lemma emits_outOfFuel {A} : emits P (@outOfFuel A).
Proof. intros s. constructor. Qed.

Lemma emits_bind {A B} (m : M A) (f : A -> M B) :
  emits P m -> (forall a, emits P (f a)) -> emits P (bind m f).
Proof.
  intros Hm Hf s. specialize (Hm s). unfold events, bind in *.
  destruct (m s) as [[r s1] ev1]. destruct r as [a|e|]; simpl in *; auto.
  specialize (Hf a s1). unfold events in Hf.
  destruct (f a s1) as [[r2 s2] ev2]. simpl in *.
  apply Forall_app; auto.
Qed.

Lemma emits_tryCatch {A} (body : M A) handler :
  emits P body -> (forall e, emits P (handler e)) -> emits P (tryCatch body handler).
Proof.
  intros Hb Hh s. specialize (Hb s). unfold events, tryCatch in *.
  destruct (body s) as [[r s1] ev1]. destruct r as [a|e|]; simpl in *; auto.
  specialize (Hh e s1). unfold events in Hh.
  destruct (handler e s1) as [[r2 s2] ev2]. simpl in *.
  apply Forall_app; auto.
Qed.

Lemma emits_call op : P (Called op) -> emits P (call op).
Proof. intros Hp s. repeat constructor. exact Hp. Qed.

Lemma emits_wait ms : P (Waited ms) -> emits P (wait ms).
Proof. intros Hp s. repeat constructor. exact Hp. Qed.

Lemma emits_log t m l : P (Logged t m l) -> emits P (log t m l).
Proof. intros Hp s. repeat constructor. exact Hp. Qed.

Lemma emits_random lo hi : emits P (random lo hi).
Proof. intros s. constructor. Qed.

Lemma emits_url p : emits P (url p).
Proof. intros s. constructor. Qed.

Lemma emits_pagesLength p : emits P (pagesLength p).
Proof. intros s. constructor. Qed.

Lemma emits_getFormattedDate : emits P getFormattedDate.
Proof. intros s. constructor. Qed.

Lemma emits_shuffleFirst l : emits P (shuffleFirst l).
Proof. intros s. constructor. Qed.

Lemma emits_getDom : emits P getDom.
Proof. intros s. constructor. Qed.

Lemma emits_setDom d : emits P (setDom d).
Proof. intros s. constructor. Qed.

Lemma emits_getPage : emits P getPage.
Proof. intros s. constructor. Qed.

Lemma emits_setPage p : emits P (setPage p).
Proof. intros s. constructor. Qed.

Lemma emits_getActivityPage : emits P getActivityPage.
Proof. intros s. constructor. Qed.

Lemma emits_setActivityPage p : emits P (setActivityPage p).
Proof. intros s. constructor. Qed.

Lemma emits_mark a : P (Resolving a) -> emits P (mark a).
Proof. intros Ha s. repeat constructor. exact Ha. Qed.

End EmissionRules.

#[export] Hint Resolve emits_ret emits_throw emits_outOfFuel emits_random
  emits_url emits_pagesLength emits_getFormattedDate emits_shuffleFirst emits_getDom
  emits_setDom emits_getPage emits_setPage emits_getActivityPage
  emits_setActivityPage : emission.

(** The obligation on one recorded event: from the hypotheses at hand,
    or by computation. *)
Ltac emits_event :=
  first [ solve [ auto with emission ]
        | reflexivity
        | exact Logic.I
        | solve [ simpl; auto with emission ] ].

Ltac emits_step :=
  lazymatch goal with
  | |- emits _ (bind _ _) => apply emits_bind; [ | intro ]
  | |- emits _ (tryCatch _ _) => apply emits_tryCatch; [ | intro ]
  | |- emits _ (orElse _ _) => unfold orElse
  | |- emits _ (ignoring _) => unfold ignoring
  | |- emits _ (call ?op) => apply (@emits_call _ _ op); emits_event
  | |- emits _ (wait _) => apply emits_wait; emits_event
  | |- emits _ (log _ _ _) => apply emits_log; emits_event
  | |- emits _ (mark _) => apply emits_mark; emits_event
  | |- emits _ (match ?x with _ => _ end) => destruct x
  | |- emits _ _ => solve [ eauto with emission ]
  end.

Ltac emission := repeat emits_step.

Section Emission.

Context `{Env}.
Variable P : Event -> Prop.
Hypothesis P_called : forall op, P (Called op).
Hypothesis P_waited : forall ms, P (Waited ms).
Hypothesis P_logged : forall t m l, P (Logged t m l).

Hint Resolve P_called P_waited P_logged : emission.

Lemma emits_waitForQuizRefresh p : emits P (BrowserFunc.waitForQuizRefresh p).
Proof. unfold BrowserFunc.waitForQuizRefresh. emission. Qed.

Lemma emits_quietDelay : emits P BrowserFunc.quietDelay.
Proof. unfold BrowserFunc.quietDelay. emission. Qed.

Hint Resolve emits_waitForQuizRefresh emits_quietDelay : emission.

Lemma emits_getPunchCardActivity p a : emits P (BrowserFunc.getPunchCardActivity p a).
Proof. unfold BrowserFunc.getPunchCardActivity. emission. Qed.

Lemma emits_doPoll p : emits P (Poll.doPoll p).
Proof. unfold Poll.doPoll. emission. Qed.

Lemma emits_randomSleep : emits P ABC.randomSleep.
Proof. unfold ABC.randomSleep. emission. Qed.

Lemma emits_randomSleepShort : emits P ABC.randomSleepShort.
Proof. unfold ABC.randomSleepShort. emission. Qed.

Hint Resolve emits_randomSleep emits_randomSleepShort : emission.

Lemma emits_reload : emits P ABC.reload.
Proof. unfold ABC.reload. emission. Qed.

Hint Resolve emits_reload : emission.

Lemma emits_abc_afterWait p c : emits P (ABC.afterWait p c).
Proof. unfold ABC.afterWait. emission. Qed.

Hint Resolve emits_abc_afterWait : emission.

Lemma emits_abc_iteration c : emits P (ABC.iteration c).
Proof. unfold ABC.iteration. emission. Qed.

Hint Resolve emits_abc_iteration : emission.

Lemma emits_abc_loop left : forall i c, emits P (ABC.loop left i c).
Proof. induction left; intros; simpl; emission. Qed.

Hint Resolve emits_abc_loop : emission.

Lemma emits_abc_report i : emits P (ABC.report i).
Proof. unfold ABC.report. emission. Qed.

Hint Resolve emits_abc_report : emission.

Lemma emits_abc_solve p : emits P (ABC.solve p).
Proof. unfold ABC.solve. emission. Qed.

Lemma emits_abc_onError e : emits P (ABC.onError e).
Proof. unfold ABC.onError. emission. Qed.

Hint Resolve emits_abc_solve emits_abc_onError : emission.

Lemma emits_doABC p : emits P (ABC.doABC p).
Proof. unfold ABC.doABC. emission. Qed.

Lemma emits_getSearchQuery t : emits P (SearchOnBing.getSearchQuery t).
Proof. unfold SearchOnBing.getSearchQuery. emission. Qed.

Hint Resolve emits_getSearchQuery : emission.

Lemma emits_doSearchOnBing p a : emits P (SearchOnBing.doSearchOnBing p a).
Proof. unfold SearchOnBing.doSearchOnBing. emission. Qed.

Lemma emits_simple_requireRefresh p k :
  emits P k -> emits P (QuizSimple.requireRefresh p k).
Proof. intros Hk. unfold QuizSimple.requireRefresh. emission. Qed.

Lemma emits_simple_collectCorrect p left : forall i,
  emits P (QuizSimple.collectCorrect p left i).
Proof. induction left; intros; simpl; emission. Qed.

Lemma emits_simple_clickAnswers p answers : emits P (QuizSimple.clickAnswers p answers).
Proof.
  induction answers; simpl; emission. apply emits_simple_requireRefresh. emission.
Qed.

Lemma emits_simple_optionsLoop p left : forall i c,
  emits P (QuizSimple.optionsLoop p left i c).
Proof.
  induction left; intros; simpl; emission. apply emits_simple_requireRefresh. emission.
Qed.

Hint Resolve emits_simple_collectCorrect emits_simple_clickAnswers
  emits_simple_optionsLoop : emission.

Lemma emits_simple_answerSingle p : emits P (QuizSimple.answerSingle p).
Proof. unfold QuizSimple.answerSingle. emission. Qed.

Hint Resolve emits_simple_answerSingle : emission.

Lemma emits_simple_questions p left : forall qd, emits P (QuizSimple.questions p left qd).
Proof. induction left; intros; simpl; emission. Qed.

Hint Resolve emits_simple_questions : emission.

Lemma emits_simple_doQuiz p : emits P (QuizSimple.doQuiz p).
Proof. unfold QuizSimple.doQuiz. emission. Qed.

Lemma emits_randomDelay lo hi : emits P (Activities.randomDelay lo hi).
Proof. unfold Activities.randomDelay. emission. Qed.

Hint Resolve emits_simple_doQuiz emits_randomDelay emits_doPoll emits_doABC
  emits_doSearchOnBing : emission.

Lemma emits_activities_doPoll p : emits P (Activities.doPoll p).
Proof. unfold Activities.doPoll. emission. Qed.

Lemma emits_activities_doABC p : emits P (Activities.doABC p).
Proof. unfold Activities.doABC. emission. Qed.

Lemma emits_activities_doThisOrThat p : emits P (Activities.doThisOrThat p).
Proof. unfold Activities.doThisOrThat. emission. Qed.

Lemma emits_activities_doQuiz p : emits P (Activities.doQuiz p).
Proof. unfold Activities.doQuiz. emission. Qed.

Lemma emits_activities_doUrlReward p : emits P (Activities.doUrlReward p).
Proof. unfold Activities.doUrlReward. emission. Qed.

Lemma emits_activities_doSearchOnBing p a : emits P (Activities.doSearchOnBing p a).
Proof. unfold Activities.doSearchOnBing. emission. Qed.

Hint Resolve emits_activities_doPoll emits_activities_doABC
  emits_activities_doThisOrThat emits_activities_doQuiz
  emits_activities_doUrlReward emits_activities_doSearchOnBing : emission.

Lemma emits_hideOverlappingOverlays p sel : emits P (Workers.hideOverlappingOverlays p sel).
Proof. unfold Workers.hideOverlappingOverlays. emission. Qed.

Lemma emits_restoreHiddenOverlays p : emits P (Workers.restoreHiddenOverlays p).
Proof. unfold Workers.restoreHiddenOverlays. emission. Qed.

Hint Resolve emits_hideOverlappingOverlays emits_restoreHiddenOverlays : emission.

Lemma emits_checkStage p sel : emits P (Workers.checkStage p sel).
Proof. unfold Workers.checkStage. emission. Qed.

Lemma emits_clickCascade p sel t : emits P (Workers.clickCascade p sel t).
Proof. unfold Workers.clickCascade. emission. Qed.

Hint Resolve emits_checkStage emits_clickCascade : emission.

Lemma emits_tryOnce p selector pt sel t : emits P (Workers.tryOnce p selector pt sel t).
Proof. unfold Workers.tryOnce. emission. Qed.

Lemma emits_pause : emits P Workers.pause.
Proof. unfold Workers.pause. emission. Qed.

Hint Resolve emits_tryOnce emits_pause : emission.

Lemma emits_attempts left : forall p sel t, emits P (Workers.attempts left p sel t).
Proof. induction left; intros; cbn [Workers.attempts]; emission. Qed.

Lemma emits_robustTryClickSelector p sel n t :
  emits P (Workers.robustTryClickSelector p sel n t).
Proof. apply emits_attempts. Qed.

Hint Resolve emits_robustTryClickSelector : emission.

Lemma emits_tryCandidates p a sels : forall n, emits P (Workers.tryCandidates p a sels n).
Proof. induction sels; intros; cbn [Workers.tryCandidates]; emission. Qed.

Lemma emits_found k a : emits P (Workers.found k a).
Proof. unfold Workers.found. emission. Qed.

Hint Resolve emits_tryCandidates emits_found emits_getPunchCardActivity : emission.

Lemma emits_dispatch p a : emits P (Workers.dispatch p a).
Proof. unfold Workers.dispatch. emission. Qed.

Hint Resolve emits_dispatch : emission.

(** Selector resolution is entered for the activity at hand only. *)
Lemma emits_buildSelectorsForActivity p a pc :
  P (Resolving a) -> emits P (Workers.buildSelectorsForActivity p a pc).
Proof. intros Ha. unfold Workers.buildSelectorsForActivity. emission. Qed.

Hint Resolve emits_buildSelectorsForActivity : emission.

Lemma emits_solveOne initial pc a :
  P (Resolving a) -> emits P (Workers.solveOne initial pc a).
Proof. intros Ha. unfold Workers.solveOne. emission. Qed.

Hint Resolve emits_solveOne : emission.

Lemma emits_iteration initial pc a :
  P (Resolving a) -> emits P (Workers.iteration initial pc a).
Proof. intros Ha. unfold Workers.iteration. emission. Qed.

Hint Resolve emits_iteration : emission.

Lemma emits_activitiesLoop initial pc acts :
  (forall a, In a acts -> P (Resolving a)) ->
  emits P (Workers.activitiesLoop initial pc acts).
Proof.
  induction acts as [|a rest IH]; intros Ha; simpl; emission.
  - apply emits_iteration. apply Ha. apply in_eq.
  - apply IH. intros b Hb. apply Ha. apply in_cons. exact Hb.
Qed.

Lemma emits_solveActivities p acts pc :
  (forall a, In a acts -> P (Resolving a)) ->
  emits P (Workers.solveActivities p acts pc).
Proof.
  intros Ha. unfold Workers.solveActivities. emission.
  apply emits_activitiesLoop. exact Ha.
Qed.

(** The three public flows. *)

Lemma emits_doDailySet p data :
  (forall a, Workers.dailySetPending a = true -> P (Resolving a)) ->
  emits P (Workers.doDailySet p data).
Proof.
  intros Hok. unfold Workers.doDailySet.
  apply emits_bind; [emission | intros date].
  destruct (match Workers.lookup date (dailySetPromotions data) with
            | Some todayData => filter Workers.dailySetPending todayData
            | None => []
            end) as [|a rest] eqn:E; [emission|].
  emission. apply emits_solveActivities.
  intros b Hb. apply Hok. rewrite <- E in Hb.
  destruct (Workers.lookup date (dailySetPromotions data)); [|destruct Hb].
  apply filter_In in Hb. tauto.
Qed.

Lemma emits_doMorePromotions p data :
  (forall a, Workers.morePromotionPending a = true -> P (Resolving a)) ->
  emits P (Workers.doMorePromotions p data).
Proof.
  intros Hok. unfold Workers.doMorePromotions.
  match goal with
  | |- emits _ (match ?l with _ => _ end) => destruct l as [|a rest] eqn:E
  end; [emission|].
  emission. apply emits_solveActivities.
  intros b Hb. apply Hok. rewrite <- E in Hb. apply filter_In in Hb. tauto.
Qed.

Lemma emits_punchCardLoop cards : forall p,
  (forall a, complete a = false -> P (Resolving a)) ->
  emits P (Workers.punchCardLoop p cards).
Proof.
  induction cards as [|card rest IH]; intros p Hok; simpl; [emission|].
  destruct (parentPromotion card) as [par|]; [|emission; apply IH; exact Hok].
  destruct (Js.truthy (title par)); [|emission; apply IH; exact Hok].
  emission; try (apply IH; exact Hok);
    apply emits_solveActivities; intros b Hb; apply Hok;
    apply filter_In in Hb; destruct Hb as [_ Hb];
    destruct (complete b); [discriminate | reflexivity].
Qed.

Lemma emits_doPunchCard p data :
  (forall a, complete a = false -> P (Resolving a)) ->
  emits P (Workers.doPunchCard p data).
Proof.
  intros Hok. unfold Workers.doPunchCard.
  match goal with
  | |- emits _ (match ?l with _ => _ end) => destruct l
  end; emission.
  apply emits_punchCardLoop. exact Hok.
Qed.

End Emission.

Create HintDb keeping discriminated.

(** ** What a run leaves untouched *)

Section Keeping.

Context `{Env}.
Context {X : Type}.
Variable proj : State -> X.
Hypothesis proj_tick : forall s, proj (tick s) = proj s.

Lemma keeps_ret {A} (a : A) : keeps proj (ret a).
Proof. intros s. reflexivity. Qed.

Lemma keeps_throw {A} e : keeps proj (@throw A e).
Proof. intros s. reflexivity. Qed.

Lemma keeps_bind {A B} (m : M A) (f : A -> M B) :
  keeps proj m -> (forall a, keeps proj (f a)) -> keeps proj (bind m f).
Proof.
  intros Hm Hf s. specialize (Hm s). unfold final, bind in *.
  destruct (m s) as [[r s1] ev1]. destruct r as [a|e|]; simpl in *; auto.
  specialize (Hf a s1). unfold final in Hf.
  destruct (f a s1) as [[r2 s2] ev2]. simpl in *. congruence.
Qed.

Lemma keeps_tryCatch {A} (body : M A) handler :
  keeps proj body -> (forall e, keeps proj (handler e)) -> keeps proj (tryCatch body handler).
Proof.
  intros Hb Hh s. specialize (Hb s). unfold final, tryCatch in *.
  destruct (body s) as [[r s1] ev1]. destruct r as [a|e|]; simpl in *; auto.
  specialize (Hh e s1). unfold final in Hh.
  destruct (handler e s1) as [[r2 s2] ev2]. simpl in *. congruence.
Qed.

Lemma keeps_call op : keeps proj (call op).
Proof. intros s. apply proj_tick. Qed.

Lemma keeps_wait ms : keeps proj (wait ms).
Proof. intros s. reflexivity. Qed.

Lemma keeps_log t m l : keeps proj (log t m l).
Proof. intros s. reflexivity. Qed.

Lemma keeps_random lo hi : keeps proj (random lo hi).
Proof. intros s. apply proj_tick. Qed.

Lemma keeps_getDom : keeps proj getDom.
Proof. intros s. reflexivity. Qed.

Lemma keeps_getPage : keeps proj getPage.
Proof. intros s. reflexivity. Qed.

Hint Resolve keeps_ret keeps_throw keeps_wait keeps_log keeps_random keeps_getDom
  keeps_getPage : keeping.

Ltac keeps_step :=
  lazymatch goal with
  | |- keeps _ (bind _ _) => apply keeps_bind; [ | intro ]
  | |- keeps _ (tryCatch _ _) => apply keeps_tryCatch; [ | intro ]
  | |- keeps _ (orElse _ _) => unfold orElse
  | |- keeps _ (ignoring _) => unfold ignoring
  | |- keeps _ (call ?op) => exact (keeps_call op)
  | |- keeps _ (match ?x with _ => _ end) => destruct x
  | |- keeps _ _ => solve [ eauto with keeping ]
  end.

Ltac keeping := repeat keeps_step.

Lemma keeps_waitForQuizRefresh p : keeps proj (BrowserFunc.waitForQuizRefresh p).
Proof. unfold BrowserFunc.waitForQuizRefresh. keeping. Qed.

Lemma keeps_clickCascade p sel t : keeps proj (Workers.clickCascade p sel t).
Proof. unfold Workers.clickCascade. keeping. Qed.

Lemma keeps_findDailyCandidates p : keeps proj (Quiz.findDailyCandidates p).
Proof. unfold Quiz.findDailyCandidates. keeping. Qed.

Lemma keeps_isVisibleAndClickable p sel : keeps proj (Quiz.isVisibleAndClickable p sel).
Proof. unfold Quiz.isVisibleAndClickable. keeping. Qed.

Lemma keeps_clickStage p sel t : keeps proj (Quiz.clickStage p sel t).
Proof. unfold Quiz.clickStage. keeping. Qed.

Hint Resolve keeps_findDailyCandidates keeps_isVisibleAndClickable keeps_clickStage : keeping.

(** From here on the component is one that [setDom] leaves alone. *)
Hypothesis proj_setDom :
  forall s d, proj (mkState (clock s) d (var_page s) (var_activityPage s)) = proj s.

Lemma keeps_setDom d : keeps proj (setDom d).
Proof. intros s. apply proj_setDom. Qed.

Hint Resolve keeps_setDom : keeping.

Lemma keeps_hideBlockingOverlays p sel : keeps proj (Quiz.hideBlockingOverlays p sel).
Proof. unfold Quiz.hideBlockingOverlays. keeping. Qed.

Hint Resolve keeps_hideBlockingOverlays : keeping.

Lemma keeps_tryClickOnce p sel t : keeps proj (Quiz.tryClickOnce p sel t).
Proof. unfold Quiz.tryClickOnce. keeping. Qed.

Hint Resolve keeps_tryClickOnce : keeping.

Lemma keeps_firstLoop left : forall p sel t, keeps proj (Quiz.firstLoop left p sel t).
Proof. induction left; intros; cbn [Quiz.firstLoop]; keeping. Qed.

Lemma keeps_candidateAttempts left : forall p sel t,
  keeps proj (Quiz.candidateAttempts left p sel t).
Proof. induction left; intros; cbn [Quiz.candidateAttempts]; keeping. Qed.

Hint Resolve keeps_firstLoop keeps_candidateAttempts : keeping.

Lemma keeps_candidatesLoop cands : forall n p t,
  keeps proj (Quiz.candidatesLoop cands n p t).
Proof. induction cands; intros; cbn [Quiz.candidatesLoop]; keeping. Qed.

Hint Resolve keeps_candidatesLoop : keeping.

Lemma keeps_heuristics p sel n t : keeps proj (Quiz.heuristics p sel n t).
Proof. unfold Quiz.heuristics. keeping. Qed.

Hint Resolve keeps_heuristics : keeping.

Lemma keeps_clickWithRetries p sel n t : keeps proj (Quiz.clickWithRetries p sel n t).
Proof. unfold Quiz.clickWithRetries. keeping. Qed.

End Keeping.

(** ** Composition of runs *)

Section Runs.

Context `{Env}.

Lemma run_bind_ok {A B} (m : M A) (f : A -> M B) (s : State) (a : A) :
  result m s = Ok a ->
  bind m f s = (result (f a) (final m s), final (f a) (final m s),
                events m s ++ events (f a) (final m s)).
Proof.
  unfold result, final, events, bind.
  destruct (m s) as [[r s1] ev1]; simpl. intros ->.
  destruct (f a s1) as [[r2 s2] ev2]. reflexivity.
Qed.

Lemma events_bind_ok {A B} (m : M A) (f : A -> M B) (s : State) (a : A) :
  result m s = Ok a ->
  events (bind m f) s = events m s ++ events (f a) (final m s).
Proof. intros E. unfold events at 1. rewrite (run_bind_ok m f s E). reflexivity. Qed.

Lemma final_bind_ok {A B} (m : M A) (f : A -> M B) (s : State) (a : A) :
  result m s = Ok a ->
  final (bind m f) s = final (f a) (final m s).
Proof. intros E. unfold final at 1. rewrite (run_bind_ok m f s E). reflexivity. Qed.

Lemma result_bind_ok {A B} (m : M A) (f : A -> M B) (s : State) (a : A) :
  result m s = Ok a ->
  result (bind m f) s = result (f a) (final m s).
Proof. intros E. unfold result at 1. rewrite (run_bind_ok m f s E). reflexivity. Qed.

Lemma events_bind {A B} (m : M A) (f : A -> M B) (s : State) :
  events (bind m f) s =
  events m s ++ match result m s with
                | Ok a => events (f a) (final m s)
                | _ => []
                end.
Proof.
  unfold events, result, final, bind.
  destruct (m s) as [[[a|e|] s1] ev1]; simpl; try (rewrite app_nil_r; reflexivity).
  destruct (f a s1) as [[r2 s2] ev2]. reflexivity.
Qed.

Lemma result_bind {A B} (m : M A) (f : A -> M B) (s : State) :
  result (bind m f) s =
  match result m s with
  | Ok a => result (f a) (final m s)
  | Throw e => Throw e
  | OutOfFuel => OutOfFuel
  end.
Proof.
  unfold result, final, bind.
  destruct (m s) as [[[a|e|] s1] ev1]; simpl; try reflexivity.
  destruct (f a s1) as [[r2 s2] ev2]. reflexivity.
Qed.

Lemma bind_ok_inv {A B} (m : M A) (f : A -> M B) (s : State) (b : B) :
  result (bind m f) s = Ok b ->
  exists a, result m s = Ok a /\ result (f a) (final m s) = Ok b.
Proof.
  rewrite result_bind. destruct (result m s) as [a|e|]; try discriminate.
  intros Hb. exists a. auto.
Qed.

Lemma returns_ok {A} (Q : A -> Prop) m s :
  returns Q m -> exists a, result m s = Ok a /\ Q a.
Proof.
  intros Hm. specialize (Hm s). destruct (result m s) as [a|e|]; try tauto.
  exists a. tauto.
Qed.

Lemma unit_ok (m : M unit) s : returns anything m -> result m s = Ok tt.
Proof.
  intros Hm. destruct (returns_ok s Hm) as [[] [E _]]. exact E.
Qed.

Lemma bind_assoc_run {A B C} (m : M A) (f : A -> M B) (g : B -> M C) s :
  bind (bind m f) g s = bind m (fun x => bind (f x) g) s.
Proof.
  unfold bind. destruct (m s) as [[[a|e|] s1] ev1]; try reflexivity.
  destruct (f a s1) as [[[b|e|] s2] ev2]; try reflexivity.
  destruct (g b s2) as [[r s3] ev3]. rewrite app_assoc. reflexivity.
Qed.

Lemma bind_ext_run {A B} (m : M A) (f g : A -> M B) s :
  (forall a s1, f a s1 = g a s1) -> bind m f s = bind m g s.
Proof.
  intros Hfg. unfold bind. destruct (m s) as [[[a|e|] s1] ev1]; try reflexivity.
  rewrite Hfg. reflexivity.
Qed.

(** The loop over a concatenation is the loop over the first list
    followed, in the state it leaves, by the loop over the second. *)
Lemma activitiesLoop_app initial pc l1 : forall l2 s,
  Workers.activitiesLoop initial pc (l1 ++ l2) s =
  (Workers.activitiesLoop initial pc l1 ;; Workers.activitiesLoop initial pc l2) s.
Proof.
  induction l1 as [|a rest IH]; intros l2 s.
  - simpl. unfold bind, ret.
    destruct (Workers.activitiesLoop initial pc l2 s) as [[r s1] ev]. reflexivity.
  - cbn [app Workers.activitiesLoop]. rewrite bind_assoc_run.
    apply bind_ext_run. intros _ s1. apply IH.
Qed.

End Runs.

(** ** Closing the page *)

Section Closing.

Context `{Env}.
Variable pg : State -> Page.

Lemma closedOn_at {A} (C : A -> Prop) m : closedOn pg C m <-> forall s, closedAt pg C m s.
Proof. reflexivity. Qed.

Lemma closedAt_on {A} (C : A -> Prop) m s : closedOn pg C m -> closedAt pg C m s.
Proof. intros Hm. apply Hm. Qed.

Lemma closedOn_ret {A} (C : A -> Prop) a : ~ C a -> closedOn pg C (ret a).
Proof. intros Hc s. simpl. intros Ha. contradiction. Qed.

Lemma closedOn_throw {A} (C : A -> Prop) e : closedOn pg C (throw e).
Proof. intros s. exact Logic.I. Qed.

Lemma closedOn_outOfFuel {A} (C : A -> Prop) : closedOn pg C outOfFuel.
Proof. intros s. exact Logic.I. Qed.

(** What follows closes the page. *)
Lemma closedOn_suffix {A B} (C : B -> Prop) (m : M A) (f : A -> M B) :
  (forall a, closedOn pg C (f a)) -> closedOn pg C (bind m f).
Proof.
  intros Hf s. unfold result, final, events, bind.
  destruct (m s) as [[r s1] ev1]. destruct r as [a|e|]; simpl; auto.
  specialize (Hf a s1). unfold result, final, events in Hf.
  destruct (f a s1) as [[r2 s2] ev2]. simpl in *.
  destruct r2; auto. intros Hc. apply in_or_app. right. auto.
Qed.

Lemma closedAt_suffix {A B} (C : B -> Prop) (m : M A) (f : A -> M B) s :
  (forall a, result m s = Ok a -> closedAt pg C (f a) (final m s)) ->
  closedAt pg C (bind m f) s.
Proof.
  intros Hf. unfold closedAt, result, final, events, bind in *.
  destruct (m s) as [[r s1] ev1]. destruct r as [a|e|]; simpl in *; auto.
  specialize (Hf a eq_refl).
  destruct (f a s1) as [[r2 s2] ev2]. simpl in *.
  destruct r2; auto. intros Hc. apply in_or_app. right. auto.
Qed.

(** The first part closed the page when its value satisfies [C1], and
    what follows then only returns. *)
Lemma closedOn_pass {A B} (C1 : A -> Prop) (C : B -> Prop) (m : M A) (f : A -> M B)
      (g : A -> B) :
  closedOn pg C1 m ->
  (forall a, C1 a \/ ~ C1 a) ->
  (forall a, C1 a -> f a = ret (g a)) ->
  (forall a, ~ C1 a -> closedOn pg C (f a)) ->
  closedOn pg C (bind m f).
Proof.
  intros Hm Hdec Hret Hf s. specialize (Hm s).
  unfold result, final, events, bind in *.
  destruct (m s) as [[r s1] ev1]. destruct r as [a|e|]; simpl in *; auto.
  destruct (Hdec a) as [Hc|Hn].
  - rewrite (Hret a Hc). simpl. intros _. rewrite app_nil_r. auto.
  - specialize (Hf a Hn s1). unfold result, final, events in Hf.
    destruct (f a s1) as [[r2 s2] ev2]. simpl in *.
    destruct r2; auto. intros Hc. apply in_or_app. right. auto.
Qed.

Lemma closedOn_tryCatch {A} (C : A -> Prop) (body : M A) handler :
  closedOn pg C body -> (forall e, closedOn pg C (handler e)) ->
  closedOn pg C (tryCatch body handler).
Proof.
  intros Hb Hh s. specialize (Hb s). unfold result, final, events, tryCatch in *.
  destruct (body s) as [[r s1] ev1]. destruct r as [a|e|]; simpl in *; auto.
  specialize (Hh e s1). unfold result, final, events in Hh.
  destruct (handler e s1) as [[r2 s2] ev2]. simpl in *.
  destruct r2; auto. intros Hc. apply in_or_app. right. auto.
Qed.

Lemma closedOn_always {A} (C : A -> Prop) (m : M A) :
  alwaysCloses pg m -> closedOn pg C m.
Proof.
  intros Hm s. specialize (Hm s). destruct (result m s); auto.
Qed.

(** A protocol is a [try] whose body closes the page when it resolves
    and whose handler closes it in any case. *)
Lemma closes_tryCatch {A} (body : M A) handler :
  closedOn pg anything body -> (forall e, alwaysCloses pg (handler e)) ->
  closes pg (tryCatch body handler).
Proof.
  intros Hb Hh s. specialize (Hb s). unfold result, final, events, tryCatch in *.
  destruct (body s) as [[r s1] ev1]. destruct r as [a|e|]; simpl in *.
  - intros _. apply Hb. exact Logic.I.
  - specialize (Hh e s1). unfold final, events in Hh.
    destruct (handler e s1) as [[r2 s2] ev2]. simpl in *.
    intros _. apply in_or_app. right. exact Hh.
  - intros Hne. contradiction.
Qed.

Lemma closes_tryCatch_at {A} (body : M A) handler s :
  closedAt pg anything body s -> (forall e, alwaysCloses pg (handler e)) ->
  result (tryCatch body handler) s <> OutOfFuel ->
  In (Called (Close (pg (final (tryCatch body handler) s))))
     (events (tryCatch body handler) s).
Proof.
  intros Hb Hh. unfold closedAt, result, final, events, tryCatch in *.
  destruct (body s) as [[r s1] ev1]. destruct r as [a|e|]; simpl in *.
  - intros _. apply Hb. exact Logic.I.
  - specialize (Hh e s1). unfold final, events in Hh.
    destruct (handler e s1) as [[r2 s2] ev2]. simpl in *.
    intros _. apply in_or_app. right. exact Hh.
  - intros Hne. contradiction.
Qed.

Lemma closes_after {A B} (m : M A) (f : A -> M B) :
  returns anything m -> (forall a, closes pg (f a)) -> closes pg (bind m f).
Proof.
  intros Hm Hf s. specialize (Hm s). unfold result, final, events, bind in *.
  destruct (m s) as [[r s1] ev1]. destruct r as [a|e|]; simpl in *; try contradiction.
  specialize (Hf a s1). unfold result, final, events in Hf.
  destruct (f a s1) as [[r2 s2] ev2]. simpl in *.
  intros Hne. apply in_or_app. right. auto.
Qed.

End Closing.

Create HintDb closing discriminated.

#[export] Hint Resolve closedOn_throw closedOn_outOfFuel : closing.

(** Steps down a program to the part that closes the page; [leaf]
    refutes the condition at a [ret]. *)
Ltac closing_step leaf :=
  lazymatch goal with
  | |- closedOn _ _ (bind _ _) =>
      first [ solve [ eauto with closing ] | apply closedOn_suffix; intro ]
  | |- closedOn _ _ (tryCatch _ _) => apply closedOn_tryCatch; [ | intro ]
  | |- closedOn _ _ (orElse _ _) => unfold orElse
  | |- closedOn _ _ (ignoring _) => unfold ignoring
  | |- closedOn _ _ (ret _) => apply closedOn_ret; leaf
  | |- closedOn _ _ (match ?x with _ => _ end) => destruct x
  | |- closedOn _ _ _ => solve [ eauto with closing ]
  end.

Ltac closing_with leaf := repeat (closing_step leaf).
Ltac not_return := unfold isReturn; intro; discriminate.
Ltac closing := closing_with not_return.

Section ClosingProtocols.

Context `{Env}.

(** Poll. *)

Lemma poll_tail page t m l :
  closedOn (fun _ => page) anything (call (Close page) ;; log t m l).
Proof.
  apply closedOn_always. intros s.
  unfold events, bind, call, log. simpl.
  destruct (ask (clock s) (Close page)); simpl; auto.
Qed.

Lemma poll_handler page t m l :
  alwaysCloses (fun _ => page) (call (Close page) ;; log t m l).
Proof.
  intros s. unfold events, bind, call, log. simpl.
  destruct (ask (clock s) (Close page)); simpl; auto.
Qed.

Lemma doPoll_closes page : closes (fun _ => page) (Poll.doPoll page).
Proof.
  unfold Poll.doPoll. apply closes_after; [settle|]. intros _.
  apply closes_tryCatch; [|intros e; apply poll_handler].
  pose proof (poll_tail page) as Htail.
  closing_with ltac:(idtac).
Qed.

(** SearchOnBing. *)

Lemma doSearchOnBing_closes page activity :
  closes (fun _ => page) (SearchOnBing.doSearchOnBing page activity).
Proof.
  unfold SearchOnBing.doSearchOnBing. apply closes_after; [settle|]. intros _.
  apply closes_tryCatch.
  - pose proof (poll_tail page) as Htail. closing_with ltac:(idtac).
  - intros e s. unfold events, final, bind, random, wait, call, log. simpl.
    destruct (ask _ (Close page)); simpl; auto.
Qed.

End ClosingProtocols.

Section ClosingWithPageVariable.

Context `{Env}.

(** [close] on the page variable, then something that leaves it alone. *)
Lemma close_then {A} (C : A -> Prop) (k : M A) :
  keeps var_page k ->
  closedOn var_page C (p <- getPage ;; call (Close p) ;; k).
Proof.
  intros Hk s. unfold result, final, events, bind, getPage, call. simpl.
  destruct (ask (clock s) (Close (var_page s))); simpl; auto.
  specialize (Hk (tick s)). unfold final in Hk.
  destruct (k (tick s)) as [[r s2] ev2]. simpl in *.
  destruct r; auto. intros _. left. rewrite Hk. reflexivity.
Qed.

Lemma quiet_close_then {A} (k : M A) :
  keeps var_page k ->
  alwaysCloses var_page (p <- getPage ;; ignoring (call (Close p)) ;; k).
Proof.
  intros Hk s. specialize (Hk (tick s)). unfold final in Hk.
  cbv [final events bind getPage ignoring tryCatch call ret].
  destruct (ask (clock s) (Close (var_page s))); simpl;
    destruct (k (tick s)) as [[r s2] ev2]; simpl in *; left; rewrite Hk; reflexivity.
Qed.

Lemma keeps_page_log t m l : keeps var_page (log t m l).
Proof. intros s. reflexivity. Qed.

(** ABC. *)

Lemma doABC_closes page : closes var_page (ABC.doABC page).
Proof.
  unfold ABC.doABC. apply closes_after; [settle|]. intros _.
  apply closes_after; [settle|]. intros _.
  apply closes_tryCatch.
  - unfold ABC.solve, ABC.report.
    apply closedOn_suffix. intros dollar.
    apply closedOn_suffix. intros i.
    apply closedOn_suffix. intros _.
    apply close_then. destruct (i =? ABC.maxIterations)%nat; apply keeps_page_log.
  - intros e. unfold ABC.onError. apply quiet_close_then. apply keeps_page_log.
Qed.

(** Quiz, with the retrying click. *)

Lemma quiz_requireRefresh_closed (onward : M Ctl) :
  closedOn var_page isReturn onward ->
  closedOn var_page isReturn (Quiz.requireRefresh onward).
Proof.
  intros Hon s. unfold Quiz.requireRefresh.
  apply closedAt_suffix. intros p Hp. cbv [result final getPage fst snd] in Hp |- *.
  injection Hp as <-.
  apply closedAt_suffix. intros ok Hok.
  pose proof (@keeps_waitForQuizRefresh _ _ var_page (fun _ => eq_refl) (var_page s) s) as Hk.
  set (s1 := final (BrowserFunc.waitForQuizRefresh (var_page s)) s) in *.
  destruct ok; simpl; [apply Hon|].
  cbv [closedAt result final events bind ignoring tryCatch call log ret].
  destruct (ask (clock s1) (Close (var_page s))); simpl; intros _; left;
    rewrite Hk; reflexivity.
Qed.

Lemma quiz_clickAnswers_closed answers :
  closedOn var_page isReturn (Quiz.clickAnswers answers).
Proof.
  induction answers as [|a rest IH]; cbn [Quiz.clickAnswers]; [closing|].
  do 4 (apply closedOn_suffix; intro).
  match goal with |- closedOn _ _ (if ?b then _ else _) => destruct b end.
  - apply closedOn_suffix. intros _. exact IH.
  - apply closedOn_suffix. intros _. apply quiz_requireRefresh_closed.
    do 2 (apply closedOn_suffix; intro). exact IH.
Qed.

Lemma quiz_clickCorrect_closed selector :
  closedOn var_page isReturn (Quiz.clickCorrect selector).
Proof.
  unfold Quiz.clickCorrect.
  do 5 (apply closedOn_suffix; intro).
  match goal with |- closedOn _ _ (if ?b then _ else _) => destruct b end.
  - closing.
  - apply quiz_requireRefresh_closed. closing.
Qed.

Lemma isReturn_dec (c : Ctl) : isReturn c \/ ~ isReturn c.
Proof. destruct c; [right|right|left]; unfold isReturn; congruence. Qed.

Lemma quiz_optionsLoop_closed left : forall i correct,
  closedOn var_page isReturn (Quiz.optionsLoop left i correct).
Proof.
  induction left as [|left IH]; intros i correct; cbn [Quiz.optionsLoop]; [closing|].
  apply closedOn_pass with (C1 := isReturn) (g := fun c => c).
  - pose proof quiz_clickCorrect_closed as Hc. closing.
  - apply isReturn_dec.
  - intros c ->. reflexivity.
  - intros [| |] Hc; [apply IH | closing | exfalso; apply Hc; reflexivity].
Qed.

Lemma quiz_answerSingle_closed : closedOn var_page isReturn Quiz.answerSingle.
Proof.
  unfold Quiz.answerSingle.
  do 4 (apply closedOn_suffix; intro).
  match goal with |- closedOn _ _ (match ?x with _ => _ end) => destruct x end;
    [|closing].
  apply closedOn_pass with (C1 := isReturn) (g := fun c => c).
  - apply quiz_optionsLoop_closed.
  - apply isReturn_dec.
  - intros c ->. reflexivity.
  - intros [| |] Hc; [closing | closing | exfalso; apply Hc; reflexivity].
Qed.

Lemma quiz_answerMulti_closed : closedOn var_page isReturn Quiz.answerMulti.
Proof.
  unfold Quiz.answerMulti. apply closedOn_suffix. intros answers.
  apply quiz_clickAnswers_closed.
Qed.

Lemma quiz_questions_closed fuel : forall question remaining,
  closedOn var_page isReturn (Quiz.questions fuel question remaining).
Proof.
  induction fuel as [|fuel IH]; intros question remaining.
  - simpl. destruct (negb (Quiz.below question remaining)); closing.
  - cbn [Quiz.questions].
    destruct (negb (Quiz.below question remaining)); [closing|].
    do 2 (apply closedOn_suffix; intro).
    match goal with |- closedOn _ _ (match ?x with _ => _ end) => destruct x as [qd|] end;
      [|closing].
    destruct (numberOfOptions qd) as [n|]; [|closing].
    apply closedOn_pass with (C1 := isReturn) (g := fun c => c).
    + destruct (n =? 8); [apply quiz_answerMulti_closed|].
      destruct ((n =? 2) || (n =? 3) || (n =? 4)); [apply quiz_answerSingle_closed|].
      closing.
    + apply isReturn_dec.
    + intros c ->. reflexivity.
    + intros [| |] Hc; [| closing | exfalso; apply Hc; reflexivity].
      do 2 (apply closedOn_suffix; intro).
      match goal with |- closedOn _ _ (match ?x with _ => _ end) => destruct x as [rd|] end;
        [|apply IH].
      destruct (CorrectlyAnsweredQuestionCount rd); [|apply IH].
      match goal with |- closedOn _ _ (if ?b then _ else _) => destruct b end;
        [closing | apply IH].
Qed.

Lemma quiz_finish_closes : alwaysCloses var_page Quiz.finish.
Proof.
  intros s.
  cbv [Quiz.finish final events bind random wait getPage ignoring tryCatch call log ret].
  destruct (ask _ (Close _)); simpl; auto.
Qed.

Lemma quiz_afterStart_closed fuel : closedOn var_page anything (Quiz.afterStart fuel).
Proof.
  intros s. unfold Quiz.afterStart.
  apply closedAt_suffix. intros d _.
  apply closedAt_suffix. intros _ _.
  apply closedAt_suffix. intros p Hp.
  assert (Ep : p = var_page s).
  { cbv [result final getPage wait random fst snd] in Hp. simpl in Hp. congruence. }
  subst p.
  apply closedAt_suffix. intros quizData _.
  match goal with |- closedAt _ _ _ ?st => set (s2 := st) end.
  assert (E2 : var_page s2 = var_page s) by reflexivity.
  assert (Hinvalid :
            closedAt var_page anything
              (log Quiz.tag "Invalid initial quizData returned, aborting" LError ;;
               ignoring (call (Close (var_page s)))) s2).
  { clearbody s2.
    cbv [closedAt result final events bind log ignoring tryCatch call ret].
    destruct (ask _ (Close _)); simpl; intros _; right; left; rewrite E2; reflexivity. }
  clearbody s2.
  destruct quizData as [[[m|] [c|] n a]|]; try exact Hinvalid.
  apply closedAt_on.
  apply closedOn_pass with (C1 := isReturn) (g := fun _ => tt).
  - apply quiz_questions_closed.
  - apply isReturn_dec.
  - intros c0 ->. reflexivity.
  - intros [| |] Hc; try (apply closedOn_always; apply quiz_finish_closes).
    exfalso. apply Hc. reflexivity.
Qed.

(** The page variable is the page the protocol was given until a popup
    is adopted; the start control failing, the protocol closes that page. *)
Lemma quiz_start_closed fuel page s :
  var_page s = page -> closedAt var_page anything (Quiz.start fuel page) s.
Proof.
  intros Hs. unfold Quiz.start.
  apply closedAt_suffix. intros started _.
  match goal with |- closedAt _ _ _ ?st => set (s2 := st) end.
  assert (E2 : var_page s2 = page).
  { subst s2.
    assert (Hk : keeps var_page
                   (orElse (call (WaitForSelector page "#rqStartQuiz" Visible 2000) ;;
                            ret true) false)).
    { apply keeps_tryCatch; [|intros e; apply keeps_ret].
      apply keeps_bind; [apply keeps_call; reflexivity | intros; apply keeps_ret]. }
    rewrite Hk. exact Hs. }
  clearbody s2.
  destruct started; [|apply closedAt_suffix; intros _ _; apply closedAt_on;
                      apply quiz_afterStart_closed].
  apply closedAt_suffix. intros d _.
  apply closedAt_suffix. intros _ _.
  apply closedAt_suffix. intros startClick _.
  match goal with |- closedAt _ _ _ ?st => set (s3 := st) end.
  assert (E3 : var_page s3 = page).
  { subst s3.
    assert (Hk : keeps var_page (Quiz.clickWithRetries page "#rqStartQuiz" 3 10000)).
    { apply keeps_clickWithRetries; reflexivity. }
    rewrite Hk. exact E2. }
  clearbody s3.
  destruct (negb (success startClick)).
  - cbv [closedAt result final events bind log ignoring tryCatch call ret].
    destruct (ask _ (Close _)); simpl; intros _; right; left; rewrite E3; reflexivity.
  - apply closedAt_suffix. intros _ _. apply closedAt_on. apply quiz_afterStart_closed.
Qed.

Lemma quiz_onError_closes e : alwaysCloses var_page (Quiz.onError e).
Proof. unfold Quiz.onError. apply quiet_close_then. apply keeps_page_log. Qed.

Lemma doQuiz_closes fuel page : closes var_page (Quiz.doQuiz fuel page).
Proof.
  intros s Hne. unfold Quiz.doQuiz in *.
  set (s1 := mkState (clock s) (dom s) page (var_activityPage s)).
  assert (Erun : forall (k : M unit),
             (log Quiz.tag "Trying to complete quiz" LLog ;; setPage page ;; k) s =
             (result k s1, final k s1,
              Logged Quiz.tag "Trying to complete quiz" LLog :: events k s1)).
  { intros k. cbv [bind log setPage result final events]. fold s1.
    destruct (k s1) as [[r s2] ev2]. reflexivity. }
  unfold result in Hne. rewrite Erun in Hne.
  unfold final, events. rewrite Erun. simpl. right.
  change (In (Called (Close (var_page
                 (final (tryCatch (Quiz.start fuel page) Quiz.onError) s1))))
             (events (tryCatch (Quiz.start fuel page) Quiz.onError) s1)).
  apply closes_tryCatch_at.
  - apply quiz_start_closed. reflexivity.
  - apply quiz_onError_closes.
  - exact Hne.
Qed.

End ClosingWithPageVariable.

Section ClosingQuizTs.

Context `{Env}.
Variable page : Page.

Let here : State -> Page := fun _ => page.

Lemma simple_requireRefresh_closed (onward : M Ctl) :
  closedOn here isReturn onward ->
  closedOn here isReturn (QuizSimple.requireRefresh page onward).
Proof.
  intros Hon. unfold QuizSimple.requireRefresh.
  apply closedOn_suffix. intros ok. destruct (negb ok); [|exact Hon].
  apply closedOn_always. intros s.
  cbv [final events bind call log ret here].
  destruct (ask _ (Close _)); simpl; auto.
Qed.

Lemma simple_clickAnswers_closed answers :
  closedOn here isReturn (QuizSimple.clickAnswers page answers).
Proof.
  induction answers as [|a rest IH]; cbn [QuizSimple.clickAnswers]; [closing|].
  do 4 (apply closedOn_suffix; intro).
  apply simple_requireRefresh_closed.
  do 2 (apply closedOn_suffix; intro). exact IH.
Qed.

Lemma simple_optionsLoop_closed left : forall i correct,
  closedOn here isReturn (QuizSimple.optionsLoop page left i correct).
Proof.
  induction left as [|left IH]; intros i correct; cbn [QuizSimple.optionsLoop]; [closing|].
  do 2 (apply closedOn_suffix; intro).
  match goal with |- closedOn _ _ (if ?b then _ else _) => destruct b end; [|apply IH].
  do 3 (apply closedOn_suffix; intro).
  apply simple_requireRefresh_closed.
  do 2 (apply closedOn_suffix; intro). apply IH.
Qed.

Lemma simple_answerSingle_closed :
  closedOn here (fun r => isReturn (fst r)) (QuizSimple.answerSingle page).
Proof.
  unfold QuizSimple.answerSingle.
  do 3 (apply closedOn_suffix; intro).
  match goal with |- closedOn _ _ (match ?x with _ => _ end) => destruct x as [qd|] end;
    [|closing].
  apply closedOn_pass with (C1 := isReturn) (g := fun c => (c, qd)).
  - apply simple_optionsLoop_closed.
  - apply isReturn_dec.
  - intros c ->. reflexivity.
  - intros [| |] Hc; [| | exfalso; apply Hc; reflexivity];
      closing_with ltac:(simpl; not_return).
Qed.

Lemma simple_questions_closed left : forall qd,
  closedOn here isReturn (QuizSimple.questions page left qd).
Proof.
  induction left as [|left IH]; intros qd; cbn [QuizSimple.questions]; [closing|].
  destruct (QuizSimple.isOneOf (numberOfOptions qd) [8]).
  - apply closedOn_suffix. intros answers.
    apply closedOn_pass with (C1 := isReturn) (g := fun c => c).
    + apply simple_clickAnswers_closed.
    + apply isReturn_dec.
    + intros c ->. reflexivity.
    + intros [| |] Hc; [apply IH | apply IH | exfalso; apply Hc; reflexivity].
  - destruct (QuizSimple.isOneOf (numberOfOptions qd) [2; 3; 4]); [|apply IH].
    apply closedOn_pass with (C1 := fun r => isReturn (fst r)) (g := fun _ => Return).
    + apply simple_answerSingle_closed.
    + intros [c q']. apply isReturn_dec.
    + intros [c q'] Hc. simpl in Hc. unfold isReturn in Hc. subst c. reflexivity.
    + intros [[| |] q'] Hc; simpl in *; [apply IH | apply IH |].
      exfalso. apply Hc. reflexivity.
Qed.

Lemma simple_doQuiz_closes : closes here (QuizSimple.doQuiz page).
Proof.
  unfold QuizSimple.doQuiz. apply closes_after; [settle|]. intros _.
  apply closes_tryCatch; [|intros e; apply poll_handler].
  do 5 (apply closedOn_suffix; intro).
  match goal with |- closedOn _ _ (match ?x with _ => _ end) => destruct x as [qd|] end;
    [|closing].
  apply closedOn_pass with (C1 := isReturn) (g := fun _ => tt).
  - apply simple_questions_closed.
  - apply isReturn_dec.
  - intros c ->. reflexivity.
  - intros c Hc.
    assert (Hk : closedOn here anything
                   (d <- random 2000 5000 ;; wait d ;; call (Close page) ;;
                    log QuizSimple.tag "Completed the quiz successfully" LLog)).
    { do 2 (apply closedOn_suffix; intro). apply poll_tail. }
    destruct c; try exact Hk. exfalso. apply Hc. reflexivity.
Qed.

End ClosingQuizTs.

(** ** Fuel that suffices for the question loop *)

Section QuizFuel.

Context `{Env}.

Hint Resolve clickWithRetries_returns waitForQuizRefresh_returns : settle.

Lemma quiz_requireRefresh_may k : may anything k -> may anything (Quiz.requireRefresh k).
Proof. intros Hk. unfold Quiz.requireRefresh. settle. Qed.

Lemma quiz_adoptPopup_returns r : returns anything (Quiz.adoptPopup r).
Proof. unfold Quiz.adoptPopup. settle. Qed.

Hint Resolve quiz_adoptPopup_returns : settle.

Lemma quiz_collectCorrect_may left : forall i, may anything (Quiz.collectCorrect left i).
Proof. induction left; intros; cbn [Quiz.collectCorrect]; settle. Qed.

Lemma quiz_clickAnswers_may answers : may anything (Quiz.clickAnswers answers).
Proof.
  induction answers; cbn [Quiz.clickAnswers]; settle.
  apply quiz_requireRefresh_may. settle.
Qed.

Lemma quiz_clickCorrect_may sel : may anything (Quiz.clickCorrect sel).
Proof.
  unfold Quiz.clickCorrect. settle. apply quiz_requireRefresh_may. settle.
Qed.

Hint Resolve quiz_collectCorrect_may quiz_clickAnswers_may quiz_clickCorrect_may : settle.

Lemma quiz_optionsLoop_may left : forall i c, may anything (Quiz.optionsLoop left i c).
Proof. induction left; intros; cbn [Quiz.optionsLoop]; settle. Qed.

Hint Resolve quiz_optionsLoop_may : settle.

Lemma quiz_answerSingle_may : may anything Quiz.answerSingle.
Proof. unfold Quiz.answerSingle. settle. Qed.

Lemma quiz_answerMulti_may : may anything Quiz.answerMulti.
Proof. unfold Quiz.answerMulti. settle. Qed.

Lemma quiz_finish_returns : returns anything Quiz.finish.
Proof. unfold Quiz.finish. settle. Qed.

Lemma quiz_onError_returns e : returns anything (Quiz.onError e).
Proof. unfold Quiz.onError. settle. Qed.

Hint Resolve quiz_answerSingle_may quiz_answerMulti_may quiz_finish_returns
  quiz_onError_returns : settle.

Variable B : Z.
Hypothesis bounded : quizBounded B.

Lemma getQuizData_within p :
  may (fun o => forall qd, o = Some qd -> within B (Quiz.remaining qd)) (call (GetQuizData p)).
Proof.
  intros s. unfold result, call. simpl.
  destruct (ask (clock s) (GetQuizData p)) as [o|e] eqn:E; simpl; [|exact Logic.I].
  intros qd -> r Hr. eapply bounded; eauto.
Qed.

Lemma refreshed_within p :
  returns (fun o => forall qd, o = Some qd -> within B (Quiz.remaining qd))
          (orElse (call (GetQuizData p)) None).
Proof.
  unfold orElse. apply returns_tryCatch; [apply getQuizData_within|].
  intros e. apply returns_ret. intros qd Hq. discriminate Hq.
Qed.

Lemma quiz_questions_may fuel : forall question remaining,
  within B remaining -> B < question + Z.of_nat fuel ->
  may anything (Quiz.questions fuel question remaining).
Proof.
  induction fuel as [|fuel IH]; intros question remaining Hw Hlt.
  - simpl.
    assert (Hb : Quiz.below question remaining = false).
    { destruct remaining as [r|]; [|reflexivity]. simpl.
      specialize (Hw r eq_refl). apply Z.ltb_ge. simpl in Hlt. lia. }
    rewrite Hb. simpl. apply may_ret. exact Logic.I.
  - cbn [Quiz.questions].
    destruct (negb (Quiz.below question remaining)); [settle|].
    apply may_bind with (Q1 := anything); [settle|]. intros p _.
    apply may_bind with (Q1 := anything); [settle|]. intros quizData _.
    destruct quizData as [qd|]; [|settle].
    destruct (numberOfOptions qd) as [n|]; [|settle].
    apply may_bind with (Q1 := anything).
    { destruct (n =? 8); [settle|].
      destruct ((n =? 2) || (n =? 3) || (n =? 4)); settle. }
    intros ctl _. destruct ctl; [|settle|settle].
    apply may_bind with (Q1 := anything); [settle|]. intros p' _.
    eapply may_bind; [apply returns_may; apply refreshed_within|].
    assert (Hnext : B < question + 1 + Z.of_nat fuel) by lia.
    intros [rd|] Hrd; [|apply IH; assumption].
    destruct (CorrectlyAnsweredQuestionCount rd); [|apply IH; assumption].
    match goal with |- may _ (if ?b then _ else _) => destruct b end; [settle|].
    apply IH; [apply Hrd; reflexivity | assumption].
Qed.

Lemma quiz_afterStart_may fuel : B < Z.of_nat fuel -> may anything (Quiz.afterStart fuel).
Proof.
  intros Hlt. unfold Quiz.afterStart.
  apply may_bind with (Q1 := anything); [settle|]. intros d _.
  apply may_bind with (Q1 := anything); [settle|]. intros _ _.
  apply may_bind with (Q1 := anything); [settle|]. intros p _.
  eapply may_bind; [apply getQuizData_within|].
  intros quizData Hq.
  destruct quizData as [[[m|] [c|] n a]|]; try solve [settle].
  apply may_bind with (Q1 := anything).
  - apply quiz_questions_may; [|lia].
    apply (Hq _ eq_refl).
  - intros ctl _. destruct ctl; settle.
Qed.

Lemma quiz_start_may fuel page : B < Z.of_nat fuel -> may anything (Quiz.start fuel page).
Proof.
  intros Hlt. pose proof (@quiz_afterStart_may fuel Hlt) as Ha.
  unfold Quiz.start. settle.
Qed.

(** With more fuel than questions the page can report, the protocol
    resolves. *)
Lemma quiz_doQuiz_returns fuel page :
  B < Z.of_nat fuel -> returns anything (Quiz.doQuiz fuel page).
Proof.
  intros Hlt. pose proof (@quiz_start_may fuel page Hlt) as Hs.
  unfold Quiz.doQuiz. settle.
Qed.

End QuizFuel.

(** ** The passes of the ABC loop *)

Section AbcPasses.

Context `{Env}.

Lemma questionWaits_app a b : questionWaits (a ++ b) = (questionWaits a + questionWaits b)%nat.
Proof. unfold questionWaits. rewrite filter_app, length_app. reflexivity. Qed.

Lemma questionWaits_none evs : Forall notQuestionWait evs -> questionWaits evs = O.
Proof.
  unfold questionWaits. induction 1 as [|ev rest Hev _ IH]; simpl; [reflexivity|].
  unfold notQuestionWait in Hev. rewrite Hev. exact IH.
Qed.

Lemma atMost_quiet {A} (m : M A) : emits notQuestionWait m -> atMost 0 m.
Proof. intros Hm s. rewrite questionWaits_none; [lia | apply Hm]. Qed.

Lemma atMost_le {A} n n' (m : M A) : atMost n m -> (n <= n')%nat -> atMost n' m.
Proof. intros Hm Hle s. specialize (Hm s). lia. Qed.

Lemma atMost_bind {A B} n1 n2 (m : M A) (f : A -> M B) :
  atMost n1 m -> (forall a, atMost n2 (f a)) -> atMost (n1 + n2) (bind m f).
Proof.
  intros Hm Hf s. specialize (Hm s). unfold events, bind in *.
  destruct (m s) as [[r s1] ev1]. destruct r as [a|e|]; simpl in *; try lia.
  specialize (Hf a s1). unfold events in Hf.
  destruct (f a s1) as [[r2 s2] ev2]. simpl in *.
  rewrite questionWaits_app. lia.
Qed.

Lemma atMost_tryCatch {A} n1 n2 (body : M A) handler :
  atMost n1 body -> (forall e, atMost n2 (handler e)) ->
  atMost (n1 + n2) (tryCatch body handler).
Proof.
  intros Hb Hh s. specialize (Hb s). unfold events, tryCatch in *.
  destruct (body s) as [[r s1] ev1]. destruct r as [a|e|]; simpl in *; try lia.
  specialize (Hh e s1). unfold events in Hh.
  destruct (handler e s1) as [[r2 s2] ev2]. simpl in *.
  rewrite questionWaits_app. lia.
Qed.

Lemma randomSleep_quiet : emits notQuestionWait ABC.randomSleep.
Proof. unfold ABC.randomSleep. emission. Qed.

Lemma randomSleepShort_quiet : emits notQuestionWait ABC.randomSleepShort.
Proof. unfold ABC.randomSleepShort. emission. Qed.

Hint Resolve randomSleep_quiet randomSleepShort_quiet : emission.

Lemma reload_quiet : emits notQuestionWait ABC.reload.
Proof. unfold ABC.reload. emission. Qed.

Hint Resolve reload_quiet : emission.

Lemma afterWait_quiet p dollar : emits notQuestionWait (ABC.afterWait p dollar).
Proof. unfold ABC.afterWait. emission. Qed.

End AbcPasses.

Section AbcLoop.

Context `{Env}.

Lemma iteration_atMost dollar : atMost 1 (ABC.iteration dollar).
Proof.
  unfold ABC.iteration.
  apply (@atMost_bind _ _ 0 1); [apply atMost_quiet; apply randomSleep_quiet|]. intros _.
  apply (@atMost_bind _ _ 0 1); [apply atMost_quiet; emission|]. intros p.
  apply (@atMost_bind _ _ 1 0).
  - intros s. reflexivity.
  - intros _. apply atMost_quiet. apply afterWait_quiet.
Qed.

(** A pass that resolves has waited for the options exactly once. *)
Lemma iteration_exact dollar s dollar' :
  result (ABC.iteration dollar) s = Ok dollar' ->
  questionWaits (events (ABC.iteration dollar) s) = 1%nat.
Proof.
  unfold ABC.iteration. intros Hok.
  apply bind_ok_inv in Hok. destruct Hok as [[] [Hsleep Hok]].
  rewrite events_bind, Hsleep, questionWaits_app.
  rewrite (questionWaits_none (randomSleep_quiet s)).
  set (s1 := final ABC.randomSleep s) in *.
  apply bind_ok_inv in Hok. destruct Hok as [p [Hp Hok]].
  rewrite events_bind, Hp, questionWaits_app.
  change (final getPage s1) with s1 in *.
  apply bind_ok_inv in Hok. destruct Hok as [h [Hwait Hok]].
  rewrite events_bind, Hwait, questionWaits_app.
  rewrite (questionWaits_none (afterWait_quiet p dollar _)).
  reflexivity.
Qed.

Lemma loop_atMost left : forall i dollar, atMost left (ABC.loop left i dollar).
Proof.
  induction left as [|left IH]; intros i dollar; cbn [ABC.loop].
  - apply atMost_quiet. emission.
  - destruct (negb (rw_icon dollar =? 0)%nat);
      [apply atMost_le with (n := O); [apply atMost_quiet; emission | lia]|].
    apply (@atMost_bind _ _ 1 left); [apply iteration_atMost|]. intros d. apply IH.
Qed.

(** The counter the loop returns is the number of passes it made. *)
Lemma loop_exact left : forall i dollar s j,
  result (ABC.loop left i dollar) s = Ok j ->
  (questionWaits (events (ABC.loop left i dollar) s) + i = j)%nat.
Proof.
  induction left as [|left IH]; intros i dollar s j; cbn [ABC.loop].
  - intros [= <-]. reflexivity.
  - destruct (negb (rw_icon dollar =? 0)%nat); [intros [= <-]; reflexivity|].
    intros Hok. apply bind_ok_inv in Hok. destruct Hok as [d [Hit Hok]].
    rewrite events_bind, Hit, questionWaits_app.
    rewrite (iteration_exact _ _ Hit).
    specialize (IH _ _ _ _ Hok). lia.
Qed.

Lemma report_quiet i : emits notQuestionWait (ABC.report i).
Proof. unfold ABC.report. emission. Qed.

Lemma onError_quiet e : emits notQuestionWait (ABC.onError e).
Proof. unfold ABC.onError. emission. Qed.

Lemma solve_atMost page : atMost ABC.maxIterations (ABC.solve page).
Proof.
  unfold ABC.solve.
  apply (@atMost_bind _ _ 0 15); [apply atMost_quiet; emission|]. intros dollar.
  apply (@atMost_bind _ _ 15 0); [apply loop_atMost|]. intros i.
  apply atMost_quiet. apply report_quiet.
Qed.

Lemma doABC_atMost page : atMost ABC.maxIterations (ABC.doABC page).
Proof.
  unfold ABC.doABC.
  apply (@atMost_bind _ _ 0 15); [apply atMost_quiet; emission|]. intros _.
  apply (@atMost_bind _ _ 0 15); [apply atMost_quiet; emission|]. intros _.
  apply (@atMost_tryCatch _ 15 0); [apply solve_atMost|].
  intros e. apply atMost_quiet. apply onError_quiet.
Qed.

(** A run of the body that resolves after fifteen passes has logged the
    warning. *)
Lemma solve_warns page s :
  result (ABC.solve page) s = Ok tt ->
  questionWaits (events (ABC.solve page) s) = ABC.maxIterations ->
  In (Logged "ABC" ABC.failedMsg LWarn) (events (ABC.solve page) s).
Proof.
  unfold ABC.solve. intros Hok.
  apply bind_ok_inv in Hok. destruct Hok as [dollar [Hload Hok]].
  rewrite events_bind, Hload, questionWaits_app.
  set (s1 := final (call (LoadInCheerio page)) s) in *.
  apply bind_ok_inv in Hok. destruct Hok as [i [Hloop Hok]].
  rewrite events_bind, Hloop, questionWaits_app.
  set (s2 := final (ABC.loop (ABC.maxIterations - 0) 0 dollar) s1) in *.
  rewrite (questionWaits_none (report_quiet i s2)).
  pose proof (loop_exact _ _ _ _ Hloop) as Hi.
  change (questionWaits (events (call (LoadInCheerio page)) s)) with O.
  intros Hcount.
  assert (Ei : i = ABC.maxIterations) by lia.
  apply in_or_app. right. apply in_or_app. right.
  clear Hi Hcount Hloop. subst i.
  revert Hok. clearbody s2.
  cbv [ABC.report result events bind wait getPage call log].
  destruct (ask _ (Close _)); simpl; [intros _; auto | discriminate].
Qed.

Lemma events_tryCatch {A} (body : M A) handler (s : State) :
  events (tryCatch body handler) s =
  events body s ++ match result body s with
                   | Throw e => events (handler e) (final body s)
                   | _ => []
                   end.
Proof.
  unfold events, result, final, tryCatch.
  destruct (body s) as [[[a|e|] s1] ev1]; simpl; try (rewrite app_nil_r; reflexivity).
  destruct (handler e s1) as [[r2 s2] ev2]. reflexivity.
Qed.

Lemma onError_logs e s : existsb isErrorLog (events (ABC.onError e) s) = true.
Proof.
  cbv [ABC.onError events bind getPage ignoring tryCatch call log ret tick].
  destruct (ask _ (Close _)); reflexivity.
Qed.

(** A run of the protocol that logs no error and made fifteen passes has
    logged the warning. *)
Lemma doABC_warns page s :
  existsb isErrorLog (events (ABC.doABC page) s) = false ->
  questionWaits (events (ABC.doABC page) s) = ABC.maxIterations ->
  In (Logged "ABC" ABC.failedMsg LWarn) (events (ABC.doABC page) s).
Proof.
  unfold ABC.doABC.
  rewrite !events_bind.
  change (result (log "ABC" "Trying to complete poll" LLog) s) with (Ok tt).
  cbv iota.
  set (s1 := final (log "ABC" "Trying to complete poll" LLog) s).
  change (result (setPage page) s1) with (Ok tt). cbv iota.
  set (s2 := final (setPage page) s1).
  change (events (setPage page) s1) with (@nil Event).
  change (events (log "ABC" "Trying to complete poll" LLog) s)
    with [Logged "ABC" "Trying to complete poll" LLog].
  rewrite events_tryCatch. cbn [app].
  pose proof (solve_may page s2) as Hmay.
  destruct (result (ABC.solve page) s2) as [[]|e|] eqn:Hres; [| |contradiction].
  - rewrite app_nil_r. intros _ Hcount. right.
    apply solve_warns; [exact Hres|].
    unfold questionWaits in *. cbn [filter isQuestionWait length] in Hcount. exact Hcount.
  - cbn [existsb isErrorLog orb]. rewrite existsb_app, onError_logs.
    rewrite Bool.orb_true_r. discriminate.
Qed.

End AbcLoop.

(** ** The clicks of a run *)

Section ClickRules.

Context `{Env}.

Lemma clicksOf_app a b : clicksOf (a ++ b) = clicksOf a ++ clicksOf b.
Proof. apply filter_app. Qed.

Lemma clicksOf_quiet evs : Forall notClick evs -> clicksOf evs = [].
Proof.
  induction 1 as [|ev rest Hev _ IH]; [reflexivity|].
  unfold clicksOf in *. cbn [filter]. unfold notClick in Hev. rewrite Hev. exact IH.
Qed.

Lemma performs_ret {A} (pre : State -> Prop) (post : A -> State -> Prop) a :
  (forall s, pre s -> post a s) -> performs pre [] post (ret a).
Proof. intros Hp s Hs. split; [reflexivity | exact (Hp s Hs)]. Qed.

Lemma performs_bind {A B} (pre : State -> Prop) L1 (mid : A -> State -> Prop)
      L2 (post : B -> State -> Prop) (m : M A) (f : A -> M B) :
  performs pre L1 mid m ->
  (forall a, performs (mid a) L2 post (f a)) ->
  performs pre (L1 ++ L2) post (bind m f).
Proof.
  intros Hm Hf s Hs. destruct (Hm s Hs) as [Hc Hr].
  unfold events, result, final, bind in *.
  destruct (m s) as [[[a|e|] s1] ev1]; simpl in *; try contradiction.
  destruct (Hf a s1 Hr) as [Hc2 Hr2]. unfold events, result, final in *.
  destruct (f a s1) as [[r2 s2] ev2]. simpl in *.
  rewrite clicksOf_app, Hc, Hc2. auto.
Qed.

(** The same, when the first part resolves with a known value. *)
Lemma performs_bind_val {A B} (pre : State -> Prop) L1 (v : A) (mid : State -> Prop)
      L2 (post : B -> State -> Prop) (m : M A) (f : A -> M B) :
  performs pre L1 (fun a s => a = v /\ mid s) m ->
  performs mid L2 post (f v) ->
  performs pre (L1 ++ L2) post (bind m f).
Proof.
  intros Hm Hf. apply performs_bind with (mid := fun a s => a = v /\ mid s); [exact Hm|].
  intros a s [-> Hs]. exact (Hf s Hs).
Qed.

Lemma performs_weaken {A} (pre pre' : State -> Prop) L (post post' : A -> State -> Prop) m :
  performs pre L post m ->
  (forall s, pre' s -> pre s) ->
  (forall a s, post a s -> post' a s) ->
  performs pre' L post' m.
Proof.
  intros Hm Hpre Hpost s Hs. destruct (Hm s (Hpre s Hs)) as [Hc Hr]. split; [exact Hc|].
  destruct (result m s); auto.
Qed.

(** A part that records no click, resolves on every run and leaves the
    precondition in place. *)
Lemma performs_quiet {A} (pre : State -> Prop) (Q : A -> Prop) (m : M A) :
  emits notClick m -> returns Q m ->
  (forall s, pre s -> pre (final m s)) ->
  performs pre [] (fun a s => Q a /\ pre s) m.
Proof.
  intros He Hr Hk s Hs. split; [apply clicksOf_quiet, He|].
  specialize (Hr s). destruct (result m s); auto.
Qed.

Lemma performs_call op (v : RespT op) (pre : State -> Prop) (post : State -> Prop) :
  (forall t, ask t op = Resolves v) ->
  (forall s, pre s -> post (tick s)) ->
  performs pre (clicksOf [Called op]) (fun a s => a = v /\ post s) (call op).
Proof.
  intros Hop Hp s Hs. split; [reflexivity|].
  unfold result, final, call. simpl. rewrite Hop. simpl. auto.
Qed.

Lemma performs_tryCatch {A} (pre : State -> Prop) L (post : A -> State -> Prop)
      (body : M A) handler :
  performs pre L post body -> performs pre L post (tryCatch body handler).
Proof.
  intros Hb s Hs. destruct (Hb s Hs) as [Hc Hr].
  unfold events, result, final, tryCatch in *.
  destruct (body s) as [[[a|e|] s1] ev1]; simpl in *; try contradiction. auto.
Qed.

(** A part whose value is not looked at. *)
Lemma performs_still {A} (m : M A) :
  emits notClick m -> returns anything m -> performs always [] (fun _ => always) m.
Proof.
  intros He Hr s _. split; [apply clicksOf_quiet, He|].
  specialize (Hr s). destruct (result m s); [exact Logic.I | exact Hr | exact Hr].
Qed.

(** A fact about the value at hand as the precondition. *)
Lemma performs_given {A} (C : Prop) L (post : A -> State -> Prop) (m : M A) :
  (C -> performs always L post m) -> performs (fun _ => C) L post m.
Proof. intros Hm s Hc. exact (Hm Hc s Logic.I). Qed.

Lemma onPage_tick page s : onPage page s -> onPage page (tick s).
Proof. exact (fun H => H). Qed.

Lemma always_tick s : always s -> always (tick s).
Proof. exact (fun H => H). Qed.

Lemma clicksOf_none evs : clicksOf evs = [] -> Forall notClick evs.
Proof.
  unfold clicksOf, notClick. induction evs as [|ev rest IH]; cbn [filter]; [constructor|].
  destruct (isClick ev) eqn:E; [discriminate|]. intros Hrest. constructor; auto.
Qed.

Lemma performs_issues {A} (pre : State -> Prop) L (post : A -> State -> Prop) m :
  performs pre L post m -> issues pre L m.
Proof. intros Hm s Hs. exact (proj1 (Hm s Hs)). Qed.

Lemma issues_quiet {A} (pre : State -> Prop) (m : M A) :
  emits notClick m -> issues pre [] m.
Proof. intros He s _. apply clicksOf_quiet, He. Qed.

Lemma issues_call op (pre : State -> Prop) : issues pre (clicksOf [Called op]) (call op).
Proof. intros s _. reflexivity. Qed.

Lemma issues_bind {A B} (pre : State -> Prop) L1 (mid : A -> State -> Prop) L2
      (m : M A) (f : A -> M B) :
  performs pre L1 mid m ->
  (forall a, issues (mid a) L2 (f a)) ->
  issues pre (L1 ++ L2) (bind m f).
Proof.
  intros Hm Hf s Hs. destruct (Hm s Hs) as [Hc Hr].
  rewrite events_bind, clicksOf_app, Hc.
  destruct (result m s) as [a|e|]; try contradiction.
  rewrite (Hf a _ Hr). reflexivity.
Qed.

Lemma issues_bind_val {A B} (pre : State -> Prop) L1 (v : A) (mid : State -> Prop) L2
      (m : M A) (f : A -> M B) :
  performs pre L1 (fun a s => a = v /\ mid s) m ->
  issues mid L2 (f v) ->
  issues pre (L1 ++ L2) (bind m f).
Proof.
  intros Hm Hf. apply issues_bind with (mid := fun a s => a = v /\ mid s); [exact Hm|].
  intros a s [-> Hs]. exact (Hf s Hs).
Qed.

(** What follows the clicks records none, whether it runs or not. *)
Lemma issues_then_silent {A B} (pre : State -> Prop) L (m : M A) (f : A -> M B) :
  issues pre L m ->
  (forall a, issues always [] (f a)) ->
  issues pre L (bind m f).
Proof.
  intros Hm Hf s Hs. rewrite events_bind, clicksOf_app, (Hm s Hs).
  destruct (result m s) as [a|e|]; rewrite ?app_nil_r; try reflexivity.
  rewrite (Hf a _ Logic.I). apply app_nil_r.
Qed.

Lemma issues_weaken {A} (pre pre' : State -> Prop) L (m : M A) :
  issues pre L m -> (forall s, pre' s -> pre s) -> issues pre' L m.
Proof. intros Hm Hpre s Hs. exact (Hm s (Hpre s Hs)). Qed.

End ClickRules.

(** ** The retrying click on an element that is there *)

Section NominalClick.

Context `{Env}.

Variables (page : Page) (sel : string) (timeout : Z).
Variables (h : Handle) (b : Box) (st : StyleInfo).

Hypothesis found : forall t, ask t (Query page sel) = Resolves (Some h).
Hypothesis scrolled : forall t, ask t (ScrollIntoViewIfNeeded h 2000) = Resolves tt.
Hypothesis boxed : forall t, ask t (BoundingBox h) = Resolves (Some b).
Hypothesis box_not_empty : boxMissingOrEmpty (Some b) = false.
Hypothesis styled : forall t, ask t (EvalStyle page sel) = Resolves st.
Hypothesis style_shown : cssHidden st = false.
Hypothesis click_resolves :
  forall t, ask t (LocatorClick page sel timeout false) = Resolves tt.

Let theClick : Event := Called (LocatorClick page sel timeout false).

Ltac quiet_part :=
  apply performs_still;
  [ unfold orElse, ignoring; emission
  | unfold orElse, ignoring; settle ].

Lemma isVisibleAndClickable_shown :
  performs always [] (fun v s => v = (true, EmptyString) /\ always s)
           (Quiz.isVisibleAndClickable page sel).
Proof.
  unfold Quiz.isVisibleAndClickable. apply performs_tryCatch.
  apply performs_bind_val with (L1 := []) (v := (Some h)) (mid := always) (L2 := []).
  { apply (performs_call (Query page sel) always); [exact found | auto]. }
  apply performs_bind_val with (L1 := []) (v := tt) (mid := always) (L2 := []).
  { apply performs_tryCatch.
    apply (performs_call (ScrollIntoViewIfNeeded h 2000) always); [exact scrolled | auto]. }
  apply performs_bind_val with (L1 := []) (v := (Some b)) (mid := always) (L2 := []).
  { apply (performs_call (BoundingBox h) always); [exact boxed | auto]. }
  apply performs_bind_val with (L1 := []) (v := st) (mid := always) (L2 := []).
  { apply (performs_call (EvalStyle page sel) always); [exact styled | auto]. }
  rewrite box_not_empty, style_shown. apply performs_ret. auto.
Qed.

Lemma clickStage_clicks :
  performs always [theClick] (fun v s => v = true /\ always s)
           (Quiz.clickStage page sel timeout).
Proof.
  unfold Quiz.clickStage. apply performs_tryCatch.
  apply performs_bind with (L1 := []) (mid := fun _ => always) (L2 := [theClick]).
  { quiet_part. }
  intros _.
  apply performs_bind_val with (L1 := [theClick]) (v := tt) (mid := always) (L2 := []).
  { apply performs_tryCatch.
    apply (performs_call (LocatorClick page sel timeout false) always);
      [exact click_resolves | auto]. }
  apply performs_ret. auto.
Qed.

Lemma tryClickOnce_clicks :
  performs always [theClick] (fun res _ => success res = true)
           (Quiz.tryClickOnce page sel timeout).
Proof.
  unfold Quiz.tryClickOnce.
  apply performs_bind with (L1 := []) (mid := fun _ => always) (L2 := [theClick]).
  { quiet_part. }
  intros _.
  apply performs_bind_val with (L1 := []) (v := (true, EmptyString)) (mid := always) (L2 := [theClick]).
  { exact isVisibleAndClickable_shown. }
  cbn [fst snd negb].
  apply performs_bind_val with (L1 := []) (v := None) (mid := always) (L2 := [theClick]).
  { apply performs_ret. auto. }
  apply performs_bind with (L1 := []) (mid := fun _ => always) (L2 := [theClick]).
  { quiet_part. }
  intros popupPromise.
  apply performs_bind with (L1 := []) (mid := fun _ => always) (L2 := [theClick]).
  { quiet_part. }
  intros navigationPromise.
  apply performs_bind_val with (L1 := [theClick]) (v := true) (mid := always) (L2 := []).
  { exact clickStage_clicks. }
  cbn [negb].
  eapply performs_weaken;
    [ apply performs_quiet with (Q := fun res => success res = true) (pre := always)
    | auto | cbv beta; intros ? ? [? _]; assumption ].
  - destruct popupPromise; [|destruct navigationPromise]; unfold ignoring; emission.
  - destruct popupPromise; [|destruct navigationPromise]; unfold ignoring;
      settle_with ltac:(reflexivity).
  - intros ? ?; exact Logic.I.
Qed.

Lemma clickWithRetries_clicks left :
  performs always [theClick] (fun res _ => success res = true)
           (Quiz.clickWithRetries page sel (S left) timeout).
Proof.
  unfold Quiz.clickWithRetries. cbn [Quiz.firstLoop].
  change [theClick] with (([theClick] ++ []) ++ @nil Event).
  apply performs_bind with (L1 := [theClick] ++ [])
    (mid := fun first (_ : State) => exists res, first = Some res /\ success res = true)
    (L2 := []).
  - apply performs_bind with (L1 := [theClick])
      (mid := fun res (_ : State) => success res = true) (L2 := []).
    + exact tryClickOnce_clicks.
    + intros res s Hres. rewrite Hres. split; [reflexivity|]. simpl. eauto.
  - intros first s [res [-> Hres]]. split; [reflexivity|]. exact Hres.
Qed.

End NominalClick.

Lemma sameOption_true o c : Quiz.sameOption o c = true <-> o = Some c.
Proof.
  destruct o as [d|]; simpl.
  - rewrite String.eqb_eq. split; [intros ->; reflexivity | intros [= ->]; reflexivity].
  - split; discriminate.
Qed.

(** ** A single-answer question whose options are on the page *)

Section SingleAnswer.

Context `{Env}.

Variables (page : Page) (qd : QuizData).
Variables (handle : nat -> Handle) (token : nat -> option string).
Variable k : nat.

Let n : nat := Quiz.optionCount (numberOfOptions qd).
Let correctOption : string := correctAnswer qd.

Hypothesis data : forall t, ask t (GetQuizData page) = Resolves (Some qd).
Hypothesis shown : forall t i, (i < n)%nat ->
  ask t (WaitForSelector page (Quiz.optionSelector i) Visible 10000) = Resolves (handle i).
Hypothesis tokens : forall t i, (i < n)%nat ->
  ask t (GetAttribute (handle i) "data-option") = Resolves (token i).
Hypothesis the_option : forall i, (i < n)%nat ->
  (Quiz.sameOption (token i) correctOption = true <-> i = k).

Lemma other_option i : (i < n)%nat -> i <> k -> Quiz.sameOption (token i) correctOption = false.
Proof.
  intros Hi Hne. destruct (Quiz.sameOption (token i) correctOption) eqn:E; [|reflexivity].
  apply the_option in E; [contradiction | exact Hi].
Qed.

Lemma simple_requireRefresh_silent onward :
  issues always [] onward -> issues always [] (QuizSimple.requireRefresh page onward).
Proof.
  intros Ho. unfold QuizSimple.requireRefresh.
  change (@nil Event) with (@nil Event ++ []).
  apply issues_bind with (mid := fun _ => always).
  - apply performs_still;
      [unfold BrowserFunc.waitForQuizRefresh; emission | apply waitForQuizRefresh_returns].
  - intros [|]; cbn [negb]; [exact Ho|]. apply issues_quiet. emission.
Qed.

(** Reading one option: the wait gives its handle, the handle its token. *)
Lemma simple_read_option i L (rest : option string -> M Ctl) :
  (i < n)%nat ->
  issues always L (rest (token i)) ->
  issues always L
    (answerSelector <- call (WaitForSelector page (Quiz.optionSelector i) Visible 10000) ;;
     dataOption <- call (GetAttribute answerSelector "data-option") ;;
     rest dataOption).
Proof.
  intros Hi Hrest.
  change L with (@nil Event ++ (@nil Event ++ L)).
  apply issues_bind_val with (v := handle i) (mid := always).
  { apply (performs_call (WaitForSelector page (Quiz.optionSelector i) Visible 10000) always);
      [intros t; apply shown; exact Hi | auto]. }
  apply issues_bind_val with (v := token i) (mid := always).
  { apply (performs_call (GetAttribute (handle i) "data-option") always);
      [intros t; apply tokens; exact Hi | auto]. }
  exact Hrest.
Qed.

(** The options that do not carry the token are passed without a click. *)
Lemma simple_optionsLoop_silent left : forall i,
  (i + left <= n)%nat -> (k < i \/ i + left <= k)%nat ->
  issues always [] (QuizSimple.optionsLoop page left i correctOption).
Proof.
  induction left as [|left IH]; intros i Hn Hk; cbn [QuizSimple.optionsLoop].
  - apply issues_quiet. emission.
  - apply simple_read_option with
      (rest := fun dataOption =>
                 if Quiz.sameOption dataOption correctOption then _ else _); [lia|].
    rewrite other_option by lia. apply IH; lia.
Qed.

Let simpleClick : Event := Called (Click page (Quiz.optionSelector k)).

Lemma simple_optionsLoop_clicks left : forall i,
  (i + left <= n)%nat -> (i <= k < i + left)%nat ->
  issues always [simpleClick] (QuizSimple.optionsLoop page left i correctOption).
Proof.
  induction left as [|left IH]; intros i Hn Hk; [lia|]. cbn [QuizSimple.optionsLoop].
  apply simple_read_option with
    (rest := fun dataOption =>
               if Quiz.sameOption dataOption correctOption then _ else _); [lia|].
  destruct (Nat.eq_dec i k) as [->|Hne].
  - assert (Hsame : Quiz.sameOption (token k) correctOption = true)
      by (apply the_option; [lia | reflexivity]).
    rewrite Hsame.
    change [simpleClick] with (@nil Event ++ (@nil Event ++ [simpleClick])).
    apply issues_bind with (mid := fun _ => always).
    { apply performs_still; [emission | settle]. }
    intros d. apply issues_bind with (mid := fun _ => always).
    { apply performs_still; [emission | settle]. }
    intros _. apply issues_then_silent; [apply issues_call|].
    intros _. apply simple_requireRefresh_silent.
    change (@nil Event) with (@nil Event ++ (@nil Event ++ @nil Event)).
    apply issues_bind with (mid := fun _ => always).
    { apply performs_still; [emission | settle]. }
    intros d'. apply issues_bind with (mid := fun _ => always).
    { apply performs_still; [emission | settle]. }
    intros _. apply simple_optionsLoop_silent; lia.
  - rewrite other_option by lia. apply IH; lia.
Qed.

Lemma simple_answerSingle_clicks :
  (k < n)%nat -> issues always [simpleClick] (QuizSimple.answerSingle page).
Proof.
  intros Hk. unfold QuizSimple.answerSingle.
  change [simpleClick] with (@nil Event ++ (@nil Event ++ (@nil Event ++ [simpleClick]))).
  apply issues_bind_val with (v := Some qd) (mid := always).
  { apply (performs_call (GetQuizData page) always); [exact data | auto]. }
  apply issues_bind with (mid := fun _ => always).
  { apply performs_still; [emission | settle]. }
  intros d. apply issues_bind with (mid := fun _ => always).
  { apply performs_still; [emission | settle]. }
  intros _. apply issues_then_silent.
  - apply simple_optionsLoop_clicks; fold n; lia.
  - intros ctl. apply issues_quiet. destruct ctl; emission.
Qed.

(** The same question under the protocol with the retrying click: the
    option that carries the token is there to be clicked. *)

Variables (target : Handle) (b : Box) (st : StyleInfo).

Hypothesis found : forall t, ask t (Query page (Quiz.optionSelector k)) = Resolves (Some target).
Hypothesis scrolled : forall t, ask t (ScrollIntoViewIfNeeded target 2000) = Resolves tt.
Hypothesis boxed : forall t, ask t (BoundingBox target) = Resolves (Some b).
Hypothesis box_not_empty : boxMissingOrEmpty (Some b) = false.
Hypothesis styled : forall t, ask t (EvalStyle page (Quiz.optionSelector k)) = Resolves st.
Hypothesis style_shown : cssHidden st = false.
Hypothesis click_resolves :
  forall t, ask t (LocatorClick page (Quiz.optionSelector k) 12000 false) = Resolves tt.

Let retryClick : Event := Called (LocatorClick page (Quiz.optionSelector k) 12000 false).

Lemma performs_still_on {A} (m : M A) :
  emits notClick m -> returns anything m -> keeps var_page m ->
  performs (onPage page) [] (fun _ => onPage page) m.
Proof.
  intros He Hr Hk s Hs. split; [apply clicksOf_quiet, He|].
  specialize (Hr s). destruct (result m s); try contradiction.
  unfold onPage in *. rewrite Hk. exact Hs.
Qed.

Lemma performs_getPage :
  performs (onPage page) [] (fun p s => p = page /\ onPage page s) getPage.
Proof. intros s Hs. split; [reflexivity|]. simpl. auto. Qed.

Lemma quiz_requireRefresh_ends :
  performs always [] (fun ctl _ => ctl <> Next)
           (Quiz.requireRefresh (d <- random 1500 3500 ;; wait d ;; ret Break)).
Proof.
  eapply performs_weaken;
    [ apply performs_quiet with (Q := fun ctl => ctl <> Next) (pre := always)
    | auto | cbv beta; intros ? ? [? _]; assumption ].
  - unfold Quiz.requireRefresh, BrowserFunc.waitForQuizRefresh, ignoring. emission.
  - unfold Quiz.requireRefresh, BrowserFunc.waitForQuizRefresh, ignoring.
    settle_with ltac:(first [exact Logic.I | discriminate]).
  - intros ? ?. exact Logic.I.
Qed.

Lemma quiz_clickCorrect_clicks :
  performs (onPage page) [retryClick] (fun ctl _ => ctl <> Next)
           (Quiz.clickCorrect (Quiz.optionSelector k)).
Proof.
  unfold Quiz.clickCorrect.
  change [retryClick] with (@nil Event ++ (@nil Event ++ (@nil Event ++ ([retryClick] ++ [])))).
  apply performs_bind with (mid := fun _ => onPage page).
  { apply performs_still_on; [emission | settle | intros s; reflexivity]. }
  intros d. apply performs_bind with (mid := fun _ => onPage page).
  { apply performs_still_on; [emission | settle | intros s; reflexivity]. }
  intros _. apply performs_bind_val with (v := page) (mid := onPage page).
  { exact performs_getPage. }
  apply performs_bind with (mid := fun res (_ : State) => success res = true).
  { eapply performs_weaken;
      [ exact (@clickWithRetries_clicks _ page (Quiz.optionSelector k) 12000 target b st
                 found scrolled boxed box_not_empty styled style_shown click_resolves 2%nat)
      | intros; exact Logic.I | auto ]. }
  intros clickRes. apply performs_given. intros Hres.
  rewrite Hres. cbn [negb].
  change (@nil Event) with (@nil Event ++ @nil Event).
  apply performs_bind_val with (v := true) (mid := always).
  { intros s0 _. unfold Quiz.adoptPopup.
    destruct (popup clickRes);
      (split; [reflexivity | cbv; split; [reflexivity | exact Logic.I]]). }
  cbn [negb]. exact quiz_requireRefresh_ends.
Qed.

(** Reading one option under the retrying protocol. *)
Lemma quiz_read_option i L (post : Ctl -> State -> Prop) (rest : option string -> M Ctl) handler :
  (i < n)%nat ->
  performs (onPage page) L post (rest (token i)) ->
  performs (onPage page) L post
    (tryCatch
       (p <- getPage ;;
        handle <- orElse (h <- call (WaitForSelector p (Quiz.optionSelector i) Visible 10000) ;;
                          ret (Some h)) None ;;
        match handle with
        | None => ret Next
        | Some h =>
            dataOption <- call (GetAttribute h "data-option") ;;
            rest dataOption
        end)
       handler).
Proof.
  intros Hi Hrest. apply performs_tryCatch.
  change L with (@nil Event ++ ((@nil Event ++ []) ++ (@nil Event ++ L))).
  apply performs_bind_val with (v := page) (mid := onPage page).
  { exact performs_getPage. }
  apply performs_bind_val with (v := Some (handle i)) (mid := onPage page).
  { unfold orElse. apply performs_tryCatch.
    apply performs_bind_val with (v := handle i) (mid := onPage page).
    - apply (performs_call (WaitForSelector page (Quiz.optionSelector i) Visible 10000)
                           (onPage page));
        [intros t; apply shown; exact Hi | auto].
    - apply performs_ret. auto. }
  apply performs_bind_val with (v := token i) (mid := onPage page).
  { apply (performs_call (GetAttribute (handle i) "data-option") (onPage page));
      [intros t; apply tokens; exact Hi | auto]. }
  exact Hrest.
Qed.

Lemma quiz_optionsLoop_clicks left : forall i,
  (i + left <= n)%nat -> (i <= k < i + left)%nat ->
  performs (onPage page) [retryClick] (fun _ _ => True)
           (Quiz.optionsLoop left i correctOption).
Proof.
  induction left as [|left IH]; intros i Hn Hk; [lia|]. cbn [Quiz.optionsLoop].
  destruct (Nat.eq_dec i k) as [->|Hne].
  - change [retryClick] with ([retryClick] ++ []).
    apply performs_bind with (mid := fun ctl (_ : State) => ctl <> Next).
    + apply quiz_read_option with
        (rest := fun dataOption =>
                   if Quiz.sameOption dataOption correctOption then _ else _); [lia|].
      assert (Hsame : Quiz.sameOption (token k) correctOption = true)
        by (apply the_option; [lia | reflexivity]).
      rewrite Hsame. exact quiz_clickCorrect_clicks.
    + intros ctl. apply performs_given. intros Hctl.
      destruct ctl; [contradiction | | ]; apply performs_ret; auto.
  - change [retryClick] with ([] ++ [retryClick]).
    apply performs_bind_val with (v := Next) (mid := onPage page).
    + apply quiz_read_option with
        (rest := fun dataOption =>
                   if Quiz.sameOption dataOption correctOption then _ else _); [lia|].
      rewrite other_option by lia. apply performs_ret. auto.
    + eapply performs_weaken; [apply IH; lia | auto | auto].
Qed.

Lemma quiz_answerSingle_clicks :
  (k < n)%nat -> issues (onPage page) [retryClick] Quiz.answerSingle.
Proof.
  intros Hk. unfold Quiz.answerSingle.
  change [retryClick]
    with (@nil Event ++ (@nil Event ++ (@nil Event ++ (@nil Event ++ [retryClick])))).
  apply issues_bind with (mid := fun _ => onPage page).
  { apply performs_still_on; [emission | settle | intros s; reflexivity]. }
  intros d. apply issues_bind with (mid := fun _ => onPage page).
  { apply performs_still_on; [emission | settle | intros s; reflexivity]. }
  intros _. apply issues_bind_val with (v := page) (mid := onPage page).
  { exact performs_getPage. }
  apply issues_bind_val with (v := Some qd) (mid := onPage page).
  { apply (performs_call (GetQuizData page) (onPage page)); [exact data | auto]. }
  apply issues_then_silent.
  - eapply performs_issues. apply quiz_optionsLoop_clicks; fold n; lia.
  - intros ctl. apply issues_quiet. destruct ctl; emission.
Qed.

(** One question of the question loops.  The branch test of the loop
    sends a question with two, three or four options to the
    single-answer branch. *)

Hypothesis single : In (numberOfOptions qd) [Some 2; Some 3; Some 4].

Lemma single_not_multi : QuizSimple.isOneOf (numberOfOptions qd) [8] = false.
Proof. destruct single as [E|[E|[E|[]]]]; rewrite <- E; reflexivity. Qed.

Lemma single_is_single : QuizSimple.isOneOf (numberOfOptions qd) [2; 3; 4] = true.
Proof. destruct single as [E|[E|[E|[]]]]; rewrite <- E; reflexivity. Qed.

(** The plain single-answer branch hands back the data it read. *)
Lemma simple_answerSingle_value s r :
  result (QuizSimple.answerSingle page) s = Ok r -> snd r = qd.
Proof.
  unfold QuizSimple.answerSingle. intros Hr.
  apply bind_ok_inv in Hr. destruct Hr as [quizData [Hq Hr]].
  unfold result, call in Hq. cbn [fst] in Hq. rewrite data in Hq.
  injection Hq as <-.
  apply bind_ok_inv in Hr. destruct Hr as [d [_ Hr]].
  apply bind_ok_inv in Hr. destruct Hr as [[] [_ Hr]].
  apply bind_ok_inv in Hr. destruct Hr as [ctl [_ Hr]].
  destruct ctl.
  - apply bind_ok_inv in Hr. destruct Hr as [d' [_ Hr]].
    apply bind_ok_inv in Hr. destruct Hr as [[] [_ Hr]].
    injection Hr as <-. reflexivity.
  - apply bind_ok_inv in Hr. destruct Hr as [d' [_ Hr]].
    apply bind_ok_inv in Hr. destruct Hr as [[] [_ Hr]].
    injection Hr as <-. reflexivity.
  - injection Hr as <-. reflexivity.
Qed.

(** The question loop of the plain Quiz: one click per question, on the
    option that carries the token, for as many questions as it goes
    through. *)
Lemma simple_questions_clicks left : forall s,
  (k < n)%nat ->
  exists m, (m <= left)%nat /\ (1 <= left -> 1 <= m)%nat /\
            clicksOf (events (QuizSimple.questions page left qd) s) = repeat simpleClick m.
Proof.
  induction left as [|left IH]; intros s Hk.
  - exists 0%nat. repeat split; [lia | lia].
  - cbn [QuizSimple.questions]. rewrite single_not_multi, single_is_single.
    rewrite events_bind, clicksOf_app.
    pose proof (simple_answerSingle_clicks Hk) as Hone. unfold issues in Hone.
    rewrite (Hone s Logic.I).
    destruct (result (QuizSimple.answerSingle page) s) as [r|e|] eqn:Er.
    + rewrite (@simple_answerSingle_value s r Er).
      destruct (fst r).
      * destruct (IH (final (QuizSimple.answerSingle page) s) Hk) as [m [Hm [_ Hc]]].
        exists (S m). rewrite Hc. repeat split; [lia | lia].
      * destruct (IH (final (QuizSimple.answerSingle page) s) Hk) as [m [Hm [_ Hc]]].
        exists (S m). rewrite Hc. repeat split; [lia | lia].
      * exists 1%nat. repeat split; [lia | lia].
    + exists 1%nat. repeat split; [lia | lia].
    + exists 1%nat. repeat split; [lia | lia].
Qed.

(** The question loop of the Quiz with the retrying click: the clicks of
    a pass begin with the locator click on the option that carries the
    token, and a loop cut after one question issues no other. *)
Lemma quiz_questions_first_click fuel (question r : Z) s :
  (k < n)%nat -> var_page s = page -> question < r ->
  exists later,
    clicksOf (events (Quiz.questions (S fuel) question (Some r)) s) = retryClick :: later /\
    (fuel = 0%nat -> later = []).
Proof.
  intros Hk Hpage Hlt.
  cbn [Quiz.questions Quiz.below].
  replace (question <? r) with true by (symmetry; apply Z.ltb_lt; exact Hlt).
  cbn [negb].
  rewrite events_bind. change (events getPage s) with (@nil Event).
  change (result getPage s) with (Ok (var_page s)). change (final getPage s) with s.
  rewrite Hpage. cbn [app].
  rewrite events_bind.
  change (events (call (GetQuizData page)) s) with [Called (GetQuizData page)].
  change (result (call (GetQuizData page)) s) with (settled (ask (clock s) (GetQuizData page))).
  rewrite data. cbn [settled].
  assert (Hbranch : exists n0, numberOfOptions qd = Some n0 /\ (n0 =? 8) = false /\
                               ((n0 =? 2) || (n0 =? 3) || (n0 =? 4)) = true).
  { destruct single as [E|[E|[E|[]]]]; rewrite <- E; eexists; repeat split. }
  destruct Hbranch as [n0 [-> [-> ->]]].
  rewrite events_bind, !clicksOf_app.
  pose proof (quiz_answerSingle_clicks Hk) as Hone. unfold issues in Hone.
  rewrite (Hone (final (call (GetQuizData page)) s) Hpage).
  cbn [clicksOf filter isClick app].
  eexists. split; [reflexivity|].
  intros ->.
  destruct (result Quiz.answerSingle (final (call (GetQuizData page)) s)) as [ctl|e|];
    [|reflexivity|reflexivity].
  apply clicksOf_quiet.
  destruct ctl; [|apply emits_ret|apply emits_ret].
  cbn [Quiz.questions].
  match goal with
  | |- Forall _ (events ?m ?s') => assert (E : emits notClick m); [|exact (E s')]
  end.
  apply emits_bind; [apply emits_getPage|]. intros p.
  apply emits_bind; [unfold orElse; emission|].
  intros [rd|].
  - destruct (CorrectlyAnsweredQuestionCount rd).
    + destruct (Quiz.remaining rd) as [r0|]; cbn [Quiz.below negb].
      * destruct (r0 <=? 0); [apply emits_ret|].
        destruct (negb (question + 1 <? r0)); [apply emits_ret | apply emits_outOfFuel].
      * apply emits_ret.
    + destruct (negb (Quiz.below (question + 1) (Some r)));
        [apply emits_ret | apply emits_outOfFuel].
  - destruct (negb (Quiz.below (question + 1) (Some r)));
      [apply emits_ret | apply emits_outOfFuel].
Qed.

End SingleAnswer.

(** ** The retrying click of the Quiz class never restores *)

Section QuizNeverRestores.

Context `{Env}.

Lemma tryClickOnce_no_restore p sel t : emits notRestore (Quiz.tryClickOnce p sel t).
Proof.
  unfold Quiz.tryClickOnce, Quiz.isVisibleAndClickable, Quiz.hideBlockingOverlays,
    Quiz.clickStage.
  emission.
Qed.

Hint Resolve tryClickOnce_no_restore : emission.

Lemma firstLoop_no_restore left : forall p sel t, emits notRestore (Quiz.firstLoop left p sel t).
Proof. induction left; intros; cbn [Quiz.firstLoop]; emission. Qed.

Lemma candidateAttempts_no_restore left : forall p sel t,
  emits notRestore (Quiz.candidateAttempts left p sel t).
Proof. induction left; intros; cbn [Quiz.candidateAttempts]; emission. Qed.

Hint Resolve firstLoop_no_restore candidateAttempts_no_restore : emission.

Lemma candidatesLoop_no_restore cands : forall n p t,
  emits notRestore (Quiz.candidatesLoop cands n p t).
Proof. induction cands; intros; cbn [Quiz.candidatesLoop]; emission. Qed.

Hint Resolve candidatesLoop_no_restore : emission.

(** No run of the retrying click evaluates the restore callback. *)
Lemma clickWithRetries_no_restore p sel n t :
  emits notRestore (Quiz.clickWithRetries p sel n t).
Proof.
  unfold Quiz.clickWithRetries, Quiz.heuristics, Quiz.findDailyCandidates. emission.
Qed.

End QuizNeverRestores.

(* ===================================================================== *)
(** * The properties of the design document *)
(* ===================================================================== *)

Section Claims.

Context `{Env}.

(** C8 (as the code has it).  Suppress then restore on the document of
    [Sample.pageWithDialog]: the dialog, visible before through its inline
    [display: block], is invisible afterwards, because the restore removes
    the inline declaration instead of putting the former one back.  The
    set of visible elements is therefore not the one before the
    suppression. *)
Theorem C8_restore_loses_inline_display :
  Dom.visibleSet Sample.pageWithDialog = [true; true] /\
  Dom.visibleSet (Workers.suppressThenRestore (Some 0%nat) Sample.pageWithDialog)
  = [true; false] /\
  Workers.suppressThenRestore (Some 0%nat) Sample.pageWithDialog <> Sample.pageWithDialog.
Proof.
  split; [reflexivity|]. split; [reflexivity|].
  intros E. apply (f_equal Dom.visibleSet) in E. discriminate E.
Qed.

(** C9.  For every activity, on every page, the builder resolves with a
    list that is not empty, has no duplicate, and ends with the two generic
    fallback locators. *)
Theorem C9_candidates_nonempty_distinct (page : Page) (activity : Activity)
        (punchCard : option PunchCard) (s : State) :
  exists l,
    result (Workers.buildSelectorsForActivity page activity punchCard) s = Ok l /\
    l <> [] /\ NoDup l /\
    exists pre, l = pre ++ [pointLinkScoped; pointLinkAny].
Proof.
  assert (Hc : Forall bracketed (Workers.fromOfferId activity ++ Workers.fromName activity)).
  { apply Forall_app. split; [apply fromOfferId_bracketed | apply fromName_bracketed]. }
  unfold Workers.buildSelectorsForActivity, result, bind, mark, tryCatch, call, ret.
  simpl.
  destruct (ask (clock s) (EvalPointLinks page)) as [links|e]; simpl;
    eexists; (split; [reflexivity|]); apply unique_with_fallbacks; auto.
  apply pushNew_bracketed; [exact Hc | apply scanLoop_bracketed].
Qed.

(** C2 (amended).  An activity whose selector resolution a flow enters
    is not complete; in the daily set and in the more promotions it also
    has a positive [pointProgressMax].  The punch-card flow filters the
    child promotions on [complete] only. *)
Theorem C2_prefiltering (page : Page) (data : DashboardData) (s : State) (x : Activity) :
  (In x (resolved (events (Workers.doDailySet page data) s)) ->
   complete x = false /\ pointProgressMax x > 0) /\
  (In x (resolved (events (Workers.doMorePromotions page data) s)) ->
   complete x = false /\ pointProgressMax x > 0) /\
  (In x (resolved (events (Workers.doPunchCard page data) s)) ->
   complete x = false).
Proof.
  split; [|split]; intros Hx.
  - assert (Hp : Workers.dailySetPending x = true).
    { revert x Hx. apply resolved_only. apply emits_doDailySet; simpl; auto. }
    unfold Workers.dailySetPending in Hp. apply andb_prop in Hp. destruct Hp as [Hc Hp].
    split; [destruct (complete x); [discriminate | reflexivity]|].
    apply Z.gtb_lt in Hp. lia.
  - assert (Hp : Workers.morePromotionPending x = true).
    { revert x Hx. apply resolved_only. apply emits_doMorePromotions; simpl; auto. }
    unfold Workers.morePromotionPending in Hp.
    apply andb_prop in Hp. destruct Hp as [Hp _].
    apply andb_prop in Hp. destruct Hp as [Hc Hp].
    split; [destruct (complete x); [discriminate | reflexivity]|].
    apply Z.gtb_lt in Hp. lia.
  - revert x Hx. apply resolved_only. apply emits_doPunchCard; simpl; auto.
Qed.


(** C4 (amended).  The click of the Workers class resolves, and a
    failure it resolves with carries one of not-found, zero-bounding-box,
    css-hidden, click-failed, max-retries.  The click of the Quiz class
    resolves too, and a failure it resolves with carries no-candidates or
    max-retries. *)
Theorem C4_failure_reasons (page : Page) (selector : string) (maxAttempts : nat)
        (perAttemptTimeout : Z) (s : State) :
  (exists res,
      result (Workers.robustTryClickSelector page selector maxAttempts perAttemptTimeout) s
      = Ok res /\ outcomeIn clickReasons res) /\
  (exists res,
      result (Quiz.clickWithRetries page selector maxAttempts perAttemptTimeout) s
      = Ok res /\ outcomeIn quizReasons res).
Proof.
  split; apply returns_ok.
  - apply robustTryClickSelector_outcome.
  - apply clickWithRetries_outcome.
Qed.

(** C3 (amended).  The click of the Workers class: with no attempt left
    it resolves with max-retries; an attempt that succeeds is returned at
    once; an attempt that fails with click-failed or css-hidden is followed
    by the pause and the remaining attempts on the same locator; an attempt
    that fails with any other reason is returned at once, the whole run
    being that one attempt; in particular a locator that never finds an
    element gives not-found after one wait and one query.  The click of the
    Quiz class differs: whatever the reason, a failed first attempt on the
    locator is followed by the heuristic candidates, with no second
    attempt on the locator. *)
Theorem C3_retry_policy (page : Page) (selector : string) (timeout : Z)
        (left : nat) (s : State) :
  let attempt := Workers.tryOnce page selector timeout selector timeout in
  let robust := fun n => Workers.robustTryClickSelector page selector n timeout in
  robust O s = (Ok (failure "max-retries"), s, []) /\
  (forall res, result attempt s = Ok res ->
     (success res = true -> robust (S left) s = attempt s) /\
     (success res = false -> In (reasonOf res) ["click-failed"; "css-hidden"] ->
      robust (S left) s = (attempt ;; Workers.pause ;; robust left) s) /\
     (success res = false -> ~ In (reasonOf res) ["click-failed"; "css-hidden"] ->
      robust (S left) s = attempt s)) /\
  ((forall n, ask n (Query page selector) = Resolves None) ->
   result (robust (S left)) s = Ok (failure "not-found") /\
   events (robust (S left)) s =
     [Called (WaitForSelector page selector Attached (Z.min 2500 timeout));
      Called (Query page selector)]) /\
  (forall res, result (Quiz.tryClickOnce page selector timeout) s = Ok res ->
     success res = false ->
     Quiz.clickWithRetries page selector (S left) timeout s =
     (Quiz.tryClickOnce page selector timeout ;;
      Quiz.heuristics page selector (S left) timeout) s).
Proof.
  intros attempt robust.
  assert (Hstep : forall res, result attempt s = Ok res ->
            (success res = true -> robust (S left) s = attempt s) /\
            (success res = false -> In (reasonOf res) ["click-failed"; "css-hidden"] ->
             robust (S left) s = (attempt ;; Workers.pause ;; robust left) s) /\
            (success res = false -> ~ In (reasonOf res) ["click-failed"; "css-hidden"] ->
             robust (S left) s = attempt s)).
  { intros res Hres.
    pose proof (tryOnce_outcome page selector timeout selector timeout s) as Hout.
    fold attempt in Hout. rewrite Hres in Hout.
    assert (Hrun : exists s1 ev1, attempt s = (Ok res, s1, ev1)).
    { unfold result in Hres. destruct (attempt s) as [[r s1] ev1]. simpl in Hres.
      subst r. eauto. }
    destruct Hrun as [s1 [ev1 Hrun]].
    assert (Hunfold : robust (S left) s =
              let '(r, s2, ev2) :=
                (if success res then ret res
                 else if Js.mem (reasonOf res) Workers.transient
                      then Workers.pause ;; robust left
                      else ret res) s1 in
              (r, s2, ev1 ++ ev2)).
    { subst robust. unfold Workers.robustTryClickSelector. cbn [Workers.attempts].
      fold attempt. unfold bind at 1. rewrite Hrun. reflexivity. }
    split; [|split].
    - intros Hs. rewrite Hunfold, Hs, Hrun. unfold ret. rewrite app_nil_r. reflexivity.
    - intros Hs Hin. rewrite Hunfold, Hs.
      assert (Hm : Js.mem (reasonOf res) Workers.transient = true).
      { apply mem_In. simpl in *. tauto. }
      rewrite Hm. unfold bind at 2. rewrite Hrun. reflexivity.
    - intros Hs Hnot. rewrite Hunfold, Hs, Hrun.
      assert (Hm : Js.mem (reasonOf res) Workers.transient = false).
      { destruct Hout as [Ht|[_ [r [Hr Hin]]]]; [congruence|].
        unfold reasonOf in *. rewrite Hr in *.
        simpl in Hin, Hnot.
        destruct Hin as [<-|[<-|[<-|[<-|[]]]]]; try reflexivity; exfalso; tauto. }
      rewrite Hm. unfold ret. rewrite app_nil_r. reflexivity. }
  split; [reflexivity|]. split; [exact Hstep|]. split.
  - intros Hnone.
    assert (Hrun : attempt s =
                   (Ok (failure "not-found"), tick (tick s),
                    [Called (WaitForSelector page selector Attached (Z.min 2500 timeout));
                     Called (Query page selector)])).
    { subst attempt. unfold Workers.tryOnce, Workers.checkStage, ignoring, tryCatch,
        bind, call, ret. simpl.
      destruct (ask (clock s) (WaitForSelector page selector Attached (Z.min 2500 timeout)));
        simpl; rewrite Hnone; reflexivity. }
    destruct (Hstep (failure "not-found")) as [_ [_ Himm]].
    { unfold result. rewrite Hrun. reflexivity. }
    unfold result, events. rewrite Himm.
    + rewrite Hrun. split; reflexivity.
    + reflexivity.
    + simpl. intros [E|[E|[]]]; discriminate E.
  - intros res Hres Hs.
    pose proof (tryClickOnce_outcome page selector timeout s) as Hout.
    rewrite Hres in Hout.
    assert (Hrun : exists s1 ev1,
               Quiz.tryClickOnce page selector timeout s = (Ok res, s1, ev1)).
    { unfold result in Hres.
      destruct (Quiz.tryClickOnce page selector timeout s) as [[r s1] ev1].
      simpl in Hres. subst r. eauto. }
    destruct Hrun as [s1 [ev1 Hrun]].
    assert (Hm : ((reasonOf res =? "css-hidden")
                  || (reasonOf res =? "visibility-check-error"))%string = false).
    { destruct Hout as [Ht|[_ [r [Hr Hin]]]]; [congruence|].
      unfold reasonOf. rewrite Hr. simpl in Hin.
      destruct Hin as [<-|[<-|[<-|[]]]]; reflexivity. }
    unfold Quiz.clickWithRetries. cbn [Quiz.firstLoop].
    rewrite bind_assoc_run. unfold bind at 1 3. rewrite Hrun, Hs, Hm.
    unfold bind, ret. rewrite Hrun.
    destruct (Quiz.heuristics page selector (S left) timeout s1) as [[r s2] ev2].
    reflexivity.
Qed.

(** C10.  Every run of a completion protocol calls [close] on the page
    it operates on: Poll, SearchOnBing and the Quiz of Quiz.ts on the page
    they were given, ABC and the Quiz with the retrying click on the page
    their [page] variable holds when they return.  This covers the normal
    end, the early aborts and the catch.  The question loop of the
    retrying Quiz is bounded by what the page reports: a run is cut only
    when the fuel is not above the number of questions the page reports,
    and with enough fuel the protocol resolves. *)
Theorem C10_protocols_close_the_page (page : Page) (activity : Activity)
        (fuel : nat) (s : State) :
  In (Called (Close page)) (events (Poll.doPoll page) s) /\
  In (Called (Close (var_page (final (ABC.doABC page) s)))) (events (ABC.doABC page) s) /\
  In (Called (Close page)) (events (SearchOnBing.doSearchOnBing page activity) s) /\
  In (Called (Close page)) (events (QuizSimple.doQuiz page) s) /\
  (result (Quiz.doQuiz fuel page) s <> OutOfFuel ->
   In (Called (Close (var_page (final (Quiz.doQuiz fuel page) s))))
      (events (Quiz.doQuiz fuel page) s)) /\
  (forall B, quizBounded B -> B < Z.of_nat fuel ->
             result (Quiz.doQuiz fuel page) s = Ok tt).
Proof.
  assert (Hsettled : forall (m : M unit), may anything m -> result m s <> OutOfFuel).
  { intros m Hm E. specialize (Hm s). rewrite E in Hm. exact Hm. }
  repeat split.
  - apply (doPoll_closes page s). apply Hsettled. apply doPoll_may.
  - apply (doABC_closes page s). apply Hsettled. apply returns_may. apply doABC_returns.
  - apply (doSearchOnBing_closes page activity s). apply Hsettled. apply doSearchOnBing_may.
  - apply (simple_doQuiz_closes page s). apply Hsettled. apply simple_doQuiz_may.
  - apply doQuiz_closes.
  - intros B Hb Hlt. apply unit_ok. eapply quiz_doQuiz_returns; eauto.
Qed.

(** C6. Every run of the ABC protocol resolves: it neither throws nor
    fails to terminate.  It waits for the options of a question, which
    it does once at the start of each pass of the loop, at most fifteen
    times, whatever the snapshots of the page hold.  A run that made
    fifteen passes and logged no error has logged the warning
    [Failed to solve quiz, exceeded max iterations of 15]. *)
Theorem C6_abc_loop_is_bounded (page : Page) (s : State) :
  result (ABC.doABC page) s = Ok tt /\
  (questionWaits (events (ABC.doABC page) s) <= ABC.maxIterations)%nat /\
  (existsb isErrorLog (events (ABC.doABC page) s) = false ->
   questionWaits (events (ABC.doABC page) s) = ABC.maxIterations ->
   In (Logged "ABC" ABC.failedMsg LWarn) (events (ABC.doABC page) s)).
Proof.
  split; [|split].
  - pose proof (doABC_returns page s) as Hr.
    destruct (result (ABC.doABC page) s) as [[]|e|]; [reflexivity | contradiction | contradiction].
  - apply doABC_atMost.
  - apply doABC_warns.
Qed.


End Claims.

(** C2 (as stated, refuted).  On [Sample.cardData] the punch-card flow
    enters selector resolution for a child promotion whose
    [pointProgressMax] is 0. *)
Lemma C2_punch_card_child_without_points :
  resolved (events (@Workers.doPunchCard Sample.calm 0%nat Sample.cardData) (Sample.start []))
  = [Sample.zeroPointChild] /\
  pointProgressMax Sample.zeroPointChild <= 0.
Proof. split; [vm_compute; reflexivity | vm_compute; discriminate]. Qed.

(** C4 (as stated, refuted).  On a page where the locator finds nothing
    and the heuristic scan finds no candidate, the click of the Quiz class
    fails with the reason no-candidates, which is none of the five. *)
Lemma C4_no_candidates_reason :
  result (@Quiz.clickWithRetries Sample.calm 0%nat "#rqStartQuiz" 3 10000) (Sample.start [])
  = Ok (failure "no-candidates") /\
  ~ In "no-candidates" clickReasons.
Proof.
  split; [vm_compute; reflexivity|].
  simpl. intros [E|[E|[E|[E|[E|[]]]]]]; discriminate E.
Qed.

(** C3 (as stated, refuted).  On a page where the locator finds nothing
    the first attempt of the Quiz click fails with not-found, and the
    click does not return that reason: it goes on to the heuristic scan
    and resolves with no-candidates. *)
Lemma C3_not_found_is_not_returned :
  result (@Quiz.tryClickOnce Sample.calm 0%nat "#rqStartQuiz" 10000) (Sample.start [])
  = Ok (failure "not-found") /\
  result (@Quiz.clickWithRetries Sample.calm 0%nat "#rqStartQuiz" 3 10000) (Sample.start [])
  = Ok (failure "no-candidates") /\
  In (Called (EvalDailyCandidates 0%nat))
     (events (@Quiz.clickWithRetries Sample.calm 0%nat "#rqStartQuiz" 3 10000)
             (Sample.start [])).
Proof.
  split; [vm_compute; reflexivity|]. split; [vm_compute; reflexivity|].
  vm_compute. tauto.
Qed.

(** On a page whose snapshots never show the completion marker nor any
    option, the protocol makes its fifteen passes and logs the warning. *)
Lemma C6_page_that_never_completes :
  questionWaits (events (@ABC.doABC Sample.calm 0%nat) (Sample.start [])) = 15%nat /\
  In (Logged "ABC" ABC.failedMsg LWarn)
     (events (@ABC.doABC Sample.calm 0%nat) (Sample.start [])).
Proof.
  split; [vm_compute; reflexivity|].
  apply (proj2 (proj2 (@C6_abc_loop_is_bounded Sample.calm 0%nat (Sample.start []))));
    vm_compute; reflexivity.
Defined.



(** C1. A click of the Quiz class on a target that its style hides and
    a fixed overlay covers: the retrying click succeeds and returns with
    the overlay still hidden and tagged, and it never evaluates the
    restore callback.  The click of the Workers class on the same page
    evaluates the restore callback and hands the document back as it
    was. *)
Theorem C1_quiz_click_leaves_overlay_hidden :
  result (@Quiz.clickWithRetries Sample.covered 0%nat "#rqStartQuiz" 3 10000)
         (Sample.start Sample.pageWithOverlay)
  = Ok (succeeded None) /\
  dom (final (@Quiz.clickWithRetries Sample.covered 0%nat "#rqStartQuiz" 3 10000)
             (Sample.start Sample.pageWithOverlay))
  = [Sample.target; Dom.hideAndMark Sample.overlay] /\
  Dom.isVisible (Dom.hideAndMark Sample.overlay) = false /\
  Dom.isVisible Sample.overlay = true /\
  ~ In (Called (EvalRestore 0%nat))
       (events (@Quiz.clickWithRetries Sample.covered 0%nat "#rqStartQuiz" 3 10000)
               (Sample.start Sample.pageWithOverlay)) /\
  In (Called (EvalRestore 0%nat))
     (events (@Workers.robustTryClickSelector Sample.covered 0%nat "#rqStartQuiz" 3 10000)
             (Sample.start Sample.pageWithOverlay)) /\
  dom (final (@Workers.robustTryClickSelector Sample.covered 0%nat "#rqStartQuiz" 3 10000)
             (Sample.start Sample.pageWithOverlay))
  = Sample.pageWithOverlay.
Proof.
  repeat split; try (vm_compute; reflexivity).
  - vm_compute. intros Hin.
    repeat (destruct Hin as [Hev|Hin]; [discriminate Hev|]). exact Hin.
  - vm_compute. tauto.
Qed.

(* ===================================================================== *)
(** * Further properties of the code *)
(* ===================================================================== *)

(** ** The overlay callbacks of the Workers class *)

Section HideFacts.

Lemma hideAndMark_invisible el : Dom.isVisible (Dom.hideAndMark el) = false.
Proof. reflexivity. Qed.

Lemma overlaps_visible d tBox isTarget el :
  Workers.overlaps d tBox isTarget el = true -> Dom.isVisible el = true /\ isTarget = false.
Proof.
  unfold Workers.overlaps, Dom.isVisible.
  destruct isTarget; [discriminate|].
  destruct (Dom.styleHidden el); [discriminate|]. auto.
Qed.

Lemma hideLoop_facts tBox target (d : Dom.DOM) : forall done,
  Forall2 hidStep d (fst (Workers.hideLoop tBox target done d)) /\
  (length (filter Dom.isVisible (fst (Workers.hideLoop tBox target done d)))
   + snd (Workers.hideLoop tBox target done d)
   = length (filter Dom.isVisible d))%nat /\
  (forall tEl, (length done <= target)%nat ->
               nth_error d (target - length done) = Some tEl ->
               nth_error (fst (Workers.hideLoop tBox target done d)) (target - length done)
               = Some tEl).
Proof.
  induction d as [|el rest IH]; intros done; cbn [Workers.hideLoop].
  - simpl. repeat split; auto.
  - destruct (Workers.overlaps (done ++ el :: rest) tBox (length done =? target)%nat el)
      eqn:Ho.
    + destruct (IH (done ++ [Dom.hideAndMark el])) as [Hstep [Hcount Htarget]].
      rewrite length_app in Htarget. cbn [length] in Htarget.
      destruct (Workers.hideLoop tBox target (done ++ [Dom.hideAndMark el]) rest)
        as [rest' n].
      cbn [fst snd] in *.
      destruct (overlaps_visible _ _ _ _ Ho) as [Hv Hne].
      apply Nat.eqb_neq in Hne.
      repeat split.
      * constructor; [|exact Hstep]. right. repeat split; auto.
        eapply overlaps_positioned; eauto.
      * cbn [filter]. rewrite hideAndMark_invisible, Hv. cbn [length]. lia.
      * intros tEl Hle Hnth.
        destruct (target - length done)%nat as [|k] eqn:Ek; [lia|].
        cbn [nth_error] in *. replace k with (target - (length done + 1))%nat in * by lia.
        apply Htarget; [lia | exact Hnth].
    + destruct (IH (done ++ [el])) as [Hstep [Hcount Htarget]].
      rewrite length_app in Htarget. cbn [length] in Htarget.
      destruct (Workers.hideLoop tBox target (done ++ [el]) rest) as [rest' n].
      cbn [fst snd] in *.
      repeat split.
      * constructor; [left; reflexivity | exact Hstep].
      * cbn [filter]. destruct (Dom.isVisible el); cbn [length]; lia.
      * intros tEl Hle Hnth.
        destruct (target - length done)%nat as [|k] eqn:Ek; [exact Hnth|].
        cbn [nth_error] in *. replace k with (target - (length done + 1))%nat in * by lia.
        apply Htarget; [lia | exact Hnth].
Qed.

(** The walk up the parents looks at the elements before a bound only. *)
Lemma ancestorHidden_below (d1 d2 : Dom.DOM) (bound : nat) :
  (forall i, (i < bound)%nat -> nth_error d1 i = nth_error d2 i) ->
  (forall i el p, (i < bound)%nat -> nth_error d1 i = Some el ->
                  Dom.el_parent el = Some p -> (p < i)%nat) ->
  forall fuel parent,
    (forall p, parent = Some p -> (p < bound)%nat) ->
    Dom.ancestorHidden fuel d1 parent = Dom.ancestorHidden fuel d2 parent.
Proof.
  intros Hsame Hwf. induction fuel as [|fuel IH]; intros parent Hp; [reflexivity|].
  destruct parent as [p|]; [|reflexivity].
  cbn [Dom.ancestorHidden].
  specialize (Hp p eq_refl).
  rewrite <- (Hsame p Hp).
  destruct (nth_error d1 p) as [pe|] eqn:Ep; [|reflexivity].
  f_equal. apply IH. intros p' Hp'.
  specialize (Hwf p pe p' Hp Ep Hp'). lia.
Qed.

(** An element under an ancestor with [display: none] has an empty box
    and is passed by. *)
Lemma overlaps_boxless d tBox isTarget el :
  underHidden d el = true -> Workers.overlaps d tBox isTarget el = false.
Proof.
  unfold underHidden, Workers.overlaps, Dom.getBoundingClientRect. intros ->.
  rewrite orb_true_r. cbn.
  destruct isTarget; [reflexivity|].
  destruct (Dom.styleHidden el); [reflexivity|].
  destruct (negb (Dom.positioned el)); reflexivity.
Qed.

Lemma wellNested_step (done rest : Dom.DOM) (el el' : Dom.Element) :
  Dom.el_parent el' = Dom.el_parent el ->
  wellNested (done ++ el :: rest) -> wellNested ((done ++ [el']) ++ rest).
Proof.
  intros Hpar Hwf i e p Hi Hp. rewrite <- app_assoc in Hi. cbn [app] in Hi.
  destruct (Nat.lt_ge_cases i (length done)) as [Hlt|Hge].
  - rewrite nth_error_app1 in Hi by exact Hlt.
    apply (Hwf i e p); [|exact Hp]. rewrite nth_error_app1 by exact Hlt. exact Hi.
  - rewrite nth_error_app2 in Hi by exact Hge.
    destruct (i - length done)%nat as [|j] eqn:Ej.
    + cbn [nth_error] in Hi. injection Hi as <-.
      apply (Hwf i el p); [|rewrite <- Hpar; exact Hp].
      rewrite nth_error_app2 by exact Hge. rewrite Ej. reflexivity.
    + cbn [nth_error] in Hi.
      apply (Hwf i e p); [|exact Hp].
      rewrite nth_error_app2 by exact Hge. rewrite Ej. exact Hi.
Qed.

(** The loop leaves alone the elements that end under an ancestor with
    [display: none], whether it was so before or the loop hid it. *)
Lemma hideLoop_skips tBox target (d : Dom.DOM) : forall done,
  wellNested (done ++ d) ->
  forall j el,
    nth_error d j = Some el ->
    underHidden (done ++ fst (Workers.hideLoop tBox target done d)) el = true ->
    nth_error (fst (Workers.hideLoop tBox target done d)) j = Some el.
Proof.
  induction d as [|e rest IH]; intros done Hwf j el Hj Hunder; [destruct j; discriminate|].
  cbn [Workers.hideLoop] in *.
  assert (Hlen : forall (out : Dom.DOM * nat) e',
             Forall2 hidStep rest (fst out) ->
             length (done ++ e' :: fst out) = length (done ++ e :: rest)).
  { intros out e' Hs. rewrite !length_app. cbn [length].
    rewrite <- (Forall2_length Hs). reflexivity. }
  destruct j as [|j].
  - cbn [nth_error] in Hj. injection Hj as ->.
    assert (Hskip : Workers.overlaps (done ++ el :: rest) tBox (length done =? target)%nat el
                    = false).
    { apply overlaps_boxless. unfold underHidden in *.
      destruct (Workers.overlaps (done ++ el :: rest) tBox (length done =? target)%nat el).
      - pose proof (proj1 (hideLoop_facts tBox target rest (done ++ [Dom.hideAndMark el])))
          as Hs.
        destruct (Workers.hideLoop tBox target (done ++ [Dom.hideAndMark el]) rest)
          as [rest' n].
        cbn [fst] in *. rewrite (Hlen (rest', n) _ Hs) in Hunder.
        rewrite <- Hunder.
        apply ancestorHidden_below with (bound := length done).
        + intros i Hi. rewrite !nth_error_app1 by exact Hi. reflexivity.
        + intros i e0 p _ He0 Hp. exact (Hwf i e0 p He0 Hp).
        + intros p Hp. apply (Hwf (length done) el p); [|exact Hp].
          rewrite nth_error_app2 by lia. rewrite Nat.sub_diag. reflexivity.
      - pose proof (proj1 (hideLoop_facts tBox target rest (done ++ [el]))) as Hs.
        destruct (Workers.hideLoop tBox target (done ++ [el]) rest) as [rest' n].
        cbn [fst] in *. rewrite (Hlen (rest', n) _ Hs) in Hunder.
        rewrite <- Hunder.
        apply ancestorHidden_below with (bound := length done).
        + intros i Hi. rewrite !nth_error_app1 by exact Hi. reflexivity.
        + intros i e0 p _ He0 Hp. exact (Hwf i e0 p He0 Hp).
        + intros p Hp. apply (Hwf (length done) el p); [|exact Hp].
          rewrite nth_error_app2 by lia. rewrite Nat.sub_diag. reflexivity. }
    rewrite Hskip.
    destruct (Workers.hideLoop tBox target (done ++ [el]) rest) as [rest' n].
    reflexivity.
  - cbn [nth_error] in Hj.
    destruct (Workers.overlaps (done ++ e :: rest) tBox (length done =? target)%nat e).
    + specialize (IH (done ++ [Dom.hideAndMark e])
                     (@wellNested_step done rest e (Dom.hideAndMark e) eq_refl Hwf)
                     j el Hj).
      destruct (Workers.hideLoop tBox target (done ++ [Dom.hideAndMark e]) rest)
        as [rest' n].
      cbn [fst nth_error] in *. apply IH.
      rewrite <- app_assoc. exact Hunder.
    + specialize (IH (done ++ [e]) (@wellNested_step done rest e e eq_refl Hwf)
                     j el Hj).
      destruct (Workers.hideLoop tBox target (done ++ [e]) rest) as [rest' n].
      cbn [fst nth_error] in *. apply IH.
      rewrite <- app_assoc. exact Hunder.
Qed.

End HideFacts.

(** X1. On a document that carries no tag and whose positioned elements
    have no inline display, hiding the overlays of any target and then
    restoring gives the document back as it was. *)
Theorem X1_suppress_restore_round_trip (target : option nat) (d : Dom.DOM) :
  (forall el, In el d -> Dom.el_marker el = false) ->
  (forall el, In el d -> Dom.positioned el = true -> Dom.el_inline_display el = None) ->
  Workers.suppressThenRestore target d = d /\
  Dom.markedCount (Workers.suppressThenRestore target d) = O.
Proof.
  intros Hm Hi. split; [apply suppressThenRestore_identity; assumption|].
  apply restoreCallback_clears.
Qed.

Lemma X1_round_trip_on_page_with_overlay :
  Workers.suppressThenRestore (Some 0%nat) Sample.pageWithOverlay = Sample.pageWithOverlay /\
  Dom.markedCount (Workers.suppressThenRestore (Some 0%nat) Sample.pageWithOverlay) = O.
Proof.
  apply (@X1_suppress_restore_round_trip (Some 0%nat) Sample.pageWithOverlay).
  - intros el [<-|[<-|[]]]; reflexivity.
  - intros el [<-|[<-|[]]] _; reflexivity.
Defined.

(** X2. The hide callback keeps the length of the document, leaves the
    target element as it is, alters an element only by hiding and
    tagging one that its own style showed and positioned, and returns
    the number of elements it hid itself: the number of elements whose
    own style shows them drops by the count.  On a document whose
    parents come before their children it leaves as it is every element
    that ends under an ancestor with [display: none], so a positioned
    child of an overlay the callback hides is neither hidden, nor
    tagged, nor counted. *)
Theorem X2_hide_counts_what_it_hides (target : option nat) (d : Dom.DOM) :
  Forall2 hidStep d (fst (Workers.hideCallback target d)) /\
  length (fst (Workers.hideCallback target d)) = length d /\
  (length (filter Dom.isVisible (fst (Workers.hideCallback target d)))
   + snd (Workers.hideCallback target d)
   = length (filter Dom.isVisible d))%nat /\
  (forall t, target = Some t ->
             nth_error (fst (Workers.hideCallback target d)) t = nth_error d t) /\
  (wellNested d ->
   forall i el, nth_error d i = Some el ->
                underHidden (fst (Workers.hideCallback target d)) el = true ->
                nth_error (fst (Workers.hideCallback target d)) i = Some el).
Proof.
  assert (Hsame : Forall2 hidStep d d).
  { induction d; constructor; [left; reflexivity | assumption]. }
  assert (Hall : Forall2 hidStep d (fst (Workers.hideCallback target d)) /\
                 (length (filter Dom.isVisible (fst (Workers.hideCallback target d)))
                  + snd (Workers.hideCallback target d)
                  = length (filter Dom.isVisible d))%nat /\
                 (forall t, target = Some t ->
                            nth_error (fst (Workers.hideCallback target d)) t = nth_error d t)).
  { unfold Workers.hideCallback. destruct target as [t|]; [|cbn [fst snd]; auto].
    destruct (nth_error d t) as [tEl|] eqn:Et; [|cbn [fst snd]; auto].
    destruct (hideLoop_facts (Dom.getBoundingClientRect d tEl) t d []) as [Hs [Hc Ht]].
    repeat split; auto.
    intros t' [= <-]. rewrite Et. cbn [length] in Ht. rewrite Nat.sub_0_r in Ht.
    apply Ht; [lia | exact Et]. }
  destruct Hall as [Hs [Hc Ht]]. repeat split; auto.
  - symmetry. eapply Forall2_length. exact Hs.
  - intros Hwf i el Hi. unfold Workers.hideCallback.
    destruct target as [t|]; [|intros _; exact Hi].
    destruct (nth_error d t) as [tEl|]; [|intros _; exact Hi].
    apply (@hideLoop_skips (Dom.getBoundingClientRect d tEl) t d [] Hwf i el Hi).
Qed.

(** On [Sample.pageWithBadge] the overlay over the target holds a
    positioned badge that is over the target too: the callback hides
    the overlay, counts one, and leaves the badge as it is. *)
Lemma X2_badge_inside_the_overlay :
  snd (Workers.hideCallback (Some 0%nat) Sample.pageWithBadge) = 1%nat /\
  nth_error (fst (Workers.hideCallback (Some 0%nat) Sample.pageWithBadge)) 1
  = Some (Dom.hideAndMark Sample.overlay) /\
  nth_error (fst (Workers.hideCallback (Some 0%nat) Sample.pageWithBadge)) 2
  = Some Sample.badge.
Proof.
  split; [vm_compute; reflexivity|]. split; [vm_compute; reflexivity|].
  apply (proj2 (proj2 (proj2 (proj2
           (X2_hide_counts_what_it_hides (Some 0%nat) Sample.pageWithBadge))))).
  - intros i el p Hi Hp.
    destruct i as [|[|[|i]]]; cbn in Hi;
      [injection Hi as <-; discriminate Hp
      |injection Hi as <-; discriminate Hp
      |injection Hi as <-; injection Hp as <-; lia
      |destruct i; discriminate Hi].
  - reflexivity.
  - vm_compute. reflexivity.
Defined.

(** ** What a run does to the document *)

Create HintDb invariance discriminated.

Section TripleRules.

Context `{Env}.

Lemma final_bind {A B} (m : M A) (f : A -> M B) (s : State) :
  final (bind m f) s =
  match result m s with
  | Ok a => final (f a) (final m s)
  | _ => final m s
  end.
Proof.
  unfold result, final, bind.
  destruct (m s) as [[[a|e|] s1] ev1]; simpl; try reflexivity.
  destruct (f a s1) as [[r2 s2] ev2]. reflexivity.
Qed.

Lemma triple_ret {A} (P : State -> Prop) (Q : A -> State -> Prop) E a :
  (forall s, P s -> Q a s) -> triple P (ret a) Q E.
Proof. intros HQ s Hs. exact (HQ s Hs). Qed.

Lemma triple_throw {A} (P : State -> Prop) (Q : A -> State -> Prop) (E : State -> Prop) e :
  (forall s, P s -> E s) -> triple P (@throw A e) Q E.
Proof. intros HE s Hs. exact (HE s Hs). Qed.

Lemma triple_bind {A B} (P : State -> Prop) (Q1 : A -> State -> Prop)
      (Q : B -> State -> Prop) (E : State -> Prop) (m : M A) (f : A -> M B) :
  triple P m Q1 E -> (forall a, triple (Q1 a) (f a) Q E) -> triple P (bind m f) Q E.
Proof.
  intros Hm Hf s Hs. specialize (Hm s Hs).
  rewrite result_bind, final_bind.
  destruct (result m s) as [a|e|]; auto.
  exact (Hf a _ Hm).
Qed.

Lemma triple_tryCatch {A} (P : State -> Prop) (Q : A -> State -> Prop)
      (E1 E : State -> Prop) (body : M A) handler :
  triple P body Q E1 -> (forall e, triple E1 (handler e) Q E) ->
  triple P (tryCatch body handler) Q E.
Proof.
  intros Hb Hh s Hs. specialize (Hb s Hs).
  unfold result, final, tryCatch in *.
  destruct (body s) as [[[a|e|] s1] ev1]; simpl in *; auto.
  specialize (Hh e s1 Hb). unfold result, final in Hh.
  destruct (handler e s1) as [[r2 s2] ev2]. exact Hh.
Qed.

Lemma triple_weaken {A} (P P' : State -> Prop) (Q Q' : A -> State -> Prop)
      (E E' : State -> Prop) (m : M A) :
  triple P m Q E ->
  (forall s, P' s -> P s) -> (forall a s, Q a s -> Q' a s) -> (forall s, E s -> E' s) ->
  triple P' m Q' E'.
Proof.
  intros Hm HP HQ HE s Hs. specialize (Hm s (HP s Hs)).
  destruct (result m s); auto.
Qed.

(** A fact that does not depend on the state can be assumed. *)
Lemma triple_given {A} (C : Prop) (P : State -> Prop) (Q : A -> State -> Prop) E (m : M A) :
  (C -> triple P m Q E) -> triple (fun s => C /\ P s) m Q E.
Proof. intros Hm s [Hc Hs]. exact (Hm Hc s Hs). Qed.

Variable R : Dom.DOM -> Prop.

Lemma invariant_ret {A} (a : A) : invariant R (ret a).
Proof. intros s Hs. exact Hs. Qed.

Lemma invariant_throw {A} e : invariant R (@throw A e).
Proof. intros s Hs. exact Hs. Qed.

Lemma invariant_outOfFuel {A} : invariant R (@outOfFuel A).
Proof. intros s Hs. exact Logic.I. Qed.

Lemma invariant_bind {A B} (m : M A) (f : A -> M B) :
  invariant R m -> (forall a, invariant R (f a)) -> invariant R (bind m f).
Proof. intros Hm Hf. eapply triple_bind; [exact Hm | exact Hf]. Qed.

Lemma invariant_tryCatch {A} (body : M A) handler :
  invariant R body -> (forall e, invariant R (handler e)) ->
  invariant R (tryCatch body handler).
Proof. intros Hb Hh. eapply triple_tryCatch; [exact Hb | exact Hh]. Qed.

Lemma invariant_call op : invariant R (call op).
Proof. intros s Hs. unfold result, final, call. simpl. destruct (ask (clock s) op); exact Hs. Qed.

Lemma invariant_wait ms : invariant R (wait ms).
Proof. intros s Hs. exact Hs. Qed.

Lemma invariant_log t m l : invariant R (log t m l).
Proof. intros s Hs. exact Hs. Qed.

Lemma invariant_random lo hi : invariant R (random lo hi).
Proof. intros s Hs. exact Hs. Qed.

Lemma invariant_url p : invariant R (url p).
Proof. intros s Hs. exact Hs. Qed.

Lemma invariant_pagesLength p : invariant R (pagesLength p).
Proof. intros s Hs. exact Hs. Qed.

Lemma invariant_getFormattedDate : invariant R getFormattedDate.
Proof. intros s Hs. exact Hs. Qed.

Lemma invariant_shuffleFirst l : invariant R (shuffleFirst l).
Proof. intros s Hs. exact Hs. Qed.

Lemma invariant_getDom : invariant R getDom.
Proof. intros s Hs. exact Hs. Qed.

Lemma invariant_getPage : invariant R getPage.
Proof. intros s Hs. exact Hs. Qed.

Lemma invariant_setPage p : invariant R (setPage p).
Proof. intros s Hs. exact Hs. Qed.

Lemma invariant_getActivityPage : invariant R getActivityPage.
Proof. intros s Hs. exact Hs. Qed.

Lemma invariant_setActivityPage p : invariant R (setActivityPage p).
Proof. intros s Hs. exact Hs. Qed.

Lemma invariant_mark a : invariant R (mark a).
Proof. intros s Hs. exact Hs. Qed.

End TripleRules.

#[export] Hint Resolve invariant_ret invariant_throw invariant_outOfFuel invariant_call
  invariant_wait invariant_log invariant_random invariant_url invariant_pagesLength
  invariant_getFormattedDate invariant_shuffleFirst invariant_getDom invariant_getPage
  invariant_setPage invariant_getActivityPage invariant_setActivityPage invariant_mark
  : invariance.

Ltac invariance_step :=
  lazymatch goal with
  | |- invariant _ (bind _ _) => apply invariant_bind; [ | intro ]
  | |- invariant _ (tryCatch _ _) => apply invariant_tryCatch; [ | intro ]
  | |- invariant _ (orElse _ _) => unfold orElse
  | |- invariant _ (ignoring _) => unfold ignoring
  | |- invariant ?R (call ?op) => exact (@invariant_call _ R op)
  | |- invariant _ (match ?x with _ => _ end) => destruct x
  | |- invariant _ _ => solve [ eauto with invariance ]
  end.

Ltac invariance := repeat invariance_step.

(** ** The click of the Workers class leaves no element tagged *)

Section WorkersRestores.

Context `{Env}.

Variable page : Page.
Hypothesis restore_resolves : forall t, ask t (EvalRestore page) = Resolves tt.

Lemma invariant_here {A} (R : Dom.DOM -> Prop) (m : M A) :
  invariant R m ->
  triple (fun s => R (dom s)) m (fun _ s => R (dom s)) (fun _ => True).
Proof. intros Hm s Hs. specialize (Hm s Hs). destruct (result m s); auto. Qed.

Lemma anything_goes {A} (m : M A) (Hret : returns anything m) :
  triple (fun _ => True) m (fun _ _ => True) (fun _ => False).
Proof. intros s _. specialize (Hret s). destruct (result m s); auto. Qed.

(** Hiding either counts nothing and changes nothing, or reports what
    it hid. *)
Lemma hideOverlappingOverlays_zero sel :
  triple (fun s => untagged (dom s)) (Workers.hideOverlappingOverlays page sel)
         (fun hid s => hid = O -> untagged (dom s)) (fun _ => True).
Proof.
  intros s Hs. unfold Workers.hideOverlappingOverlays.
  unfold result, final, tryCatch, bind, call, getDom, setDom, ret. simpl.
  destruct (ask (clock s) (EvalHide page sel)) as [target|e]; simpl; [|intros _; exact Hs].
  pose proof (hideCallback_zero target (dom s)) as Hz.
  destruct (Workers.hideCallback target (dom s)) as [d' n]. simpl in *.
  intros ->. rewrite Hz; [exact Hs | reflexivity].
Qed.

(** An early return of the checks comes with the document untagged. *)
Lemma checkStage_untagged sel :
  triple (fun s => untagged (dom s)) (Workers.checkStage page sel)
         (fun early s => early <> None -> untagged (dom s)) (fun _ => True).
Proof.
  unfold Workers.checkStage.
  apply triple_tryCatch with (E1 := fun _ => True);
    [|intros e; apply triple_ret; intros s _ Hne; contradiction].
  apply triple_bind with (Q1 := fun _ s => untagged (dom s)).
  { apply invariant_here. invariance. }
  intros [h|]; [|apply triple_ret; auto].
  apply triple_bind with (Q1 := fun _ s => untagged (dom s)).
  { apply invariant_here. invariance. }
  intros _. apply triple_bind with (Q1 := fun _ s => untagged (dom s)).
  { apply invariant_here. invariance. }
  intros box. apply triple_bind with (Q1 := fun _ s => untagged (dom s)).
  { apply invariant_here. invariance. }
  intros style.
  destruct (boxMissingOrEmpty box); [apply triple_ret; auto|].
  destruct (cssHidden style); [|apply triple_ret; intros s _ Hne; contradiction].
  apply triple_bind with (Q1 := fun hid s => hid = O -> untagged (dom s)).
  { apply hideOverlappingOverlays_zero. }
  intros hid. destruct (hid =? 0)%nat eqn:E.
  - apply Nat.eqb_eq in E. apply triple_ret. intros s Hs _. exact (Hs E).
  - apply triple_ret. intros s _ Hne. contradiction.
Qed.

(** The restore clears every tag. *)
Lemma restoreHiddenOverlays_clears :
  triple (fun _ => True) (ignoring (Workers.restoreHiddenOverlays page))
         (fun _ s => untagged (dom s)) (fun _ => False).
Proof.
  intros s _. unfold ignoring, Workers.restoreHiddenOverlays.
  unfold result, final, tryCatch, bind, call, getDom, setDom, ret. simpl.
  rewrite restore_resolves. simpl.
  exact (restoreCallback_clears (dom s)).
Qed.

Lemma tryOnce_untagged selector perAttemptTimeout sel timeout :
  triple (fun s => untagged (dom s))
         (Workers.tryOnce page selector perAttemptTimeout sel timeout)
         (fun _ s => untagged (dom s)) (fun _ => False).
Proof.
  unfold Workers.tryOnce.
  apply triple_bind with (Q1 := fun _ s => untagged (dom s)).
  { intros s Hs. unfold ignoring, result, final, tryCatch, bind, call, ret. simpl.
    destruct (ask (clock s) _); exact Hs. }
  intros _. apply triple_bind with (Q1 := fun early s => early <> None -> untagged (dom s)).
  { intros s Hs. pose proof (@checkStage_untagged sel s Hs) as Hc.
    pose proof (checkStage_early page sel s) as Hr.
    destruct (result (Workers.checkStage page sel) s); auto. }
  intros [r|].
  - apply triple_ret. intros s Hs. apply Hs. discriminate.
  - apply triple_weaken with (P := fun _ => True) (Q := fun _ s => untagged (dom s))
      (E := fun _ => False); [|auto|auto|auto].
    apply triple_bind with (Q1 := fun _ _ => True).
    { apply anything_goes. unfold orElse. settle. }
    intros popupPromise. apply triple_bind with (Q1 := fun _ _ => True).
    { apply anything_goes. unfold orElse. settle. }
    intros navPromise. apply triple_bind with (Q1 := fun _ _ => True).
    { apply anything_goes. apply clickCascade_returns. }
    intros clickedOk. apply triple_bind with (Q1 := fun _ _ => True).
    { apply anything_goes. destruct (negb clickedOk); unfold orElse; settle. }
    intros clickedOk'. apply triple_bind with (Q1 := fun _ s => untagged (dom s)).
    { apply restoreHiddenOverlays_clears. }
    intros _.
    assert (Hrest : invariant untagged
              (if negb clickedOk' then ret (failure "click-failed")
               else match popupPromise with
                    | Some pp =>
                        ignoring (call (WaitForLoadState pp "domcontentloaded" 2000)) ;;
                        ret (succeeded (Some pp))
                    | None =>
                        if navPromise then ret (succeeded None) else ret (succeeded None)
                    end)).
    { invariance. }
    assert (Hret : returns anything
              (if negb clickedOk' then ret (failure "click-failed")
               else match popupPromise with
                    | Some pp =>
                        ignoring (call (WaitForLoadState pp "domcontentloaded" 2000)) ;;
                        ret (succeeded (Some pp))
                    | None =>
                        if navPromise then ret (succeeded None) else ret (succeeded None)
                    end)).
    { destruct (negb clickedOk'); [settle|].
      destruct popupPromise; [unfold ignoring; settle|]. destruct navPromise; settle. }
    intros s Hs. specialize (Hrest s Hs). specialize (Hret s).
    destruct (result _ s); auto.
Qed.

Lemma attempts_untagged left : forall selector perAttemptTimeout,
  triple (fun s => untagged (dom s))
         (Workers.attempts left page selector perAttemptTimeout)
         (fun _ s => untagged (dom s)) (fun _ => False).
Proof.
  induction left as [|left IH]; intros selector perAttemptTimeout; cbn [Workers.attempts].
  - apply triple_ret. auto.
  - apply triple_bind with (Q1 := fun _ s => untagged (dom s)).
    { apply tryOnce_untagged. }
    intros res. destruct (success res); [apply triple_ret; auto|].
    destruct (Js.mem (reasonOf res) Workers.transient); [|apply triple_ret; auto].
    apply triple_bind with (Q1 := fun _ s => untagged (dom s)); [|intros _; apply IH].
    intros s Hs. exact Hs.
Qed.

Lemma tryCandidates_untagged activity selectors : forall candidateCount,
  triple (fun s => untagged (dom s))
         (Workers.tryCandidates page activity selectors candidateCount)
         (fun _ s => untagged (dom s)) (fun _ => False).
Proof.
  induction selectors as [|sel rest IH]; intros candidateCount; cbn [Workers.tryCandidates].
  - apply triple_ret. auto.
  - destruct (Workers.maxCandidatesToTry <=? candidateCount)%nat; [apply triple_ret; auto|].
    apply triple_bind with (Q1 := fun _ s => untagged (dom s)).
    { apply attempts_untagged. }
    intros res. destruct (success res); [apply triple_ret; auto|].
    apply triple_bind with (Q1 := fun _ s => untagged (dom s)); [|intros _; apply IH].
    intros s Hs. exact Hs.
Qed.

End WorkersRestores.

(** X3. When the evaluation of the restore callback resolves, a click
    of the Workers class that starts on a document without tagged
    elements resolves and ends on a document without tagged elements,
    whatever the page answers otherwise; so does the run over the
    candidate selectors of an activity. *)
Theorem X3_workers_click_leaves_no_tag `{Env} (page : Page) (selector : string)
        (maxAttempts : nat) (perAttemptTimeout : Z) (activity : Activity)
        (selectors : list string) (candidateCount : nat) (s : State) :
  (forall t, ask t (EvalRestore page) = Resolves tt) ->
  Dom.markedCount (dom s) = O ->
  (exists res,
     result (Workers.robustTryClickSelector page selector maxAttempts perAttemptTimeout) s
     = Ok res) /\
  Dom.markedCount
    (dom (final (Workers.robustTryClickSelector page selector maxAttempts perAttemptTimeout) s))
  = O /\
  Dom.markedCount
    (dom (final (Workers.tryCandidates page activity selectors candidateCount) s))
  = O.
Proof.
  intros Hrestore Hs. repeat split.
  - pose proof (@attempts_untagged _ page Hrestore maxAttempts selector perAttemptTimeout s Hs)
      as Ht.
    unfold Workers.robustTryClickSelector.
    destruct (result (Workers.attempts maxAttempts page selector perAttemptTimeout) s)
      as [res|e|] eqn:E; [eauto | contradiction |].
    pose proof (robustTryClickSelector_returns page selector maxAttempts perAttemptTimeout s)
      as Hr.
    unfold Workers.robustTryClickSelector in Hr. rewrite E in Hr. contradiction.
  - pose proof (@attempts_untagged _ page Hrestore maxAttempts selector perAttemptTimeout s Hs)
      as Ht.
    pose proof (robustTryClickSelector_returns page selector maxAttempts perAttemptTimeout s)
      as Hr.
    unfold Workers.robustTryClickSelector in *.
    destruct (result (Workers.attempts maxAttempts page selector perAttemptTimeout) s);
      [exact Ht | contradiction | contradiction].
  - pose proof (@tryCandidates_untagged _ page Hrestore activity selectors candidateCount s Hs)
      as Ht.
    pose proof (tryCandidates_returns page activity selectors candidateCount s) as Hr.
    destruct (result (Workers.tryCandidates page activity selectors candidateCount) s);
      [exact Ht | contradiction | contradiction].
Qed.

Lemma X3_click_on_covered_target_leaves_no_tag :
  (exists res,
     result (@Workers.robustTryClickSelector Sample.covered 0%nat "#rqStartQuiz" 3 10000)
            (Sample.start Sample.pageWithOverlay) = Ok res) /\
  Dom.markedCount
    (dom (final (@Workers.robustTryClickSelector Sample.covered 0%nat "#rqStartQuiz" 3 10000)
                (Sample.start Sample.pageWithOverlay))) = O /\
  Dom.markedCount
    (dom (final (@Workers.tryCandidates Sample.covered 0%nat Sample.first
                   ["#rqStartQuiz"] 0)
                (Sample.start Sample.pageWithOverlay))) = O.
Proof.
  apply (@X3_workers_click_leaves_no_tag Sample.covered 0%nat "#rqStartQuiz" 3%nat 10000
           Sample.first ["#rqStartQuiz"] 0%nat (Sample.start Sample.pageWithOverlay)).
  - intros t. reflexivity.
  - reflexivity.
Defined.

(** ** Counting what a run records *)

Section Counting.

Context `{Env}.
Variable p : Event -> bool.

Lemma countOf_app a b : countOf p (a ++ b) = (countOf p a + countOf p b)%nat.
Proof. unfold countOf. rewrite filter_app, length_app. reflexivity. Qed.

Lemma countOf_none evs : Forall (noneOf p) evs -> countOf p evs = O.
Proof.
  unfold countOf. induction 1 as [|ev rest Hev _ IH]; cbn [filter]; [reflexivity|].
  unfold noneOf in Hev. rewrite Hev. exact IH.
Qed.

Lemma atMostOf_quiet {A} (m : M A) : emits (noneOf p) m -> atMostOf p 0 m.
Proof. intros Hm s. rewrite countOf_none; [lia | apply Hm]. Qed.

Lemma atMostOf_le {A} n n' (m : M A) : atMostOf p n m -> (n <= n')%nat -> atMostOf p n' m.
Proof. intros Hm Hle s. specialize (Hm s). lia. Qed.

Lemma atMostOf_bind {A B} n1 n2 (m : M A) (f : A -> M B) :
  atMostOf p n1 m -> (forall a, atMostOf p n2 (f a)) -> atMostOf p (n1 + n2) (bind m f).
Proof.
  intros Hm Hf s. specialize (Hm s). rewrite events_bind, countOf_app.
  destruct (result m s) as [a|e|]; [|cbn; lia|cbn; lia].
  specialize (Hf a (final m s)). lia.
Qed.

Lemma atMostOf_tryCatch {A} n1 n2 (body : M A) handler :
  atMostOf p n1 body -> (forall e, atMostOf p n2 (handler e)) ->
  atMostOf p (n1 + n2) (tryCatch body handler).
Proof.
  intros Hb Hh s. specialize (Hb s). rewrite events_tryCatch, countOf_app.
  destruct (result body s) as [a|e|]; [cbn; lia| |cbn; lia].
  specialize (Hh e (final body s)). lia.
Qed.

Lemma atMostOf_call op : atMostOf p 1 (call op).
Proof. intros s. unfold countOf, events, call. cbn [snd filter]. destruct (p _); cbn; lia. Qed.

Lemma atMostOf_ret {A} (a : A) n : atMostOf p n (ret a).
Proof. intros s. cbn. lia. Qed.

(** A call whose failure is caught. *)
Lemma atMostOf_orElse {A} (m : M A) d n : atMostOf p n m -> atMostOf p n (orElse m d).
Proof.
  intros Hm. unfold orElse. replace n with (n + 0)%nat by lia.
  apply atMostOf_tryCatch; [exact Hm | intros; apply atMostOf_ret].
Qed.

Lemma atMostOf_ignoring {A} (m : M A) n : atMostOf p n m -> atMostOf p n (ignoring m).
Proof.
  intros Hm. unfold ignoring. replace n with ((n + 0) + 0)%nat by lia.
  apply atMostOf_tryCatch; [|intros; apply atMostOf_ret].
  apply atMostOf_bind; [exact Hm | intros; apply atMostOf_ret].
Qed.

End Counting.

(** ** How much the click of the Workers class does *)

Section WorkersBounds.

Context `{Env}.

Ltac silent := apply atMostOf_quiet; unfold orElse, ignoring; emission.

Lemma clickCascade_clicks page sel timeout :
  atMostOf isClick 3 (Workers.clickCascade page sel timeout).
Proof.
  unfold Workers.clickCascade.
  apply atMostOf_tryCatch with (n1 := 3%nat) (n2 := 0%nat); [|intros; apply atMostOf_ret].
  apply atMostOf_bind with (n1 := 0%nat) (n2 := 3%nat); [silent|]. intros _.
  apply atMostOf_bind with (n1 := 1%nat) (n2 := 2%nat).
  { apply atMostOf_orElse. apply atMostOf_bind with (n1 := 1%nat) (n2 := 0%nat);
      [apply atMostOf_call | intros; apply atMostOf_ret]. }
  intros clickedOk. destruct (negb clickedOk); [|apply atMostOf_ret].
  apply atMostOf_bind with (n1 := 1%nat) (n2 := 1%nat).
  { apply atMostOf_orElse. apply atMostOf_call. }
  intros evalClicked. destruct evalClicked; [apply atMostOf_ret|].
  apply atMostOf_bind with (n1 := 0%nat) (n2 := 1%nat); [silent|].
  intros [h|]; [|apply atMostOf_ret].
  apply atMostOf_bind with (n1 := 0%nat) (n2 := 1%nat); [silent|].
  intros [b|]; [|apply atMostOf_ret].
  apply atMostOf_bind with (n1 := 1%nat) (n2 := 0%nat); [|intros; apply atMostOf_ret].
  apply atMostOf_ignoring. apply atMostOf_call.
Qed.

Lemma tryOnce_clicks page selector perAttemptTimeout sel timeout :
  atMostOf isClick 4 (Workers.tryOnce page selector perAttemptTimeout sel timeout).
Proof.
  unfold Workers.tryOnce.
  apply atMostOf_bind with (n1 := 0%nat) (n2 := 4%nat); [silent|]. intros _.
  apply atMostOf_bind with (n1 := 0%nat) (n2 := 4%nat).
  { apply atMostOf_quiet.
    unfold Workers.checkStage, Workers.hideOverlappingOverlays. emission. }
  intros [r|]; [apply atMostOf_ret|].
  apply atMostOf_bind with (n1 := 0%nat) (n2 := 4%nat); [silent|]. intros popupPromise.
  apply atMostOf_bind with (n1 := 0%nat) (n2 := 4%nat); [silent|]. intros navPromise.
  apply atMostOf_bind with (n1 := 3%nat) (n2 := 1%nat); [apply clickCascade_clicks|]. intros clickedOk.
  apply atMostOf_bind with (n1 := 1%nat) (n2 := 0%nat).
  { destruct (negb clickedOk); [|apply atMostOf_ret].
    apply atMostOf_orElse. apply atMostOf_bind with (n1 := 1%nat) (n2 := 0%nat);
      [apply atMostOf_call | intros; apply atMostOf_ret]. }
  intros clickedOk'. apply atMostOf_bind with (n1 := 0%nat) (n2 := 0%nat).
  { apply atMostOf_quiet. unfold ignoring, Workers.restoreHiddenOverlays. emission. }
  intros _. apply atMostOf_quiet.
  destruct (negb clickedOk'); [emission|].
  destruct popupPromise; [unfold ignoring; emission|]. destruct navPromise; emission.
Qed.

Lemma tryOnce_attempts page selector perAttemptTimeout sel timeout :
  atMostOf isAttempt 1 (Workers.tryOnce page selector perAttemptTimeout sel timeout).
Proof.
  unfold Workers.tryOnce.
  apply atMostOf_bind with (n1 := 1%nat) (n2 := 0%nat).
  { apply atMostOf_ignoring. apply atMostOf_call. }
  intros _. apply atMostOf_quiet.
  unfold Workers.checkStage, Workers.hideOverlappingOverlays, Workers.clickCascade,
    Workers.restoreHiddenOverlays, orElse, ignoring.
  emission.
Qed.

Lemma attempts_bound (q : Event -> bool) k left : forall page selector perAttemptTimeout,
  (forall sel timeout, atMostOf q k (Workers.tryOnce page selector perAttemptTimeout sel timeout)) ->
  (forall ms, q (Waited ms) = false) ->
  atMostOf q (left * k) (Workers.attempts left page selector perAttemptTimeout).
Proof.
  induction left as [|left IH]; intros page selector perAttemptTimeout Honce Hw;
    cbn [Workers.attempts].
  - apply atMostOf_ret.
  - replace (S left * k)%nat with (k + (0 + left * k))%nat by lia.
    apply atMostOf_bind; [apply Honce|]. intros res.
    destruct (success res); [apply atMostOf_ret|].
    destruct (Js.mem (reasonOf res) Workers.transient); [|apply atMostOf_ret].
    apply atMostOf_bind; [|intros _; apply IH; assumption].
    apply atMostOf_quiet. unfold Workers.pause.
    apply emits_bind; [apply emits_random | intros ms; apply emits_wait; apply Hw].
Qed.

Lemma tryCandidates_bound (q : Event -> bool) k page activity selectors :
  (forall sel, atMostOf q k (Workers.robustTryClickSelector page sel 3 10000)) ->
  (forall t m l, q (Logged t m l) = false) ->
  forall candidateCount,
    atMostOf q ((Workers.maxCandidatesToTry - candidateCount) * k)
             (Workers.tryCandidates page activity selectors candidateCount).
Proof.
  intros Hrobust Hl.
  induction selectors as [|sel rest IH]; intros candidateCount; cbn [Workers.tryCandidates].
  - apply atMostOf_ret.
  - destruct (Workers.maxCandidatesToTry <=? candidateCount)%nat eqn:E; [apply atMostOf_ret|].
    apply Nat.leb_gt in E.
    replace ((Workers.maxCandidatesToTry - candidateCount) * k)%nat
      with (k + (0 + (Workers.maxCandidatesToTry - S candidateCount) * k))%nat by nia.
    apply atMostOf_bind; [apply Hrobust|]. intros res.
    destruct (success res); [apply atMostOf_ret|].
    apply atMostOf_bind; [|intros _; apply IH].
    apply atMostOf_quiet. apply emits_log. apply Hl.
Qed.

Lemma tryCandidates_counter page activity selectors : forall candidateCount s res n,
  result (Workers.tryCandidates page activity selectors candidateCount) s = Ok (res, n) ->
  (candidateCount <= n)%nat /\
  (n <= candidateCount + length selectors)%nat /\
  (n <= Nat.max Workers.maxCandidatesToTry candidateCount)%nat.
Proof.
  induction selectors as [|sel rest IH]; intros candidateCount s res n;
    cbn [Workers.tryCandidates].
  - intros [= _ <-]. cbn [length]. lia.
  - destruct (Workers.maxCandidatesToTry <=? candidateCount)%nat eqn:E.
    + intros [= _ <-]. cbn [length]. lia.
    + apply Nat.leb_gt in E. intros Hok.
      apply bind_ok_inv in Hok. destruct Hok as [r [_ Hok]].
      destruct (success r).
      * injection Hok as _ <-. cbn [length]. lia.
      * apply bind_ok_inv in Hok. destruct Hok as [[] [_ Hok]].
        apply IH in Hok. cbn [length]. lia.
Qed.

End WorkersBounds.

(** X4. A click of the Workers class makes at most [maxAttempts]
    attempts, each opened by the wait for the element to be attached, and
    issues at most four clicks per attempt (the locator click, the
    evaluated click, the mouse click and the forced locator click). *)
Theorem X4_click_attempts_are_bounded `{Env} (page : Page) (selector : string)
        (maxAttempts : nat) (perAttemptTimeout : Z) (s : State) :
  (countOf isAttempt
     (events (Workers.robustTryClickSelector page selector maxAttempts perAttemptTimeout) s)
   <= maxAttempts)%nat /\
  (countOf isClick
     (events (Workers.robustTryClickSelector page selector maxAttempts perAttemptTimeout) s)
   <= 4 * maxAttempts)%nat.
Proof.
  unfold Workers.robustTryClickSelector. split.
  - pose proof (@attempts_bound _ isAttempt 1 maxAttempts page selector perAttemptTimeout
                  (fun sel timeout => @tryOnce_attempts _ page selector perAttemptTimeout sel timeout)
                  (fun _ => eq_refl) s) as Hb.
    lia.
  - pose proof (@attempts_bound _ isClick 4 maxAttempts page selector perAttemptTimeout
                  (fun sel timeout => @tryOnce_clicks _ page selector perAttemptTimeout sel timeout)
                  (fun _ => eq_refl) s) as Hb.
    lia.
Qed.

(** X5. For one activity the loop over the candidate selectors tries at
    most five of them, so it makes at most fifteen attempts and issues
    at most sixty clicks, however many candidates the builder found. *)
Theorem X5_candidates_are_capped `{Env} (page : Page) (activity : Activity)
        (selectors : list string) (s : State) :
  (countOf isAttempt (events (Workers.tryCandidates page activity selectors 0) s) <= 15)%nat /\
  (countOf isClick (events (Workers.tryCandidates page activity selectors 0) s) <= 60)%nat /\
  (forall res n, result (Workers.tryCandidates page activity selectors 0) s = Ok (res, n) ->
                 (n <= Workers.maxCandidatesToTry)%nat /\ (n <= length selectors)%nat).
Proof.
  assert (Ha : forall sel, atMostOf isAttempt 3 (Workers.robustTryClickSelector page sel 3 10000)).
  { intros sel s'. unfold Workers.robustTryClickSelector.
    pose proof (@attempts_bound _ isAttempt 1 3 page sel 10000
                  (fun sel' timeout => @tryOnce_attempts _ page sel 10000 sel' timeout)
                  (fun _ => eq_refl) s'). lia. }
  assert (Hc : forall sel, atMostOf isClick 12 (Workers.robustTryClickSelector page sel 3 10000)).
  { intros sel s'. unfold Workers.robustTryClickSelector.
    pose proof (@attempts_bound _ isClick 4 3 page sel 10000
                  (fun sel' timeout => @tryOnce_clicks _ page sel 10000 sel' timeout)
                  (fun _ => eq_refl) s'). lia. }
  repeat split.
  - pose proof (@tryCandidates_bound _ isAttempt 3 page activity selectors Ha
                  (fun _ _ _ => eq_refl) 0%nat s) as Hb.
    cbn in Hb. exact Hb.
  - pose proof (@tryCandidates_bound _ isClick 12 page activity selectors Hc
                  (fun _ _ _ => eq_refl) 0%nat s) as Hb.
    cbn in Hb. exact Hb.
  - destruct (tryCandidates_counter page activity selectors 0 s H0) as [_ [_ Hm]].
    cbn in Hm. exact Hm.
  - destruct (tryCandidates_counter page activity selectors 0 s H0) as [_ [Hl _]].
    cbn in Hl. exact Hl.
Qed.

(** ** The public flows when nothing is pending *)

Section NothingPending.

Lemma filter_none {A} (f : A -> bool) (l : list A) :
  (forall x, In x l -> f x = false) -> filter f l = [].
Proof.
  induction l as [|x rest IH]; intros Hf; cbn [filter]; [reflexivity|].
  rewrite (Hf x (in_eq _ _)). apply IH. intros y Hy. apply Hf. right. exact Hy.
Qed.

End NothingPending.

(** X6. A flow with nothing pending only logs that everything has been
    completed, in the words of the code ([q] is the double quote it puts
    around [Punch Cards] and [More Promotion]), and makes no call on the
    page: the daily set when the dashboard has no entry for the date of
    the day or every item of the day is complete or worth no point, the
    punch cards when the dashboard has none or every card lacks a parent
    or has a complete parent, the more promotions when every item (the
    promotional item included) is complete, worth no point or locked. *)
Theorem X6_nothing_pending_nothing_done `{Env} (page : Page) (data : DashboardData)
        (s : State) :
  ((forall today, Workers.lookup (formattedDate (clock s)) (dailySetPromotions data) = Some today ->
      forall x, In x today -> complete x = true \/ pointProgressMax x <= 0) ->
   Workers.doDailySet page data s
   = (Ok tt, tick s,
      [Logged "DAILY-SET" "All Daily Set items have already been completed" LLog])) /\
  ((forall cards, punchCards data = Some cards ->
      forall c, In c cards ->
                parentPromotion c = None \/
                exists parent, parentPromotion c = Some parent /\ complete parent = true) ->
   Workers.doPunchCard page data s
   = (Ok tt, s,
      [Logged "PUNCH-CARD"
              ("All " +++ q +++ "Punch Cards" +++ q +++ " have already been completed")
              LLog])) /\
  ((forall x, In x (morePromotions data) \/ promotionalItem data = Some x ->
              complete x = true \/ pointProgressMax x <= 0
              \/ exclusiveLockedFeatureStatus x = "locked") ->
   Workers.doMorePromotions page data s
   = (Ok tt, s,
      [Logged "MORE-PROMOTIONS"
              ("All " +++ q +++ "More Promotion" +++ q
               +++ " items have already been completed")
              LLog])).
Proof.
  repeat split.
  - intros Hday. unfold Workers.doDailySet, bind, getFormattedDate. cbn [fst snd].
    destruct (Workers.lookup (formattedDate (clock s)) (dailySetPromotions data))
      as [today|] eqn:E; [|reflexivity].
    rewrite filter_none; [reflexivity|].
    intros x Hx. unfold Workers.dailySetPending.
    destruct (Hday today eq_refl x Hx) as [-> | Hp]; [reflexivity|].
    assert (Hz : (pointProgressMax x >? 0) = false)
      by (rewrite Z.gtb_ltb; apply Z.ltb_ge; lia).
    rewrite Hz. apply andb_false_r.
  - intros Hcards. unfold Workers.doPunchCard.
    destruct (punchCards data) as [cards|] eqn:E; [|reflexivity].
    rewrite filter_none; [reflexivity|].
    intros c Hc. unfold Workers.punchCardPending.
    destruct (Hcards cards eq_refl c Hc) as [-> | [parent [-> ->]]]; reflexivity.
  - intros Hmore. unfold Workers.doMorePromotions.
    rewrite filter_none; [reflexivity|].
    intros x Hx.
    assert (Hin : In x (morePromotions data) \/ promotionalItem data = Some x).
    { destruct (promotionalItem data) as [item|]; [|left; exact Hx].
      apply in_app_or in Hx. destruct Hx as [Hx|[<-|[]]]; auto. }
    unfold Workers.morePromotionPending.
    destruct (Hmore x Hin) as [-> | [Hp | ->]]; [reflexivity | | ].
    + assert (Hz : (pointProgressMax x >? 0) = false)
        by (rewrite Z.gtb_ltb; apply Z.ltb_ge; lia).
      rewrite Hz, andb_false_r. reflexivity.
    + rewrite String.eqb_refl. apply andb_false_r.
Qed.

Section PollClick.

Context `{Env}.

Lemma issues_tryCatch_silent {A} (pre : State -> Prop) L (body : M A) handler :
  issues pre L body -> (forall e, issues always [] (handler e)) ->
  issues pre L (tryCatch body handler).
Proof.
  intros Hb Hh s Hs. rewrite events_tryCatch, clicksOf_app, (Hb s Hs).
  destruct (result body s) as [a|e|]; rewrite ?app_nil_r; try reflexivity.
  rewrite (Hh e _ Logic.I). apply app_nil_r.
Qed.

(** The number a draw gives is the one the environment holds for the
    clock of the state. *)
Lemma performs_random_at (s : State) lo hi :
  performs (eq s) [] (fun n s' => n = randomNumber (clock s) lo hi /\ always s') (random lo hi).
Proof. intros s' <-. split; [reflexivity|]. simpl. split; [reflexivity | exact Logic.I]. Qed.

Lemma doPoll_click page s :
  issues (eq s) [Called (Click page ("#btoption" +++ Js.showZ (randomNumber (clock s) 0 1)))]
         (Poll.doPoll page).
Proof.
  unfold Poll.doPoll.
  set (theClick := Called (Click page ("#btoption" +++ Js.showZ (randomNumber (clock s) 0 1)))).
  change [theClick] with (@nil Event ++ [theClick]).
  apply issues_bind with (mid := fun _ => eq s).
  { intros s' <-. split; [reflexivity|]. reflexivity. }
  intros _. apply issues_tryCatch_silent; [|intros e; apply issues_quiet; emission].
  change [theClick] with (@nil Event ++ (@nil Event ++ (@nil Event ++ (@nil Event ++ [theClick])))).
  apply issues_bind_val with (v := randomNumber (clock s) 0 1) (mid := always).
  { apply performs_random_at. }
  apply issues_bind with (mid := fun _ => always).
  { apply performs_still; [unfold ignoring; emission | unfold ignoring; settle]. }
  intros _. apply issues_bind with (mid := fun _ => always).
  { apply performs_still; [emission | settle]. }
  intros d. apply issues_bind with (mid := fun _ => always).
  { apply performs_still; [emission | settle]. }
  intros _. apply issues_then_silent; [apply issues_call|].
  intros _. apply issues_quiet. emission.
Qed.

End PollClick.

(** X8. Every run of the poll issues exactly one click, on the option
    button the random number picks, whether or not the wait for that
    button resolved; when the number is 0 or 1 the button is
    [#btoption0] or [#btoption1]. *)
Theorem X8_poll_clicks_once `{Env} (page : Page) (s : State) :
  clicksOf (events (Poll.doPoll page) s)
  = [Called (Click page ("#btoption" +++ Js.showZ (randomNumber (clock s) 0 1)))] /\
  (0 <= randomNumber (clock s) 0 1 <= 1 ->
   In ("#btoption" +++ Js.showZ (randomNumber (clock s) 0 1)) ["#btoption0"; "#btoption1"]).
Proof.
  split.
  - apply (@doPoll_click _ page s s). reflexivity.
  - intros Hn.
    assert (Hc : randomNumber (clock s) 0 1 = 0 \/ randomNumber (clock s) 0 1 = 1) by lia.
    destruct Hc as [-> | ->]; cbn; auto.
Qed.

(** ** The search query of SearchOnBing *)

Section SearchQuery.

Context `{Env}.

Lemma may_call_value op (Q : RespT op -> Prop) :
  (forall t v, ask t op = Resolves v -> Q v) -> may Q (call op).
Proof.
  intros Hq s. unfold result, call; simpl.
  destruct (ask (clock s) op) as [v|e] eqn:E; simpl; [exact (Hq _ _ E) | exact Logic.I].
Qed.

(** The query list the protocol gets satisfies [Q] whenever the loads
    that resolve do. *)
Lemma loadQueries_value (Q : list (string * list string) -> Prop) :
  (forall t local v, ask t (LoadQueries local) = Resolves v -> Q v) ->
  may Q (if searchOnBingLocalQueries config
         then call (LoadQueries true)
         else d <- random 300 1000 ;; wait d ;; call (LoadQueries false)).
Proof.
  intros Hq. destruct (searchOnBingLocalQueries config).
  - apply (@may_call_value (LoadQueries true) Q). intros t v. apply Hq.
  - apply may_bind with (Q1 := anything); [apply returns_may, returns_random|]. intros d _.
    apply may_bind with (Q1 := anything); [apply returns_may, returns_wait|]. intros _ _.
    apply (@may_call_value (LoadQueries false) Q). intros t v. apply Hq.
Qed.

Lemma getSearchQuery_title_when title
      (Q : list (string * list string) -> Prop) :
  (forall t local v, ask t (LoadQueries local) = Resolves v -> Q v) ->
  (forall queries, Q queries ->
     find (fun x => (SearchOnBing.normalizeString (fst x)
                     =? SearchOnBing.normalizeString title)%string) queries = None) ->
  returns (fun q => q = title) (SearchOnBing.getSearchQuery title).
Proof.
  intros Hload Hnone. unfold SearchOnBing.getSearchQuery.
  apply returns_bind with (Q1 := anything); [apply returns_random|]. intros d _.
  apply returns_bind with (Q1 := anything); [apply returns_wait|]. intros _ _.
  apply returns_tryCatch.
  - apply may_bind with (Q1 := Q); [apply loadQueries_value; exact Hload|].
    intros queries Hq. rewrite (Hnone queries Hq).
    apply may_bind with (Q1 := fun a => a = title); [apply may_ret; reflexivity|].
    intros answer ->.
    apply may_bind with (Q1 := anything); [apply returns_may, returns_log|]. intros _ _.
    apply may_ret. reflexivity.
  - intros e. apply returns_bind with (Q1 := anything); [apply returns_log|]. intros _ _.
    apply returns_ret. reflexivity.
Qed.

End SearchQuery.

(** X7. The search query of SearchOnBing never throws.  It is the title
    of the activity when the query list cannot be loaded, and when the
    list holds no entry whose normalised title is the normalised title of
    the activity. *)
Theorem X7_search_query_falls_back_to_title `{Env} (title : string) (s : State) :
  (exists q, result (SearchOnBing.getSearchQuery title) s = Ok q) /\
  ((forall t local, exists e, ask t (LoadQueries local) = Rejects e) ->
   result (SearchOnBing.getSearchQuery title) s = Ok title) /\
  (forall queries,
     (forall t local, ask t (LoadQueries local) = Resolves queries) ->
     (forall entry, In entry queries ->
        SearchOnBing.normalizeString (fst entry) <> SearchOnBing.normalizeString title) ->
     result (SearchOnBing.getSearchQuery title) s = Ok title).
Proof.
  repeat split.
  - pose proof (getSearchQuery_returns title s) as Hr.
    destruct (result (SearchOnBing.getSearchQuery title) s) as [q|e|];
      [eauto | contradiction | contradiction].
  - intros Hrej.
    pose proof (@getSearchQuery_title_when _ title (fun _ => False)) as Hr.
    assert (Hq : returns (fun q => q = title) (SearchOnBing.getSearchQuery title)).
    { apply Hr; [|intros queries []].
      intros t local v Hv. destruct (Hrej t local) as [e He]. congruence. }
    specialize (Hq s).
    destruct (result (SearchOnBing.getSearchQuery title) s) as [q|e|];
      [subst; reflexivity | contradiction | contradiction].
  - intros queries Hres Hno.
    pose proof (@getSearchQuery_title_when _ title (fun v => v = queries)) as Hr.
    assert (Hq : returns (fun q => q = title) (SearchOnBing.getSearchQuery title)).
    { apply Hr.
      - intros t local v Hv. rewrite Hres in Hv. congruence.
      - intros qs ->.
        destruct (find _ queries) as [entry|] eqn:Ef; [|reflexivity].
        apply find_some in Ef. destruct Ef as [Hin He].
        apply String.eqb_eq in He. destruct (Hno entry Hin He). }
    specialize (Hq s).
    destruct (result (SearchOnBing.getSearchQuery title) s) as [q|e|];
      [subst; reflexivity | contradiction | contradiction].
Qed.

(** On [Sample.skyLibrary] the title of the one entry is found behind a
    no-break space, which [trim] strips, and its first query is the
    answer; a title that no entry carries is its own query. *)
Lemma X7_titles_of_the_sky_library :
  @SearchOnBing.normalizeString Sample.skyLibrary (Sample.noBreakSpace +++ " Sky Facts?")
  = "sky facts" /\
  result (@SearchOnBing.getSearchQuery Sample.skyLibrary (Sample.noBreakSpace +++ "Sky Facts"))
         (Sample.start [])
  = Ok "why is the sky blue" /\
  result (@SearchOnBing.getSearchQuery Sample.skyLibrary "Sea Facts") (Sample.start [])
  = Ok "Sea Facts".
Proof.
  split; [vm_compute; reflexivity|]. split; [vm_compute; reflexivity|].
  apply (proj2 (proj2 (@X7_search_query_falls_back_to_title
                         Sample.skyLibrary "Sea Facts" (Sample.start [])))
           Sample.skyQueries).
  - reflexivity.
  - intros entry [<-|[]]. vm_compute. discriminate.
Defined.

(** ** Running a program one step at a time *)

Section Stepping.

Context `{Env}.

Lemma clicks_bind {A B} (m : M A) (f : A -> M B) (s : State) :
  clicksOf (events (bind m f) s) =
  clicksOf (events m s) ++ match result m s with
                           | Ok a => clicksOf (events (f a) (final m s))
                           | _ => []
                           end.
Proof. rewrite events_bind, clicksOf_app. destruct (result m s); reflexivity. Qed.

Lemma clicks_call {B} op (f : RespT op -> M B) (s : State) :
  clicksOf (events (bind (call op) f) s) =
  clicksOf [Called op] ++ match ask (clock s) op with
                          | Resolves v => clicksOf (events (f v) (tick s))
                          | Rejects _ => []
                          end.
Proof.
  rewrite clicks_bind. unfold result, final, call at 2 3. cbn [fst snd].
  destruct (ask (clock s) op); reflexivity.
Qed.

Lemma result_call {B} op (f : RespT op -> M B) (s : State) :
  result (bind (call op) f) s =
  match ask (clock s) op with
  | Resolves v => result (f v) (tick s)
  | Rejects e => Throw e
  end.
Proof.
  rewrite result_bind. unfold result at 1, final, call. cbn [fst snd].
  destruct (ask (clock s) op); reflexivity.
Qed.

Lemma clicks_random {B} lo hi (f : Z -> M B) (s : State) :
  clicksOf (events (bind (random lo hi) f) s)
  = clicksOf (events (f (randomNumber (clock s) lo hi)) (tick s)).
Proof. rewrite clicks_bind. reflexivity. Qed.

Lemma result_random {B} lo hi (f : Z -> M B) (s : State) :
  result (bind (random lo hi) f) s = result (f (randomNumber (clock s) lo hi)) (tick s).
Proof. rewrite result_bind. reflexivity. Qed.

Lemma clicks_wait {B} ms (f : unit -> M B) (s : State) :
  clicksOf (events (bind (wait ms) f) s) = clicksOf (events (f tt) s).
Proof. rewrite clicks_bind. reflexivity. Qed.

Lemma result_wait {B} ms (f : unit -> M B) (s : State) :
  result (bind (wait ms) f) s = result (f tt) s.
Proof. rewrite result_bind. reflexivity. Qed.

Lemma clicks_log {B} t msg l (f : unit -> M B) (s : State) :
  clicksOf (events (bind (log t msg l) f) s) = clicksOf (events (f tt) s).
Proof. rewrite clicks_bind. reflexivity. Qed.

Lemma result_log {B} t msg l (f : unit -> M B) (s : State) :
  result (bind (log t msg l) f) s = result (f tt) s.
Proof. rewrite result_bind. reflexivity. Qed.

End Stepping.

(** ** The multi-answer question of the plain Quiz *)

Section MultiAnswer.

Context `{Env}.
Variable page : Page.

(** The refresh check either hands over to what follows, or ends the
    run without a click and without the value [Next]. *)
Lemma simple_requireRefresh_cases (onward : M Ctl) (s : State) :
  (exists s', clicksOf (events (QuizSimple.requireRefresh page onward) s)
              = clicksOf (events onward s') /\
              result (QuizSimple.requireRefresh page onward) s = result onward s') \/
  (clicksOf (events (QuizSimple.requireRefresh page onward) s) = [] /\
   result (QuizSimple.requireRefresh page onward) s <> Ok Next).
Proof.
  unfold QuizSimple.requireRefresh. rewrite clicks_bind, result_bind.
  assert (Hq : clicksOf (events (BrowserFunc.waitForQuizRefresh page) s) = []).
  { apply (issues_quiet always); [|exact Logic.I].
    unfold BrowserFunc.waitForQuizRefresh. emission. }
  rewrite Hq. cbn [app].
  destruct (result (BrowserFunc.waitForQuizRefresh page) s) as [[|]|e|].
  - left. eexists. split; reflexivity.
  - right. cbn [negb]. split.
    + apply (issues_quiet always); [emission | exact Logic.I].
    + rewrite result_call. destruct (ask _ _); [|discriminate].
      rewrite result_log. discriminate.
  - right. split; [reflexivity | discriminate].
  - right. split; [reflexivity | discriminate].
Qed.

Lemma simple_clickAnswers_prefix answers : forall s,
  exists k,
    clicksOf (events (QuizSimple.clickAnswers page answers) s)
    = map (fun a => Called (Click page a)) (firstn k answers) /\
    (result (QuizSimple.clickAnswers page answers) s = Ok Next -> k = length answers).
Proof.
  induction answers as [|answer rest IH]; intros s; cbn [QuizSimple.clickAnswers].
  - exists O. split; reflexivity.
  - rewrite clicks_call, result_call. cbn [clicksOf filter isClick app].
    destruct (ask (clock s) (WaitForSelector page answer Visible 2000)) as [h|e];
      [|exists O; split; [reflexivity | discriminate]].
    rewrite clicks_random, result_random, clicks_wait, result_wait.
    rewrite clicks_call, result_call. cbn [clicksOf filter isClick app].
    destruct (ask _ (Click page answer)) as [[]|e];
      [|exists 1%nat; split; [reflexivity | discriminate]].
    match goal with
    | |- context [QuizSimple.requireRefresh page ?k] =>
        destruct (simple_requireRefresh_cases k (tick (tick (tick s))))
          as [[s' [Hc Hr]] | [Hc Hr]]
    end.
    + rewrite Hc, Hr, clicks_random, result_random, clicks_wait, result_wait.
      destruct (IH (tick s')) as [k [Hk Hfull]].
      exists (S k). cbn [firstn map length]. rewrite Hk. split; [reflexivity|].
      intros Hok. rewrite (Hfull Hok). reflexivity.
    + rewrite Hc. exists 1%nat. split; [reflexivity|]. intros Hok. contradiction.
Qed.

End MultiAnswer.

(** X9. The plain Quiz clicks the answers of a multi-answer question in
    the order of the list, each at most once, and stops at the first
    step that fails: the clicks of a run are those on a prefix of the
    list, and a run that goes through the whole question has clicked
    every answer. *)
Theorem X9_answers_are_clicked_in_order `{Env} (page : Page) (answers : list string)
        (s : State) :
  exists k,
    clicksOf (events (QuizSimple.clickAnswers page answers) s)
    = map (fun a => Called (Click page a)) (firstn k answers) /\
    (result (QuizSimple.clickAnswers page answers) s = Ok Next -> k = length answers).
Proof. apply simple_clickAnswers_prefix. Qed.

(** ** Collecting the correct options of a multi-answer question *)

Section CollectCorrect.

Context `{Env}.

Lemma result_ret {A} (a : A) (s : State) : result (ret a) s = Ok a.
Proof. reflexivity. Qed.

Lemma simple_collectCorrect_exact page (handle : nat -> Handle) (flag : nat -> option string)
      left : forall i s,
  (forall t j, (i <= j < i + left)%nat ->
     ask t (WaitForSelector page (Quiz.optionSelector j) Visible 10000) = Resolves (handle j)) ->
  (forall t j, (i <= j < i + left)%nat ->
     ask t (GetAttribute (handle j) "iscorrectoption") = Resolves (flag j)) ->
  result (QuizSimple.collectCorrect page left i) s
  = Ok (map Quiz.optionSelector (filter (fun j => Quiz.isTrue (flag j)) (seq i left))).
Proof.
  induction left as [|left IH]; intros i s Hwait Hattr; cbn [QuizSimple.collectCorrect seq].
  - reflexivity.
  - rewrite result_call, Hwait by lia. rewrite result_call, Hattr by lia.
    rewrite result_bind, IH; [|intros; apply Hwait; lia | intros; apply Hattr; lia].
    rewrite result_ret. cbn [filter].
    destruct (Quiz.isTrue (flag i)); reflexivity.
Qed.

(** The collection of the retrying Quiz skips an option it cannot read. *)
Lemma quiz_collectCorrect_exact (page : Page) (shown : nat -> option Handle)
      (flag : nat -> option (option string)) left : forall i s,
  var_page s = page ->
  (forall t j, (i <= j < i + left)%nat ->
     match shown j with
     | Some h => ask t (WaitForSelector page (Quiz.optionSelector j) Visible 10000) = Resolves h
     | None => exists e,
         ask t (WaitForSelector page (Quiz.optionSelector j) Visible 10000) = Rejects e
     end) ->
  (forall t j h, (i <= j < i + left)%nat -> shown j = Some h ->
     match flag j with
     | Some a => ask t (GetAttribute h "iscorrectoption") = Resolves a
     | None => exists e, ask t (GetAttribute h "iscorrectoption") = Rejects e
     end) ->
  result (Quiz.collectCorrect left i) s
  = Ok (map Quiz.optionSelector (filter (readTrue shown flag) (seq i left))).
Proof.
  induction left as [|left IH]; intros i s Hpage Hwait Hattr;
    cbn [Quiz.collectCorrect seq]; [reflexivity|].
  pose proof (Hwait (clock s) i ltac:(lia)) as Hi.
  assert (Hrest : forall s', var_page s' = page ->
            result (Quiz.collectCorrect left (S i)) s'
            = Ok (map Quiz.optionSelector (filter (readTrue shown flag) (seq (S i) left)))).
  { intros s' Hs'. apply IH; [exact Hs' | |].
    - intros t j Hj. apply Hwait. lia.
    - intros t j h Hj. apply Hattr. lia. }
  cbn [filter map]. unfold readTrue at 1.
  pose proof (fun h => Hattr (S (clock s)) i h ltac:(lia)) as Hflag.
  unfold result, bind, tryCatch, orElse, tryCatch, bind, getPage, call, ret, log.
  rewrite Hpage.
  destruct (shown i) as [h|].
  - rewrite Hi. cbn [settled fst snd tick clock].
    specialize (Hflag h eq_refl).
    destruct (flag i) as [a|].
    + rewrite Hflag. cbn [settled].
      destruct (Quiz.isTrue a).
      * match goal with
        | |- context [Quiz.collectCorrect left (S i) ?s'] =>
            pose proof (Hrest s' Hpage) as Hr; unfold result in Hr;
            destruct (Quiz.collectCorrect left (S i) s') as [[r s2] ev2]
        end.
        cbn [fst] in Hr. subst r. reflexivity.
      * match goal with
        | |- context [Quiz.collectCorrect left (S i) ?s'] =>
            pose proof (Hrest s' Hpage) as Hr; unfold result in Hr;
            destruct (Quiz.collectCorrect left (S i) s') as [[r s2] ev2]
        end.
        cbn [fst] in Hr. subst r. reflexivity.
    + destruct Hflag as [e He]. rewrite He. cbn [settled].
      match goal with
      | |- context [Quiz.collectCorrect left (S i) ?s'] =>
          pose proof (Hrest s' Hpage) as Hr; unfold result in Hr;
          destruct (Quiz.collectCorrect left (S i) s') as [[r s2] ev2]
      end.
      cbn [fst] in Hr. subst r. reflexivity.
  - destruct Hi as [e He]. rewrite He. cbn [settled].
    match goal with
    | |- context [Quiz.collectCorrect left (S i) ?s'] =>
        pose proof (Hrest s' Hpage) as Hr; unfold result in Hr;
        destruct (Quiz.collectCorrect left (S i) s') as [[r s2] ev2]
    end.
    cbn [fst] in Hr. subst r. reflexivity.
Qed.

End CollectCorrect.

(** X10. When the eight options of a multi-answer question are on the
    page and their [iscorrectoption] attribute can be read, the plain
    Quiz collects exactly the selectors of the options whose attribute
    reads true (in any letter case), in the order of the options. *)
Theorem X10_collects_the_flagged_options `{Env} (page : Page)
        (handle : nat -> Handle) (flag : nat -> option string) (s : State) :
  (forall t j, (j < 8)%nat ->
     ask t (WaitForSelector page (Quiz.optionSelector j) Visible 10000) = Resolves (handle j)) ->
  (forall t j, (j < 8)%nat ->
     ask t (GetAttribute (handle j) "iscorrectoption") = Resolves (flag j)) ->
  result (QuizSimple.collectCorrect page 8 0) s
  = Ok (map Quiz.optionSelector (filter (fun j => Quiz.isTrue (flag j)) (seq 0 8))).
Proof.
  intros Hwait Hattr. apply simple_collectCorrect_exact with (handle := handle).
  - intros t j Hj. apply Hwait. lia.
  - intros t j Hj. apply Hattr. lia.
Qed.

Lemma X10_second_and_fifth_option :
  result (@QuizSimple.collectCorrect Sample.eightOptions 0%nat 8 0) (Sample.start [])
  = Ok ["#rqAnswerOption1"; "#rqAnswerOption4"].
Proof.
  apply (@X10_collects_the_flagged_options Sample.eightOptions 0%nat
           Sample.optionHandle Sample.optionFlag (Sample.start [])).
  - intros t j Hj.
    do 8 (destruct j as [|j]; [reflexivity|]). lia.
  - intros t j Hj.
    do 8 (destruct j as [|j]; [reflexivity|]). lia.
Defined.

(** X11. The collection of the Quiz with the retrying click leaves out
    the options it cannot read and no other: when, among the options it
    goes through, the wait of some times out and the attribute of others
    cannot be read, it still returns, with exactly the selectors of the
    options that showed and whose [iscorrectoption] attribute was read
    as true (in any letter case), in the order of the options. *)
Theorem X11_collection_skips_unreadable_options `{Env}
        (shown : nat -> option Handle) (flag : nat -> option (option string))
        (left i : nat) (s : State) :
  (forall t j, (i <= j < i + left)%nat ->
     match shown j with
     | Some h =>
         ask t (WaitForSelector (var_page s) (Quiz.optionSelector j) Visible 10000) = Resolves h
     | None => exists e,
         ask t (WaitForSelector (var_page s) (Quiz.optionSelector j) Visible 10000) = Rejects e
     end) ->
  (forall t j h, (i <= j < i + left)%nat -> shown j = Some h ->
     match flag j with
     | Some a => ask t (GetAttribute h "iscorrectoption") = Resolves a
     | None => exists e, ask t (GetAttribute h "iscorrectoption") = Rejects e
     end) ->
  result (Quiz.collectCorrect left i) s
  = Ok (map Quiz.optionSelector (filter (readTrue shown flag) (seq i left))).
Proof.
  intros Hwait Hattr.
  apply quiz_collectCorrect_exact with (page := var_page s); [reflexivity | exact Hwait|].
  exact Hattr.
Qed.

(** On [Sample.patchyOptions] the second option, which never shows, and
    the fifth, whose attribute cannot be read, are left out, and the
    seventh is the one collected. *)
Lemma X11_hidden_and_unreadable_options :
  result (@Quiz.collectCorrect Sample.patchyOptions 8 0) (Sample.start [])
  = Ok ["#rqAnswerOption6"].
Proof.
  apply (@X11_collection_skips_unreadable_options Sample.patchyOptions
           Sample.patchyShown Sample.patchyFlag 8 0 (Sample.start [])).
  - intros t j Hj.
    do 8 (destruct j as [|j]; [cbn; eauto|]). lia.
  - intros t j h Hj Hh.
    do 8 (destruct j as [|j]; [cbn in Hh |- *; inversion Hh; subst; cbn; eauto|]). lia.
Defined.

(** ** The clicks of the ABC protocol *)

Section AbcClicks.

Context `{Env}.

Lemma emits_weaken {A} (P Q : Event -> Prop) (m : M A) :
  (forall ev, P ev -> Q ev) -> emits P m -> emits Q m.
Proof. intros Hpq Hm s. eapply Forall_impl; [exact Hpq | apply Hm]. Qed.

Lemma notClick_answerClick dollar ev : notClick ev -> answerClick dollar ev.
Proof. unfold notClick, answerClick. intros -> Hc. discriminate Hc. Qed.

Lemma answerAt_In answers idx a :
  ABC.answerAt answers idx = Some a -> In (Some a) answers /\ a <> EmptyString.
Proof.
  unfold ABC.answerAt. destruct (idx <? 0); [discriminate|].
  destruct (nth_error answers (Z.to_nat idx)) as [[x|]|] eqn:E; try discriminate.
  destruct (Js.truthy x) eqn:Et; [|discriminate].
  intros [= <-]. split; [eapply nth_error_In; exact E|].
  intros ->. discriminate Et.
Qed.

Ltac no_click dollar :=
  apply (@emits_weaken _ notClick (answerClick dollar));
  [ apply notClick_answerClick
  | unfold ABC.reload, ABC.randomSleep, ABC.randomSleepShort; emission ].

Lemma afterWait_answerClick p dollar : emits (answerClick dollar) (ABC.afterWait p dollar).
Proof.
  unfold ABC.afterWait.
  destruct (length (optionIds dollar) =? 0)%nat; [no_click dollar|].
  apply emits_bind; [no_click dollar|]. intros idx.
  destruct (ABC.answerAt (optionIds dollar) idx) as [answer|] eqn:E; [|no_click dollar].
  destruct (answerAt_In _ _ E) as [Hin Hne].
  apply emits_bind; [no_click dollar|]. intros _.
  apply emits_bind; [no_click dollar|]. intros _.
  apply emits_bind.
  { apply emits_call. intros _. exists p. right. exists answer. auto. }
  intros _. apply emits_bind; [no_click dollar|]. intros _.
  apply emits_bind; [no_click dollar|]. intros _.
  apply emits_bind; [no_click dollar|]. intros _.
  apply emits_bind.
  { apply emits_call. intros _. exists p. left. reflexivity. }
  intros _. no_click dollar.
Qed.

Lemma iteration_answerClick dollar : emits (answerClick dollar) (ABC.iteration dollar).
Proof.
  unfold ABC.iteration.
  apply emits_bind; [no_click dollar|]. intros _.
  apply emits_bind; [no_click dollar|]. intros p.
  apply emits_bind; [no_click dollar|]. intros _.
  apply afterWait_answerClick.
Qed.

Ltac hush := apply atMostOf_quiet;
             unfold ABC.reload, ABC.randomSleep, ABC.randomSleepShort, ABC.report,
               ABC.onError, ignoring;
             emission.

Lemma afterWait_clicks p dollar : atMostOf isClick 2 (ABC.afterWait p dollar).
Proof.
  unfold ABC.afterWait.
  destruct (length (optionIds dollar) =? 0)%nat;
    [apply atMostOf_le with (n := O); [hush | lia]|].
  apply atMostOf_bind with (n1 := 0%nat) (n2 := 2%nat); [hush|]. intros idx.
  destruct (ABC.answerAt (optionIds dollar) idx) as [answer|];
    [|apply atMostOf_le with (n := O); [hush | lia]].
  apply atMostOf_bind with (n1 := 0%nat) (n2 := 2%nat); [hush|]. intros _.
  apply atMostOf_bind with (n1 := 0%nat) (n2 := 2%nat); [hush|]. intros _.
  apply atMostOf_bind with (n1 := 1%nat) (n2 := 1%nat); [apply atMostOf_call|]. intros _.
  apply atMostOf_bind with (n1 := 0%nat) (n2 := 1%nat); [hush|]. intros _.
  apply atMostOf_bind with (n1 := 0%nat) (n2 := 1%nat); [hush|]. intros _.
  apply atMostOf_bind with (n1 := 0%nat) (n2 := 1%nat); [hush|]. intros _.
  apply atMostOf_bind with (n1 := 1%nat) (n2 := 0%nat); [apply atMostOf_call|]. intros _.
  hush.
Qed.

Lemma iteration_clicks dollar : atMostOf isClick 2 (ABC.iteration dollar).
Proof.
  unfold ABC.iteration.
  apply atMostOf_bind with (n1 := 0%nat) (n2 := 2%nat); [hush|]. intros _.
  apply atMostOf_bind with (n1 := 0%nat) (n2 := 2%nat); [hush|]. intros p.
  apply atMostOf_bind with (n1 := 0%nat) (n2 := 2%nat); [hush|]. intros _.
  apply afterWait_clicks.
Qed.

Lemma loop_clicks left : forall i dollar, atMostOf isClick (2 * left) (ABC.loop left i dollar).
Proof.
  induction left as [|left IH]; intros i dollar; cbn [ABC.loop].
  - apply atMostOf_ret.
  - destruct (negb (rw_icon dollar =? 0)%nat); [apply atMostOf_ret|].
    replace (2 * S left)%nat with (2 + 2 * left)%nat by lia.
    apply atMostOf_bind; [apply iteration_clicks | intros d; apply IH].
Qed.

Lemma doABC_clicks page : atMostOf isClick 30 (ABC.doABC page).
Proof.
  unfold ABC.doABC.
  apply atMostOf_bind with (n1 := 0%nat) (n2 := 30%nat); [hush|]. intros _.
  apply atMostOf_bind with (n1 := 0%nat) (n2 := 30%nat); [hush|]. intros _.
  apply atMostOf_tryCatch with (n1 := 30%nat) (n2 := 0%nat); [|intros e; hush].
  unfold ABC.solve.
  apply atMostOf_bind with (n1 := 0%nat) (n2 := 30%nat); [hush|]. intros dollar.
  apply atMostOf_bind with (n1 := 30%nat) (n2 := 0%nat); [|intros i; hush].
  apply (loop_clicks 15).
Qed.

End AbcClicks.

(** X12. In a pass of the ABC loop every click is on the next button or
    on an option whose (non-empty) id the snapshot of the pass holds,
    and a pass clicks at most twice; a run of the protocol issues at
    most thirty clicks. *)
Theorem X12_abc_clicks_what_the_snapshot_holds `{Env} (page : Page) (dollar : Cheerio)
        (s : State) :
  Forall (answerClick dollar) (events (ABC.iteration dollar) s) /\
  (countOf isClick (events (ABC.iteration dollar) s) <= 2)%nat /\
  (countOf isClick (events (ABC.doABC page) s) <= 30)%nat.
Proof.
  repeat split.
  - apply iteration_answerClick.
  - apply iteration_clicks.
  - apply doABC_clicks.
Qed.

(** ** The normalised titles of SearchOnBing *)

Section Normalised.

Lemma keep_In f s c :
  In c (list_ascii_of_string (SearchOnBing.keep f s)) ->
  f c = true /\ In c (list_ascii_of_string s).
Proof.
  induction s as [|c0 rest IH]; cbn [SearchOnBing.keep list_ascii_of_string]; [intros []|].
  destruct (f c0) eqn:E; cbn [list_ascii_of_string].
  - intros [<-|Hin]; [split; [exact E | left; reflexivity]|].
    destruct (IH Hin). split; [assumption | right; assumption].
  - intros Hin. destruct (IH Hin). split; [assumption | right; assumption].
Qed.

Lemma lowerChar_not_upper c : isUpper (Js.lowerChar c) = false.
Proof.
  unfold Js.lowerChar, isUpper.
  destruct ((65 <=? nat_of_ascii c)%nat && (nat_of_ascii c <=? 90)%nat) eqn:E; [|exact E].
  apply andb_prop in E. destruct E as [E1 E2].
  apply Nat.leb_le in E1. apply Nat.leb_le in E2.
  rewrite nat_ascii_embedding by lia.
  apply andb_false_intro2. apply Nat.leb_gt. lia.
Qed.

Lemma toLowerCase_In s c :
  In c (list_ascii_of_string (Js.toLowerCase s)) -> isUpper c = false.
Proof.
  induction s as [|c0 rest IH]; cbn [Js.toLowerCase list_ascii_of_string]; [intros []|].
  intros [<-|Hin]; [apply lowerChar_not_upper | apply IH; exact Hin].
Qed.

End Normalised.

(** X13. A normalised title holds only printable ASCII characters, none
    of which is a capital letter, a question mark or an exclamation
    mark, whatever the title was. *)
Theorem X13_normalised_titles_are_plain `{Env} (title : string) (c : ascii) :
  In c (list_ascii_of_string (SearchOnBing.normalizeString title)) ->
  (32 <= nat_of_ascii c <= 126)%nat /\
  isUpper c = false /\
  c <> "?"%char /\ c <> "!"%char.
Proof.
  unfold SearchOnBing.normalizeString. intros Hin.
  apply keep_In in Hin. destruct Hin as [Hmark Hin].
  apply keep_In in Hin. destruct Hin as [Hprint Hin].
  apply toLowerCase_In in Hin.
  unfold SearchOnBing.printable in Hprint. apply andb_prop in Hprint.
  destruct Hprint as [H1 H2]. apply Nat.leb_le in H1. apply Nat.leb_le in H2.
  unfold SearchOnBing.notMark in Hmark. apply negb_true_iff in Hmark.
  apply orb_false_elim in Hmark. destruct Hmark as [Hq He].
  apply Ascii.eqb_neq in Hq. apply Ascii.eqb_neq in He.
  repeat split; assumption.
Qed.

Lemma X13_on_a_sample_title :
  (32 <= nat_of_ascii "w" <= 126)%nat /\
  isUpper "w" = false /\ "w"%char <> "?"%char /\ "w"%char <> "!"%char.
Proof.
  apply (@X13_normalised_titles_are_plain Sample.calm "  What is Rust?! " "w"%char).
  vm_compute. auto.
Defined.

(** ** The order of the selector candidates *)

Section CandidateOrder.

Context `{Env}.

Lemma uniqueFrom_In l : forall seen x,
  In x l -> ~ In x seen -> In x (Js.uniqueFrom seen l).
Proof.
  induction l as [|y rest IH]; intros seen x Hin Hseen; [destruct Hin|].
  cbn [Js.uniqueFrom]. destruct (Js.mem y seen) eqn:E.
  - apply mem_In in E. destruct Hin as [->|Hin]; [contradiction | apply IH; assumption].
  - apply mem_false in E. destruct (string_dec x y) as [->|Hne]; [left; reflexivity|].
    right. destruct Hin as [->|Hin]; [contradiction|].
    apply IH; [exact Hin|]. intros [->|Hs]; [contradiction | exact (Hseen Hs)].
Qed.

Lemma unique_In l x : In x l -> In x (Js.unique l).
Proof. intros Hin. apply uniqueFrom_In; [exact Hin | intros []]. Qed.

Lemma pushNew_prefix h : forall c, exists extra, Workers.pushNew c h = c ++ extra.
Proof.
  induction h as [|x rest IH]; intros c; cbn [Workers.pushNew].
  - exists []. symmetry. apply app_nil_r.
  - destruct (Js.mem x c); [apply IH|].
    destruct (IH (c ++ [x])) as [extra ->]. exists (x :: extra).
    rewrite <- app_assoc. reflexivity.
Qed.

Lemma buildSelectors_shape page activity punchCard :
  returns (fun l => exists extra,
             l = Js.unique ((Workers.fromOfferId activity ++ Workers.fromName activity)
                            ++ extra ++ [pointLinkScoped; pointLinkAny]))
          (Workers.buildSelectorsForActivity page activity punchCard).
Proof.
  unfold Workers.buildSelectorsForActivity.
  apply returns_bind with (Q1 := anything); [apply returns_mark|]. intros _ _.
  apply returns_bind with
    (Q1 := fun c => exists extra,
                      c = (Workers.fromOfferId activity ++ Workers.fromName activity) ++ extra).
  - apply returns_tryCatch.
    + apply may_bind with (Q1 := anything); [exact (may_call (EvalPointLinks page))|].
      intros links _. apply may_ret. apply pushNew_prefix.
    + intros e. apply returns_ret. exists []. symmetry. apply app_nil_r.
  - intros c [extra ->]. apply returns_ret. exists extra.
    rewrite <- app_assoc. reflexivity.
Qed.

End CandidateOrder.

(** X14. The builder puts the selector scoped by the offer id first
    when the activity has an offer id, and drops none of the selectors
    it derives from the offer id and the name: each of them is in the
    list it resolves with. *)
Theorem X14_offer_id_selector_comes_first `{Env} (page : Page) (activity : Activity)
        (punchCard : option PunchCard) (s : State) :
  exists l,
    result (Workers.buildSelectorsForActivity page activity punchCard) s = Ok l /\
    (offerId activity <> EmptyString ->
     exists rest, l = Workers.scopedBy "^=" (offerId activity) :: rest) /\
    (forall x, In x (Workers.fromOfferId activity ++ Workers.fromName activity) -> In x l).
Proof.
  pose proof (buildSelectors_shape page activity punchCard s) as Hr.
  destruct (result (Workers.buildSelectorsForActivity page activity punchCard) s)
    as [l|e|]; [|contradiction|contradiction].
  destruct Hr as [extra ->]. eexists. split; [reflexivity|]. split.
  - intros Hne. unfold Workers.fromOfferId.
    assert (Ht : Js.truthy (offerId activity) = true).
    { unfold Js.truthy. apply negb_true_iff. apply String.eqb_neq. exact Hne. }
    rewrite Ht. unfold Js.unique. cbn [app Js.uniqueFrom Js.mem existsb]. eexists. reflexivity.
  - intros x Hx. apply unique_In. apply in_or_app. left. exact Hx.
Qed.

(** ** The way home *)

Section HomeFacts.

Context `{Env}.
Variable urlOf : string -> BrowserNav.Parsed.

Ltac shh := apply atMostOf_quiet; unfold orElse, BrowserFunc.quietDelay; emission.

Lemma homeLoop_gotos left : forall page d,
  atMostOf isGoto left (BrowserNav.homeLoop urlOf left page d).
Proof.
  induction left as [|left IH]; intros page d; cbn [BrowserNav.homeLoop].
  - apply atMostOf_ret.
  - apply atMostOf_bind with (n1 := 0%nat) (n2 := S left); [shh|]. intros _.
    apply atMostOf_bind with (n1 := 0%nat) (n2 := S left); [shh|]. intros _.
    apply atMostOf_bind with (n1 := 0%nat) (n2 := S left); [shh|]. intros [|].
    { apply atMostOf_le with (n := O); [shh | lia]. }
    apply atMostOf_bind with (n1 := 0%nat) (n2 := S left); [shh|]. intros [|].
    { apply atMostOf_ret. }
    apply atMostOf_bind with (n1 := 0%nat) (n2 := S left); [shh|]. intros here.
    destruct (urlOf here) as [currentURL|e]; [|apply atMostOf_le with (n := O); [shh | lia]].
    destruct (negb _); [|apply atMostOf_le with (n := O); [shh | lia]].
    apply atMostOf_bind with (n1 := 0%nat) (n2 := S left); [shh|]. intros _.
    apply atMostOf_bind with (n1 := 0%nat) (n2 := S left); [shh|]. intros _.
    apply atMostOf_bind with (n1 := 1%nat) (n2 := left); [apply atMostOf_call|]. intros _.
    apply atMostOf_bind with (n1 := 0%nat) (n2 := left); [shh|]. intros _.
    apply atMostOf_bind with (n1 := 0%nat) (n2 := left); [shh|]. intros _.
    apply IH.
Qed.

Lemma homeLoop_passes left : forall page d,
  atMostOf isSuspensionCheck left (BrowserNav.homeLoop urlOf left page d).
Proof.
  induction left as [|left IH]; intros page d; cbn [BrowserNav.homeLoop].
  - apply atMostOf_ret.
  - apply atMostOf_bind with (n1 := 0%nat) (n2 := S left); [shh|]. intros _.
    apply atMostOf_bind with (n1 := 0%nat) (n2 := S left); [shh|]. intros _.
    apply atMostOf_bind with (n1 := 1%nat) (n2 := left).
    { apply atMostOf_orElse.
      apply atMostOf_bind with (n1 := 1%nat) (n2 := 0%nat);
        [apply atMostOf_call | intros; apply atMostOf_ret]. }
    intros [|].
    { apply atMostOf_le with (n := O); [shh | lia]. }
    apply atMostOf_bind with (n1 := 0%nat) (n2 := left); [shh|]. intros [|].
    { apply atMostOf_ret. }
    apply atMostOf_bind with (n1 := 0%nat) (n2 := left); [shh|]. intros here.
    destruct (urlOf here) as [currentURL|e]; [|apply atMostOf_le with (n := O); [shh | lia]].
    destruct (negb _); [|apply atMostOf_le with (n := O); [shh | lia]].
    apply atMostOf_bind with (n1 := 0%nat) (n2 := left); [shh|]. intros _.
    apply atMostOf_bind with (n1 := 0%nat) (n2 := left); [shh|]. intros _.
    apply atMostOf_bind with (n1 := 0%nat) (n2 := left); [shh|]. intros _.
    apply atMostOf_bind with (n1 := 0%nat) (n2 := left); [shh|]. intros _.
    apply atMostOf_bind with (n1 := 0%nat) (n2 := left); [shh|]. intros _.
    apply IH.
Qed.

Lemma goHome_gotos page : atMostOf isGoto 6 (BrowserNav.goHome urlOf page).
Proof.
  unfold BrowserNav.goHome.
  apply atMostOf_tryCatch with (n1 := 6%nat) (n2 := 0%nat);
    [|intros e; unfold BrowserNav.onError; shh].
  unfold BrowserNav.visit.
  destruct (urlOf (baseURL config)) as [d|e]; [|apply atMostOf_le with (n := O); [shh | lia]].
  apply atMostOf_bind with (n1 := 0%nat) (n2 := 6%nat); [shh|]. intros here.
  destruct (here =? BrowserNav.href d)%string; [apply atMostOf_ret|].
  apply atMostOf_bind with (n1 := 1%nat) (n2 := 5%nat); [apply atMostOf_call|]. intros _.
  apply atMostOf_bind with (n1 := 0%nat) (n2 := 5%nat); [shh|]. intros _.
  apply (homeLoop_gotos 5).
Qed.

Lemma goHome_passes page : atMostOf isSuspensionCheck 5 (BrowserNav.goHome urlOf page).
Proof.
  unfold BrowserNav.goHome.
  apply atMostOf_tryCatch with (n1 := 5%nat) (n2 := 0%nat);
    [|intros e; unfold BrowserNav.onError; shh].
  unfold BrowserNav.visit.
  destruct (urlOf (baseURL config)) as [d|e]; [|apply atMostOf_le with (n := O); [shh | lia]].
  apply atMostOf_bind with (n1 := 0%nat) (n2 := 5%nat); [shh|]. intros here.
  destruct (here =? BrowserNav.href d)%string; [apply atMostOf_ret|].
  apply atMostOf_bind with (n1 := 0%nat) (n2 := 5%nat); [shh|]. intros _.
  apply atMostOf_bind with (n1 := 0%nat) (n2 := 5%nat); [shh|]. intros _.
  apply (homeLoop_passes 5).
Qed.

Lemma homeLoop_may left : forall page d, may anything (BrowserNav.homeLoop urlOf left page d).
Proof.
  induction left as [|left IH]; intros page d; cbn [BrowserNav.homeLoop]; [settle|].
  unfold BrowserFunc.quietDelay. settle.
Qed.

Lemma visit_may page : may anything (BrowserNav.visit urlOf page).
Proof.
  unfold BrowserNav.visit, BrowserFunc.quietDelay.
  destruct (urlOf (baseURL config)); settle; apply homeLoop_may.
Qed.

(** Whatever the body did, what comes out is a value or the wrapped
    error, which has been logged. *)
Lemma goHome_wrapped page s :
  wrapped (result (BrowserNav.goHome urlOf page) s) (events (BrowserNav.goHome urlOf page) s).
Proof.
  unfold BrowserNav.goHome.
  pose proof (visit_may page s) as Hm.
  unfold result, events, tryCatch in *.
  destruct (BrowserNav.visit urlOf page s) as [[[a|e|] s1] ev1]; cbn [fst snd] in *;
    [exact Logic.I | | contradiction].
  unfold BrowserNav.onError, bind, log, throw. cbn [fst snd wrapped].
  exists e. split; [reflexivity|]. apply in_or_app. right. left. reflexivity.
Qed.

Lemma result_tryCatch {A} (body : M A) handler (s : State) :
  result (tryCatch body handler) s =
  match result body s with
  | Throw e => result (handler e) (final body s)
  | r => r
  end.
Proof.
  unfold result, final, tryCatch.
  destruct (body s) as [[[a|e|] s1] ev1]; cbn [fst snd]; try reflexivity.
  destruct (handler e s1) as [[r2 s2] ev2]. reflexivity.
Qed.

Lemma result_url {B} p (f : string -> M B) (s : State) :
  result (bind (url p) f) s = result (f (pageUrl (clock s) p)) (tick s).
Proof. rewrite result_bind. reflexivity. Qed.

(** A pass that finds the header of a suspended account throws. *)
Lemma homeLoop_suspended left page d s :
  (forall t, ask t (TryDismissAllMessages page) = Resolves tt) ->
  (forall t, exists h,
      ask t (WaitForSelector page "#suspendedAccountHeader" Visible 2000) = Resolves h) ->
  result (BrowserNav.homeLoop urlOf (S left) page d) s = Throw BrowserNav.suspendedError.
Proof.
  intros Hdismiss Hheader. cbn [BrowserNav.homeLoop].
  rewrite result_wait, result_call, Hdismiss, result_bind.
  assert (Hs : result (orElse (call (WaitForSelector page "#suspendedAccountHeader"
                                                    Visible 2000) ;; ret true) false)
                      (tick s) = Ok true).
  { unfold orElse, result, tryCatch, bind, call, ret. cbn [fst snd].
    destruct (Hheader (clock (tick s))) as [h ->]. reflexivity. }
  rewrite Hs. rewrite result_log. reflexivity.
Qed.

End HomeFacts.

(** X15. A run of [goHome] navigates at most six times (once, then at
    most once in each of at most five passes of its loop), and it ends
    with a value or with an Error that wraps the one caught, which it
    has logged first: no other error comes out of it. *)
Theorem X15_goHome_is_bounded_and_wraps_errors `{Env} (urlOf : string -> BrowserNav.Parsed)
        (page : Page) (s : State) :
  (countOf isGoto (events (BrowserNav.goHome urlOf page) s) <= 6)%nat /\
  (countOf isSuspensionCheck (events (BrowserNav.goHome urlOf page) s) <= 5)%nat /\
  wrapped (result (BrowserNav.goHome urlOf page) s) (events (BrowserNav.goHome urlOf page) s).
Proof.
  repeat split.
  - apply goHome_gotos.
  - apply goHome_passes.
  - apply goHome_wrapped.
Qed.

(** X16. [goHome] on a page that is already at the dashboard address
    returns at once, with no call on the page; on a page that is
    elsewhere and shows the header of a suspended account (the
    navigation and the dismissal of messages resolving), it throws the
    wrapped suspension error; when the configured address is no URL, it
    throws the wrapped parse error with no call on the page. *)
Theorem X16_goHome_edge_cases `{Env} (urlOf : string -> BrowserNav.Parsed)
        (page : Page) (s : State) :
  (forall d, urlOf (baseURL config) = BrowserNav.Valid d ->
             pageUrl (clock s) page = BrowserNav.href d ->
             BrowserNav.goHome urlOf page s = (Ok tt, tick s, [])) /\
  (forall d, urlOf (baseURL config) = BrowserNav.Valid d ->
             pageUrl (clock s) page <> BrowserNav.href d ->
             (forall t, ask t (Goto page (baseURL config)) = Resolves tt) ->
             (forall t, ask t (TryDismissAllMessages page) = Resolves tt) ->
             (forall t, exists h,
                 ask t (WaitForSelector page "#suspendedAccountHeader" Visible 2000)
                 = Resolves h) ->
             result (BrowserNav.goHome urlOf page) s
             = Throw ("Error: GO-HOME error: " +++ BrowserNav.suspendedError)) /\
  (forall e, urlOf (baseURL config) = BrowserNav.Invalid e ->
             BrowserNav.goHome urlOf page s
             = (Throw ("Error: GO-HOME error: " +++ e), s,
                [Logged "GO-HOME" ("An error occurred:" +++ e) LError])).
Proof.
  repeat split.
  - intros d Hd Hurl. unfold BrowserNav.goHome, BrowserNav.visit, tryCatch, bind, url.
    rewrite Hd. cbn [fst snd]. rewrite Hurl, String.eqb_refl. reflexivity.
  - intros d Hd Hurl Hgoto Hdismiss Hheader.
    apply String.eqb_neq in Hurl.
    assert (Hv : result (BrowserNav.visit urlOf page) s = Throw BrowserNav.suspendedError).
    { unfold BrowserNav.visit, BrowserFunc.quietDelay. rewrite Hd.
      rewrite result_url, Hurl, result_call, Hgoto, result_bind.
      change (result (ms <- random 30000 45000 ;; wait ms) (tick (tick s))) with (@Ok unit tt).
      cbv iota. apply homeLoop_suspended; assumption. }
    unfold BrowserNav.goHome. rewrite result_tryCatch, Hv.
    unfold BrowserNav.onError. rewrite result_log. reflexivity.
  - intros e He.
    unfold BrowserNav.goHome, BrowserNav.visit, BrowserNav.onError, tryCatch, bind, throw, log.
    rewrite He. reflexivity.
Qed.

Lemma X16_goHome_on_sample_pages :
  @BrowserNav.goHome Sample.calm Sample.urlOf 0%nat (Sample.start [])
  = (Ok tt, tick (Sample.start []), []) /\
  result (@BrowserNav.goHome Sample.suspendedEnv Sample.urlOf 0%nat) (Sample.start [])
  = Throw ("Error: GO-HOME error: " +++ BrowserNav.suspendedError).
Proof.
  split.
  - apply (proj1 (@X16_goHome_edge_cases Sample.calm Sample.urlOf 0%nat (Sample.start [])))
      with (d := BrowserNav.mkUrl "https://rewards.bing.com/" "rewards.bing.com");
      reflexivity.
  - apply (proj1 (proj2 (@X16_goHome_edge_cases Sample.suspendedEnv Sample.urlOf 0%nat
                           (Sample.start []))))
      with (d := BrowserNav.mkUrl "https://rewards.bing.com/" "rewards.bing.com").
    + reflexivity.
    + discriminate.
    + intros t. reflexivity.
    + intros t. reflexivity.
    + intros t. exists 0%nat. reflexivity.
Defined.

(** ** The shuffle of the accounts *)

Section Shuffle.

Variable T : Type.

Lemma nth_error_set (arr : Index.JsArray T) : forall k i v,
  (i < length arr)%nat ->
  nth_error (Index.set arr i v) k = if (k =? i)%nat then Some v else nth_error arr k.
Proof.
  induction arr as [|x rest IH]; intros k i v Hi; [cbn in Hi; lia|].
  destruct i as [|i]; cbn [Index.set].
  - destruct k as [|k]; reflexivity.
  - destruct k as [|k]; [reflexivity|]. cbn [nth_error Nat.eqb].
    apply IH. cbn in Hi; lia.
Qed.

Lemma length_set (arr : Index.JsArray T) : forall i v,
  (i < length arr)%nat -> length (Index.set arr i v) = length arr.
Proof.
  induction arr as [|x rest IH]; intros i v Hi; [cbn in Hi; lia|].
  destruct i as [|i]; cbn [Index.set length]; [reflexivity|].
  rewrite IH; [reflexivity | cbn in Hi; lia].
Qed.

(** A swap of two places of the array rearranges it. *)
Lemma swapStep_permutation pick i (arr : Index.JsArray T) :
  (i < length arr)%nat -> (pick i < length arr)%nat ->
  Permutation (Index.swapStep pick i arr) arr /\
  length (Index.swapStep pick i arr) = length arr.
Proof.
  intros Hi Hj. unfold Index.swapStep, Index.get.
  set (j := pick i) in *.
  assert (Hlen : length (Index.set (Index.set arr i (nth j arr None)) j (nth i arr None))
                 = length arr).
  { rewrite length_set; rewrite length_set; auto. }
  split; [|exact Hlen].
  apply Permutation_sym.
  apply (proj2 (Permutation_nth_error arr _)).
  split; [symmetry; exact Hlen|].
  exists (fun k => if (k =? j)%nat then i else if (k =? i)%nat then j else k).
  split.
  - intros x y.
    destruct (Nat.eqb_spec x j); destruct (Nat.eqb_spec y j);
      destruct (Nat.eqb_spec x i); destruct (Nat.eqb_spec y i); lia.
  - intros k. rewrite nth_error_set by (rewrite length_set; assumption).
    rewrite nth_error_set by assumption.
    destruct (Nat.eqb_spec k j).
    + symmetry. apply nth_error_nth'. exact Hi.
    + destruct (Nat.eqb_spec k i); [|reflexivity].
      symmetry. apply nth_error_nth'. exact Hj.
Qed.

Lemma shuffleFrom_permutation pick : forall i (arr : Index.JsArray T),
  (forall k, pick k <= k)%nat -> (i < length arr)%nat ->
  Permutation (Index.shuffleFrom pick i arr) arr /\
  length (Index.shuffleFrom pick i arr) = length arr.
Proof.
  induction i as [|i IH]; intros arr Hpick Hi; cbn [Index.shuffleFrom].
  - split; [apply Permutation_refl | reflexivity].
  - assert (Hj : (pick (S i) < length arr)%nat) by (specialize (Hpick (S i)); lia).
    destruct (@swapStep_permutation pick (S i) arr Hi Hj) as [Hp Hl].
    destruct (IH (Index.swapStep pick (S i) arr) Hpick) as [Hp' Hl']; [lia|].
    split; [eapply Permutation_trans; eassumption | lia].
Qed.

End Shuffle.

(** X17. Provided each draw [Math.floor(Math.random() * (i + 1))] is at
    most [i], [shuffleArray] returns a rearrangement of the array it was
    given: the same elements, each as many times, and the same
    length. *)
Theorem X17_shuffle_rearranges (T : Type) (pick : nat -> nat) (arr : Index.JsArray T) :
  (forall i, pick i <= i)%nat ->
  Permutation (Index.shuffleArray pick arr) arr /\
  length (Index.shuffleArray pick arr) = length arr.
Proof.
  intros Hpick. unfold Index.shuffleArray.
  destruct arr as [|x rest]; [split; [apply Permutation_refl | reflexivity]|].
  apply shuffleFrom_permutation; [exact Hpick | cbn [length]; lia].
Qed.

Lemma X17_shuffle_of_three_accounts :
  Permutation (Index.shuffleArray (fun i => (i - 1)%nat) [Some "a"; Some "b"; Some "c"])
              [Some "a"; Some "b"; Some "c"] /\
  length (Index.shuffleArray (fun i => (i - 1)%nat) [Some "a"; Some "b"; Some "c"]) = 3%nat.
Proof.
  apply (@X17_shuffle_rearranges string (fun i => (i - 1)%nat)
           [Some "a"; Some "b"; Some "c"]).
  intros i. lia.
Defined.

(** X18. Provided each draw [Math.floor(Math.random() * n)] lies in
    [0, n - 1], [randomInt(min, max)] lies between the smaller and the
    larger of its two arguments, in whichever order they are given. *)
Theorem X18_randomInt_within_bounds (draw : Z -> Z) (min max : Z) :
  (forall n, 0 < n -> 0 <= draw n < n) ->
  Z.min min max <= Index.randomInt draw min max <= Z.max min max.
Proof.
  intros Hdraw. unfold Index.randomInt.
  destruct (min >? max) eqn:Hgt.
  - assert (max < min) by (apply Z.gtb_lt in Hgt; lia).
    specialize (Hdraw (min - max + 1)). lia.
  - assert (min <= max) by (rewrite Z.gtb_ltb in Hgt; apply Z.ltb_ge in Hgt; lia).
    specialize (Hdraw (max - min + 1)). lia.
Qed.

Lemma X18_randomInt_on_swapped_bounds :
  Z.min 9 4 <= Index.randomInt (fun n => n - 1) 9 4 <= Z.max 9 4.
Proof.
  apply (@X18_randomInt_within_bounds (fun n => n - 1) 9 4).
  intros n Hn. lia.
Defined.

(** ** The daily check-in *)

Section CheckIn.

Variable w : DailyCheckIn.World.
Variable claim : DailyCheckIn.ClaimRequest.

Lemma prefix_nil s : String.prefix "" s = true.
Proof. destruct s; reflexivity. Qed.

Lemma prefix_append a b : String.prefix a (a +++ b) = true.
Proof.
  induction a as [|c a IH]; [apply prefix_nil|].
  cbn. destruct (ascii_dec c c); [exact IH | congruence].
Qed.

Lemma tally_cons p d ds :
  tally p (d :: ds) = ((if p d then 1 else 0) + tally p ds)%nat.
Proof. unfold tally. cbn [filter]. destruct (p d); reflexivity. Qed.

Lemma tally_app p ds1 ds2 : tally p (ds1 ++ ds2) = (tally p ds1 + tally p ds2)%nat.
Proof. unfold tally. rewrite filter_app, length_app. reflexivity. Qed.

Lemma claimLoop_exhausted fuel a le t :
  (DailyCheckIn.maxRetries w) <= a ->
  DailyCheckIn.claimLoop w (S fuel) claim a le t =
  (Ok tt, t,
   [DailyCheckIn.Said ("Failed to claim after " +++ Js.showZ (DailyCheckIn.maxRetries w) +++ " attempts: "
                       +++ DailyCheckIn.shown le) LError]).
Proof.
  intros Ha. cbn [DailyCheckIn.claimLoop].
  rewrite (proj2 (Z.ltb_ge a (DailyCheckIn.maxRetries w)) Ha). reflexivity.
Qed.

Lemma claimLoop_claimed fuel a le t p :
  a < (DailyCheckIn.maxRetries w) ->
  DailyCheckIn.axiosRequest w t claim = Resolves p ->
  DailyCheckIn.claimLoop w (S fuel) claim a le t =
  (Ok tt, S t,
   [DailyCheckIn.Said ("Attempt " +++ Js.showZ (a + 1) +++ " to claim daily check-in") LLog;
    DailyCheckIn.Requested claim;
    DailyCheckIn.Said (if p >? 0 then "Claimed " +++ Js.showZ p +++ " points"
                       else DailyCheckIn.alreadyClaimed) LLog]).
Proof.
  intros Ha Hreq. cbn [DailyCheckIn.claimLoop].
  rewrite (proj2 (Z.ltb_lt a (DailyCheckIn.maxRetries w)) Ha).
  unfold Task.andThen, Task.catching, DailyCheckIn.attemptClaim,
    Task.andThen, DailyCheckIn.say, DailyCheckIn.request, Task.pure.
  rewrite Hreq. cbn [settled].
  destruct (p >? 0); reflexivity.
Qed.

Lemma claimLoop_retry fuel a le t e :
  a + 1 < (DailyCheckIn.maxRetries w) ->
  DailyCheckIn.axiosRequest w t claim = Rejects e ->
  let waitMs := (DailyCheckIn.baseBackoff w) * 2 ^ a + DailyCheckIn.utilsRandomNumber w (S t) 0 ((DailyCheckIn.baseBackoff w) * 2 ^ a) in
  let rest := DailyCheckIn.claimLoop w fuel claim (a + 1) (Some e) (S (S t)) in
  DailyCheckIn.claimLoop w (S fuel) claim a le t =
  (fst (fst rest), snd (fst rest),
   [DailyCheckIn.Said ("Attempt " +++ Js.showZ (a + 1) +++ " to claim daily check-in") LLog;
    DailyCheckIn.Requested claim;
    DailyCheckIn.Said ("Claim attempt " +++ Js.showZ (a + 1) +++ " failed: " +++ e) LWarn;
    DailyCheckIn.Said ("Waiting " +++ Js.showZ waitMs +++ "ms before retry "
                       +++ Js.showZ (a + 1 + 1)) LLog;
    DailyCheckIn.Slept waitMs] ++ snd rest).
Proof.
  intros Ha Hreq waitMs rest. cbn [DailyCheckIn.claimLoop].
  assert (Ha' : a < (DailyCheckIn.maxRetries w)) by lia.
  rewrite (proj2 (Z.ltb_lt a (DailyCheckIn.maxRetries w)) Ha').
  unfold Task.andThen, Task.catching, DailyCheckIn.attemptClaim,
    DailyCheckIn.attemptFailed, Task.andThen, DailyCheckIn.say,
    DailyCheckIn.request, DailyCheckIn.randomNumber, DailyCheckIn.sleep, Task.pure.
  rewrite Hreq. cbn [settled].
  rewrite (proj2 (Z.ltb_lt (a + 1) (DailyCheckIn.maxRetries w)) Ha).
  replace (a + 1 - 1) with a by lia.
  fold rest. destruct rest as [[r t'] ds]. reflexivity.
Qed.

Lemma claimLoop_last fuel a le t e :
  a < (DailyCheckIn.maxRetries w) -> (DailyCheckIn.maxRetries w) <= a + 1 ->
  DailyCheckIn.axiosRequest w t claim = Rejects e ->
  let rest := DailyCheckIn.claimLoop w fuel claim (a + 1) (Some e) (S t) in
  DailyCheckIn.claimLoop w (S fuel) claim a le t =
  (fst (fst rest), snd (fst rest),
   [DailyCheckIn.Said ("Attempt " +++ Js.showZ (a + 1) +++ " to claim daily check-in") LLog;
    DailyCheckIn.Requested claim;
    DailyCheckIn.Said ("Claim attempt " +++ Js.showZ (a + 1) +++ " failed: " +++ e) LWarn]
   ++ snd rest).
Proof.
  intros Ha Hn Hreq rest. cbn [DailyCheckIn.claimLoop].
  rewrite (proj2 (Z.ltb_lt a (DailyCheckIn.maxRetries w)) Ha).
  unfold Task.andThen, Task.catching, DailyCheckIn.attemptClaim,
    DailyCheckIn.attemptFailed, Task.andThen, DailyCheckIn.say,
    DailyCheckIn.request, Task.pure.
  rewrite Hreq. cbn [settled].
  rewrite (proj2 (Z.ltb_ge (a + 1) (DailyCheckIn.maxRetries w)) Hn).
  fold rest. destruct rest as [[r t'] ds]. reflexivity.
Qed.

Lemma claimLoop_facts : forall fuel a le t,
  0 <= a -> (Z.to_nat ((DailyCheckIn.maxRetries w) - a) < fuel)%nat ->
  let run := DailyCheckIn.claimLoop w fuel claim a le t in
  fst (fst run) = Ok tt /\
  Forall (eq claim) (requestsOf (snd run)) /\
  (length (requestsOf (snd run)) <= Z.to_nat ((DailyCheckIn.maxRetries w) - a))%nat /\
  (a < (DailyCheckIn.maxRetries w) -> (1 <= length (requestsOf (snd run)))%nat) /\
  length (sleepsOf (snd run)) = (length (requestsOf (snd run)) - 1)%nat /\
  backoffsFrom w a (sleepsOf (snd run)) /\
  outcomeOf (snd run) (length (requestsOf (snd run))) (Z.to_nat ((DailyCheckIn.maxRetries w) - a)).
Proof.
  induction fuel as [|fuel IH]; intros a le t Ha Hfuel; [lia|].
  destruct (Z.lt_ge_cases a (DailyCheckIn.maxRetries w)) as [Hlt | Hge].
  - destruct (DailyCheckIn.axiosRequest w t claim) as [p | e] eqn:Hreq.
    + rewrite (@claimLoop_claimed fuel a le t p Hlt Hreq).
      cbn [fst snd requestsOf sleepsOf flat_map app length].
      repeat split; try (cbn; lia); try (repeat constructor).
      exists [DailyCheckIn.Said ("Attempt " +++ Js.showZ (a + 1) +++ " to claim daily check-in") LLog;
              DailyCheckIn.Requested claim].
      eexists. split; [reflexivity|].
      split; [reflexivity|]. split; [reflexivity|].
      left. destruct (p >? 0); repeat split; cbn; rewrite ?prefix_nil; reflexivity.
    + destruct (Z.lt_ge_cases (a + 1) (DailyCheckIn.maxRetries w)) as [Hlt' | Hge'].
      * rewrite (@claimLoop_retry fuel a le t e Hlt' Hreq).
        destruct (IH (a + 1) (Some e) (S (S t))) as (Hr & Hall & Hle & Hone & Hsl & Hbo & Hout);
          [lia | lia |].
        specialize (Hone Hlt').
        cbn [fst snd requestsOf sleepsOf flat_map app length].
        fold (requestsOf (snd (DailyCheckIn.claimLoop w fuel claim (a + 1) (Some e) (S (S t))))).
        fold (sleepsOf (snd (DailyCheckIn.claimLoop w fuel claim (a + 1) (Some e) (S (S t))))).
        repeat split.
        -- exact Hr.
        -- constructor; [reflexivity | exact Hall].
        -- lia.
        -- lia.
        -- lia.
        -- exists (S t). reflexivity.
        -- exact Hbo.
        -- destruct Hout as (ds0 & last & Hds & Hc & Hg & Hcase).
           eexists (_ :: _ :: _ :: _ :: _ :: ds0), last.
           split; [rewrite Hds; reflexivity|].
           split; [exact Hc|]. split; [exact Hg|].
           destruct Hcase as [(H1 & H2 & H3) | (H1 & H2 & H3 & H4)].
           ++ left. repeat split; try assumption.
              rewrite !tally_cons; cbn [attemptLost]; rewrite ?prefix_append; lia.
           ++ right. repeat split; try assumption.
              ** rewrite !tally_cons; cbn [attemptLost]; rewrite ?prefix_append; lia.
              ** lia.
      * rewrite (@claimLoop_last fuel a le t e Hlt Hge' Hreq).
        destruct (IH (a + 1) (Some e) (S t)) as (Hr & Hall & Hle & Hone & Hsl & Hbo & Hout);
          [lia | lia |].
        cbn [fst snd requestsOf sleepsOf flat_map app length].
        fold (requestsOf (snd (DailyCheckIn.claimLoop w fuel claim (a + 1) (Some e) (S t)))).
        fold (sleepsOf (snd (DailyCheckIn.claimLoop w fuel claim (a + 1) (Some e) (S t)))).
        assert (Hzero : length (requestsOf (snd (DailyCheckIn.claimLoop w fuel claim (a + 1) (Some e) (S t)))) = O) by lia.
        assert (Hnil : sleepsOf (snd (DailyCheckIn.claimLoop w fuel claim (a + 1) (Some e) (S t))) = []).
        { apply length_zero_iff_nil. lia. }
        repeat split.
        -- exact Hr.
        -- constructor; [reflexivity | exact Hall].
        -- lia.
        -- lia.
        -- lia.
        -- rewrite Hnil. exact Logic.I.
        -- destruct Hout as (ds0 & last & Hds & Hc & Hg & Hcase).
           eexists (_ :: _ :: _ :: ds0), last.
           split; [rewrite Hds; reflexivity|].
           split; [exact Hc|]. split; [exact Hg|].
           destruct Hcase as [(H1 & H2 & H3) | (H1 & H2 & H3 & H4)].
           ++ exfalso. lia.
           ++ right. repeat split; try assumption.
              ** rewrite !tally_cons; cbn [attemptLost]; rewrite ?prefix_append; lia.
              ** lia.
  - rewrite (@claimLoop_exhausted fuel a le t Hge).
    cbn [fst snd requestsOf sleepsOf flat_map app length].
    repeat split; try lia; try constructor.
    exists [].
    eexists. split; [reflexivity|].
    split; [reflexivity|]. split; [reflexivity|].
    right. repeat split; try reflexivity; [apply prefix_append | lia].
Qed.

End CheckIn.


Lemma length_toLowerCase s : String.length (Js.toLowerCase s) = String.length s.
Proof. induction s as [|c s IH]; [reflexivity | cbn; rewrite IH; reflexivity]. Qed.

Lemma geoLocaleOf_two_letters w country :
  String.length (DailyCheckIn.geoLocaleOf w country) = 2%nat.
Proof.
  unfold DailyCheckIn.geoLocaleOf.
  destruct (DailyCheckIn.useGeoLocaleQueries (DailyCheckIn.settings w)
            && (String.length match country with Some c => c | None => "us" end =? 2)%nat)%bool
    eqn:Hgeo; [|reflexivity].
  apply andb_prop in Hgeo. destruct Hgeo as [_ Hlen].
  rewrite length_toLowerCase. apply Nat.eqb_eq. exact Hlen.
Qed.

(** The run of the function is the first wait and then the loop, whose
    settlement the outer handler does not see unless it is an
    exception. *)
Lemma doDailyCheckIn_run w accessToken country t :
  fst (fst (DailyCheckIn.claimLoop w (S (Z.to_nat (DailyCheckIn.maxRetries w)))
              (DailyCheckIn.claimRequest w accessToken (DailyCheckIn.geoLocaleOf w country))
              0 None (S t))) = Ok tt ->
  settles (DailyCheckIn.doDailyCheckIn w accessToken country) t = Ok tt /\
  did (DailyCheckIn.doDailyCheckIn w accessToken country) t =
  [DailyCheckIn.Said "Starting Daily Check In" LLog;
   DailyCheckIn.Said
     ("Waiting " +++
      Js.showZ (DailyCheckIn.utilsRandomNumber w t
                  (DailyCheckIn.orDefault
                     (DailyCheckIn.dailyCheckInMinDelayMs (DailyCheckIn.settings w))
                     DailyCheckIn.DEFAULT_MIN_DELAY_MS)
                  (DailyCheckIn.orDefault
                     (DailyCheckIn.dailyCheckInMaxDelayMs (DailyCheckIn.settings w))
                     DailyCheckIn.DEFAULT_MAX_DELAY_MS))
      +++ "ms before claim (humanized)") LLog;
   DailyCheckIn.Slept
     (DailyCheckIn.utilsRandomNumber w t
        (DailyCheckIn.orDefault
           (DailyCheckIn.dailyCheckInMinDelayMs (DailyCheckIn.settings w))
           DailyCheckIn.DEFAULT_MIN_DELAY_MS)
        (DailyCheckIn.orDefault
           (DailyCheckIn.dailyCheckInMaxDelayMs (DailyCheckIn.settings w))
           DailyCheckIn.DEFAULT_MAX_DELAY_MS))]
  ++ snd (DailyCheckIn.claimLoop w (S (Z.to_nat (DailyCheckIn.maxRetries w)))
            (DailyCheckIn.claimRequest w accessToken (DailyCheckIn.geoLocaleOf w country))
            0 None (S t)).
Proof.
  intros Hloop.
  unfold settles, did, DailyCheckIn.doDailyCheckIn, DailyCheckIn.claimPoints,
    Task.andThen, Task.catching, DailyCheckIn.say,
    DailyCheckIn.randomNumber, DailyCheckIn.sleep.
  destruct (DailyCheckIn.claimLoop w (S (Z.to_nat (DailyCheckIn.maxRetries w)))
              (DailyCheckIn.claimRequest w accessToken (DailyCheckIn.geoLocaleOf w country))
              0 None (S t)) as [[r t'] ds].
  cbn [fst snd] in Hloop. subst r. split; reflexivity.
Qed.

Lemma backoffsFrom_backsOff w : forall ws k,
  withinBounds w -> 0 <= DailyCheckIn.baseBackoff w -> 0 <= k ->
  backoffsFrom w k ws -> backsOff (DailyCheckIn.baseBackoff w) k ws.
Proof.
  induction ws as [|x rest IH]; intros k Hw Hbase Hk Hws; [exact Logic.I|].
  destruct Hws as [[t Hx] Hrest].
  split; [|apply IH; [assumption | assumption | lia | assumption]].
  assert (Hpow : 0 < 2 ^ k) by (apply Z.pow_pos_nonneg; lia).
  assert (Hb : 0 <= DailyCheckIn.baseBackoff w * 2 ^ k) by nia.
  specialize (Hw t 0 (DailyCheckIn.baseBackoff w * 2 ^ k) Hb).
  replace (k + 1) with (Z.succ k) by lia.
  rewrite Z.pow_succ_r by assumption.
  lia.
Qed.

(** X19. The daily check-in never throws, whatever the server and the
    configuration: it returns after at most [maxRetries] requests (3
    when the configuration sets none), each with the bearer token, a
    two-letter country and the configured timeout (15000 by default).
    With [maxRetries] at 0 or below it sends no request at all and
    still logs the failure, with [null] for the error. *)
Theorem X19_checkin_settles_within_its_retries
        (w : DailyCheckIn.World) (accessToken : string) (country : option string) (t : nat) :
  settles (DailyCheckIn.doDailyCheckIn w accessToken country) t = Ok tt /\
  (length (requestsOf (did (DailyCheckIn.doDailyCheckIn w accessToken country) t))
   <= Z.to_nat (DailyCheckIn.maxRetries w))%nat /\
  (forall r, In r (requestsOf (did (DailyCheckIn.doDailyCheckIn w accessToken country) t)) ->
     DailyCheckIn.authorization r = "Bearer " +++ accessToken /\
     String.length (DailyCheckIn.rewardsCountry r) = 2%nat /\
     DailyCheckIn.timeout r
     = DailyCheckIn.orDefault (DailyCheckIn.axiosTimeoutMs (DailyCheckIn.settings w)) 15000) /\
  (DailyCheckIn.maxRetries w <= 0 ->
     requestsOf (did (DailyCheckIn.doDailyCheckIn w accessToken country) t) = [] /\
     In (DailyCheckIn.Said
           ("Failed to claim after " +++ Js.showZ (DailyCheckIn.maxRetries w)
            +++ " attempts: null") LError)
        (did (DailyCheckIn.doDailyCheckIn w accessToken country) t)).
Proof.
  destruct (@claimLoop_facts w
              (DailyCheckIn.claimRequest w accessToken (DailyCheckIn.geoLocaleOf w country))
              (S (Z.to_nat (DailyCheckIn.maxRetries w))) 0 None (S t))
    as (Hr & Hall & Hle & _ & _ & _ & _); [lia | rewrite Z.sub_0_r; lia |].
  rewrite Z.sub_0_r in Hle.
  destruct (doDailyCheckIn_run w accessToken country t Hr) as [Hok Hdid].
  rewrite Hdid. cbn [requestsOf flat_map app].
  fold (requestsOf (snd (DailyCheckIn.claimLoop w (S (Z.to_nat (DailyCheckIn.maxRetries w)))
            (DailyCheckIn.claimRequest w accessToken (DailyCheckIn.geoLocaleOf w country))
            0 None (S t)))).
  split; [exact Hok|]. split; [exact Hle|]. split.
  - intros r Hin. rewrite Forall_forall in Hall. rewrite <- (Hall r Hin).
    cbn [DailyCheckIn.claimRequest DailyCheckIn.authorization DailyCheckIn.rewardsCountry
         DailyCheckIn.timeout].
    repeat split. apply geoLocaleOf_two_letters.
  - intros Hzero.
    rewrite (@claimLoop_exhausted w _ (Z.to_nat (DailyCheckIn.maxRetries w)) 0 None (S t) Hzero).
    cbn [snd requestsOf flat_map app]. split; [reflexivity|].
    right. right. right. left. reflexivity.
Qed.

(** X20. Every run of the daily check-in reports one outcome, as the
    last thing it does: either the claim (Claimed n points, or Already
    claimed), after one warning for each request but the last, or the
    failure, after one warning for each of the [maxRetries] requests it
    sent.  Nothing follows the request that went through. *)
Theorem X20_checkin_reports_one_outcome
        (w : DailyCheckIn.World) (accessToken : string) (country : option string) (t : nat) :
  exists ds0 last,
    did (DailyCheckIn.doDailyCheckIn w accessToken country) t = ds0 ++ [last] /\
    tally claimed ds0 = O /\ tally gaveUp ds0 = O /\
    ((claimed last = true /\ gaveUp last = false /\
      S (tally attemptLost ds0)
      = length (requestsOf (did (DailyCheckIn.doDailyCheckIn w accessToken country) t))) \/
     (gaveUp last = true /\ claimed last = false /\
      tally attemptLost ds0
      = length (requestsOf (did (DailyCheckIn.doDailyCheckIn w accessToken country) t)) /\
      length (requestsOf (did (DailyCheckIn.doDailyCheckIn w accessToken country) t))
      = Z.to_nat (DailyCheckIn.maxRetries w))).
Proof.
  destruct (@claimLoop_facts w
              (DailyCheckIn.claimRequest w accessToken (DailyCheckIn.geoLocaleOf w country))
              (S (Z.to_nat (DailyCheckIn.maxRetries w))) 0 None (S t))
    as (Hr & _ & _ & _ & _ & _ & Hout); [lia | rewrite Z.sub_0_r; lia |].
  rewrite Z.sub_0_r in Hout.
  destruct (doDailyCheckIn_run w accessToken country t Hr) as [_ Hdid].
  rewrite Hdid. cbn [requestsOf flat_map app].
  fold (requestsOf (snd (DailyCheckIn.claimLoop w (S (Z.to_nat (DailyCheckIn.maxRetries w)))
            (DailyCheckIn.claimRequest w accessToken (DailyCheckIn.geoLocaleOf w country))
            0 None (S t)))).
  destruct Hout as (ds0 & last & Hds & Hc & Hg & Hcase).
  eexists (_ :: _ :: _ :: ds0), last.
  split; [rewrite Hds; reflexivity|].
  split; [exact Hc|]. split; [exact Hg|].
  destruct Hcase as [(H1 & H2 & H3) | (H1 & H2 & H3 & H4)].
  - left. repeat split; assumption.
  - right. repeat split; assumption.
Qed.

(** X21. Provided [randomNumber] answers within its bounds and the base
    backoff is not negative, the daily check-in waits once before the
    first request (within the configured delay bounds when they are in
    order) and then once between two requests, never after the last
    one; the wait after the request of index [k] (from 0) lies between
    [base * 2^k] and [base * 2^(k+1)]. *)
Theorem X21_checkin_backs_off_exponentially
        (w : DailyCheckIn.World) (accessToken : string) (country : option string) (t : nat) :
  withinBounds w ->
  0 <= DailyCheckIn.baseBackoff w ->
  exists initial backoffs,
    sleepsOf (did (DailyCheckIn.doDailyCheckIn w accessToken country) t) = initial :: backoffs /\
    (DailyCheckIn.orDefault (DailyCheckIn.dailyCheckInMinDelayMs (DailyCheckIn.settings w))
                            DailyCheckIn.DEFAULT_MIN_DELAY_MS
     <= DailyCheckIn.orDefault (DailyCheckIn.dailyCheckInMaxDelayMs (DailyCheckIn.settings w))
                               DailyCheckIn.DEFAULT_MAX_DELAY_MS ->
     DailyCheckIn.orDefault (DailyCheckIn.dailyCheckInMinDelayMs (DailyCheckIn.settings w))
                            DailyCheckIn.DEFAULT_MIN_DELAY_MS
     <= initial
     <= DailyCheckIn.orDefault (DailyCheckIn.dailyCheckInMaxDelayMs (DailyCheckIn.settings w))
                               DailyCheckIn.DEFAULT_MAX_DELAY_MS) /\
    length backoffs
    = (length (requestsOf (did (DailyCheckIn.doDailyCheckIn w accessToken country) t)) - 1)%nat /\
    backsOff (DailyCheckIn.baseBackoff w) 0 backoffs.
Proof.
  intros Hw Hbase.
  destruct (@claimLoop_facts w
              (DailyCheckIn.claimRequest w accessToken (DailyCheckIn.geoLocaleOf w country))
              (S (Z.to_nat (DailyCheckIn.maxRetries w))) 0 None (S t))
    as (Hr & _ & _ & _ & Hsl & Hbo & _); [lia | rewrite Z.sub_0_r; lia |].
  destruct (doDailyCheckIn_run w accessToken country t Hr) as [_ Hdid].
  rewrite Hdid. cbn [requestsOf sleepsOf flat_map app].
  fold (requestsOf (snd (DailyCheckIn.claimLoop w (S (Z.to_nat (DailyCheckIn.maxRetries w)))
            (DailyCheckIn.claimRequest w accessToken (DailyCheckIn.geoLocaleOf w country))
            0 None (S t)))).
  fold (sleepsOf (snd (DailyCheckIn.claimLoop w (S (Z.to_nat (DailyCheckIn.maxRetries w)))
            (DailyCheckIn.claimRequest w accessToken (DailyCheckIn.geoLocaleOf w country))
            0 None (S t)))).
  eexists _, _. split; [reflexivity|].
  split; [intros Hord; apply Hw; exact Hord|].
  split; [exact Hsl|].
  apply backoffsFrom_backsOff; [exact Hw | exact Hbase | lia | exact Hbo].
Qed.

Lemma X21_backoff_of_a_refusing_server :
  exists initial backoffs,
    sleepsOf (did (DailyCheckIn.doDailyCheckIn Sample.refusingWorld "token" (Some "DE")) O)
    = initial :: backoffs /\
    (DailyCheckIn.orDefault
       (DailyCheckIn.dailyCheckInMinDelayMs (DailyCheckIn.settings Sample.refusingWorld))
       DailyCheckIn.DEFAULT_MIN_DELAY_MS
     <= DailyCheckIn.orDefault
          (DailyCheckIn.dailyCheckInMaxDelayMs (DailyCheckIn.settings Sample.refusingWorld))
          DailyCheckIn.DEFAULT_MAX_DELAY_MS ->
     DailyCheckIn.orDefault
       (DailyCheckIn.dailyCheckInMinDelayMs (DailyCheckIn.settings Sample.refusingWorld))
       DailyCheckIn.DEFAULT_MIN_DELAY_MS
     <= initial
     <= DailyCheckIn.orDefault
          (DailyCheckIn.dailyCheckInMaxDelayMs (DailyCheckIn.settings Sample.refusingWorld))
          DailyCheckIn.DEFAULT_MAX_DELAY_MS) /\
    length backoffs
    = (length (requestsOf
                 (did (DailyCheckIn.doDailyCheckIn Sample.refusingWorld "token" (Some "DE")) O))
       - 1)%nat /\
    backsOff (DailyCheckIn.baseBackoff Sample.refusingWorld) 0 backoffs.
Proof.
  apply (@X21_checkin_backs_off_exponentially Sample.refusingWorld "token" (Some "DE") O).
  - intros t lo hi Hle. cbn. lia.
  - vm_compute. discriminate.
Defined.

(** ** The points of the mobile app *)

Section AppPointsFacts.

Variable w : AppPoints.World.

Lemma userDataRequestsOf_app ds1 ds2 :
  userDataRequestsOf (ds1 ++ ds2) = userDataRequestsOf ds1 ++ userDataRequestsOf ds2.
Proof. unfold userDataRequestsOf. apply flat_map_app. Qed.

(** The loop changes at most one of the two counts, whatever the list
    holds after the first offer of either kind. *)
Lemma scan_facts : forall items points t,
  exists p,
    fst (fst (AppPoints.scan w items points t)) = Ok p /\
    snd (AppPoints.scan w items points t) = [] /\
    AppPoints.totalEarnablePoints p = AppPoints.totalEarnablePoints points /\
    (AppPoints.readToEarn p = AppPoints.readToEarn points \/
     AppPoints.checkIn p = AppPoints.checkIn points).
Proof.
  induction items as [|item rest IH]; intros points t; cbn [AppPoints.scan].
  - exists points. cbn. auto.
  - destruct (AppPoints.attrIs item "type" "msnreadearn").
    { eexists. cbn. auto. }
    destruct (AppPoints.attrIs item "type" "checkin"); [|apply IH].
    destruct (AppPoints.lt _ 6).
    + unfold Task.andThen, AppPoints.today.
      destruct (AppPoints.differ _ _); eexists; cbn; auto.
    + exists points. cbn. auto.
Qed.

Lemma fetchUserData_facts req t :
  exists fetched,
    fst (fst (AppPoints.fetchUserData w req t)) = Ok fetched /\
    (userDataRequestsOf (snd (AppPoints.fetchUserData w req t)) = [req] \/
     userDataRequestsOf (snd (AppPoints.fetchUserData w req t))
     = [req; AppPoints.mkUserDataRequest (AppPoints.authorization req)
                                         (AppPoints.rewardsCountry req) true]).
Proof.
  unfold AppPoints.fetchUserData, Task.andThen, AppPoints.request, AppPoints.say, Task.pure.
  destruct (AppPoints.axiosRequest w t req) as [data | message code text].
  - eexists. cbn. auto.
  - destruct (AppPoints.isCertError message code).
    + destruct (AppPoints.axiosRequest w (S t) _) as [data | m c retryText];
        eexists; cbn; auto.
    + eexists. cbn. auto.
Qed.

Lemma countOffers_facts fetched t :
  userDataRequestsOf (snd (AppPoints.countOffers w fetched AppPoints.noPoints t)) = [] /\
  ((exists error, fst (fst (AppPoints.countOffers w fetched AppPoints.noPoints t)) = Throw error) \/
   (exists e,
      fst (fst (AppPoints.countOffers w fetched AppPoints.noPoints t)) = Ok e /\
      (AppPoints.fetchError e = true -> AppPoints.points e = AppPoints.noPoints) /\
      oneOffer (AppPoints.points e))).
Proof.
  unfold AppPoints.countOffers.
  destruct fetched as [[|[promotions|]]|].
  - split; [reflexivity|]. right. eexists. cbn. unfold oneOffer. cbn. auto.
  - destruct (AppPoints.eligibleActivities promotions) as [items|].
    + unfold Task.andThen.
      destruct (scan_facts items AppPoints.noPoints t) as (p & Hp & Hnil & Htot & Hone).
      destruct (AppPoints.scan w items AppPoints.noPoints t) as [[r t'] ds].
      cbn [fst snd] in Hp, Hnil. subst r ds.
      split; [reflexivity|]. right. eexists. cbn.
      split; [reflexivity|]. split; [discriminate|].
      unfold oneOffer. cbn. split; [|reflexivity].
      destruct Hone as [Hone | Hone]; rewrite Hone; auto.
    + split; [reflexivity|]. left. eexists. reflexivity.
  - split; [reflexivity|]. left. eexists. reflexivity.
  - split; [reflexivity|]. right. eexists. cbn. unfold oneOffer. cbn. auto.
Qed.

Lemma app_geoLocaleOf_facts country t :
  snd (AppPoints.geoLocaleOf w country t) = [] /\
  ((exists error, fst (fst (AppPoints.geoLocaleOf w country t)) = Throw error) \/
   (exists geoLocale,
      fst (fst (AppPoints.geoLocaleOf w country t)) = Ok geoLocale /\
      String.length geoLocale = 2%nat)).
Proof.
  unfold AppPoints.geoLocaleOf.
  destruct (AppPoints.useGeoLocaleQueries w).
  - destruct country as [geoLocale|].
    + split; [reflexivity|]. right. eexists. split; [reflexivity|].
      destruct (String.length geoLocale =? 2)%nat eqn:Hlen; [|reflexivity].
      rewrite length_toLowerCase. apply Nat.eqb_eq. exact Hlen.
    + split; [reflexivity|]. left. eexists. reflexivity.
  - split; [reflexivity|]. right. exists "us". split; reflexivity.
Qed.

Lemma collect_facts accessToken t :
  (userDataRequestsOf (snd (AppPoints.collect w accessToken t)) = [] \/
   exists geoLocale,
     String.length geoLocale = 2%nat /\
     (userDataRequestsOf (snd (AppPoints.collect w accessToken t))
      = [AppPoints.mkUserDataRequest ("Bearer " +++ accessToken) geoLocale false] \/
      userDataRequestsOf (snd (AppPoints.collect w accessToken t))
      = [AppPoints.mkUserDataRequest ("Bearer " +++ accessToken) geoLocale false;
         AppPoints.mkUserDataRequest ("Bearer " +++ accessToken) geoLocale true])) /\
  ((exists error, fst (fst (AppPoints.collect w accessToken t)) = Throw error) \/
   (exists e,
      fst (fst (AppPoints.collect w accessToken t)) = Ok e /\
      (AppPoints.fetchError e = true -> AppPoints.points e = AppPoints.noPoints) /\
      oneOffer (AppPoints.points e))).
Proof.
  unfold AppPoints.collect, Task.andThen, AppPoints.quietDelay, AppPoints.getDashboardData.
  destruct (AppPoints.dashboardCountry w (S t)) as [country | error]; cbn [settled].
  2: { split; [left; reflexivity | left; eexists; reflexivity]. }
  destruct (app_geoLocaleOf_facts country (S (S t))) as [Hnil [[error Hg] | (geoLocale & Hg & Hlen)]];
    destruct (AppPoints.geoLocaleOf w country (S (S t))) as [[g t1] d1];
    cbn [fst snd] in Hnil, Hg; subst g d1.
  { split; [left; reflexivity | left; eexists; reflexivity]. }
  destruct (fetchUserData_facts
              (AppPoints.mkUserDataRequest ("Bearer " +++ accessToken) geoLocale false) t1)
    as (fetched & Hf & Hreq).
  destruct (AppPoints.fetchUserData w
              (AppPoints.mkUserDataRequest ("Bearer " +++ accessToken) geoLocale false) t1)
    as [[f t2] d2].
  cbn [fst snd] in Hf, Hreq. subst f.
  destruct (countOffers_facts fetched t2) as [Hnone Hcount].
  destruct (AppPoints.countOffers w fetched AppPoints.noPoints t2) as [[r t3] d3].
  cbn [fst snd] in Hnone, Hcount |- *.
  split; [|exact Hcount].
  right. exists geoLocale. split; [exact Hlen|].
  change (userDataRequestsOf (d2 ++ d3) = [AppPoints.mkUserDataRequest ("Bearer " +++ accessToken) geoLocale false] \/
          userDataRequestsOf (d2 ++ d3) = [AppPoints.mkUserDataRequest ("Bearer " +++ accessToken) geoLocale false;
                                           AppPoints.mkUserDataRequest ("Bearer " +++ accessToken) geoLocale true]).
  rewrite userDataRequestsOf_app, Hnone, app_nil_r. exact Hreq.
Qed.

Lemma getAppEarnablePoints_facts accessToken t :
  exists e,
    settles (AppPoints.getAppEarnablePoints w accessToken) t = Ok e /\
    (AppPoints.fetchError e = true -> AppPoints.points e = AppPoints.noPoints) /\
    oneOffer (AppPoints.points e) /\
    (userDataRequestsOf (did (AppPoints.getAppEarnablePoints w accessToken) t) = [] \/
     exists geoLocale,
       String.length geoLocale = 2%nat /\
       (userDataRequestsOf (did (AppPoints.getAppEarnablePoints w accessToken) t)
        = [AppPoints.mkUserDataRequest ("Bearer " +++ accessToken) geoLocale false] \/
        userDataRequestsOf (did (AppPoints.getAppEarnablePoints w accessToken) t)
        = [AppPoints.mkUserDataRequest ("Bearer " +++ accessToken) geoLocale false;
           AppPoints.mkUserDataRequest ("Bearer " +++ accessToken) geoLocale true])).
Proof.
  destruct (collect_facts accessToken t) as [Hreq Hres].
  unfold settles, did, AppPoints.getAppEarnablePoints, Task.catching.
  destruct (AppPoints.collect w accessToken t) as [[r t1] d1].
  cbn [fst snd] in Hreq, Hres.
  destruct Hres as [[error Hr] | (e & Hr & Hzero & Hone)]; subst r.
  - exists (AppPoints.mkEarnable AppPoints.noPoints true).
    cbn [Task.andThen AppPoints.say Task.pure fst snd].
    split; [reflexivity|]. split; [reflexivity|].
    split; [unfold oneOffer; cbn; auto|].
    change (d1 ++ [AppPoints.Said ("An error occurred: " +++ error) LError] ++ [])
      with (d1 ++ [AppPoints.Said ("An error occurred: " +++ error) LError]).
    rewrite userDataRequestsOf_app. cbn [userDataRequestsOf flat_map app].
    rewrite app_nil_r. exact Hreq.
  - exists e. cbn [fst snd]. auto.
Qed.

End AppPointsFacts.

(** X22. [getAppEarnablePoints] never throws: whatever the dashboard
    and the server do, it returns its object, and an object with
    [fetchError] set carries no points.  It sends at most two requests,
    with the bearer token and a two-letter country: the second one only
    as the retry of the first, the same request with relaxed SSL. *)
Theorem X22_app_points_never_throw
        (w : AppPoints.World) (accessToken : string) (t : nat) :
  exists e,
    settles (AppPoints.getAppEarnablePoints w accessToken) t = Ok e /\
    (AppPoints.fetchError e = true -> AppPoints.points e = AppPoints.noPoints) /\
    (userDataRequestsOf (did (AppPoints.getAppEarnablePoints w accessToken) t) = [] \/
     exists geoLocale,
       String.length geoLocale = 2%nat /\
       (userDataRequestsOf (did (AppPoints.getAppEarnablePoints w accessToken) t)
        = [AppPoints.mkUserDataRequest ("Bearer " +++ accessToken) geoLocale false] \/
        userDataRequestsOf (did (AppPoints.getAppEarnablePoints w accessToken) t)
        = [AppPoints.mkUserDataRequest ("Bearer " +++ accessToken) geoLocale false;
           AppPoints.mkUserDataRequest ("Bearer " +++ accessToken) geoLocale true])).
Proof.
  destruct (getAppEarnablePoints_facts w accessToken t) as (e & He & Hzero & _ & Hreq).
  exists e. auto.
Qed.

(** X23. The points [getAppEarnablePoints] returns count one kind of
    offer at most: the loop stops at the first read-to-earn or check-in
    offer of the response, so either [readToEarn] or [checkIn] is left
    at 0 even when the response holds both offers;
    [totalEarnablePoints] is their sum. *)
Theorem X23_app_points_count_one_offer
        (w : AppPoints.World) (accessToken : string) (t : nat) :
  exists e,
    settles (AppPoints.getAppEarnablePoints w accessToken) t = Ok e /\
    (AppPoints.readToEarn (AppPoints.points e) = AppPoints.Int 0 \/
     AppPoints.checkIn (AppPoints.points e) = AppPoints.Int 0) /\
    AppPoints.totalEarnablePoints (AppPoints.points e)
    = AppPoints.add (AppPoints.readToEarn (AppPoints.points e))
                    (AppPoints.checkIn (AppPoints.points e)).
Proof.
  destruct (getAppEarnablePoints_facts w accessToken t) as (e & He & _ & [Hone Hsum] & _).
  exists e. auto.
Qed.

(** ** The runs of one account *)

Section BotSessions.

Variable w : Bot.World.
Hypothesis obey : browsersObey w.

Lemma sessionsOf_app ds1 ds2 : sessionsOf (ds1 ++ ds2) = sessionsOf ds1 ++ sessionsOf ds2.
Proof. unfold sessionsOf. apply flat_map_app. Qed.

Lemma sessions_bind {A B} (m : Bot.Run A) (f : A -> Bot.Run B)
      (P : A -> list Bot.Call -> Prop) (T : list Bot.Call -> Prop)
      (Q : B -> list Bot.Call -> Prop) (U : list Bot.Call -> Prop) :
  sessions m P T ->
  (forall l, T l -> U l) ->
  (forall a l1, P a l1 -> sessions (f a) (fun b l2 => Q b (l1 ++ l2)) (fun l2 => U (l1 ++ l2))) ->
  sessions (Task.andThen m f) Q U.
Proof.
  intros Hm HT Hf t. unfold settles, did, Task.andThen.
  specialize (Hm t). unfold settles, did in Hm.
  destruct (m t) as [[r t1] d1]. cbn [fst snd] in Hm.
  destruct r as [a | e |]; cbn [fst snd].
  - specialize (Hf a _ Hm t1). unfold settles, did in Hf.
    destruct (f a t1) as [[r2 t2] d2]. cbn [fst snd] in Hf |- *.
    rewrite sessionsOf_app. exact Hf.
  - apply HT. exact Hm.
  - exact Logic.I.
Qed.

Lemma sessions_return {A} (a : A) (Q : A -> list Bot.Call -> Prop) U :
  Q a [] -> sessions (Task.pure a) Q U.
Proof. intros HQ t. exact HQ. Qed.

(** A call that is not on a browser: nothing whether it resolves or
    rejects. *)
Lemma sessions_call {A} c (value : nat -> A) :
  c <> Bot.CreateBrowser -> c <> Bot.CloseBrowser ->
  sessions (Bot.call w c value) (fun _ l => l = []) (fun l => l = []).
Proof.
  intros H1 H2 t. unfold settles, did, Bot.call. cbn [fst snd].
  destruct (Bot.rejects w t c); destruct c; try reflexivity; congruence.
Qed.

(** A call on a browser: it resolves. *)
Lemma sessions_create :
  sessions (Bot.await w Bot.CreateBrowser) (fun _ l => l = [Bot.CreateBrowser]) (fun _ => False).
Proof.
  intros t. unfold settles, did, Bot.await, Bot.call. cbn [fst snd].
  rewrite (proj1 (obey t)). reflexivity.
Qed.

Lemma sessions_close :
  sessions (Bot.await w Bot.CloseBrowser) (fun _ l => l = [Bot.CloseBrowser]) (fun _ => False).
Proof.
  intros t. unfold settles, did, Bot.await, Bot.call. cbn [fst snd].
  rewrite (proj2 (obey t)). reflexivity.
Qed.

Lemma sessions_await c :
  c <> Bot.CreateBrowser -> c <> Bot.CloseBrowser ->
  sessions (Bot.await w c) (fun _ l => l = []) (fun l => l = []).
Proof. apply sessions_call. Qed.

Lemma sessions_say tag msg lvl :
  sessions (Bot.say tag msg lvl) (fun _ l => l = []) (fun l => l = []).
Proof. intros t. reflexivity. Qed.

Lemma sessions_readDoLater :
  sessions (Bot.readDoLater w) (fun _ l => l = []) (fun l => l = []).
Proof. intros t. reflexivity. Qed.

Lemma sessions_whenSet b c :
  c <> Bot.CreateBrowser -> c <> Bot.CloseBrowser ->
  sessions (Bot.whenSet b (Bot.await w c)) (fun _ l => l = []) (fun l => l = []).
Proof.
  intros H1 H2. destruct b; cbn [Bot.whenSet].
  - apply sessions_await; assumption.
  - intros t. reflexivity.
Qed.

(** A step that is not on a browser, then the rest. *)
Lemma sessions_quiet {A B} (m : Bot.Run A) (f : A -> Bot.Run B)
      (Q : B -> list Bot.Call -> Prop) (U : list Bot.Call -> Prop) :
  sessions m (fun _ l => l = []) (fun l => l = []) ->
  U [] ->
  (forall a, sessions (f a) Q U) ->
  sessions (Task.andThen m f) Q U.
Proof.
  intros Hm HU Hf. eapply sessions_bind; [exact Hm | intros l ->; exact HU |].
  cbn beta. intros a l ->. apply Hf.
Qed.

(** A step on a browser, then the rest. *)
Lemma sessions_browser {A B} (m : Bot.Run A) (f : A -> Bot.Run B) c
      (Q : B -> list Bot.Call -> Prop) (U : list Bot.Call -> Prop) :
  sessions m (fun _ l => l = [c]) (fun _ => False) ->
  (forall a, sessions (f a) (fun b l2 => Q b (c :: l2)) (fun l2 => U (c :: l2))) ->
  sessions (Task.andThen m f) Q U.
Proof.
  intros Hm Hf. eapply sessions_bind; [exact Hm | intros l [] |].
  cbn beta. intros a l ->. apply Hf.
Qed.

Ltac session_leaf :=
  first [ apply sessions_await; discriminate
        | apply sessions_call; discriminate
        | apply sessions_say
        | apply sessions_readDoLater
        | apply sessions_whenSet; discriminate ].

Ltac session_walk :=
  repeat first
    [ apply sessions_return
    | eapply sessions_browser; [first [apply sessions_create | apply sessions_close] | intro ]
    | eapply sessions_quiet; [session_leaf | | intro ]
    | match goal with
      | |- sessions (if ?b then _ else _) _ _ => destruct b
      end ].

Lemma Desktop_sessions email fields :
  sessions (Bot.Desktop w email fields)
           (fun _ l => l = [Bot.CreateBrowser; Bot.CloseBrowser])
           (fun l => l = [Bot.CreateBrowser]).
Proof.
  unfold Bot.Desktop. session_walk; reflexivity.
Qed.

Lemma mobileSearches_sessions (again : Bot.Fields -> Bot.Run Bot.Fields) data fields :
  (forall f, sessions (again f)
                      (fun _ l => exists k, l = openedAndClosed (S k))
                      (fun l => exists k, l = openedAndClosed k ++ [Bot.CreateBrowser])) ->
  sessions (Bot.mobileSearches w again data fields)
           (fun ending l =>
              match ending with
              | Bot.Returned _ => exists k, l = Bot.CloseBrowser :: openedAndClosed (S k)
              | Bot.Onward _ => l = []
              end)
           (fun l => l = [] \/
                     exists k, l = Bot.CloseBrowser :: openedAndClosed k ++ [Bot.CreateBrowser]).
Proof.
  intros Hagain. unfold Bot.mobileSearches.
  session_walk; try reflexivity; try (left; reflexivity).
  eapply sessions_bind; [apply Hagain | |].
  - intros l [k ->]. right. exists k. reflexivity.
  - cbn beta. intros f l [k ->].
    apply sessions_return. exists k. rewrite app_nil_r. reflexivity.
Qed.

Lemma Mobile_sessions email : forall fuel fields,
  sessions (Bot.Mobile w fuel email fields)
           (fun _ l => exists k, l = openedAndClosed (S k))
           (fun l => exists k, l = openedAndClosed k ++ [Bot.CreateBrowser]).
Proof.
  induction fuel as [|fuel IH]; intros fields.
  - intros t. exact Logic.I.
  - cbn [Bot.Mobile].
    session_walk; try (exists O; reflexivity).
    eapply sessions_bind; [apply mobileSearches_sessions; exact IH | |].
    + intros l [-> | [k ->]]; [exists O; reflexivity | exists (S k); reflexivity].
    + cbn beta. intros [f | f] l Hl.
      * destruct Hl as [k ->]. apply sessions_return. exists (S k).
        rewrite app_nil_r. reflexivity.
      * subst l. session_walk; exists O; reflexivity.
Qed.

End BotSessions.


(** X24. Provided creating and closing a browser never fail: a run of
    [Desktop] that returns has created one browser and closed it, and
    a run of [Mobile] that returns has closed every browser it created,
    each before it created the next; but a run that throws (any other
    call rejecting) leaves its last browser open: neither function
    closes the browser on the way out of a failure. *)
Theorem X24_browsers_closed_only_without_failure
        (w : Bot.World) (fuel : nat) (email : string) (fields : Bot.Fields) (t : nat) :
  browsersObey w ->
  (forall f, settles (Bot.Desktop w email fields) t = Ok f ->
     sessionsOf (did (Bot.Desktop w email fields) t) = [Bot.CreateBrowser; Bot.CloseBrowser]) /\
  (forall e, settles (Bot.Desktop w email fields) t = Throw e ->
     sessionsOf (did (Bot.Desktop w email fields) t) = [Bot.CreateBrowser]) /\
  (forall f, settles (Bot.Mobile w fuel email fields) t = Ok f ->
     exists k, sessionsOf (did (Bot.Mobile w fuel email fields) t) = openedAndClosed (S k)) /\
  (forall e, settles (Bot.Mobile w fuel email fields) t = Throw e ->
     exists k, sessionsOf (did (Bot.Mobile w fuel email fields) t)
               = openedAndClosed k ++ [Bot.CreateBrowser]).
Proof.
  intros Hobey.
  pose proof (@Desktop_sessions w Hobey email fields t) as HD.
  pose proof (@Mobile_sessions w Hobey email fuel fields t) as HM.
  repeat split.
  - intros f Hr. rewrite Hr in HD. exact HD.
  - intros e Hr. rewrite Hr in HD. exact HD.
  - intros f Hr. rewrite Hr in HM. exact HM.
  - intros e Hr. rewrite Hr in HM. exact HM.
Qed.

Lemma X24_browsers_of_a_steady_bot :
  (forall f, settles (Bot.Desktop (Sample.steadyBot Sample.searchesStuck) "a@b.c"
                                  (Bot.mkFields 0 0)) O = Ok f ->
     sessionsOf (did (Bot.Desktop (Sample.steadyBot Sample.searchesStuck) "a@b.c"
                                  (Bot.mkFields 0 0)) O)
     = [Bot.CreateBrowser; Bot.CloseBrowser]) /\
  (forall e, settles (Bot.Desktop (Sample.steadyBot Sample.searchesStuck) "a@b.c"
                                  (Bot.mkFields 0 0)) O = Throw e ->
     sessionsOf (did (Bot.Desktop (Sample.steadyBot Sample.searchesStuck) "a@b.c"
                                  (Bot.mkFields 0 0)) O)
     = [Bot.CreateBrowser]) /\
  (forall f, settles (Bot.Mobile (Sample.steadyBot Sample.searchesStuck) 5 "a@b.c"
                                 (Bot.mkFields 0 0)) O = Ok f ->
     exists k, sessionsOf (did (Bot.Mobile (Sample.steadyBot Sample.searchesStuck) 5 "a@b.c"
                                           (Bot.mkFields 0 0)) O)
               = openedAndClosed (S k)) /\
  (forall e, settles (Bot.Mobile (Sample.steadyBot Sample.searchesStuck) 5 "a@b.c"
                                 (Bot.mkFields 0 0)) O = Throw e ->
     exists k, sessionsOf (did (Bot.Mobile (Sample.steadyBot Sample.searchesStuck) 5 "a@b.c"
                                           (Bot.mkFields 0 0)) O)
               = openedAndClosed k ++ [Bot.CreateBrowser]).
Proof.
  apply (@X24_browsers_closed_only_without_failure
           (Sample.steadyBot Sample.searchesStuck) 5 "a@b.c" (Bot.mkFields 0 0) O).
  intros t. split; reflexivity.
Defined.


(** ** The retries of the mobile searches *)

Section BotRetries.

Variable w : Bot.World.

Lemma passesOf_app ds1 ds2 : passesOf (ds1 ++ ds2) = (passesOf ds1 + passesOf ds2)%nat.
Proof. unfold passesOf. rewrite filter_app, length_app. reflexivity. Qed.

Lemma spec_weaken {A} (m : Bot.Run A) (P Q : Res A -> list Bot.Did -> Prop) :
  spec m P -> (forall r d, P r d -> Q r d) -> spec m Q.
Proof. intros Hm HPQ t. apply HPQ. apply Hm. Qed.

Lemma spec_pure {A} (a : A) (Q : Res A -> list Bot.Did -> Prop) :
  Q (Ok a) [] -> spec (Task.pure a) Q.
Proof. intros HQ t. exact HQ. Qed.

(** A step that does [ds] and may reject, then the rest. *)
Lemma spec_step {A B} (m : Bot.Run A) (f : A -> Bot.Run B) (ds : list Bot.Did)
      (V : A -> Prop) (Q : Res B -> list Bot.Did -> Prop) :
  spec m (fun r d => d = ds /\ r <> OutOfFuel /\ forall a, r = Ok a -> V a) ->
  (forall e, Q (Throw e) ds) ->
  (forall a, V a -> spec (f a) (fun r d2 => Q r (ds ++ d2))) ->
  spec (Task.andThen m f) Q.
Proof.
  intros Hm HT Hf t. unfold settles, did, Task.andThen.
  specialize (Hm t). unfold settles, did in Hm.
  destruct (m t) as [[r t1] d1]. cbn [fst snd] in Hm.
  destruct Hm as (-> & Hfuel & HV).
  destruct r as [a | e |]; cbn [fst snd].
  - specialize (Hf a (HV a eq_refl) t1). unfold settles, did in Hf.
    destruct (f a t1) as [[r2 t2] d2]. exact Hf.
  - apply HT.
  - congruence.
Qed.

Lemma step_call {A} c (value : nat -> A) :
  spec (Bot.call w c value)
       (fun r d => d = [Bot.Called c] /\ r <> OutOfFuel /\
                   forall a, r = Ok a -> exists t, a = value t).
Proof.
  intros t. unfold settles, did, Bot.call. cbn [fst snd].
  split; [reflexivity|].
  destruct (Bot.rejects w t c); split; try discriminate.
  intros a Ha. inversion Ha. exists t. reflexivity.
Qed.

Lemma step_await c :
  spec (Bot.await w c)
       (fun r d => d = [Bot.Called c] /\ r <> OutOfFuel /\ forall a, r = Ok a -> True).
Proof.
  eapply spec_weaken; [apply step_call|].
  intros r d (Hd & Hr & _). auto.
Qed.

Lemma step_say tag msg lvl :
  spec (Bot.say tag msg lvl)
       (fun r d => d = [Bot.Said tag msg lvl] /\ r <> OutOfFuel /\ forall a, r = Ok a -> True).
Proof. intros t. cbn. repeat split. discriminate. Qed.

Lemma step_readDoLater :
  spec (Bot.readDoLater w)
       (fun r d => d = [] /\ r <> OutOfFuel /\ forall a, r = Ok a -> exists t, a = Bot.doLater w t).
Proof.
  intros t. cbn. repeat split; [discriminate|].
  intros a Ha. inversion Ha. exists t. reflexivity.
Qed.

Lemma passesOf_cons d ds :
  passesOf (d :: ds) = ((if isPass d then 1 else 0) + passesOf ds)%nat.
Proof. unfold passesOf. cbn [filter]. destruct (isPass d); reflexivity. Qed.

Lemma spec_bind {A B} (m : Bot.Run A) (f : A -> Bot.Run B)
      (P : Res A -> list Bot.Did -> Prop) (Q : Res B -> list Bot.Did -> Prop) :
  spec m P ->
  (forall e d, P (Throw e) d -> Q (Throw e) d) ->
  (forall d, P OutOfFuel d -> Q OutOfFuel d) ->
  (forall a d1, P (Ok a) d1 -> spec (f a) (fun r d2 => Q r (d1 ++ d2))) ->
  spec (Task.andThen m f) Q.
Proof.
  intros Hm HT HF Hf t. unfold settles, did, Task.andThen.
  specialize (Hm t). unfold settles, did in Hm.
  destruct (m t) as [[r t1] d1]. cbn [fst snd] in Hm.
  destruct r as [a | e |]; cbn [fst snd].
  - specialize (Hf a d1 Hm t1). unfold settles, did in Hf.
    destruct (f a t1) as [[r2 t2] d2]. exact Hf.
  - apply HT. exact Hm.
  - apply HF. exact Hm.
Qed.

Lemma step_pure {A} (a : A) :
  spec (Task.pure (E := Bot.Did) a)
       (fun r d => d = [] /\ r <> OutOfFuel /\ forall b, r = Ok b -> b = a).
Proof.
  intros t. cbn. repeat split; [discriminate|].
  intros b Hb. inversion Hb. reflexivity.
Qed.

Ltac count_passes :=
  repeat first [rewrite passesOf_cons | rewrite passesOf_app];
  cbn [isPass]; change (passesOf []) with O; try lia.

Ltac retry_leaf :=
  first [ apply step_await | apply step_say | apply step_readDoLater
        | apply step_call | apply step_pure ].

(** One step of a run of which the passes are to be bounded. *)
Ltac bounded_step :=
  first
    [ apply spec_pure; split; [discriminate | count_passes]
    | match goal with
      | |- spec (Task.andThen (Bot.whenSet ?b _) _) _ => destruct b; cbn [Bot.whenSet]
      | |- spec (if ?b then _ else _) _ => destruct b eqn:?
      end
    | eapply spec_step;
      [ retry_leaf
      | intros ?; split; [discriminate | count_passes]
      | intros ? ?; cbn [app] ] ].

Section Bounded.

Hypothesis fail : searchesFail w.

Lemma mobileSearches_bounded (again : Bot.Fields -> Bot.Run Bot.Fields) data fields n :
  (forall f,
     Bot.mobileRetryAttempts f = Bot.mobileRetryAttempts fields + 1 ->
     Bot.mobileRetryAttempts f <= Bot.retryMobileSearchAmount w ->
     spec (again f) (fun r d => r <> OutOfFuel /\ (passesOf d <= n)%nat)) ->
  spec (Bot.mobileSearches w again data fields)
       (fun r d => r <> OutOfFuel /\ (passesOf d <= n)%nat).
Proof.
  intros Hagain. unfold Bot.mobileSearches.
  destruct (Bot.doMobileSearch w);
    [|apply spec_pure; split; [discriminate | count_passes]].
  destruct (Bot.hasMobileSearch data).
  2: { bounded_step. apply spec_pure. split; [discriminate | count_passes]. }
  do 3 bounded_step.
  eapply spec_step; [apply step_call | intros ?; split; [discriminate | count_passes] |].
  intros counter [t Hcounter]. cbn [app].
  rewrite Hcounter, (fail t).
  cbn [Bot.mobileRetryAttempts Bot.pointsInitial].
  destruct (Bot.mobileRetryAttempts fields + 1 >? Bot.retryMobileSearchAmount w) eqn:Hmax.
  { bounded_step. apply spec_pure. split; [discriminate | count_passes]. }
  destruct (negb (Bot.mobileRetryAttempts fields + 1 =? 0)).
  2: { apply spec_pure. split; [discriminate | count_passes]. }
  do 2 bounded_step.
  eapply spec_bind.
  - apply Hagain; cbn [Bot.mobileRetryAttempts]; [reflexivity|].
    rewrite Z.gtb_ltb in Hmax. apply Z.ltb_ge in Hmax. exact Hmax.
  - intros e d [_ Hd]. split; [discriminate | count_passes].
  - intros d [Hd _]. congruence.
  - intros f d1 [_ Hd]. apply spec_pure. split; [discriminate | count_passes].
Qed.

Lemma Mobile_bounded email : forall fuel fields,
  (Z.to_nat (Bot.retryMobileSearchAmount w - Bot.mobileRetryAttempts fields) < fuel)%nat ->
  spec (Bot.Mobile w fuel email fields)
       (fun r d => r <> OutOfFuel /\
                   (passesOf d
                    <= S (Z.to_nat (Bot.retryMobileSearchAmount w
                                    - Bot.mobileRetryAttempts fields)))%nat).
Proof.
  induction fuel as [|fuel IH]; intros fields Hfuel; [lia|].
  cbn [Bot.Mobile].
  repeat bounded_step.
  all: eapply spec_bind;
    [ apply (@mobileSearches_bounded _ _ _
               (Z.to_nat (Bot.retryMobileSearchAmount w - Bot.mobileRetryAttempts fields)));
      intros f Hf Hle;
      eapply spec_weaken; [apply IH; lia | intros r d [Hr Hd]; split; [exact Hr | lia]]
    | intros e d [_ Hd]; split; [discriminate | count_passes]
    | intros d [Hd _]; congruence
    | intros [f | f] d1 [_ Hd];
      [ apply spec_pure; split; [discriminate | count_passes]
      | repeat bounded_step ] ].
Qed.

End Bounded.

(** A step that does [ds] and resolves, then the rest. *)
Lemma spec_step_ok {A B} (m : Bot.Run A) (f : A -> Bot.Run B) (ds : list Bot.Did)
      (V : A -> Prop) (Q : Res B -> list Bot.Did -> Prop) :
  spec m (fun r d => d = ds /\ exists a, r = Ok a /\ V a) ->
  (forall a, V a -> spec (f a) (fun r d2 => Q r (ds ++ d2))) ->
  spec (Task.andThen m f) Q.
Proof.
  intros Hm Hf t. unfold settles, did, Task.andThen.
  specialize (Hm t). unfold settles, did in Hm.
  destruct (m t) as [[r t1] d1]. cbn [fst snd] in Hm.
  destruct Hm as (-> & a & -> & HV). cbn [fst snd].
  specialize (Hf a HV t1). unfold settles, did in Hf.
  destruct (f a t1) as [[r2 t2] d2]. exact Hf.
Qed.

Section Diverging.

Hypothesis resolve : allResolve w.
Hypothesis login : loggedIn w.
Hypothesis complete : searchesComplete w.
Hypothesis onZero : Bot.runOnZeroPoints w = true.
Hypothesis search : Bot.doMobileSearch w = true.

Lemma ok_call {A} c (value : nat -> A) :
  spec (Bot.call w c value)
       (fun r d => d = [Bot.Called c] /\ exists a, r = Ok a /\ exists t, a = value t).
Proof.
  intros t. unfold settles, did, Bot.call. cbn [fst snd]. rewrite resolve.
  split; [reflexivity|]. eexists. split; [reflexivity|]. exists t. reflexivity.
Qed.

Lemma ok_await c :
  spec (Bot.await w c) (fun r d => d = [Bot.Called c] /\ exists a, r = Ok a /\ True).
Proof.
  intros t. unfold settles, did, Bot.await, Bot.call. cbn [fst snd]. rewrite resolve.
  split; [reflexivity|]. exists tt. split; [reflexivity | exact Logic.I].
Qed.

Lemma ok_say tag msg lvl :
  spec (Bot.say tag msg lvl)
       (fun r d => d = [Bot.Said tag msg lvl] /\ exists a, r = Ok a /\ True).
Proof. intros t. split; [reflexivity|]. exists tt. split; [reflexivity | exact Logic.I]. Qed.

Lemma ok_readDoLater :
  spec (Bot.readDoLater w) (fun r d => d = [] /\ exists a, r = Ok a /\ a = false).
Proof.
  intros t. unfold settles, did, Bot.readDoLater. cbn [fst snd].
  split; [reflexivity|]. eexists. split; [reflexivity | apply login].
Qed.

Lemma step_pure_ok {A} (a : A) :
  spec (Task.pure (E := Bot.Did) a) (fun r d => d = [] /\ exists b, r = Ok b /\ b = a).
Proof. intros t. split; [reflexivity|]. exists a. split; reflexivity. Qed.

Ltac diverge_step :=
  first
    [ match goal with
      | |- spec (Task.andThen (Bot.whenSet ?b _) _) _ => destruct b; cbn [Bot.whenSet]
      end
    | eapply spec_step_ok;
      [ first [ apply ok_await | apply ok_say | apply ok_readDoLater
              | apply ok_call | apply step_pure_ok ]
      | intros ? ?; cbn beta in *; cbn [app] ] ].

Lemma mobileSearches_diverges (again : Bot.Fields -> Bot.Run Bot.Fields) data fields n :
  Bot.hasMobileSearch data = true ->
  1 <= Bot.mobileRetryAttempts fields <= Bot.retryMobileSearchAmount w ->
  spec (again fields) (fun r d => r = OutOfFuel /\ passesOf d = n) ->
  spec (Bot.mobileSearches w again data fields)
       (fun r d => r = OutOfFuel /\ passesOf d = n).
Proof.
  intros Hdata Hattempts Hagain. unfold Bot.mobileSearches.
  rewrite search, Hdata.
  do 3 diverge_step.
  eapply spec_step_ok; [apply ok_call|].
  intros counter [t Hcounter]. cbn [app].
  rewrite Hcounter, (proj2 (complete t)).
  assert (Hmax : (Bot.mobileRetryAttempts fields >? Bot.retryMobileSearchAmount w) = false)
    by (rewrite Z.gtb_ltb; apply Z.ltb_ge; lia).
  assert (Hzero : (Bot.mobileRetryAttempts fields =? 0) = false)
    by (apply Z.eqb_neq; lia).
  rewrite Hmax, Hzero. cbn [negb].
  do 2 diverge_step.
  eapply spec_bind; [exact Hagain | | |].
  - intros e d [He _]. discriminate.
  - intros d [_ Hd]. split; [reflexivity | count_passes].
  - intros f d [Hf _]. discriminate.
Qed.

Lemma Mobile_diverges email : forall fuel fields,
  1 <= Bot.mobileRetryAttempts fields <= Bot.retryMobileSearchAmount w ->
  spec (Bot.Mobile w fuel email fields)
       (fun r d => r = OutOfFuel /\ passesOf d = fuel).
Proof.
  induction fuel as [|fuel IH]; intros fields Hattempts.
  - intros t. split; reflexivity.
  - cbn [Bot.Mobile].
    do 5 diverge_step. subst.
    do 3 diverge_step.
    match goal with H : exists t, _ = Bot.dashboardData w t |- _ => destruct H as [t0 Hdata] end.
    do 3 diverge_step.
    rewrite onZero. cbn [negb andb].
    repeat diverge_step.
    all: eapply spec_bind;
      [ apply (@mobileSearches_diverges _ _ _ fuel);
        [ rewrite Hdata; apply (proj1 (complete t0)) | exact Hattempts | apply IH; exact Hattempts ]
      | intros e d [He _]; discriminate
      | intros d [_ Hd]; split; [reflexivity | count_passes]
      | intros f d [Hf _]; discriminate ].
Qed.

End Diverging.

End BotRetries.


(** X25. When every check after a pass finds search points left,
    [Mobile] ends, by returning or by throwing, after at most
    [retryMobileSearchAmount - mobileRetryAttempts + 1] passes (one
    browser each): a depth of calls above the number of retries left is
    enough for it to end. *)
Theorem X25_mobile_gives_up_after_the_retries
        (w : Bot.World) (fuel : nat) (email : string) (fields : Bot.Fields) (t : nat) :
  searchesFail w ->
  (Z.to_nat (Bot.retryMobileSearchAmount w - Bot.mobileRetryAttempts fields) < fuel)%nat ->
  settles (Bot.Mobile w fuel email fields) t <> OutOfFuel /\
  (passesOf (did (Bot.Mobile w fuel email fields) t)
   <= S (Z.to_nat (Bot.retryMobileSearchAmount w - Bot.mobileRetryAttempts fields)))%nat.
Proof.
  intros Hfail Hfuel.
  exact (@Mobile_bounded w Hfail email fuel fields Hfuel t).
Qed.

Lemma X25_four_passes_at_most :
  settles (Bot.Mobile (Sample.steadyBot Sample.searchesStuck) 5 "a@b.c" (Bot.mkFields 0 0)) O
  <> OutOfFuel /\
  (passesOf (did (Bot.Mobile (Sample.steadyBot Sample.searchesStuck) 5 "a@b.c"
                             (Bot.mkFields 0 0)) O)
   <= S (Z.to_nat (Bot.retryMobileSearchAmount (Sample.steadyBot Sample.searchesStuck)
                   - Bot.mobileRetryAttempts (Bot.mkFields 0 0))))%nat.
Proof.
  apply (@X25_mobile_gives_up_after_the_retries
           (Sample.steadyBot Sample.searchesStuck) 5 "a@b.c" (Bot.mkFields 0 0) O).
  - intros t. reflexivity.
  - vm_compute. lia.
Defined.

(** X26. The decision of [Mobile] to retry reads the counter of the
    passes that failed, which no pass resets.  Once that counter is
    between 1 and [retryMobileSearchAmount], a pass that finds the
    searches complete still closes the browser and calls [Mobile]
    again: when the login and every call succeed, [runOnZeroPoints] is
    set and the searches stay complete, no depth of calls is enough.
    [Mobile] never returns, and creates a browser at each level. *)
Theorem X26_mobile_restarts_while_searches_are_complete
        (w : Bot.World) (fuel : nat) (email : string) (fields : Bot.Fields) (t : nat) :
  allResolve w ->
  loggedIn w ->
  searchesComplete w ->
  Bot.runOnZeroPoints w = true ->
  Bot.doMobileSearch w = true ->
  1 <= Bot.mobileRetryAttempts fields <= Bot.retryMobileSearchAmount w ->
  settles (Bot.Mobile w fuel email fields) t = OutOfFuel /\
  passesOf (did (Bot.Mobile w fuel email fields) t) = fuel.
Proof.
  intros Hresolve Hlogin Hcomplete HonZero Hsearch Hattempts.
  exact (@Mobile_diverges w Hresolve Hlogin Hcomplete HonZero Hsearch email fuel fields
                          Hattempts t).
Qed.

Lemma X26_seven_levels_are_not_enough :
  settles (Bot.Mobile (Sample.steadyBot Sample.searchesDone) 7 "a@b.c" (Bot.mkFields 100 1)) O
  = OutOfFuel /\
  passesOf (did (Bot.Mobile (Sample.steadyBot Sample.searchesDone) 7 "a@b.c"
                            (Bot.mkFields 100 1)) O) = 7%nat.
Proof.
  apply (@X26_mobile_restarts_while_searches_are_complete
           (Sample.steadyBot Sample.searchesDone) 7 "a@b.c" (Bot.mkFields 100 1) O).
  - intros t c. reflexivity.
  - intros t. reflexivity.
  - intros t. split; reflexivity.
  - reflexivity.
  - reflexivity.
  - vm_compute. split; discriminate.
Defined.
